(* ===== verification/_CoqProject ===== *)
-Q . S2P
Prelude.v
GoTime.v
GoContext.v
Sha256.v
Types.v
Ids.v
Job.v
Metrics.v
Pool.v
Ticker.v
CronTicker.v
ISO8601Ticker.v
OnceTicker.v
Storage.v
Badger.v
StorageSpec.v
BadgerCorrect.v
MemBadger.v
GoFloat.v
Effects.v
Executor.v
ExecutorTotal.v
ExecutorExamples.v
Logged.v
OccStore.v
TaskStore.v
ExecutorStore.v
Recovery.v
BootRecovery.v
RecoveryExamples.v
ExecutionExamples.v
Update.v
UpdateExamples.v
Scheduler.v
Dispatch.v
SchedulerCorrect.v
Node.v
SchedulerExamples.v
