(* ===== verification/Prelude.v ===== *)
(** * Jobistemer: a verification library for the scheduling system

    The program (a Go module, paths below are under src/) runs recurring jobs.
    A job has a schedule and tasks; each scheduled time of it is an occurrence,
    an occurrence runs the tasks, a task makes attempts.  Several processes may
    share one database; they never talk to each other.

    ** Parts, and the file that models each

    - types.go: [Types].  Statuses and policies stay strings, as in Go.
    - id/id.go: [Ids] (identifiers as name-based UUIDs of the names along the
      chain job, occurrence, task run, attempt) and [Sha256] ([HashString]).
    - job.go: [Job].  A task's function is any function of its context, the
      identifiers it is told and the clock, giving an error or none and the
      time it takes.
    - metrics/metrics.go: [Metrics], the collector interface as a class, with
      the no-op and the in-memory collector as instances.
    - concurrency/pool.go: [Pool], a machine of workers, clients and one Stop.
    - ticker/ticker.go: [Ticker], the interface as classes ([Ticker] for the
      synchronous part, [TickerLoop] for the goroutine) and the machine that
      the three loops share; ticker/cron.go, iso8601.go, once.go:
      [CronTicker], [ISO8601Ticker], [OnceTicker], instances of both.
    - storage/storage.go: [Storage], the records, their documents, and the
      interface as a class; storage/badger/badger.go: [Badger], the instance,
      every method over a parameter for the database engine.
    - executor/executor.go: [Executor], over [Effects].
    - recovery/recovery.go and reaper.go: [Recovery].
    - update/update.go: [Update].
    - scheduler/scheduler.go: [Scheduler].

    [Prelude], [GoTime], [GoContext] and [GoFloat] are Go: errors and panics
    as results, the time and context packages, float64 where the backoff needs
    it.  [Effects] gives methods that use the storage, the metrics, the clock
    or user code as programs: trees of effects, which [run] executes alone and
    which other files interleave effect by effect.  Methods without effects are
    functions; goroutines are machines with one action for each lock section or
    case of a select, and schedules of actions are explicit lists.

    ** How they interact

    [Scheduler] calls tickers, pool and reaper through the machines above, the
    storage through its class, and recovery and updates as programs.  What it
    hands to the pool is a parameter, [submit], of the scheduler and of the
    recovery handler: [Logged] instantiates it by a log of submissions.
    [BootRecovery] runs the recovery handler so that each submission is
    executed at once, in either mode, which is what a pool that is not started
    does; [ExecutorTotal] says when executions end.  [Dispatch] puts the programs of several nodes over one
    database.  [Node] puts everything that happens in one process around its
    scheduler: calls, watchers, ticker loops, workers, reaper, clock.

    ** Abstract specifications

    [StorageSpec] is what a storage promises: a finite map from slots to
    records, with [repr] for the contents that represent it.  [BadgerCorrect]
    proves that the methods of [Badger] refine it, for any engine with the laws
    [BadgerLaws]; [MemBadger] is such an engine.  All theorems about records
    (files [OccStore], [TaskStore], [ExecutorStore], [Recovery], [Update],
    [SchedulerCorrect], [Dispatch]) are stated against the slots.
    [TickerLoopLaws] is what a loop promises, proved for the three tickers.

    ** What the theorems show

    - One run for each occurrence: [first_creator_wins],
      [occurrence_dispatched_once], [recovery_runs_selected],
      [boot_recovery_completes], [trigger_follows_policy],
      [attempt_id_addresses_attempt].
    - What an execution does and what it leaves: [occurrence_lifecycle],
      [execution_recorded], [task_recorded], [executeTask_reports],
      [executeTask_backs_off], [executeSequential_reports],
      [executeParallel_reports].
    - The storage: [badger_create_refines], [badger_update_refines],
      [badger_lists_exact], [badger_reads_exact], [badger_deletes_refine],
      [last_write_is_read].
    - Schedules: [cron_occurrences_exact], [iso_occurrences_exact],
      [iso_live_ticks], [once_fires_once], [single_start_never_panics],
      [cron_pause_holds].
    - The pool: [pool_bounded_and_conserving], [pool_stop_returns],
      [pool_stop_is_final].
    - The scheduler: [node_well_formed], [register_job_spec],
      [start_outcomes], [shutdown_is_final], [update_job_versions],
      [updated_tasks_exact], [gauges_exact], [reaper_reaps_stale].
    - Updates: [update_version_checked], [update_policy_cancels],
      [DiffSchedules_exact].  Metrics: [attempt_counter_exact].

    Several statements contain what the code does where that is not what it
    seems to intend: a pool's Stop may leave accepted tasks in its queue,
    versions in memory and in the store can part for good, a parallel group
    never reports an error, the reaper takes an hour for every job.  The files named Examples evaluate the definitions on concrete
    inputs and apply the theorems there.

    ** Parameters

    Code outside the repository: [UuidLib] (google/uuid), [CronLib]
    (robfig/cron), [TzLib] (the zone database), [Badger] (the engine; its
    transactions are atomic, its faults are errors that change nothing).
    Choices Go leaves open: the order of a map ([MapRange]), the value of a
    float64 outside int64 ([out_of_range]), the ready case of a select (an
    action each, or [coin]), the time between two readings of the clock
    ([jitter], never negative).  "Healthy" hypotheses exclude faults of the
    engine, "range" hypotheses keep times in the years JSON can write.

    ** Bounds

    Recursion is structural.  [attempts_loop] counts down the attempts the
    loop's condition allows, [MaxRetries + 1] of them, none if that is
    negative, as in Go.  The two loops of [GetOccurrencesBetween] count down
    [MaxOccurrenceIterations], 10000, a constant of the code, and give the
    code's error at its end.  Machines have no bound: their runs are lists.
    A parallel group follows a schedule, a list too; statements about it hold
    for every schedule that ends it.  [ExecutorTotal] proves that sequential
    executions always end and that a group without fail-fast tasks has such a
    schedule.
    Integers are [Z] with [wrap64] where the code can overflow an int64.

    ** Not modelled

    The example program and the tests.  JSON below the level of fields:
    strings are taken to be valid UTF-8 (encoding/json replaces other bytes),
    and the years it can write are counted in UTC instead of in the location
    of the time, which the records do not keep.
    Panics inside a task's own function.  The monotonic reading of a
    [time.Time].  Contexts of storage calls, which the storage ignores.  A
    fired tick's update of its ticker and its send are one action.  An
    occurrence in memory is a value: its fields are changed by the execution
    only, after its last other reader.  A job handed to the pool is a value
    too, the job as it was then, where the closures of scheduler.go and
    recovery.go keep the pointer: an [UpdateJob] that comes before the
    execution is seen by the code's execution and not by the model's, and no
    theorem speaks of such an execution. *)

From Stdlib Require Export ZArith Lia.
From stdpp Require Export strings gmap list sorting pretty.

(** Go's sized integers are written as [Z] with their wrap-around. *)
Definition wrap64 (z : Z) : Z := (z + 2 ^ 63) `mod` 2 ^ 64 - 2 ^ 63.
Definition in_int64 (z : Z) : Prop := (- 2 ^ 63 ≤ z < 2 ^ 63)%Z.

(** ** Error values

    A Go function returning [(T, error)] becomes a [Result T]; an error is
    its message.  A panic is a third outcome, kept apart from errors. *)
Definition GoError := string.

Inductive Result (A : Type) : Type :=
| Ok (a : A)
| Err (e : GoError).
Arguments Ok {A} a.
Arguments Err {A} e.

Definition is_ok {A} (r : Result A) : bool :=
  match r with Ok _ => true | Err _ => false end.

#[export] Instance Result_ret : MRet Result := λ A a, Ok a.
#[export] Instance Result_bind : MBind Result := λ A B f r,
  match r with Ok a => f a | Err e => Err e end.

(** A computation that may panic: [Crash msg] is Go's [panic(msg)]. *)
Inductive Outcome (A : Type) : Type :=
| Done (a : A)
| Crash (msg : string).
Arguments Done {A} a.
Arguments Crash {A} msg.

#[export] Instance Outcome_ret : MRet Outcome := λ A a, Done a.
#[export] Instance Outcome_bind : MBind Outcome := λ A B f r,
  match r with Done a => f a | Crash e => Crash e end.

(** The [if err != nil { return fmt.Errorf("...: %w", err) }] idiom. *)
Definition wrap_err {A} (msg : string) (r : Result A) : Result A :=
  match r with Ok a => Ok a | Err e => Err (msg +:+ ": " +:+ e) end.

(** ** State passing

    Stateful code is a function from the world to the new world and the
    value returned; the monad's bind threads the world in program order. *)
Definition St (W A : Type) : Type := W → W * A.
#[export] Instance St_ret {W} : MRet (St W) := λ A a w, (w, a).
#[export] Instance St_bind {W} : MBind (St W) := λ A B f m w,
  let '(w', a) := m w in f a w'.

(** Sequencing of a fallible step: an error returns at once, with the world
    as the failing step left it. *)
Definition try_bind {W A B} (f : A → St W (Result B)) (m : St W (Result A)) : St W (Result B) :=
  λ w, let '(w', r) := m w in
       match r with Ok a => f a w' | Err e => (w', Err e) end.

Declare Scope go_scope.
Delimit Scope go_scope with go.
Notation "x '<-?' m ';;' k" := (try_bind (λ x, k) m)
  (at level 100, m at next level, k at level 200, right associativity,
   only parsing) : go_scope.
Notation "m '?;;' k" := (try_bind (λ _, k) m)
  (at level 100, k at level 200, right associativity, only parsing) : go_scope.

(** [for _, x := range l { if err := f(x); err != nil { return err } }] *)
Fixpoint each {W A} (f : A → St W (Result unit)) (l : list A) : St W (Result unit) :=
  match l with
  | [] => λ w, (w, Ok tt)
  | x :: l' => try_bind (λ _, each f l') (f x)
  end.

(** ** Automation *)
Create HintDb go.
#[export] Hint Constructors Forall StronglySorted NoDup : go.

(** Case analysis on the discriminee of an innermost match, in the goal or in a
    hypothesis, keeping the equation. *)
Ltac case_go :=
  match goal with
  | |- context [match ?x with _ => _ end] =>
      lazymatch x with context [match _ with _ => _ end] => fail | _ => destruct x eqn:? end
  | H : context [match ?x with _ => _ end] |- _ =>
      lazymatch x with context [match _ with _ => _ end] => fail | _ => destruct x eqn:? end
  end.
(** The same, for the matches of one hypothesis only. *)
Ltac cases_in E :=
  repeat (lazymatch type of E with
          | context [match ?x with _ => _ end] =>
              first [ lazymatch x with context [match _ with _ => _ end] => fail
                                     | _ => destruct x eqn:? end
                    | match x with context [match ?y with _ => _ end] => destruct y eqn:? end ]
          end; simplify_eq/=).
(** [lia] with [/] and [mod] by constants turned into equations. *)
Ltac zlia := Z.to_euclidean_division_equations; lia.
Ltac cases_go := repeat (case_go; simplify_eq/=).

(** ** Integers *)
Lemma wrap64_id z : in_int64 z → wrap64 z = z.
Proof. unfold in_int64, wrap64. intros H. rewrite Z.mod_small; lia. Qed.

Lemma wrap64_range z : in_int64 (wrap64 z).
Proof.
  unfold in_int64, wrap64.
  pose proof (Z.mod_pos_bound (z + 2 ^ 63) (2 ^ 64)). lia.
Qed.
#[export] Hint Resolve wrap64_id wrap64_range : go.

(** ** Strings *)
Lemma length_append s t : String.length (s +:+ t) = (String.length s + String.length t)%nat.
Proof. induction s; simpl; [done|]. unfold String.append in *; simpl in *. lia. Qed.

Lemma append_cons c s t : String c s +:+ t = String c (s +:+ t).
Proof. done. Qed.
Lemma append_nil_l t : EmptyString +:+ t = t.
Proof. done. Qed.
Lemma append_nil_r s : s +:+ EmptyString = s.
Proof. induction s as [|c s IH]; [done|]. by rewrite append_cons, IH. Qed.
Lemma append_assoc s t u : (s +:+ t) +:+ u = s +:+ t +:+ u.
Proof. induction s as [|c s IH]; [done|]. by rewrite !append_cons, IH. Qed.
Create Rewrite HintDb gostr.
#[export] Hint Rewrite append_assoc append_nil_l append_nil_r : gostr.

(** Concatenations split where the lengths agree, from either end. *)
Lemma append_inj_len s s' t t' :
  String.length s = String.length s' → s +:+ t = s' +:+ t' → s = s' ∧ t = t'.
Proof.
  revert s'; induction s as [|c s IH]; intros [|c' s'] Hl H; try done.
  rewrite !append_cons in H. injection H as <- H. injection Hl as Hl.
  destruct (IH s' Hl H) as [-> ->]. done.
Qed.
Lemma append_inj_len_r s s' t t' :
  String.length t = String.length t' → s +:+ t = s' +:+ t' → s = s' ∧ t = t'.
Proof.
  intros Hl H. apply append_inj_len; [|done].
  apply (f_equal String.length) in H. rewrite !length_append in H. lia.
Qed.

(** ** Labelled transition systems

    Concurrent components are machines: an executable function tells whether
    an action is enabled in a state and what it does, possibly panicking. *)
Inductive StepResult (S : Type) : Type :=
| Disabled
| Next (s : S)
| Panicked (msg : string).
Arguments Disabled {S}.
Arguments Next {S} s.
Arguments Panicked {S} msg.

Section Machine.
Context {S A : Type} (step : S → A → StepResult S).

(** The state after a whole sequence of enabled actions. *)
Fixpoint exec (s : S) (acts : list A) : StepResult S :=
  match acts with
  | [] => Next s
  | a :: acts' =>
      match step s a with
      | Next s' => exec s' acts'
      | Disabled => Disabled
      | Panicked msg => Panicked msg
      end
  end.

Definition reachable (init s : S) : Prop := ∃ acts, exec init acts = Next s.

Lemma exec_app s acts acts' :
  exec s (acts ++ acts') =
    match exec s acts with
    | Next s' => exec s' acts' | Disabled => Disabled | Panicked msg => Panicked msg
    end.
Proof.
  revert s; induction acts as [|a acts IH]; intros s; simpl; [done|].
  by destruct (step s a).
Qed.

(** Rule induction: an invariant of the steps holds in every reachable state. *)
Lemma reachable_ind (I : S → Prop) (init : S) :
  I init → (∀ s a s', I s → step s a = Next s' → I s') → ∀ s, reachable init s → I s.
Proof.
  intros H0 Hstep s [acts Hex]. revert init H0 Hex.
  induction acts as [|a acts IH]; intros init H0; simpl; [by intros [= ->]|].
  destruct (step init a) eqn:E; try done. intros Hex. eauto.
Qed.

Lemma reachable_step init s a s' :
  reachable init s → step s a = Next s' → reachable init s'.
Proof.
  intros [acts Hex] Ha. exists (acts ++ [a]). rewrite exec_app, Hex. simpl. by rewrite Ha.
Qed.
End Machine.

(** ** Lists *)

(** The element at an index, and the list around it. *)
Lemma lookup_split {A} (l : list A) i x :
  l !! i = Some x →
  ∃ l1 l2, l = l1 ++ x :: l2 ∧ (∀ y, <[i := y]> l = l1 ++ y :: l2) ∧ delete i l = l1 ++ l2.
Proof.
  intros H. exists (take i l), (drop (S i) l).
  assert (Hi : (i < length l)%nat) by (by eapply lookup_lt_Some).
  assert (Hl : length (take i l) = i) by (rewrite length_take; lia).
  assert (E : l = take i l ++ x :: drop (S i) l) by (symmetry; by apply take_drop_middle).
  split_and!; [done| |by rewrite delete_take_drop].
  intros y. rewrite E at 1. rewrite <- (Nat.add_0_r i) at 1. rewrite <- Hl at 1.
  by rewrite insert_app_r.
Qed.

Lemma StronglySorted_filter {A} (R : A → A → Prop) (P : A → Prop) `{∀ x, Decision (P x)} l :
  StronglySorted R l → StronglySorted R (filter P l).
Proof.
  induction 1 as [|x l _ IH Hx]; [constructor|]. rewrite filter_cons.
  destruct (decide _); [constructor|]; [done| |done].
  rewrite Forall_forall in *. intros y [_ Hy]%list_elem_of_filter. auto.
Qed.
#[export] Hint Resolve StronglySorted_filter : go.

Lemma StronglySorted_snoc {A} (R : A → A → Prop) l x :
  StronglySorted R l → Forall (λ y, R y x) l → StronglySorted R (l ++ [x]).
Proof.
  induction 1 as [|y l _ IH Hy]; intros Hx; simpl; [repeat constructor|].
  apply Forall_cons in Hx as [Hyx Hx]. constructor; [by apply IH|].
  apply Forall_app. by split; [|constructor].
Qed.
