(* ===== verification/GoTime.v ===== *)
(** * Go's [time] package, as far as the program uses it

    [Time] is an instant in nanoseconds since the Unix epoch together with
    the identity of its [*time.Location]; [Duration] is an [int64] number of
    nanoseconds.  The comparison methods look at the instant only, Go's [==]
    (used by map keys) also compares the location pointer.  Decimal printing
    and the RFC 3339 layout follow [appendInt] and [Format].  Monotonic clock
    readings are not represented. *)
From S2P Require Import Prelude.
Local Open Scope Z_scope.

(** ** Instants, locations, durations *)

(** [nil]/[&utcLoc] is [UTC]; any other [*Location] is known by its address. *)
Inductive Loc := UTC | LocPtr (p : positive).
#[export] Instance Loc_eq_dec : EqDecision Loc.
Proof. solve_decision. Defined.

Definition Instant := Z.
Record Time := mkTime { inst : Instant; loc : Loc }.
#[export] Instance Time_eq_dec : EqDecision Time.
Proof. solve_decision. Defined.

#[export] Instance Loc_countable : Countable Loc :=
  inj_countable (λ l, match l with UTC => None | LocPtr p => Some p end)
    (λ o, Some (match o with Some p => LocPtr p | None => UTC end)) (λ l, ltac:(by destruct l)).
#[export] Instance Time_countable : Countable Time :=
  inj_countable (λ t, (inst t, loc t)) (λ p, Some (mkTime p.1 p.2)) (λ t, ltac:(by destruct t)).

Definition Duration := Z.
Definition Nanosecond : Duration := 1.
Definition Millisecond : Duration := 1000000.
Definition Second : Duration := 1000000000.
Definition Minute : Duration := 60 * Second.
Definition Hour : Duration := 60 * Minute.
Definition maxDuration : Duration := 2 ^ 63 - 1.
Definition minDuration : Duration := - 2 ^ 63.

Definition In (l : Loc) (t : Time) : Time := mkTime (inst t) l.
Definition Before (t u : Time) : bool := inst t <? inst u.
Definition After (t u : Time) : bool := inst u <? inst t.
Definition Equal (t u : Time) : bool := inst t =? inst u.
Definition Add (t : Time) (d : Duration) : Time := mkTime (inst t + d) (loc t).
(** [Sub] saturates at the ends of the [Duration] range. *)
Definition Sub (t u : Time) : Duration :=
  Z.max minDuration (Z.min maxDuration (inst t - inst u)).

(** The zero [time.Time]: January 1, year 1, 00:00:00 UTC. *)
Definition zeroTime : Time := mkTime (-62135596800 * Second) UTC.

(** [Equal] is coarser than [==]: same instant, any location. *)
Definition same_instant (t u : Time) : Prop := inst t = inst u.
#[export] Instance same_instant_equiv : Equivalence same_instant.
Proof. split; red; unfold same_instant; congruence. Qed.
#[export] Instance Before_proper : Proper (same_instant ==> same_instant ==> eq) Before.
Proof. intros t t' H u u' H'. unfold Before. by rewrite H, H'. Qed.
#[export] Instance After_proper : Proper (same_instant ==> same_instant ==> eq) After.
Proof. intros t t' H u u' H'. unfold After. by rewrite H, H'. Qed.
#[export] Instance Add_proper : Proper (same_instant ==> eq ==> same_instant) Add.
Proof. intros t t' H d d' ->. unfold same_instant, Add in *; simpl. lia. Qed.
Lemma In_same_instant l t : same_instant (In l t) t.
Proof. done. Qed.
#[export] Hint Resolve In_same_instant : go.

Lemma Before_spec t u : Before t u = true ↔ inst t < inst u.
Proof. apply Z.ltb_lt. Qed.
Lemma After_spec t u : After t u = true ↔ inst u < inst t.
Proof. apply Z.ltb_lt. Qed.
Lemma Equal_spec t u : Equal t u = true ↔ inst t = inst u.
Proof. apply Z.eqb_eq. Qed.
Lemma Sub_exact t u : in_int64 (inst t - inst u) → Sub t u = inst t - inst u.
Proof. unfold in_int64, Sub, minDuration, maxDuration. lia. Qed.

(** ** Decimal printing *)

Definition digit (z : Z) : Ascii.ascii := Ascii.ascii_of_N (48 + Z.to_N z).
Definition digit_val (c : Ascii.ascii) : Z := Z.of_N (Ascii.N_of_ascii c) - 48.

Fixpoint dec_digits (fuel : nat) (u : Z) (acc : string) : string :=
  match fuel with
  | O => acc
  | S f => if u <? 10 then String (digit u) acc
           else dec_digits f (u / 10) (String (digit (u mod 10)) acc)
  end.
(** Enough rounds for every digit: [u < 10 ^ dec_fuel u] ([dec_fuel_enough]). *)
Definition dec_fuel (u : Z) : nat := S (Z.to_nat (Z.log2 u)).

(** [time.appendInt]: the sign, then at least [width] digits. *)
Definition appendInt (x : Z) (width : nat) : string :=
  let u := Z.abs x in
  let ds := dec_digits (dec_fuel u) u EmptyString in
  (if x <? 0 then "-" else EmptyString)
    +:+ String.concat EmptyString (replicate (width - String.length ds) "0") +:+ ds.

(** [fmt]'s [%d]. *)
Definition fmt_d (x : Z) : string := appendInt x 0.

(** ** Calendar dates

    Days since 1970-01-01 in the proleptic Gregorian calendar, counted in
    years that start in March so that the leap day comes last. *)
Definition civil_yoe (doe : Z) : Z :=
  (doe - doe / 1460 + doe / 36524 - doe / 146096) / 365.
Definition civil_doy (doe : Z) : Z :=
  let yoe := civil_yoe doe in doe - (365 * yoe + yoe / 4 - yoe / 100).

Definition civil_from_days (days : Z) : Z * Z * Z :=
  let z := days + 719468 in
  let era := z / 146097 in
  let doe := z mod 146097 in
  let yoe := civil_yoe doe in
  let doy := civil_doy doe in
  let mp := (5 * doy + 2) / 153 in
  let d := doy - (153 * mp + 2) / 5 + 1 in
  let m := if mp <? 10 then mp + 3 else mp - 9 in
  let y := yoe + era * 400 in
  ((if m <=? 2 then y + 1 else y), m, d).

Definition days_from_civil (y m d : Z) : Z :=
  let y1 := if m <=? 2 then y - 1 else y in
  let era := y1 / 400 in
  let yoe := y1 mod 400 in
  let doy := (153 * (if m <=? 2 then m + 9 else m - 3) + 2) / 5 + d - 1 in
  let doe := yoe * 365 + yoe / 4 - yoe / 100 + doy in
  era * 146097 + doe - 719468.

(** [t.UTC().Format(time.RFC3339)]: whole seconds, zone [Z]. *)
Definition unix_sec (i : Instant) : Z := i / Second.
Definition FormatRFC3339_UTC (t : Time) : string :=
  let s := unix_sec (inst t) in
  let '(y, m, d) := civil_from_days (s / 86400) in
  let r := s mod 86400 in
  appendInt y 4 +:+ "-" +:+ appendInt m 2 +:+ "-" +:+ appendInt d 2 +:+ "T" +:+
  appendInt (r / 3600) 2 +:+ ":" +:+ appendInt (r / 60 mod 60) 2 +:+ ":" +:+
  appendInt (r mod 60) 2 +:+ "Z".

(** Years 0 to 9999, the range RFC 3339 can print in four digits. *)
Definition in_rfc3339_range (i : Instant) : Prop :=
  -62167219200 * Second ≤ i < 253402300800 * Second.
#[export] Instance in_rfc3339_range_dec i : Decision (in_rfc3339_range i).
Proof. unfold in_rfc3339_range. apply _. Defined.

Example rfc3339_epoch : FormatRFC3339_UTC (mkTime 0 UTC) = "1970-01-01T00:00:00Z".
Proof. vm_compute. reflexivity. Qed.
Example rfc3339_2025 :
  FormatRFC3339_UTC (mkTime (1762516800 * Second + 5) (LocPtr 3)) = "2025-11-07T12:00:00Z".
Proof. vm_compute. reflexivity. Qed.
Example rfc3339_zero : FormatRFC3339_UTC zeroTime = "0001-01-01T00:00:00Z".
Proof. vm_compute. reflexivity. Qed.
Example rfc3339_leap : FormatRFC3339_UTC (mkTime (951782400 * Second) UTC) = "2000-02-29T00:00:00Z".
Proof. vm_compute. reflexivity. Qed.

(** ** Decimal printing is injective *)

(** Reading digits from the left, the inverse of [dec_digits]. *)
Fixpoint dec_val (s : string) (k : Z) : Z :=
  match s with
  | EmptyString => k
  | String c s' => dec_val s' (10 * k + digit_val c)
  end.

Lemma digit_val_digit z : 0 ≤ z < 10 → digit_val (digit z) = z.
Proof.
  intros H. unfold digit_val, digit. rewrite Ascii.N_ascii_embedding; lia.
Qed.

Lemma dec_val_digits fuel u acc :
  0 ≤ u < 10 ^ Z.of_nat fuel → dec_val (dec_digits fuel u acc) 0 = dec_val acc u.
Proof.
  revert u acc; induction fuel as [|f IH]; intros u acc Hu.
  { simpl. f_equal. change (10 ^ Z.of_nat 0) with 1 in Hu. lia. }
  rewrite Nat2Z.inj_succ, Z.pow_succ_r in Hu by lia. simpl.
  destruct (u <? 10) eqn:E.
  - cbn [dec_val]. rewrite digit_val_digit by lia. f_equal; lia.
  - rewrite IH by (split; [zlia|apply Z.div_lt_upper_bound; lia]).
    simpl. rewrite digit_val_digit by (apply Z.mod_pos_bound; lia).
    f_equal. symmetry. apply Z.div_mod. lia.
Qed.

Lemma dec_fuel_enough u : 0 ≤ u → u < 10 ^ Z.of_nat (dec_fuel u).
Proof.
  intros H. destruct (decide (u = 0)) as [->|]; [reflexivity|].
  destruct (Z.log2_spec u) as [_ Hl]; [lia|].
  eapply Z.lt_le_trans; [exact Hl|]. unfold dec_fuel.
  pose proof (Z.log2_nonneg u).
  rewrite Nat2Z.inj_succ, Z2Nat.id by done.
  apply Z.pow_le_mono_l. lia.
Qed.

Lemma length_digits fuel u acc k :
  0 ≤ u < 10 ^ Z.of_nat (S k) →
  (String.length (dec_digits fuel u acc) ≤ S k + String.length acc)%nat.
Proof.
  revert u acc k; induction fuel as [|f IH]; intros u acc k Hu; simpl; [lia|].
  destruct (u <? 10) eqn:E; [simpl; lia|].
  destruct k as [|k].
  { change (10 ^ Z.of_nat 1) with 10 in Hu. lia. }
  rewrite (Nat2Z.inj_succ (S k)), Z.pow_succ_r in Hu by lia.
  etrans; [apply (IH _ _ k); split; [zlia|apply Z.div_lt_upper_bound; lia]|simpl; lia].
Qed.

Lemma zeros_val n s k :
  k = 0 → dec_val (String.concat EmptyString (replicate n "0") +:+ s) k = dec_val s k.
Proof.
  intros ->. induction n as [|[|n] IH]; [done..|].
  change (String.concat EmptyString (replicate (S (S n)) "0"))
    with ("0" +:+ String.concat EmptyString (replicate (S n) "0")).
  rewrite append_assoc. exact IH.
Qed.
Lemma zeros_length n : String.length (String.concat EmptyString (replicate n "0")) = n.
Proof.
  induction n as [|[|n] IH]; [done..|].
  change (String.concat EmptyString (replicate (S (S n)) "0"))
    with ("0" +:+ String.concat EmptyString (replicate (S n) "0")).
  rewrite length_append, IH. done.
Qed.

Lemma appendInt_val x w : 0 ≤ x → dec_val (appendInt x w) 0 = x.
Proof.
  intros Hx. unfold appendInt. rewrite Z.abs_eq by done.
  destruct (x <? 0) eqn:E; [lia|]. rewrite append_nil_l, zeros_val by done.
  rewrite dec_val_digits; [done|]. auto using dec_fuel_enough.
Qed.

Lemma appendInt_inj x y w : 0 ≤ x → 0 ≤ y → appendInt x w = appendInt y w → x = y.
Proof. intros Hx Hy H. by rewrite <- (appendInt_val x w), H, appendInt_val. Qed.

Lemma appendInt_length x w :
  0 ≤ x < 10 ^ Z.of_nat (S w) → String.length (appendInt x (S w)) = S w.
Proof.
  intros Hx. unfold appendInt. rewrite Z.abs_eq by lia.
  destruct (x <? 0) eqn:E; [lia|].
  rewrite append_nil_l, length_append, zeros_length.
  pose proof (length_digits (dec_fuel x) x EmptyString w Hx). simpl in *. lia.
Qed.

Lemma append_int_eq x y w s t :
  0 ≤ x < 10 ^ Z.of_nat (S w) → 0 ≤ y < 10 ^ Z.of_nat (S w) →
  appendInt x (S w) +:+ s = appendInt y (S w) +:+ t → x = y ∧ s = t.
Proof.
  intros Hx Hy H. apply append_inj_len in H as [H ->].
  - split; [|done]. eapply appendInt_inj; [..|exact H]; lia.
  - rewrite !appendInt_length; done.
Qed.

(** ** The calendar is faithful *)

Lemma civil_yoe_bound doe : 0 ≤ doe < 146097 → 0 ≤ civil_yoe doe < 400.
Proof. unfold civil_yoe. zlia. Qed.

Lemma civil_doy_bound doe : 0 ≤ doe < 146097 → 0 ≤ civil_doy doe ≤ 365.
Proof.
  intros H. pose proof (civil_yoe_bound doe H).
  unfold civil_doy, civil_yoe in *. zlia.
Qed.

(** Every day number comes back from its date, and the date is in range. *)
Lemma days_civil_days n y m d :
  civil_from_days n = (y, m, d) →
  days_from_civil y m d = n ∧ 1 ≤ m ≤ 12 ∧ 1 ≤ d ≤ 31.
Proof.
  unfold civil_from_days. set (z := n + 719468).
  assert (Hdoe : 0 ≤ z mod 146097 < 146097) by (apply Z.mod_pos_bound; lia).
  assert (Hz : z = 146097 * (z / 146097) + z mod 146097) by (apply Z.div_mod; lia).
  set (doe := z mod 146097) in *. set (era := z / 146097) in *.
  pose proof (civil_yoe_bound doe Hdoe) as Hy. pose proof (civil_doy_bound doe Hdoe) as Hd.
  assert (Hdoy : doe = civil_yoe doe * 365 + civil_yoe doe / 4 - civil_yoe doe / 100 + civil_doy doe)
    by (unfold civil_doy; lia).
  generalize dependent (civil_yoe doe). generalize dependent (civil_doy doe).
  intros doy Hd yoe Hy Hdoy H. set (mp := (5 * doy + 2) / 153) in *.
  assert (Hmp : 0 ≤ mp ≤ 11) by (unfold mp; zlia).
  assert (Hday : 1 ≤ doy - (153 * mp + 2) / 5 + 1 ≤ 31) by (unfold mp; zlia).
  simplify_eq. split; [|destruct (mp <? 10) eqn:?; lia].
  unfold days_from_civil.
  assert (Hyr : ∀ a, (a + era * 400) / 400 = era + a / 400 ∧ (a + era * 400) mod 400 = a mod 400)
    by (intros a; rewrite Z.div_add, Z.mod_add by lia; lia).
  destruct (mp <? 10) eqn:E; [|].
  - destruct (mp + 3 <=? 2) eqn:?; [lia|].
    destruct (Hyr yoe) as [-> ->]. rewrite Z.div_small, Z.mod_small by lia.
    replace (mp + 3 - 3) with mp by lia. lia.
  - destruct (mp - 9 <=? 2) eqn:?; [|lia].
    replace (yoe + era * 400 + 1 - 1) with (yoe + era * 400) by lia.
    destruct (Hyr yoe) as [-> ->]. rewrite Z.div_small, Z.mod_small by lia.
    replace (mp - 9 + 9) with mp by lia. lia.
Qed.

(** Within the printable range the year has four digits. *)
Lemma civil_year_range i y m d :
  in_rfc3339_range i → civil_from_days (unix_sec i / 86400) = (y, m, d) → 0 ≤ y < 10000.
Proof.
  unfold in_rfc3339_range, unix_sec, Second. intros Hi.
  assert (Hs : -62167219200 ≤ i / 1000000000 < 253402300800)
    by (split; [apply Z.div_le_lower_bound|apply Z.div_lt_upper_bound]; lia).
  assert (Hn : -719528 ≤ i / 1000000000 / 86400 < 2932897)
    by (split; [apply Z.div_le_lower_bound|apply Z.div_lt_upper_bound]; lia).
  generalize dependent (i / 1000000000 / 86400). intros n Hn H.
  apply days_civil_days in H as (Hr & Hm & Hd). unfold days_from_civil in Hr.
  destruct (m <=? 2) eqn:E; zlia.
Qed.

Lemma FormatRFC3339_length t :
  in_rfc3339_range (inst t) → String.length (FormatRFC3339_UTC t) = 20%nat.
Proof.
  intros Hr. unfold FormatRFC3339_UTC.
  destruct (civil_from_days _) as [[y m] d] eqn:E.
  pose proof (civil_year_range _ _ _ _ Hr E). apply days_civil_days in E as (_ & Hm & Hd).
  assert (0 ≤ unix_sec (inst t) mod 86400 < 86400) by (apply Z.mod_pos_bound; lia).
  repeat rewrite length_append. rewrite !appendInt_length by (simpl; zlia). done.
Qed.

(** The printed text determines the second: [Format] loses only what is
    below one second, never more. *)
Lemma FormatRFC3339_inj t u :
  in_rfc3339_range (inst t) → in_rfc3339_range (inst u) →
  FormatRFC3339_UTC t = FormatRFC3339_UTC u → unix_sec (inst t) = unix_sec (inst u).
Proof.
  intros Ht Hu. unfold FormatRFC3339_UTC.
  destruct (civil_from_days (unix_sec (inst t) / 86400)) as [[y m] d] eqn:E.
  destruct (civil_from_days (unix_sec (inst u) / 86400)) as [[y' m'] d'] eqn:E'.
  pose proof (civil_year_range _ _ _ _ Ht E) as Hy.
  pose proof (civil_year_range _ _ _ _ Hu E') as Hy'.
  apply days_civil_days in E as (Hn & Hm & Hd).
  apply days_civil_days in E' as (Hn' & Hm' & Hd').
  generalize dependent (unix_sec (inst t)). generalize dependent (unix_sec (inst u)).
  intros s' Hn' s Hn H. clear Ht Hu.
  assert (Hr : 0 ≤ s mod 86400 < 86400) by (apply Z.mod_pos_bound; lia).
  assert (Hr' : 0 ≤ s' mod 86400 < 86400) by (apply Z.mod_pos_bound; lia).
  set (r := s mod 86400) in *. set (r' := s' mod 86400) in *.
  repeat (apply append_int_eq in H as [? H]; [|simpl; zlia..]; injection H as H).
  rewrite !append_nil_l in H. apply append_int_eq in H as [Hs _]; [|simpl; zlia..].
  assert (Hdays : s / 86400 = s' / 86400) by congruence.
  assert (r = r') by (clear Hdays Hn Hn'; clearbody r r'; zlia).
  rewrite (Z.div_mod s 86400), (Z.div_mod s' 86400) by lia. subst r r'. lia.
Qed.

Lemma FormatRFC3339_same_second t u :
  unix_sec (inst t) = unix_sec (inst u) → FormatRFC3339_UTC t = FormatRFC3339_UTC u.
Proof. unfold FormatRFC3339_UTC. by intros ->. Qed.
