(* ===== verification/GoContext.v ===== *)
(** * Go's [context] package, as far as the program uses it

    A [context.Context] is described by the two instants that matter to the
    program: when its deadline passes and when it (or an ancestor) is
    cancelled, if ever.  Both are fixed once the run is fixed, so asking a
    context is a function of the time at which it is asked.  A context counts
    as done from the very instant of its deadline; when deadline and
    cancellation coincide the deadline is reported. *)
From S2P Require Import Prelude GoTime.
Local Open Scope Z_scope.

Record Ctx := mkCtx { cx_deadline : option Instant; cx_cancel : option Instant }.

Inductive CtxErr := Canceled | DeadlineExceeded.
#[export] Instance CtxErr_eq_dec : EqDecision CtxErr.
Proof. solve_decision. Defined.

Definition CtxErr_msg (e : CtxErr) : GoError :=
  match e with
  | Canceled => "context canceled"
  | DeadlineExceeded => "context deadline exceeded"
  end.

Definition Background : Ctx := mkCtx None None.

(** The earlier of two optional instants, [None] meaning never. *)
Definition earlier (a b : option Instant) : option Instant :=
  match a, b with
  | Some x, Some y => Some (Z.min x y)
  | Some x, None => Some x
  | None, b => b
  end.

(** [context.WithTimeout(parent, d)] called at [now]. *)
Definition WithTimeout (parent : Ctx) (now : Instant) (d : Duration) : Ctx :=
  mkCtx (earlier (cx_deadline parent) (Some (now + d))) (cx_cancel parent).

(** [context.WithCancel(parent)] whose [cancel] is called at [tc], if ever. *)
Definition WithCancel (parent : Ctx) (tc : option Instant) : Ctx :=
  mkCtx (cx_deadline parent) (earlier (cx_cancel parent) tc).

Definition passed (o : option Instant) (t : Instant) : bool :=
  match o with Some x => x <=? t | None => false end.

(** [ctx.Err()] asked at [t]. *)
Definition ctx_Err (c : Ctx) (t : Instant) : option CtxErr :=
  match cx_deadline c, cx_cancel c with
  | Some d, Some k =>
      if (d <=? t) && (d <=? k) then Some DeadlineExceeded
      else if k <=? t then Some Canceled else None
  | Some d, None => if d <=? t then Some DeadlineExceeded else None
  | None, Some k => if k <=? t then Some Canceled else None
  | None, None => None
  end.

(** [ctx.Done()] is closed at [t]. *)
Definition ctx_done (c : Ctx) (t : Instant) : bool :=
  passed (cx_deadline c) t || passed (cx_cancel c) t.

Lemma ctx_done_Err c t : ctx_done c t = true ↔ is_Some (ctx_Err c t).
Proof.
  destruct c as [[d|] [k|]]; unfold ctx_done, ctx_Err; simpl;
    rewrite ?orb_false_r; cases_go; rewrite ?is_Some_alt; simpl; try done; lia.
Qed.

(** A context never comes back. *)
Lemma ctx_done_mono c t u : t ≤ u → ctx_done c t = true → ctx_done c u = true.
Proof.
  destruct c as [[d|] [k|]]; unfold ctx_done; simpl; rewrite ?orb_true_iff, ?orb_false_r; lia.
Qed.

(** A derived context is done whenever its parent is. *)
Lemma WithTimeout_done c now d t :
  ctx_done (WithTimeout c now d) t = ctx_done c t || (now + d <=? t).
Proof.
  destruct c as [[x|] [k|]]; unfold ctx_done, WithTimeout, earlier, passed; simpl;
    repeat match goal with |- context [?a <=? ?b] => destruct (Z.leb_spec a b) end;
    simpl; try done; lia.
Qed.
Lemma WithCancel_done c tc t : ctx_done (WithCancel c tc) t = ctx_done c t || passed tc t.
Proof.
  destruct c as [[x|] [k|]], tc as [y|]; unfold ctx_done, WithCancel, earlier, passed; simpl;
    repeat match goal with |- context [?a <=? ?b] => destruct (Z.leb_spec a b) end;
    simpl; try done; lia.
Qed.
#[export] Hint Resolve ctx_done_mono : go.
