(* ===== verification/Sha256.v ===== *)
(** * crypto/sha256 and encoding/hex, as far as [id.HashString] uses them

    SHA-256 on whole messages: 32-bit words are [Z] with their wrap-around,
    bytes are [Z] below 256.  A message is padded to blocks of 64 bytes, each
    block is expanded to 64 words and compressed into the state of eight. *)
From Stdlib Require Import String.
From S2P Require Import Prelude.
Local Open Scope Z_scope.

Definition w32 (z : Z) : Z := z mod 2 ^ 32.
Definition rotr (n x : Z) : Z := w32 (Z.lor (Z.shiftr x n) (Z.shiftl x (32 - n))).
Definition not32 (x : Z) : Z := Z.lxor x (2 ^ 32 - 1).

Definition Ch (x y z : Z) : Z := Z.lxor (Z.land x y) (Z.land (not32 x) z).
Definition Maj (x y z : Z) : Z := Z.lxor (Z.lxor (Z.land x y) (Z.land x z)) (Z.land y z).
Definition Sigma0 (x : Z) : Z := Z.lxor (Z.lxor (rotr 2 x) (rotr 13 x)) (rotr 22 x).
Definition Sigma1 (x : Z) : Z := Z.lxor (Z.lxor (rotr 6 x) (rotr 11 x)) (rotr 25 x).
Definition sigma0 (x : Z) : Z := Z.lxor (Z.lxor (rotr 7 x) (rotr 18 x)) (Z.shiftr x 3).
Definition sigma1 (x : Z) : Z := Z.lxor (Z.lxor (rotr 17 x) (rotr 19 x)) (Z.shiftr x 10).

(** The constants of the standard: the first 32 bits of the fractional parts of
    roots of the first primes. *)
Definition is_prime (n : Z) : bool :=
  forallb (λ d, negb (n mod Z.of_nat d =? 0)) (seq 2 (Z.to_nat n - 2)).
Definition primes (k : nat) : list Z := take k (List.filter is_prime (Z.of_nat <$> seq 2 400)).

(** The largest number below [2^bits] whose [k]-th power is at most [n], from
    its highest bit down. *)
Fixpoint root (k : Z) (bits : nat) (n acc : Z) : Z :=
  match bits with
  | O => acc
  | S b => let acc' := acc + 2 ^ Z.of_nat b in root k b n (if acc' ^ k <=? n then acc' else acc)
  end.
Definition root_bits (k p : Z) : Z := root k 40 (p * 2 ^ (32 * k)) 0 mod 2 ^ 32.

Definition round_constants : list Z := Eval vm_compute in root_bits 3 <$> primes 64.

Record digest := mkDigest { dA : Z; dB : Z; dC : Z; dD : Z; dE : Z; dF : Z; dG : Z; dH : Z }.
Definition initial : digest := Eval vm_compute in
  match root_bits 2 <$> primes 8 with
  | [a; b; c; d; e; f; g; h] => mkDigest a b c d e f g h
  | _ => mkDigest 0 0 0 0 0 0 0 0
  end.

Definition bytes_of (s : string) : list Z :=
  (λ c, Z.of_N (Ascii.N_of_ascii c)) <$> String.list_ascii_of_string s.

(** [n] bytes of [z], most significant first. *)
Fixpoint big_endian (n : nat) (z : Z) : list Z :=
  match n with
  | O => []
  | S n' => Z.land (Z.shiftr z (8 * Z.of_nat n')) 255 :: big_endian n' z
  end.

(** The bit 1, zeros, and the length in bits as 64 bits. *)
Definition pad (m : list Z) : list Z :=
  let len := Z.of_nat (length m) in
  m ++ 128 :: replicate (Z.to_nat ((55 - len) mod 64)) 0 ++ big_endian 8 (8 * len).

Fixpoint words (m : list Z) : list Z :=
  match m with
  | a :: b :: c :: d :: m' => (Z.shiftl a 24 + Z.shiftl b 16 + Z.shiftl c 8 + d) :: words m'
  | _ => []
  end.

(** The message schedule, newest word first. *)
Fixpoint expand (n : nat) (w : list Z) : list Z :=
  match n with
  | O => w
  | S n' =>
      let at_ i := nth i w 0 in
      expand n' (w32 (sigma1 (at_ 1%nat) + at_ 6%nat + sigma0 (at_ 14%nat) + at_ 15%nat) :: w)
  end.
Definition schedule_words (block : list Z) : list Z := rev (expand 48 (rev block)).

Definition round (d : digest) (kw : Z * Z) : digest :=
  let t1 := dH d + Sigma1 (dE d) + Ch (dE d) (dF d) (dG d) + kw.1 + kw.2 in
  let t2 := Sigma0 (dA d) + Maj (dA d) (dB d) (dC d) in
  mkDigest (w32 (t1 + t2)) (dA d) (dB d) (dC d) (w32 (dD d + t1)) (dE d) (dF d) (dG d).

Definition add_digest (x y : digest) : digest :=
  mkDigest (w32 (dA x + dA y)) (w32 (dB x + dB y)) (w32 (dC x + dC y)) (w32 (dD x + dD y))
    (w32 (dE x + dE y)) (w32 (dF x + dF y)) (w32 (dG x + dG y)) (w32 (dH x + dH y)).

Definition compress (d : digest) (block : list Z) : digest :=
  add_digest d (foldl round d (zip round_constants (schedule_words block))).

(** Blocks of 16 words; [n] bounds their number. *)
Fixpoint blocks (n : nat) (w : list Z) : list (list Z) :=
  match n with
  | O => []
  | S n' => match w with [] => [] | _ => take 16 w :: blocks n' (drop 16 w) end
  end.

Definition Sum (m : list Z) : list Z :=
  let w := words (pad m) in
  let d := foldl compress initial (blocks (length w) w) in
  mjoin (big_endian 4 <$> [dA d; dB d; dC d; dD d; dE d; dF d; dG d; dH d]).

(** [hex.EncodeToString]: two lower-case digits for a byte. *)
Definition hex_digit (z : Z) : Ascii.ascii :=
  Ascii.ascii_of_N (Z.to_N (if z <? 10 then 48 + z else 87 + z)).
Fixpoint EncodeToString (m : list Z) : string :=
  match m with
  | [] => EmptyString
  | b :: m' => String (hex_digit (Z.shiftr b 4)) (String (hex_digit (Z.land b 15)) (EncodeToString m'))
  end.

(** [h := sha256.New(); h.Write([]byte(s)); hex.EncodeToString(h.Sum(nil))] *)
Definition HashString (s : string) : string := EncodeToString (Sum (bytes_of s)).

(** The test vectors of FIPS 180-4: empty, one block, two blocks. *)
Example hash_empty :
  HashString EmptyString = "e3b0c44298fc1c149afbf4c8996fb92427ae41e4649b934ca495991b7852b855".
Proof. vm_compute. reflexivity. Qed.
Example hash_abc :
  HashString "abc" = "ba7816bf8f01cfea414140de5dae2223b00361a396177a9cb410ff61f20015ad".
Proof. vm_compute. reflexivity. Qed.
Example hash_two_blocks :
  HashString "abcdbcdecdefdefgefghfghighijhijkijkljklmklmnlmnomnopnopq"
  = "248d6a61d20638b8e5c026930c3e6039a33ce45964ff2167f6ecedd419db06c1".
Proof. vm_compute. reflexivity. Qed.

(** ** Every digest is 64 hexadecimal digits *)

Definition is_byte (z : Z) : Prop := 0 ≤ z < 256.
Lemma big_endian_length n z : length (big_endian n z) = n.
Proof. induction n as [|n IH]; simpl; [done|by rewrite IH]. Qed.
Lemma big_endian_bytes n z : Forall is_byte (big_endian n z).
Proof.
  induction n as [|n IH]; simpl; [constructor|]. constructor; [|done].
  unfold is_byte. change 255 with (Z.ones 8). rewrite Z.land_ones by lia. apply Z.mod_pos_bound. lia.
Qed.
Lemma Sum_bytes m : length (Sum m) = 32%nat ∧ Forall is_byte (Sum m).
Proof.
  unfold Sum. set (d := foldl _ _ _). split.
  - cbn [fmap list_fmap mjoin list_join]. by rewrite !length_app, !big_endian_length.
  - cbn [fmap list_fmap mjoin list_join]. repeat (apply Forall_app; split); auto using big_endian_bytes.
Qed.

(** A digit 0-9 or a-f. *)
Definition is_hex (c : Ascii.ascii) : bool :=
  let n := Ascii.N_of_ascii c in
  ((48 <=? n)%N && (n <=? 57)%N) || ((97 <=? n)%N && (n <=? 102)%N).
Lemma hex_digit_hex z : 0 ≤ z < 16 → is_hex (hex_digit z) = true.
Proof.
  intros Hz. unfold is_hex, hex_digit. destruct (Z.ltb_spec z 10);
    rewrite Ascii.N_ascii_embedding by lia; rewrite orb_true_iff, !andb_true_iff, !N.leb_le; lia.
Qed.
Lemma hex_of_bytes m :
  Forall is_byte m →
  String.length (EncodeToString m) = (2 * length m)%nat ∧
  Forall (λ c, is_hex c = true) (String.list_ascii_of_string (EncodeToString m)).
Proof.
  induction 1 as [|b m Hb _ [IHl IHc]]; [done|]. cbn [EncodeToString]. split.
  - cbn [String.length length]. lia.
  - unfold is_byte in Hb. repeat constructor; [apply hex_digit_hex..|done].
    + rewrite Z.shiftr_div_pow2 by lia. change (2 ^ 4) with 16. zlia.
    + change 15 with (Z.ones 4). rewrite Z.land_ones by lia. apply Z.mod_pos_bound. lia.
Qed.
Lemma HashString_hex s :
  String.length (HashString s) = 64%nat ∧
  Forall (λ c, is_hex c = true) (String.list_ascii_of_string (HashString s)).
Proof.
  unfold HashString. destruct (Sum_bytes (bytes_of s)) as [Hl Hb].
  destruct (hex_of_bytes _ Hb) as [-> Hc]. by rewrite Hl.
Qed.
