(* ===== verification/Types.v ===== *)
(** * types.go: statuses, policies, configurations, reports

    The string enumerations stay strings, as in Go: a field may hold a value
    outside the declared constants and the [default] branches see it.
    Pointers to configuration values are options. *)
From Stdlib Require Export SpecFloat.
From S2P Require Import Prelude GoTime.
Local Open Scope Z_scope.

Definition JobStatus := string.
Definition JobStatusPending : JobStatus := "Pending".
Definition JobStatusRunning : JobStatus := "Running".
Definition JobStatusCompleted : JobStatus := "Completed".
Definition JobStatusFailed : JobStatus := "Failed".
Definition JobStatusCanceled : JobStatus := "Canceled".
Definition JobStatusFailedStale : JobStatus := "Failed_Stale".
Definition JobStatusQueued : JobStatus := "Queued".

Definition TaskStatus := string.
Definition TaskStatusPending : TaskStatus := "Pending".
Definition TaskStatusRunning : TaskStatus := "Running".
Definition TaskStatusSuccess : TaskStatus := "Success".
Definition TaskStatusFailed : TaskStatus := "Failed".
Definition TaskStatusCanceled : TaskStatus := "Canceled".
Definition TaskStatusTimeout : TaskStatus := "Timeout".

Definition TaskExecutionMode := string.
Definition TaskExecutionModeSequential : TaskExecutionMode := "Sequential".
Definition TaskExecutionModeParallel : TaskExecutionMode := "Parallel".

Definition FailureStrategy := string.
Definition FailureStrategyFailFast : FailureStrategy := "Fail-Fast".
Definition FailureStrategyContinue : FailureStrategy := "Continue".
Definition FailureStrategyRetryOnFailure : FailureStrategy := "Retry_On_Failure".

Definition OverlapPolicy := string.
Definition OverlapPolicySkip : OverlapPolicy := "Skip".
Definition OverlapPolicyAllow : OverlapPolicy := "Allow".
Definition OverlapPolicyQueue : OverlapPolicy := "Queue".

Definition RecoveryStrategy := string.
Definition RecoveryStrategyExecuteAll : RecoveryStrategy := "Execute_All".
Definition RecoveryStrategyExecuteLast : RecoveryStrategy := "Execute_Last".
Definition RecoveryStrategyMarkAsMissed : RecoveryStrategy := "Mark_As_Missed".
Definition RecoveryStrategyBoundedWindow : RecoveryStrategy := "Bounded_Window".
Definition RecoveryStrategyCompressedCatchUp : RecoveryStrategy := "Compressed_Catch_Up".

Definition UpdatePolicy := string.
Definition UpdatePolicyImmediate : UpdatePolicy := "Immediate".
Definition UpdatePolicyGraceful : UpdatePolicy := "Graceful".
Definition UpdatePolicyWindowed : UpdatePolicy := "Windowed".

(** [float64] is IEEE 754 binary64, computed by [SpecFloat]. *)
Definition float64 := spec_float.
#[export] Instance float64_eq_dec : EqDecision float64.
Proof. solve_decision. Defined.

Record RetryPolicy := mkRetryPolicy {
  MaxRetries : Z;
  RetryInterval : Duration;
  BackoffFactor : float64;
}.
#[export] Instance RetryPolicy_eq_dec : EqDecision RetryPolicy.
Proof. solve_decision. Defined.

Record BoundedWindow := mkBoundedWindow {
  MaxOccurrences : Z;
  MaxDuration : Duration;
}.
#[export] Instance BoundedWindow_eq_dec : EqDecision BoundedWindow.
Proof. solve_decision. Defined.

(** A [nil] field is [None]: not overridden. *)
Record TaskConfig := mkTaskConfig {
  tc_FailureStrategy : option FailureStrategy;
  tc_RetryPolicy : option RetryPolicy;
  tc_TaskTimeout : option Duration;
}.
#[export] Instance TaskConfig_eq_dec : EqDecision TaskConfig.
Proof. solve_decision. Defined.
Definition TaskConfig_zero : TaskConfig := mkTaskConfig None None None.

Record JobConfig := mkJobConfig {
  jc_TaskExecutionMode : TaskExecutionMode;
  jc_FailureStrategy : FailureStrategy;
  jc_ExecutionTimeout : Duration;
  jc_OverlapPolicy : OverlapPolicy;
  jc_RecoveryStrategy : RecoveryStrategy;
  jc_BoundedWindow : option BoundedWindow;
  jc_TaskConfig : TaskConfig;
}.
#[export] Instance JobConfig_eq_dec : EqDecision JobConfig.
Proof. solve_decision. Defined.

(** The [Metrics] collector of Go's struct is held by the scheduler's state. *)
Record SchedulerConfig := mkSchedulerConfig {
  MaxConcurrentJobs : Z;
  ReaperInterval : Duration;
  NodeID : string;
}.

Record ExecutionContext := mkExecutionContext {
  ec_OccurrenceID : string;
  ec_TaskRunID : string;
  ec_AttemptID : string;
}.

(** Occurrence times are kept as instants: the code that stores and compares
    them never looks at their location. *)
Record JobOccurrence := mkJobOccurrence {
  jo_ID : string;
  jo_JobID : string;
  jo_JobVersion : Z;
  jo_ScheduledTime : Instant;
  jo_Status : JobStatus;
  jo_OwningNodeID : string;
  jo_StartTime : option Instant;
  jo_EndTime : option Instant;
  jo_Config : JobConfig;
  jo_IsRecoveryRun : bool;
  jo_CreatedAt : Instant;
  jo_UpdatedAt : Instant;
}.

Record AttemptReport := mkAttemptReport {
  ar_AttemptNumber : Z;
  ar_Status : TaskStatus;
  ar_StartTime : Instant;
  ar_EndTime : option Instant;
  ar_Duration : Duration;
  ar_ErrorMessage : string;
}.

Record TaskReport := mkTaskReport {
  tr_TaskID : string;
  tr_TaskName : string;
  tr_Attempts : list AttemptReport;
  tr_FinalStatus : TaskStatus;
}.

Record ExecutionReport := mkExecutionReport {
  er_OccurrenceID : string;
  er_FailureStrategy : FailureStrategy;
  er_TaskReports : list TaskReport;
  er_GroupOutcome : string;
}.

Definition NewExecutionReport (occurrenceID : string) (strategy : FailureStrategy) : ExecutionReport :=
  mkExecutionReport occurrenceID strategy [] EmptyString.

Definition AddTaskReport (r : ExecutionReport) (report : TaskReport) : ExecutionReport :=
  mkExecutionReport (er_OccurrenceID r) (er_FailureStrategy r)
    (er_TaskReports r ++ [report]) (er_GroupOutcome r).

(** [report.GroupOutcome = s] *)
Definition set_GroupOutcome (r : ExecutionReport) (s : string) : ExecutionReport :=
  mkExecutionReport (er_OccurrenceID r) (er_FailureStrategy r) (er_TaskReports r) s.
