(* ===== verification/Ids.v ===== *)
(** * id/id.go: deterministic identifiers

    [github.com/google/uuid] is a parameter: [UuidLib] names the three
    functions the code calls, [UuidLaws] the documented shape of a printed
    UUID.  Nothing is assumed about SHA-1: the theorems say which strings are
    hashed, and that equal identifiers come from equal inputs or from a
    collision of the two names hashed. [HashString], which does not use that
    package, is in [Sha256]. *)
From Stdlib Require Import Ascii.
From S2P Require Import Prelude GoTime.
Local Open Scope Z_scope.

Class UuidLib := {
  UUID : Type;
  MustParse : string → UUID;
  NewSHA1 : UUID → string → UUID;
  UUID_String : UUID → string;
}.

(** Characters of the canonical text of a UUID: hexadecimal digits and dashes. *)
Definition is_uuid_char (c : Ascii.ascii) : bool :=
  let n := Ascii.N_of_ascii c in
  ((48 <=? n) && (n <=? 57) || (97 <=? n) && (n <=? 102) || (n =? 45))%N.

Fixpoint str_all (p : Ascii.ascii → bool) (s : string) : bool :=
  match s with EmptyString => true | String c s' => p c && str_all p s' end.

Class UuidLaws `{UuidLib} := {
  UUID_String_length u : String.length (UUID_String u) = 36%nat;
  UUID_String_chars u : str_all is_uuid_char (UUID_String u) = true;
}.

Section Ids.
Context `{UuidLib}.

Definition JobNamespace : UUID := MustParse "6ba7b810-9dad-11d1-80b4-00c04fd430c8".
Definition TaskNamespace : UUID := MustParse "6ba7b811-9dad-11d1-80b4-00c04fd430c8".
Definition OccurrenceNamespace : UUID := MustParse "6ba7b812-9dad-11d1-80b4-00c04fd430c8".
Definition TaskRunNamespace : UUID := MustParse "6ba7b813-9dad-11d1-80b4-00c04fd430c8".
Definition AttemptNamespace : UUID := MustParse "6ba7b814-9dad-11d1-80b4-00c04fd430c8".

Definition GenerateJobID (name : string) : string :=
  "job_" +:+ UUID_String (NewSHA1 JobNamespace name).

Definition GenerateTaskID (jobID taskName : string) : string :=
  let combined := jobID +:+ ":" +:+ taskName in
  "task_" +:+ UUID_String (NewSHA1 TaskNamespace combined).

Definition GenerateJobOccurrenceID (jobID : string) (scheduledTime : Time) : string :=
  let timeStr := FormatRFC3339_UTC scheduledTime in
  let combined := jobID +:+ ":" +:+ timeStr in
  "occ_" +:+ UUID_String (NewSHA1 OccurrenceNamespace combined).

Definition GenerateTaskRunID (occurrenceID taskID : string) : string :=
  let combined := occurrenceID +:+ ":" +:+ taskID in
  "run_" +:+ UUID_String (NewSHA1 TaskRunNamespace combined).

Definition GenerateExecutionAttemptID (taskRunID : string) (attemptNumber : Z) : string :=
  let combined := taskRunID +:+ ":" +:+ fmt_d attemptNumber in
  "attempt_" +:+ UUID_String (NewSHA1 AttemptNamespace combined).
End Ids.

(** ** Characters of the generated identifiers *)

Lemma str_all_append p s t : str_all p (s +:+ t) = str_all p s && str_all p t.
Proof.
  induction s as [|c s IH]; [done|]. rewrite append_cons. simpl. by rewrite IH, andb_assoc.
Qed.

(** Free of ['/']: usable as one component of a storage key. *)
Definition slash_free (s : string) : bool := str_all (λ c, negb (Ascii.eqb c "/"%char)) s.

Lemma str_all_impl (p q : Ascii.ascii → bool) s :
  (∀ c, p c = true → q c = true) → str_all p s = true → str_all q s = true.
Proof.
  intros Hpq. induction s as [|c s IH]; simpl; [done|].
  intros [? ?]%andb_true_iff. rewrite Hpq, IH; done.
Qed.

Lemma uuid_char_no_slash c : is_uuid_char c = true → negb (Ascii.eqb c "/"%char) = true.
Proof. destruct c as [[] [] [] [] [] [] [] []]; intros H; done. Qed.

Section IdShape.
Context `{UuidLaws}.

Lemma uuid_text_slash_free u : slash_free (UUID_String u) = true.
Proof. eapply str_all_impl; [exact uuid_char_no_slash|apply UUID_String_chars]. Qed.

Lemma id_slash_free (p : string) u :
  slash_free p = true → slash_free (p +:+ UUID_String u) = true.
Proof. intros Hp. unfold slash_free in *. by rewrite str_all_append, Hp, uuid_text_slash_free. Qed.

Lemma GenerateJobID_slash_free n : slash_free (GenerateJobID n) = true.
Proof. by apply id_slash_free. Qed.
Lemma GenerateTaskID_slash_free j n : slash_free (GenerateTaskID j n) = true.
Proof. by apply id_slash_free. Qed.
Lemma GenerateJobOccurrenceID_slash_free j t : slash_free (GenerateJobOccurrenceID j t) = true.
Proof. by apply id_slash_free. Qed.
Lemma GenerateTaskRunID_slash_free o t : slash_free (GenerateTaskRunID o t) = true.
Proof. by apply id_slash_free. Qed.
Lemma GenerateExecutionAttemptID_slash_free r n :
  slash_free (GenerateExecutionAttemptID r n) = true.
Proof. by apply id_slash_free. Qed.

Lemma GenerateJobID_length n : String.length (GenerateJobID n) = 40%nat.
Proof. unfold GenerateJobID. by rewrite length_append, UUID_String_length. Qed.
Lemma GenerateTaskID_length j n : String.length (GenerateTaskID j n) = 41%nat.
Proof. unfold GenerateTaskID. by rewrite length_append, UUID_String_length. Qed.
Lemma GenerateJobOccurrenceID_length j t : String.length (GenerateJobOccurrenceID j t) = 40%nat.
Proof. unfold GenerateJobOccurrenceID. by rewrite length_append, UUID_String_length. Qed.
Lemma GenerateTaskRunID_length o t : String.length (GenerateTaskRunID o t) = 40%nat.
Proof. unfold GenerateTaskRunID. by rewrite length_append, UUID_String_length. Qed.
End IdShape.
#[export] Hint Resolve GenerateJobID_slash_free GenerateTaskID_slash_free
  GenerateJobOccurrenceID_slash_free GenerateTaskRunID_slash_free
  GenerateExecutionAttemptID_slash_free : go.
#[export] Hint Rewrite @GenerateJobID_length @GenerateTaskID_length
  @GenerateJobOccurrenceID_length @GenerateTaskRunID_length : gostr.

(** ** Which inputs give the same identifier *)

(** The name-based UUIDs of these two different names have one text. *)
Definition collide `{UuidLib} (ns : UUID) (a b : string) : Prop :=
  a ≠ b ∧ UUID_String (NewSHA1 ns a) = UUID_String (NewSHA1 ns b).

(** [fmt.Sprintf("%s:%s", a, b)] *)
Definition joined (a b : string) : string := a +:+ ":" +:+ b.

Section IdInj.
Context `{UuidLaws}.

Lemma same_text (ns : UUID) (p a b : string) :
  p +:+ UUID_String (NewSHA1 ns a) = p +:+ UUID_String (NewSHA1 ns b) → a = b ∨ collide ns a b.
Proof.
  intros [_ E]%append_inj_len; [|done].
  destruct (decide (a = b)); [by left|by right].
Qed.

(** [sprintf("%s:%s", a, b)] determines both parts when the first parts, or
    the second ones, have the same length. *)
Lemma combined_inj a b a' b' :
  String.length a = String.length a' ∨ String.length b = String.length b' →
  a +:+ ":" +:+ b = a' +:+ ":" +:+ b' → a = a' ∧ b = b'.
Proof.
  intros [Hl|Hl] E.
  - apply append_inj_len in E as [-> E]; [|done]. by simplify_eq/=.
  - apply append_inj_len_r in E as [-> E]; [by simplify_eq/=|].
    rewrite !length_append. lia.
Qed.

(** Equal occurrence identifiers, for times in the years 0 to 9999, name the
    same job and the same second. *)
Lemma occurrence_id_inj j j' t t' :
  in_rfc3339_range (inst t) → in_rfc3339_range (inst t') →
  GenerateJobOccurrenceID j t = GenerateJobOccurrenceID j' t' →
  (j = j' ∧ unix_sec (inst t) = unix_sec (inst t')) ∨
  collide OccurrenceNamespace (joined j (FormatRFC3339_UTC t)) (joined j' (FormatRFC3339_UTC t')).
Proof.
  intros Ht Ht' [E|?]%same_text; [left|by right].
  apply combined_inj in E as [-> E]; [|right; by rewrite !FormatRFC3339_length].
  split; [done|by apply FormatRFC3339_inj].
Qed.

Lemma task_id_inj j j' n n' :
  String.length j = String.length j' → GenerateTaskID j n = GenerateTaskID j' n' →
  (j = j' ∧ n = n') ∨ collide TaskNamespace (joined j n) (joined j' n').
Proof.
  intros Hl [E|?]%same_text; [left|by right]. apply combined_inj in E; auto.
Qed.

Lemma run_id_inj o o' t t' :
  String.length o = String.length o' → GenerateTaskRunID o t = GenerateTaskRunID o' t' →
  (o = o' ∧ t = t') ∨ collide TaskRunNamespace (joined o t) (joined o' t').
Proof.
  intros Hl [E|?]%same_text; [left|by right]. apply combined_inj in E; auto.
Qed.

Lemma attempt_id_inj r r' n n' :
  String.length r = String.length r' → 0 ≤ n → 0 ≤ n' →
  GenerateExecutionAttemptID r n = GenerateExecutionAttemptID r' n' →
  (r = r' ∧ n = n') ∨ collide AttemptNamespace (joined r (fmt_d n)) (joined r' (fmt_d n')).
Proof.
  intros Hl Hn Hn' [E|?]%same_text; [left|by right].
  apply combined_inj in E as [-> E]; [|by left].
  split; [done|by apply (appendInt_inj n n' 0)].
Qed.
End IdInj.

(** ** A concrete library for evaluation

    A 36-digit polynomial hash stands in for SHA-1 where a theorem is
    applied to a concrete run. *)
Module ToyUuid.
Fixpoint poly (s : string) (k : Z) : Z :=
  match s with
  | EmptyString => k
  | String c s' => poly s' ((k * 257 + Z.of_N (N_of_ascii c) + 1) mod 10 ^ 36)
  end.

#[export] Instance toy : UuidLib := {
  UUID := Z;
  MustParse s := poly s 1;
  NewSHA1 ns s := poly s ns;
  UUID_String u := appendInt (u mod 10 ^ 36) 36;
}.

Lemma digit_uuid_char z : 0 ≤ z < 10 → is_uuid_char (digit z) = true.
Proof.
  intros Hz. unfold is_uuid_char, digit. rewrite Ascii.N_ascii_embedding by lia.
  rewrite !orb_true_iff, !andb_true_iff, !N.leb_le. left; left. lia.
Qed.

Lemma digits_chars fuel u acc :
  0 ≤ u → str_all is_uuid_char acc = true →
  str_all is_uuid_char (dec_digits fuel u acc) = true.
Proof.
  revert u acc; induction fuel as [|f IH]; intros u acc Hu Ha; cbn [dec_digits]; [done|].
  destruct (u <? 10) eqn:E.
  - cbn [str_all]. by rewrite digit_uuid_char by lia.
  - apply IH; [zlia|]. cbn [str_all].
    by rewrite digit_uuid_char by (apply Z.mod_pos_bound; lia).
Qed.

Lemma zeros_chars n :
  str_all is_uuid_char (String.concat EmptyString (replicate n "0")) = true.
Proof. induction n as [|[|n] IH]; done. Qed.

#[export] Instance toy_laws : UuidLaws.
Proof.
  assert (Hb : ∀ u, 0 ≤ u mod 10 ^ 36 < 10 ^ 36) by (intros; apply Z.mod_pos_bound; lia).
  split; intros u; simpl UUID_String; specialize (Hb u).
  - apply appendInt_length. change (Z.of_nat 36) with 36. lia.
  - unfold appendInt. rewrite Z.abs_eq by lia.
    destruct (u mod 10 ^ 36 <? 0) eqn:?; [lia|].
    by rewrite append_nil_l, str_all_append, zeros_chars, digits_chars by (lia || done).
Qed.
End ToyUuid.

(** ** Properties *)
Section IdProperties.
Context `{UuidLaws}.

(** The occurrence identifier forgets the location and what is below one
    second. *)
Lemma occurrence_id_granularity j t u :
  unix_sec (inst t) = unix_sec (inst u) →
  GenerateJobOccurrenceID j t = GenerateJobOccurrenceID j u.
Proof.
  intros E. unfold GenerateJobOccurrenceID. by rewrite (FormatRFC3339_same_second t u E).
Qed.

(** The identifier of an attempt, from the names along the chain job,
    occurrence, task run, attempt. *)
Definition attempt_address (j : string) (t : Time) (n : string) (k : Z) : string :=
  GenerateExecutionAttemptID
    (GenerateTaskRunID (GenerateJobOccurrenceID (GenerateJobID j) t)
       (GenerateTaskID (GenerateJobID j) n)) k.

(** The five names hashed on the way to it, each with its namespace. *)
Definition address_names (j : string) (t : Time) (n : string) (k : Z) : list (UUID * string) :=
  let jobID := GenerateJobID j in
  let occID := GenerateJobOccurrenceID jobID t in
  let taskID := GenerateTaskID jobID n in
  [ (JobNamespace, j); (OccurrenceNamespace, joined jobID (FormatRFC3339_UTC t));
    (TaskNamespace, joined jobID n); (TaskRunNamespace, joined occID taskID);
    (AttemptNamespace, joined (GenerateTaskRunID occID taskID) (fmt_d k)) ].

(** C37: an attempt identifier is an address.  Along the chain job, occurrence,
    task run, attempt, two identifiers agree when they name the same job, the
    same scheduled second (in whatever location), the same task and the same
    attempt, so nodes compute the same identifiers without talking; and only
    then, unless the two different names hashed at one level of the chain
    collide.  Every identifier is a legal component of a storage key. *)
Theorem attempt_id_addresses_attempt j j' t t' n n' k k' :
  in_rfc3339_range (inst t) → in_rfc3339_range (inst t') → 0 ≤ k → 0 ≤ k' →
  (j = j' → unix_sec (inst t) = unix_sec (inst t') → n = n' → k = k' →
     attempt_address j t n k = attempt_address j' t' n' k') ∧
  (attempt_address j t n k = attempt_address j' t' n' k' →
     (j = j' ∧ unix_sec (inst t) = unix_sec (inst t') ∧ n = n' ∧ k = k') ∨
     ∃ i ns a b, address_names j t n k !! i = Some (ns, a) ∧
       address_names j' t' n' k' !! i = Some (ns, b) ∧ collide ns a b) ∧
  slash_free (attempt_address j t n k) = true.
Proof.
  intros Ht Ht' Hk Hk'. unfold attempt_address. split_and!; [| |auto with go].
  - intros <- Es <- <-. by rewrite (occurrence_id_granularity _ t t').
  - intros E. apply attempt_id_inj in E as [[E ->]|Hc]; [|right; exists 4%nat; do 3 eexists; by split_and!|by autorewrite with gostr|done..].
    apply run_id_inj in E as [[Eo Et]|Hc]; [|right; exists 3%nat; do 3 eexists; by split_and!|by autorewrite with gostr].
    apply task_id_inj in Et as [[Ej ->]|Hc]; [|right; exists 2%nat; do 3 eexists; by split_and!|by autorewrite with gostr].
    apply occurrence_id_inj in Eo as [[_ Es]|Hc]; [|right; exists 1%nat; do 3 eexists; by split_and!|done..].
    apply same_text in Ej as [->|Hc]; [by left|right; exists 0%nat; do 3 eexists; by split_and!].
Qed.
End IdProperties.

(** Witnesses, over the concrete library. *)
Import ToyUuid.

Lemma attempt_id_addresses_attempt_witness :
  let t := mkTime 1762516800000000000 UTC in
  let t' := mkTime 1762516800000000007 (LocPtr 9) in
  attempt_address "a" t "x" 1 = attempt_address "a" t' "x" 1 ∧
  attempt_address "a" t "x" 1 ≠ attempt_address "a" t "x" 2 ∧
  slash_free (attempt_address "a" t "x" 1) = true.
Proof.
  assert (H : ∀ i, i = 0 ∨ i = 7 → in_rfc3339_range (1762516800000000000 + i))
    by (unfold in_rfc3339_range, Second; intros; lia).
  split; [|split].
  - exact (proj1 (attempt_id_addresses_attempt "a" "a" (mkTime (1762516800000000000 + 0) UTC)
      (mkTime (1762516800000000000 + 7) (LocPtr 9)) "x" "x" 1 1 (H 0 (or_introl eq_refl))
      (H 7 (or_intror eq_refl)) ltac:(lia) ltac:(lia)) eq_refl eq_refl eq_refl eq_refl).
  - vm_compute. discriminate.
  - vm_compute. reflexivity.
Defined.
