(* ===== verification/Job.v ===== *)
(** * job.go: jobs, tasks and their effective configuration

    A task's function is user code: any function of the context it gets, of
    the identity of the attempt and of the instant it is called at, giving
    its error and the time it takes.  A job refers to its ticker by a handle;
    tickers themselves live in the scheduler's state. Hooks are user
    callbacks, known by a handle too. *)
From S2P Require Import Prelude GoTime GoContext Types Ids.
Local Open Scope Z_scope.

Definition TaskFunc := Ctx → ExecutionContext → Instant → option GoError * Duration.

Record Task := mkTask {
  t_ID : string;
  t_Name : string;
  t_Config : TaskConfig;
  t_Order : Z;
  t_Fn : TaskFunc;
}.

Definition TickerRef := positive.
Definition HookRef := positive.

Record Job := mkJob {
  j_ID : string;
  j_Name : string;
  j_Config : JobConfig;
  j_Ticker : TickerRef;
  j_Tasks : list Task;
  j_Version : Z;
  j_Active : bool;
  j_Paused : bool;
  j_OnStart : option HookRef;
  j_OnComplete : option HookRef;
}.

(** [j.Tasks = ts] *)
Definition set_Tasks (j : Job) (ts : list Task) : Job :=
  mkJob (j_ID j) (j_Name j) (j_Config j) (j_Ticker j) ts (j_Version j)
    (j_Active j) (j_Paused j) (j_OnStart j) (j_OnComplete j).

Section Job.
Context `{UuidLib}.

Definition NewJob (name : string) (tick : TickerRef) (config : JobConfig) : Job :=
  mkJob (GenerateJobID name) name config tick [] 1 true false None None.

(** Returns the new job and the task appended to it. *)
Definition AddTask (j : Job) (name : string) (fn : TaskFunc) (config : TaskConfig) : Job * Task :=
  let task := mkTask (GenerateTaskID (j_ID j) name) name config
                (Z.of_nat (length (j_Tasks j))) fn in
  (set_Tasks j (j_Tasks j ++ [task]), task).
End Job.

(** [if p != nil { x = p }] *)
Definition override {A} (x p : option A) : option A :=
  match p with Some _ => p | None => x end.

Lemma override_Some {A} (x p : option A) v :
  override x p = Some v ↔ p = Some v ∨ (p = None ∧ x = Some v).
Proof. destruct p; simpl; split; intuition congruence. Qed.
Lemma override_idem {A} (x p : option A) : override x (override x p) = override x p.
Proof. by destruct p, x. Qed.

Definition GetEffectiveConfig (j : Job) (task : Task) : TaskConfig :=
  let effective := jc_TaskConfig (j_Config j) in
  let c := t_Config task in
  mkTaskConfig
    (override (tc_FailureStrategy effective) (tc_FailureStrategy c))
    (override (tc_RetryPolicy effective) (tc_RetryPolicy c))
    (override (tc_TaskTimeout effective) (tc_TaskTimeout c)).

(** The scan of [IsRunning] over the listed occurrences. *)
Definition occurrence_running (j : Job) (occ : JobOccurrence) : bool :=
  bool_decide (jo_JobID occ = j_ID j) && bool_decide (jo_Status occ = JobStatusRunning).

Definition IsRunning (j : Job) (listRunning : Result (list JobOccurrence)) : Result bool :=
  match listRunning with
  | Err e => Err e
  | Ok occurrences => Ok (existsb (occurrence_running j) occurrences)
  end.

(** ** Well-formed jobs and their lemmas *)

(** The order numbers of the tasks are their positions, the identifiers are
    the generated ones. *)
Definition tasks_wf `{UuidLib} (j : Job) : Prop :=
  ∀ i t, j_Tasks j !! i = Some t →
    t_Order t = Z.of_nat i ∧ t_ID t = GenerateTaskID (j_ID j) (t_Name t).

Lemma NewJob_wf `{UuidLib} name tick config : tasks_wf (NewJob name tick config).
Proof. by intros [|i] t Ht. Qed.

Lemma AddTask_wf `{UuidLib} j name fn c : tasks_wf j → tasks_wf (AddTask j name fn c).1.
Proof.
  intros Hwf i t. unfold AddTask; simpl. rewrite lookup_app_Some.
  intros [Ht|[Hi Ht]]; [by apply Hwf|].
  apply list_lookup_singleton_Some in Ht as [Hi' <-]. simpl. split; [lia|done].
Qed.

Lemma IsRunning_true j l :
  IsRunning j (Ok l) = Ok true ↔
  ∃ o, o ∈ l ∧ jo_JobID o = j_ID j ∧ jo_Status o = JobStatusRunning.
Proof.
  simpl. split.
  - intros [= (o & Ho & Hr)%existsb_exists]. exists o. apply list_elem_of_In in Ho.
    unfold occurrence_running in Hr. rewrite andb_true_iff, !bool_decide_eq_true in Hr. tauto.
  - intros (o & Ho & Hj & Hs). f_equal. apply existsb_exists. exists o.
    unfold occurrence_running. rewrite andb_true_iff, !bool_decide_eq_true.
    by rewrite <- list_elem_of_In.
Qed.

(** ** Properties *)

(** The cascade.  Each field of the effective configuration is the task's
    own value when the task sets it and the job's default otherwise, nothing
    else of either configuration matters, and applying the cascade to its own
    result changes nothing. *)
Lemma effective_config_cascades j task :
  let eff := GetEffectiveConfig j task in
  let d := jc_TaskConfig (j_Config j) in
  let c := t_Config task in
  (∀ x, tc_RetryPolicy eff = Some x ↔
     tc_RetryPolicy c = Some x ∨ (tc_RetryPolicy c = None ∧ tc_RetryPolicy d = Some x)) ∧
  (∀ x, tc_TaskTimeout eff = Some x ↔
     tc_TaskTimeout c = Some x ∨ (tc_TaskTimeout c = None ∧ tc_TaskTimeout d = Some x)) ∧
  (∀ x, tc_FailureStrategy eff = Some x ↔
     tc_FailureStrategy c = Some x ∨
     (tc_FailureStrategy c = None ∧ tc_FailureStrategy d = Some x)) ∧
  GetEffectiveConfig j (mkTask (t_ID task) (t_Name task) eff (t_Order task) (t_Fn task)) = eff.
Proof.
  unfold GetEffectiveConfig; simpl. rewrite !override_idem.
  split_and!; [intros x; apply override_Some..|done].
Qed.
