(* ===== verification/Metrics.v ===== *)
(** * metrics/metrics.go: collectors

    [MetricsCollector] is the interface the executor, the recovery handler and
    the scheduler are given; [NoOpMetrics] and [InMemoryMetrics] implement it.
    Every method of the in-memory collector runs under its mutex, so a call
    is one step. *)
From Stdlib Require Import Ascii.
From S2P Require Import Prelude GoTime Ids.
Local Open Scope Z_scope.

Class MetricsCollector (M : Type) := {
  SetJobsRunning : Z → M → M;
  SetJobsInQueue : Z → M → M;
  SetJobsPaused : Z → M → M;
  IncTaskAttempts : string → string → string → M → M;
  IncJobOccurrences : string → string → M → M;
  IncRecoveryRuns : string → string → M → M;
  ObserveJobDuration : string → Duration → M → M;
  ObserveTaskDuration : string → string → Duration → M → M;
  GetJobsRunning : M → Z;
  GetJobsInQueue : M → Z;
  GetJobsPaused : M → Z;
  GetTaskAttempts : string → string → string → M → Z;
  GetJobOccurrences : string → string → M → Z;
  GetRecoveryRuns : string → string → M → Z;
}.

Module NoOpMetrics.
#[export] Instance collector : MetricsCollector unit := {
  SetJobsRunning _ m := m; SetJobsInQueue _ m := m; SetJobsPaused _ m := m;
  IncTaskAttempts _ _ _ m := m; IncJobOccurrences _ _ m := m; IncRecoveryRuns _ _ m := m;
  ObserveJobDuration _ _ m := m; ObserveTaskDuration _ _ _ m := m;
  GetJobsRunning _ := 0; GetJobsInQueue _ := 0; GetJobsPaused _ := 0;
  GetTaskAttempts _ _ _ _ := 0; GetJobOccurrences _ _ _ := 0; GetRecoveryRuns _ _ _ := 0;
}.
End NoOpMetrics.

Module InMemoryMetrics.
Record t := mk {
  jobsRunning : Z;
  jobsInQueue : Z;
  jobsPaused : Z;
  taskAttempts : gmap string Z;
  jobOccurrences : gmap string Z;
  recoveryRuns : gmap string Z;
  jobDurations : gmap string (list Duration);
  taskDurations : gmap string (list Duration);
}.

Definition New : t := mk 0 0 0 ∅ ∅ ∅ ∅ ∅.

(** Composite keys. *)
Definition key2 (a b : string) : string := a +:+ ":" +:+ b.
Definition key3 (a b c : string) : string := a +:+ ":" +:+ b +:+ ":" +:+ c.

(** [m[key]], the zero value when absent, and [m[key]++] on an [int64]. *)
Definition get (m : gmap string Z) (k : string) : Z := default 0 (m !! k).
Definition incr (k : string) (m : gmap string Z) : gmap string Z :=
  <[k := wrap64 (get m k + 1)]> m.
Definition get_list (m : gmap string (list Duration)) (k : string) : list Duration :=
  default [] (m !! k).
Definition observe (k : string) (d : Duration) (m : gmap string (list Duration)) :=
  <[k := get_list m k ++ [d]]> m.

Definition set_running (n : Z) (m : t) : t :=
  mk n (jobsInQueue m) (jobsPaused m) (taskAttempts m) (jobOccurrences m)
     (recoveryRuns m) (jobDurations m) (taskDurations m).
Definition set_queue (n : Z) (m : t) : t :=
  mk (jobsRunning m) n (jobsPaused m) (taskAttempts m) (jobOccurrences m)
     (recoveryRuns m) (jobDurations m) (taskDurations m).
Definition set_paused (n : Z) (m : t) : t :=
  mk (jobsRunning m) (jobsInQueue m) n (taskAttempts m) (jobOccurrences m)
     (recoveryRuns m) (jobDurations m) (taskDurations m).
Definition inc_attempts (jobName taskName status : string) (m : t) : t :=
  mk (jobsRunning m) (jobsInQueue m) (jobsPaused m)
     (incr (key3 jobName taskName status) (taskAttempts m)) (jobOccurrences m)
     (recoveryRuns m) (jobDurations m) (taskDurations m).
Definition inc_occurrences (jobName status : string) (m : t) : t :=
  mk (jobsRunning m) (jobsInQueue m) (jobsPaused m) (taskAttempts m)
     (incr (key2 jobName status) (jobOccurrences m))
     (recoveryRuns m) (jobDurations m) (taskDurations m).
Definition inc_recovery (jobName strategy : string) (m : t) : t :=
  mk (jobsRunning m) (jobsInQueue m) (jobsPaused m) (taskAttempts m) (jobOccurrences m)
     (incr (key2 jobName strategy) (recoveryRuns m)) (jobDurations m) (taskDurations m).
Definition observe_job (jobName : string) (d : Duration) (m : t) : t :=
  mk (jobsRunning m) (jobsInQueue m) (jobsPaused m) (taskAttempts m) (jobOccurrences m)
     (recoveryRuns m) (observe jobName d (jobDurations m)) (taskDurations m).
Definition observe_task (jobName taskName : string) (d : Duration) (m : t) : t :=
  mk (jobsRunning m) (jobsInQueue m) (jobsPaused m) (taskAttempts m) (jobOccurrences m)
     (recoveryRuns m) (jobDurations m) (observe (key2 jobName taskName) d (taskDurations m)).

Definition get_attempts (jobName taskName status : string) (m : t) : Z :=
  get (taskAttempts m) (key3 jobName taskName status).
Definition get_occurrences (jobName status : string) (m : t) : Z :=
  get (jobOccurrences m) (key2 jobName status).
Definition get_recovery (jobName strategy : string) (m : t) : Z :=
  get (recoveryRuns m) (key2 jobName strategy).

(** Copies of the recorded observations. *)
Definition GetJobDurations (jobName : string) (m : t) : list Duration :=
  get_list (jobDurations m) jobName.
Definition GetTaskDurations (jobName taskName : string) (m : t) : list Duration :=
  get_list (taskDurations m) (key2 jobName taskName).

Definition Reset (m : t) : t := mk 0 0 0 ∅ ∅ ∅ ∅ ∅.

#[export] Instance collector : MetricsCollector t := {
  SetJobsRunning := set_running; SetJobsInQueue := set_queue; SetJobsPaused := set_paused;
  IncTaskAttempts := inc_attempts; IncJobOccurrences := inc_occurrences;
  IncRecoveryRuns := inc_recovery;
  ObserveJobDuration := observe_job; ObserveTaskDuration := observe_task;
  GetJobsRunning := jobsRunning; GetJobsInQueue := jobsInQueue; GetJobsPaused := jobsPaused;
  GetTaskAttempts := get_attempts; GetJobOccurrences := get_occurrences;
  GetRecoveryRuns := get_recovery;
}.

(** ** Counting *)

Definition colon_free (s : string) : bool := str_all (λ c, negb (Ascii.eqb c ":"%char)) s.

Lemma key2_inj a b a' b' :
  colon_free a = true → colon_free a' = true → key2 a b = key2 a' b' → a = a' ∧ b = b'.
Proof.
  unfold key2. revert a'; induction a as [|c a IH]; intros [|c' a'] Ha Ha' E.
  - injection E as E. done.
  - injection E as <- E. done.
  - injection E as -> E. done.
  - rewrite !append_cons in E. injection E as <- E.
    apply andb_true_iff in Ha as [_ Ha]. apply andb_true_iff in Ha' as [_ Ha'].
    destruct (IH a' Ha Ha' E) as [-> ->]. done.
Qed.
Lemma key3_inj a b c a' b' c' :
  colon_free a = true → colon_free a' = true → colon_free b = true → colon_free b' = true →
  key3 a b c = key3 a' b' c' → a = a' ∧ b = b' ∧ c = c'.
Proof.
  intros ???? E. apply (key2_inj a (key2 b c) a' (key2 b' c')) in E as [-> E]; [|done..].
  apply key2_inj in E as [-> ->]; done.
Qed.

Lemma get_incr_eq k m : get (incr k m) k = wrap64 (get m k + 1).
Proof. unfold get at 1, incr. by rewrite lookup_insert_eq. Qed.
Lemma get_incr_ne k k' m : k ≠ k' → get (incr k m) k' = get m k'.
Proof. intros. unfold get, incr. by rewrite lookup_insert_ne. Qed.

Lemma wrap64_succ x y : wrap64 x = wrap64 y → wrap64 (wrap64 x + 1) = wrap64 (y + 1).
Proof.
  unfold wrap64. intros H.
  replace ((x + 2 ^ 63) mod 2 ^ 64 - 2 ^ 63 + 1 + 2 ^ 63)
    with ((y + 2 ^ 63) mod 2 ^ 64 + 1) by lia.
  rewrite Zplus_mod_idemp_l. f_equal. f_equal. lia.
Qed.

(** A map of counters fed a sequence of keys counts each of them modulo 2^64. *)
Lemma get_foldl_incr ks k :
  get (foldl (λ m x, incr x m) ∅ ks) k = wrap64 (Z.of_nat (count_occ String.eq_dec ks k)).
Proof.
  rewrite <- (rev_involutive ks). generalize (rev ks). clear ks. intros ks.
  rewrite count_occ_rev.
  induction ks as [|x ks IH]; [done|].
  simpl rev. rewrite foldl_app. simpl. destruct (String.eq_dec x k) as [->|Hne].
  - rewrite get_incr_eq, IH, Nat2Z.inj_succ. by apply wrap64_succ.
  - by rewrite get_incr_ne.
Qed.

(** C38: the attempt counter of a job, task and status holds, after any
    sequence of recorded attempts on a fresh collector, as an [int64], exactly
    the number of attempts recorded under names that make the same key, the
    three joined by colons.  When no job or task name contains a colon these
    are the attempts recorded under the very names. *)
Theorem attempt_counter_exact (evs : list (string * string * string)) j t s :
  let joined '(j', t', s') := j' +:+ ":" +:+ t' +:+ ":" +:+ s' in
  GetTaskAttempts j t s (foldl (λ m '(j', t', s'), IncTaskAttempts j' t' s' m) New evs)
    = wrap64 (Z.of_nat (length (filter (λ e, joined e = joined (j, t, s)) evs))) ∧
  (Forall (λ '(j', t', _), colon_free j' = true ∧ colon_free t' = true) ((j, t, s) :: evs) →
   filter (λ e, joined e = joined (j, t, s)) evs = filter (λ e, e = (j, t, s)) evs).
Proof.
  simpl. unfold get_attempts. split.
  - assert (Hf : ∀ m, taskAttempts (foldl (λ m '(j', t', s'), inc_attempts j' t' s' m) m evs)
      = foldl (λ m x, incr x m) (taskAttempts m) ((λ '(j', t', s'), key3 j' t' s') <$> evs)).
    { clear. induction evs as [|[[j' t'] s'] evs IH]; intros m; [done|]. simpl. by rewrite IH. }
    rewrite Hf. simpl. rewrite get_foldl_incr. do 2 f_equal. clear Hf.
    induction evs as [|[[j' t'] s'] evs IH]; [done|].
    cbn [fmap list_fmap count_occ]. rewrite filter_cons. unfold key3 at 1 3.
    destruct (String.eq_dec _ _), (decide _); simpl; by rewrite ?IH.
  - intros [[Hj Ht] Hall]%Forall_cons. induction Hall as [|[[j' t'] s'] evs [Hj' Ht'] _ IH]; [done|].
    rewrite !filter_cons, IH.
    destruct (decide _) as [E|Hne], (decide (_ = (_, _, _))) as [E'|Hne']; try done.
    + apply key3_inj in E as (-> & -> & ->); done.
    + by injection E' as -> -> ->.
Qed.

(** With colons in the names two different series share one counter. *)
Lemma composite_keys_collide :
  GetTaskAttempts "a" "b:c" "Success" (IncTaskAttempts "a:b" "c" "Success" New) = 1.
Proof. vm_compute. reflexivity. Qed.

Lemma attempt_counter_exact_witness :
  let evs := [("a", "x", "Failed"); ("b", "x", "Failed"); ("a", "x", "Failed"); ("a", "x", "Success")] in
  let joined '(j', t', s') := j' +:+ ":" +:+ t' +:+ ":" +:+ s' in
  GetTaskAttempts "a" "x" "Failed"
    (foldl (λ m '(j', t', s'), IncTaskAttempts j' t' s' m) New evs) = 2 ∧
  filter (λ e, joined e = "a:x:Failed") evs = [("a", "x", "Failed"); ("a", "x", "Failed")].
Proof.
  intros evs joined. destruct (attempt_counter_exact evs "a" "x" "Failed") as [Hc Hf].
  split; [rewrite Hc; reflexivity|].
  rewrite <- (eq_refl : joined ("a", "x", "Failed") = "a:x:Failed").
  etransitivity; [apply Hf; repeat constructor|reflexivity].
Defined.
End InMemoryMetrics.
