(* ===== verification/Pool.v ===== *)
(** * concurrency/pool.go: the worker pool

    The goroutines around a pool are a machine.  A worker is idle at its
    [select], runs a task, or has returned.  A client in [Submit] has passed
    the mutex and sits at the [select] of [Submit].  [Stop] keeps the mutex
    from its first check to its return; [mu] records how far it is.  The two
    channels are the queue contents and two closed flags; a [select] with
    several ready cases may take any of them, so each case is an action of
    its own.  Receiving from a closed channel delivers what is buffered
    first.  [accepted], [finished], [sync_ran] and [dropped] are history. *)
From S2P Require Import Prelude.
Local Open Scope Z_scope.

Module WorkerPool.
Section Pool.
(** A task is a [func()]; only its identity matters here. *)
Context {task : Type}.

Inductive worker := Idle | Running (t : task) | Exited.

(** Who holds the mutex: nobody, or a [Stop] that is about to close the
    stop channel, about to close the queue, or waiting for the workers. *)
Inductive mutex := Free | StopLocked | StopClosing | StopWaiting.

Record t := mk {
  maxWorkers : Z;
  taskQueue : list task;
  stopClosed : bool;
  queueClosed : bool;
  started : bool;
  workers : list worker;
  submitting : list task;
  mu : mutex;
  accepted : list task;
  finished : list task;
  sync_ran : list task;
  dropped : list task;
}.

Definition New (n : Z) : t :=
  mk (if n <=? 0 then 10 else n) [] false false false [] [] Free [] [] [] [].

(** [make(chan func(), maxWorkers*2)] *)
Definition capacity (p : t) : Z := maxWorkers p * 2.
Definition QueueLength (p : t) : Z := Z.of_nat (length (taskQueue p)).
Definition MaxWorkers (p : t) : Z := maxWorkers p.

Inductive action :=
| AStart
| ASubmitSync (x : task)      (* Submit on a pool that is not started: runs task() *)
| ASubmit (x : task)          (* Submit up to its select *)
| AEnqueue (i : nat)          (* the select of Submit sends *)
| AReject (i : nat)           (* the select of Submit sees stopCh closed *)
| ATake (i : nat)             (* worker i receives a task *)
| AFinish (i : nat)           (* worker i's task returns *)
| AExitStop (i : nat)         (* worker i sees stopCh closed *)
| AExitClosed (i : nat)       (* worker i sees the queue closed and empty *)
| AStopNoop                   (* Stop on a pool that is not started *)
| AStopLock | AStopCloseStop | AStopCloseQueue
| AStopReturn.                (* wg.Wait() returns, started = false *)

Definition set_workers (p : t) (q : list task) (ws : list worker) (fin : list task) : t :=
  mk (maxWorkers p) q (stopClosed p) (queueClosed p) (started p) ws
     (submitting p) (mu p) (accepted p) fin (sync_ran p) (dropped p).

Definition Start (p : t) : StepResult t :=
  match mu p with
  | Free =>
      if started p then Next p
      else Next (mk (maxWorkers p) (taskQueue p) (stopClosed p) (queueClosed p) true
             (workers p ++ replicate (Z.to_nat (maxWorkers p)) Idle)
             (submitting p) Free (accepted p) (finished p) (sync_ran p) (dropped p))
  | _ => Disabled
  end.

(** One case of [Submit] per action. *)
Definition Submit_check (p : t) (x : task) : StepResult t :=
  match mu p with
  | Free =>
      if started p then
        Next (mk (maxWorkers p) (taskQueue p) (stopClosed p) (queueClosed p) true (workers p)
                (submitting p ++ [x]) Free (accepted p) (finished p) (sync_ran p) (dropped p))
      else Disabled
  | _ => Disabled
  end.
Definition Submit_sync (p : t) (x : task) : StepResult t :=
  match mu p with
  | Free =>
      if started p then Disabled
      else Next (mk (maxWorkers p) (taskQueue p) (stopClosed p) (queueClosed p) false (workers p)
                   (submitting p) Free (accepted p) (finished p) (sync_ran p ++ [x]) (dropped p))
  | _ => Disabled
  end.
Definition Submit_send (p : t) (i : nat) : StepResult t :=
  match submitting p !! i with
  | None => Disabled
  | Some x =>
      if queueClosed p then Panicked "send on closed channel"
      else if QueueLength p <? capacity p then
        Next (mk (maxWorkers p) (taskQueue p ++ [x]) (stopClosed p) (queueClosed p) (started p)
                (workers p) (delete i (submitting p)) (mu p) (accepted p ++ [x])
                (finished p) (sync_ran p) (dropped p))
      else Disabled
  end.
Definition Submit_stopped (p : t) (i : nat) : StepResult t :=
  match submitting p !! i with
  | None => Disabled
  | Some x =>
      if stopClosed p then
        Next (mk (maxWorkers p) (taskQueue p) (stopClosed p) (queueClosed p) (started p)
                (workers p) (delete i (submitting p)) (mu p) (accepted p)
                (finished p) (sync_ran p) (dropped p ++ [x]))
      else Disabled
  end.

(** The loop of [worker], one case of its [select] per action. *)
Definition worker_receive (p : t) (i : nat) : StepResult t :=
  match workers p !! i, taskQueue p with
  | Some Idle, x :: q => Next (set_workers p q (<[i := Running x]> (workers p)) (finished p))
  | _, _ => Disabled
  end.
Definition worker_finish (p : t) (i : nat) : StepResult t :=
  match workers p !! i with
  | Some (Running x) =>
      Next (set_workers p (taskQueue p) (<[i := Idle]> (workers p)) (finished p ++ [x]))
  | _ => Disabled
  end.
Definition worker_stop (p : t) (i : nat) : StepResult t :=
  match workers p !! i with
  | Some Idle =>
      if stopClosed p then
        Next (set_workers p (taskQueue p) (<[i := Exited]> (workers p)) (finished p))
      else Disabled
  | _ => Disabled
  end.
Definition worker_closed (p : t) (i : nat) : StepResult t :=
  match workers p !! i, taskQueue p with
  | Some Idle, [] =>
      if queueClosed p then Next (set_workers p [] (<[i := Exited]> (workers p)) (finished p))
      else Disabled
  | _, _ => Disabled
  end.

Definition is_exited (w : worker) : bool := match w with Exited => true | _ => false end.

Definition set_stop (p : t) (m : mutex) (sc qc st : bool) : t :=
  mk (maxWorkers p) (taskQueue p) sc qc st (workers p) (submitting p) m
     (accepted p) (finished p) (sync_ran p) (dropped p).

(** The statements of [Stop], in order. *)
Definition Stop_noop (p : t) : StepResult t :=
  match mu p with Free => if started p then Disabled else Next p | _ => Disabled end.
Definition Stop_lock (p : t) : StepResult t :=
  match mu p with
  | Free => if started p
            then Next (set_stop p StopLocked (stopClosed p) (queueClosed p) true) else Disabled
  | _ => Disabled
  end.
Definition Stop_close_stop (p : t) : StepResult t :=
  match mu p with
  | StopLocked =>
      if stopClosed p then Panicked "close of closed channel"
      else Next (set_stop p StopClosing true (queueClosed p) (started p))
  | _ => Disabled
  end.
Definition Stop_close_queue (p : t) : StepResult t :=
  match mu p with
  | StopClosing =>
      if queueClosed p then Panicked "close of closed channel"
      else Next (set_stop p StopWaiting (stopClosed p) true (started p))
  | _ => Disabled
  end.
Definition Stop_return (p : t) : StepResult t :=
  match mu p with
  | StopWaiting =>
      if forallb is_exited (workers p)
      then Next (set_stop p Free (stopClosed p) (queueClosed p) false) else Disabled
  | _ => Disabled
  end.

Definition step (p : t) (a : action) : StepResult t :=
  match a with
  | AStart => Start p
  | ASubmitSync x => Submit_sync p x
  | ASubmit x => Submit_check p x
  | AEnqueue i => Submit_send p i
  | AReject i => Submit_stopped p i
  | ATake i => worker_receive p i
  | AFinish i => worker_finish p i
  | AExitStop i => worker_stop p i
  | AExitClosed i => worker_closed p i
  | AStopNoop => Stop_noop p
  | AStopLock => Stop_lock p
  | AStopCloseStop => Stop_close_stop p
  | AStopCloseQueue => Stop_close_queue p
  | AStopReturn => Stop_return p
  end.

(** ** The invariant *)

Definition running_of (w : worker) : option task :=
  match w with Running x => Some x | _ => None end.
Definition running (p : t) : list task := omap running_of (workers p).
Definition alive (ws : list worker) : list worker := filter (λ w, is_exited w = false) ws.

Arguments alive : simpl never.

Record inv (n : Z) (p : t) : Prop := {
  inv_max : maxWorkers p = n;
  inv_queue : QueueLength p ≤ capacity p;
  inv_alive : Z.of_nat (length (alive (workers p))) ≤ maxWorkers p;
  inv_stopped : started p = false → alive (workers p) = [];
  inv_conserve : accepted p ≡ₚ taskQueue p ++ running p ++ finished p;
  inv_closed : queueClosed p = true → stopClosed p = true;
  inv_mutex : match mu p with
              | Free => True
              | StopLocked => started p = true
              | StopClosing => started p = true ∧ stopClosed p = true
              | StopWaiting => started p = true ∧ queueClosed p = true
              end;
}.

Lemma inv_New n : inv (maxWorkers (New n)) (New n).
Proof. split; unfold QueueLength, capacity; simpl; try done; destruct (n <=? 0) eqn:?; lia. Qed.

Lemma forallb_exited ws : forallb is_exited ws = true ↔ alive ws = [].
Proof.
  unfold alive. induction ws as [|[|x|] ws IH]; [done| | |exact IH]; by split.
Qed.

Lemma alive_cons w ws : alive (w :: ws) = if is_exited w then alive ws else w :: alive ws.
Proof. by destruct w. Qed.
Lemma running_le_alive ws : (length (omap running_of ws) ≤ length (alive ws))%nat.
Proof.
  induction ws as [|w ws IH]; [done|].
  change (w :: ws) with ([w] ++ ws) at 1. rewrite omap_app, length_app, alive_cons.
  destruct w; cbn [is_exited length omap list_omap running_of]; lia.
Qed.
Lemma alive_app ws ws' : alive (ws ++ ws') = alive ws ++ alive ws'.
Proof. apply filter_app. Qed.

(** Replacing one worker's state. *)
Lemma worker_change ws i w w' :
  ws !! i = Some w →
  (omap running_of (<[i := w']> ws) ++ option_list (running_of w) ≡ₚ
     omap running_of ws ++ option_list (running_of w')) ∧
  (length (alive (<[i := w']> ws)) + length (alive [w]) =
     length (alive ws) + length (alive [w']))%nat.
Proof.
  intros (l1 & l2 & -> & -> & _)%lookup_split. split.
  - rewrite !omap_app. simpl. destruct (running_of w), (running_of w'); simpl; solve_Permutation.
  - rewrite !alive_app, !length_app.
    change (alive (?x :: l2)) with (alive ([x] ++ l2)). 
    rewrite (alive_app [w] l2), (alive_app [w'] l2), !length_app. lia.
Qed.

Lemma alive_spawn n : alive (replicate n Idle) = replicate n Idle.
Proof. induction n as [|n IH]; [done|]. exact (f_equal (cons Idle) IH). Qed.
Lemma running_spawn n : omap running_of (replicate n Idle) = [].
Proof. by induction n. Qed.

(** A worker that has not returned moves on; what leaves the queue or the
    worker goes to the worker or to the finished tasks. *)
Lemma inv_worker n p i w w' q fin :
  inv n p → workers p !! i = Some w → is_exited w = false →
  (length q ≤ length (taskQueue p))%nat →
  q ++ option_list (running_of w') ++ fin ≡ₚ
    taskQueue p ++ option_list (running_of w) ++ finished p →
  inv n (set_workers p q (<[i := w']> (workers p)) fin).
Proof.
  intros [Hm Hq Ha Hs Hc Hcl Hmu] Hw Hex Hlen Hperm.
  destruct (worker_change _ _ _ w' Hw) as [Hrun Hal].
  assert (H1 : length (alive [w]) = 1%nat) by (by destruct w).
  assert (H2 : (length (alive [w']) ≤ 1)%nat) by (destruct w'; repeat constructor).
  split; unfold QueueLength, capacity, running in *; simpl in *; try done; [lia|lia| |].
  - intros Hst. rewrite (Hs Hst) in Hal. apply nil_length_inv. simpl in Hal. lia.
  - rewrite Hc. apply (Permutation_app_inv_r (option_list (running_of w))).
    trans ((taskQueue p ++ option_list (running_of w) ++ finished p) ++ omap running_of (workers p));
      [solve_Permutation|rewrite <- Hperm].
    trans (q ++ (omap running_of (workers p) ++ option_list (running_of w')) ++ fin);
      [solve_Permutation|rewrite <- Hrun; solve_Permutation].
Qed.

Lemma inv_step n p a p' : 1 ≤ n → inv n p → step p a = Next p' → inv n p'.
Proof.
  intros Hn Hi E. pose proof Hi as [Hm Hq Ha Hs Hc Hcl Hmu].
  destruct a; simpl in E.
  - unfold Start in E; cases_in E; [done|].
    split; unfold QueueLength, capacity, running in *; simpl in *; try done.
    + rewrite alive_app, (Hs eq_refl), alive_spawn. simpl. rewrite length_replicate. lia.
    + by rewrite omap_app, running_spawn, app_nil_r.
  - unfold Submit_sync in E; cases_in E; split; by simpl in *.
  - unfold Submit_check in E; cases_in E; split; by simpl in *.
  - unfold Submit_send in E; cases_in E.
    split; unfold QueueLength, capacity, running in *; simpl in *; try done.
    + rewrite length_app. simpl. lia.
    + rewrite Hc. solve_Permutation.
  - unfold Submit_stopped in E; cases_in E; split; by simpl in *.
  - unfold worker_receive in E; cases_in E.
    eapply inv_worker; eauto; rewrite Heql; simpl; [lia|solve_Permutation].
  - unfold worker_finish in E; cases_in E.
    eapply inv_worker; eauto; simpl; solve_Permutation.
  - unfold worker_stop in E; cases_in E. eapply inv_worker; eauto.
  - unfold worker_closed in E; cases_in E.
    eapply inv_worker; eauto; by rewrite Heql.
  - unfold Stop_noop in E; cases_in E; done.
  - unfold Stop_lock in E; cases_in E; split; by simpl in *.
  - unfold Stop_close_stop in E; cases_in E; rewrite ?Heqm in Hmu; split; by simpl in *.
  - unfold Stop_close_queue in E; cases_in E; rewrite ?Heqm in Hmu.
    destruct Hmu; split; simpl in *; try done; by intros _.
  - unfold Stop_return in E; cases_in E; split; simpl in *; try done.
    intros _. by apply forallb_exited.
Qed.

Lemma inv_reachable n p : reachable step (New n) p → inv (maxWorkers (New n)) p.
Proof.
  apply (reachable_ind step); [apply inv_New|]. intros s a s' Hi.
  apply inv_step; [|done]. simpl. destruct (n <=? 0) eqn:?; lia.
Qed.

(** ** Stop returns *)

Definition winding_down (a : action) : Prop :=
  match a with AFinish _ | AExitStop _ => True | _ => False end.

(** What is left to do for one worker: an idle one has to return, a busy one
    has to finish first. *)
Definition todo (ws : list worker) : nat := length (alive ws) + length (omap running_of ws).

Lemma todo_change ws i w w' :
  ws !! i = Some w → (todo (<[i := w']> ws) + todo [w] = todo ws + todo [w'])%nat.
Proof.
  intros Hi. destruct (worker_change _ _ _ w' Hi) as [Hr%Permutation_length Ha].
  rewrite !length_app in Hr.
  assert (E : ∀ v, todo [v] = (length (alive [v]) + length (option_list (running_of v)))%nat)
    by (by intros []).
  rewrite !E. unfold todo. lia.
Qed.

Lemma worker_moves p i w :
  stopClosed p = true → workers p !! i = Some w → is_exited w = false →
  ∃ a w' fin, winding_down a ∧ (todo [w'] < todo [w])%nat ∧
    step p a = Next (set_workers p (taskQueue p) (<[i := w']> (workers p)) fin).
Proof.
  intros Hs Hi Hex. destruct w as [|x|]; [| |done].
  - exists (AExitStop i), Exited, (finished p). split_and!; [done|by constructor|].
    simpl. unfold worker_stop. by rewrite Hi, Hs.
  - exists (AFinish i), Idle, (finished p ++ [x]). split_and!; [done|by constructor|].
    simpl. unfold worker_finish. by rewrite Hi.
Qed.

(** While [Stop] waits, a worker that has not returned can always move, and
    the workers' moves end with all of them gone. *)
Lemma exec_finish_all p :
  stopClosed p = true →
  ∃ acts ws fin, exec step p acts = Next (set_workers p (taskQueue p) ws fin) ∧
    alive ws = [] ∧ Forall winding_down acts.
Proof.
  induction p as [p IH] using (induction_ltof1 _ (λ p, todo (workers p))). intros Hs.
  destruct (alive (workers p)) as [|w l] eqn:El.
  { exists [], (workers p), (finished p). by destruct p. }
  assert (Hw : w ∈ alive (workers p)) by (rewrite El; by left).
  apply list_elem_of_filter in Hw as [Hex [i Hi]%list_elem_of_lookup].
  destruct (worker_moves p i w Hs Hi Hex) as (a & w' & fin & Ha & Hlt & Hstep).
  pose proof (todo_change _ _ _ w' Hi) as Htodo.
  destruct (IH (set_workers p (taskQueue p) (<[i := w']> (workers p)) fin))
    as (acts & ws & fin' & He & Hws & Hf); [unfold ltof; simpl; lia|done|].
  exists (a :: acts), ws, fin'. split_and!; [|done|by constructor].
  simpl. by rewrite Hstep.
Qed.

(** ** Properties *)

(** C18: in every state the pool can reach from [NewWorkerPool(n)] no more than
    [maxWorkers] workers (n, or 10 when n is not positive) have work or wait for
    it, the queue holds at most twice as many tasks, and every task whose
    submission was accepted is in exactly one place: queued, being run by
    one worker, or finished.  None is lost and none runs twice. *)
Theorem pool_bounded_and_conserving n p :
  reachable step (New n) p →
  maxWorkers p = (if n <=? 0 then 10 else n) ∧
  Z.of_nat (length (running p)) ≤ Z.of_nat (length (alive (workers p))) ≤ maxWorkers p ∧
  QueueLength p ≤ 2 * maxWorkers p ∧
  accepted p ≡ₚ taskQueue p ++ running p ++ finished p.
Proof.
  intros Hr. destruct (inv_reachable n p Hr) as [Hm Hq Ha _ Hc _ _].
  unfold capacity in Hq. split_and!; [exact Hm| |exact Ha|lia|exact Hc].
  apply inj_le, running_le_alive.
Qed.

(** C31: [Stop] always can return.  From any reachable state in which it waits
    for the workers, letting running tasks finish and idle workers see the
    closed stop channel leads to its return, after which every worker has
    returned and the pool is not started; until then nobody gets past the
    mutex, so a task that itself calls [Submit] cannot proceed. *)
Theorem pool_stop_returns n p :
  reachable step (New n) p → mu p = StopWaiting →
  (∃ acts p', exec step p (acts ++ [AStopReturn]) = Next p' ∧
     started p' = false ∧ alive (workers p') = [] ∧ mu p' = Free ∧
     Forall winding_down acts) ∧
  (∀ x, step p (ASubmit x) = Disabled ∧ step p (ASubmitSync x) = Disabled) ∧
  step p AStart = Disabled ∧ step p AStopLock = Disabled.
Proof.
  intros Hr Hm. destruct (inv_reachable n p Hr) as [_ _ _ _ _ Hcl Hmu].
  rewrite Hm in Hmu. destruct Hmu as [_ Hq].
  split; [|by simpl; unfold Submit_check, Submit_sync, Start, Stop_lock; rewrite Hm].
  destruct (exec_finish_all p (Hcl Hq)) as (acts & ws & fin & He & Ha & Hf).
  exists acts. eexists. rewrite exec_app, He. simpl. unfold Stop_return. simpl.
  rewrite Hm, (proj2 (forallb_exited _) Ha). by split_and!.
Qed.

(** [Stop] does not drain the queue.  Whatever the size of the pool, a task
    whose submission was accepted can still be in the queue, never started,
    when [Stop] has returned and all workers are gone: a worker that finds
    both channels ready may take either. *)
Lemma pool_stop_may_abandon n x :
  ∃ p, reachable step (New n) p ∧ mu p = Free ∧ started p = false ∧ queueClosed p = true ∧
       accepted p = [x] ∧ taskQueue p = [x] ∧ finished p = [] ∧ sync_ran p = [].
Proof.
  set (acts := [AStart; ASubmit x; AEnqueue 0; AStopLock; AStopCloseStop; AStopCloseQueue]).
  assert (∃ p, exec step (New n) acts = Next p ∧ mu p = StopWaiting ∧ stopClosed p = true ∧
    queueClosed p = true ∧ accepted p = [x] ∧ taskQueue p = [x] ∧ sync_ran p = [])
    as (p & E & Hm & Hs & Hqc & Hacc & Hq & Hsync).
  { assert (Hcap : (0 <? (if n <=? 0 then 10 else n) * 2) = true) by (destruct (n <=? 0) eqn:?; lia).
    subst acts. unfold New. revert Hcap. generalize (if n <=? 0 then 10 else n) as m. intros m Hcap.
    eexists. simpl. unfold Submit_send, QueueLength, capacity. simpl. change (Z.of_nat 0) with 0. by rewrite Hcap. }
  destruct (exec_finish_all p Hs) as (acts' & ws & fin & He & Ha & _).
  set (p' := set_stop (set_workers p (taskQueue p) ws fin) Free (stopClosed p) (queueClosed p) false).
  assert (Hr : reachable step (New n) p').
  { exists (acts ++ acts' ++ [AStopReturn]). rewrite exec_app, E, exec_app, He.
    simpl. unfold Stop_return. simpl. by rewrite Hm, (proj2 (forallb_exited _) Ha). }
  pose proof (inv_conserve _ _ (inv_reachable n p' Hr)) as Hc.
  exists p'. simpl in *. rewrite Hacc, Hq in Hc. apply Permutation_length in Hc.
  rewrite !length_app in Hc. simpl in Hc. split_and!; try done.
  apply nil_length_inv. lia.
Qed.

(** A stopped pool cannot be started again.  In any reachable state where
    [Stop] has returned, [Submit] runs its task in the caller; after another
    [Start] a second [Stop] panics on the closed stop channel, and a [Submit]
    whose select takes the send case panics on the closed queue. *)
Lemma pool_not_restartable n p x :
  reachable step (New n) p → mu p = Free → started p = false → queueClosed p = true →
  (∃ p', step p (ASubmitSync x) = Next p' ∧ sync_ran p' = sync_ran p ++ [x] ∧
     taskQueue p' = taskQueue p) ∧
  exec step p [AStart; AStopLock; AStopCloseStop] = Panicked "close of closed channel" ∧
  exec step p [AStart; ASubmit x; AEnqueue (length (submitting p))]
    = Panicked "send on closed channel".
Proof.
  intros Hr Hm Hs Hq. pose proof (inv_closed _ _ (inv_reachable n p Hr) Hq) as Hsc.
  split_and!; simpl; unfold Submit_sync, Start; rewrite Hm, Hs; [by eexists|..]; simpl.
  - unfold Stop_close_stop. simpl. by rewrite Hsc.
  - unfold Submit_send. simpl. rewrite lookup_app_r, Nat.sub_diag by lia. simpl. by rewrite Hq.
Qed.

(** Until it is started again, a stopped pool touches neither its queue nor a
    worker. *)
Definition stopped (p : t) : Prop :=
  mu p = Free ∧ started p = false ∧ queueClosed p = true ∧ Forall (λ w, is_exited w = true) (workers p).

Lemma stopped_step p a p' :
  stopped p → a ≠ AStart → step p a = Next p' →
  stopped p' ∧ taskQueue p' = taskQueue p ∧ finished p' = finished p.
Proof.
  intros (Hm & Hs & Hq & Hw) Ha E.
  assert (Hpc : ∀ i w, workers p !! i = Some w → is_exited w = true)
    by (intros i w Hi; by eapply (Forall_lookup_1 _ _ _ _ Hw)).
  destruct a; simpl in E; unfold Submit_sync, Submit_check, Submit_send, Submit_stopped, worker_receive,
    worker_finish, worker_stop, worker_closed, Stop_noop, Stop_lock, Stop_close_stop, Stop_close_queue,
    Stop_return in E; try rewrite Hm in E; try rewrite Hs in E; try rewrite Hq in E; cases_in E; try done;
    try (by apply Hpc in Heqo); by injection E as <-.
Qed.
Lemma stopped_exec p acts p' :
  stopped p → AStart ∉ acts → exec step p acts = Next p' →
  taskQueue p' = taskQueue p ∧ finished p' = finished p ∧ started p' = false.
Proof.
  revert p. induction acts as [|a acts IH]; intros p Hp Hno E; cbn [exec] in E.
  { injection E as <-. split_and!; [done..|apply Hp]. }
  apply not_elem_of_cons in Hno as [Ha Hno]. destruct (step p a) as [|p1|] eqn:E1; [done| |done].
  destruct (stopped_step p a p1 Hp ltac:(congruence) E1) as (Hp1 & <- & <-). by apply IH.
Qed.

(** A worker of the second start finds what the first one left. *)
Lemma restart_runs_queued n p y q :
  reachable step (New n) p → stopped p → taskQueue p = y :: q →
  let i := length (workers p) in
  ∃ p', exec step p [AStart; ATake i; AFinish i] = Next p' ∧
    taskQueue p' = q ∧ finished p' = finished p ++ [y].
Proof.
  intros Hr (Hm & Hs & _) Hq i.
  assert (Hpos : ∃ k, Z.to_nat (maxWorkers p) = Datatypes.S k).
  { rewrite (inv_max _ _ (inv_reachable n p Hr)). exists (pred (Z.to_nat (if n <=? 0 then 10 else n))).
    unfold New; cbn [maxWorkers]. destruct (Z.leb_spec n 0); lia. }
  destruct Hpos as [k Hk]. subst i. simpl. unfold Start. rewrite Hm, Hs, Hk. simpl. unfold worker_receive.
  simpl. rewrite lookup_app_r, Nat.sub_diag, Hq by lia. simpl. unfold worker_finish. simpl.
  rewrite list_lookup_insert_eq by (rewrite length_app; simpl; lia). simpl. by eexists.
Qed.

(** C40: after [Stop].  Whatever the size of the pool, a task whose submission
    was accepted can be left in the queue, never started, when [Stop] has
    returned.  In every reachable state where [Stop] has returned, what is in
    the queue stays there and no task of the queue runs, whatever is done, as
    long as the pool is not started again; a worker of another [Start] can
    take the first of the queue and run it; [Submit] runs its task in the
    caller.  But after another [Start] a second [Stop] panics on the closed
    stop channel, and a [Submit] that takes the send case panics on the closed
    queue. *)
Theorem pool_stop_is_final n x :
  (∃ p, reachable step (New n) p ∧ mu p = Free ∧ started p = false ∧ queueClosed p = true ∧
     accepted p = [x] ∧ taskQueue p = [x] ∧ finished p = [] ∧ sync_ran p = []) ∧
  ∀ p, reachable step (New n) p → mu p = Free → started p = false → queueClosed p = true →
    (∀ acts p', AStart ∉ acts → exec step p acts = Next p' →
       taskQueue p' = taskQueue p ∧ finished p' = finished p ∧ started p' = false) ∧
    (∀ y q, taskQueue p = y :: q →
       ∃ p', exec step p [AStart; ATake (length (workers p)); AFinish (length (workers p))] = Next p' ∧
         taskQueue p' = q ∧ finished p' = finished p ++ [y]) ∧
    (∃ p', step p (ASubmitSync x) = Next p' ∧ sync_ran p' = sync_ran p ++ [x] ∧
       taskQueue p' = taskQueue p) ∧
    exec step p [AStart; AStopLock; AStopCloseStop] = Panicked "close of closed channel" ∧
    exec step p [AStart; ASubmit x; AEnqueue (length (submitting p))]
      = Panicked "send on closed channel".
Proof.
  split; [apply pool_stop_may_abandon|]. intros p Hr Hm Hs Hq.
  assert (Hst : stopped p).
  { split_and!; [done..|]. apply Forall_forall. intros w Hw. destruct (is_exited w) eqn:E; [done|].
    pose proof (inv_stopped _ _ (inv_reachable n p Hr) Hs) as Ha.
    assert (Hin : w ∈ alive (workers p)) by (by apply list_elem_of_filter). rewrite Ha in Hin. by apply elem_of_nil in Hin. }
  split; [intros acts p' Hno; by apply stopped_exec|].
  split; [intros y q Hy; by eapply restart_runs_queued|]. by eapply pool_not_restartable.
Qed.
End Pool.
Arguments worker : clear implicits.
Arguments t : clear implicits.
Arguments action : clear implicits.

(** ** Witnesses: a pool of two workers and three tasks *)

Definition demo_run : list (action nat) :=
  [AStart; ASubmit 1%nat; AEnqueue 0; ASubmit 2%nat; AEnqueue 0; ASubmit 3%nat; AEnqueue 0;
   ATake 0; ATake 1; AFinish 0; AStopLock; AStopCloseStop; AStopCloseQueue].
Definition demo_state : t nat :=
  match exec step (New 2) demo_run with Next p => p | _ => New 2 end.
Definition demo_run2 : list (action nat) :=
  demo_run ++ [AExitStop 0; AFinish 1; AExitStop 1; AStopReturn].
Definition demo_stopped : t nat :=
  match exec step (New 2) demo_run2 with Next p => p | _ => New 2 end.

Lemma demo_reachable : reachable step (New 2) demo_state.
Proof. exists demo_run. vm_compute. reflexivity. Qed.
Lemma demo_stopped_reachable : reachable step (New 2) demo_stopped.
Proof. exists demo_run2. vm_compute. reflexivity. Qed.

Lemma pool_bounded_and_conserving_witness :
  running demo_state = [2%nat] ∧ accepted demo_state ≡ₚ [3%nat] ++ [2%nat] ++ [1%nat].
Proof.
  split; [reflexivity|].
  apply (pool_bounded_and_conserving 2 demo_state demo_reachable).
Defined.

Lemma pool_stop_returns_witness :
  mu demo_state = StopWaiting ∧ step demo_state (ASubmit 9%nat) = Disabled.
Proof.
  split; [reflexivity|].
  exact (proj1 (proj1 (proj2 (pool_stop_returns 2 demo_state demo_reachable eq_refl)) 9%nat)).
Defined.

Lemma pool_stop_is_final_witness :
  taskQueue demo_stopped = [3%nat] ∧
  (∃ p', exec step demo_stopped [AStart; ATake 2; AFinish 2] = Next p' ∧
     taskQueue p' = [] ∧ finished p' = finished demo_stopped ++ [3%nat]) ∧
  exec step demo_stopped [AStart; AStopLock; AStopCloseStop] = Panicked "close of closed channel".
Proof.
  destruct (proj2 (pool_stop_is_final 2 9%nat) demo_stopped demo_stopped_reachable eq_refl eq_refl eq_refl)
    as (_ & Hrun & _ & Hstop & _).
  split; [reflexivity|]. split; [exact (Hrun 3%nat [] eq_refl)|exact Hstop].
Defined.
End WorkerPool.
