(* ===== verification/Ticker.v ===== *)
(** * ticker/ticker.go: the ticker interface and the machinery tickers share

    The three tickers keep the same control fields and run the same kind of
    loop in a goroutine.  [Ctl] holds those fields; [TickerLoop] names what
    differs between the loops; [step] interleaves the loop goroutines with the
    control methods called from outside.  Control methods run under the
    ticker's mutex and are one action each; a loop goroutine acts once per
    lock section or [select] case.  Reading the shared fields at the top of an
    iteration and choosing where to block is one action.  [Ticker] is the part
    of the interface the scheduler calls synchronously. *)
From S2P Require Import Prelude GoTime.
Local Open Scope Z_scope.

(** A [const] of the package. *)
Definition MaxOccurrenceIterations : nat := Z.to_nat 10000.

Record TickContext := mkTickContext {
  ScheduledTime : Time;
  ActualTime : Time;
  LastRunTime : option Time;
}.

Record TickerConfig := mkTickerConfig {
  cfg_StartTime : option Time;
  cfg_EndTime : option Time;
  cfg_Timezone : string;
}.

(** [isWithinWindow], the same text in the three tickers. *)
Definition isWithinWindow (c : TickerConfig) (checkTime : Time) : bool :=
  negb (match cfg_StartTime c with Some s => Before checkTime s | None => false end) &&
  negb (match cfg_EndTime c with Some e => After checkTime e | None => false end).

(** The zone database, outside the program. *)
Class TzLib := { LoadLocation : string → Result Loc }.

(** [timezone == "" => "UTC"], then [time.LoadLocation]. *)
Definition load_zone `{TzLib} (timezone : string) : Result Loc :=
  let tz := if bool_decide (timezone = EmptyString) then "UTC" else timezone in
  match LoadLocation tz with
  | Ok l => Ok l
  | Err e => Err ("invalid timezone " +:+ tz +:+ ": " +:+ e)
  end.

(** ** Control fields and methods *)

Record Ctl := mkCtl {
  ch : list TickContext;         (* contents of the buffered tick channel *)
  ch_cap : nat;
  stopClosed : bool;
  pauseCh : option bool;         (* the one-slot pause channel *)
  running : bool;
  paused : bool;
}.

Definition newCtl (cap : nat) : Ctl := mkCtl [] cap false None false false.

Definition set_ch (q : list TickContext) (c : Ctl) : Ctl :=
  mkCtl q (ch_cap c) (stopClosed c) (pauseCh c) (running c) (paused c).
Definition set_running (b : bool) (c : Ctl) : Ctl :=
  mkCtl (ch c) (ch_cap c) (stopClosed c) (pauseCh c) b (paused c).
Definition set_paused (b : bool) (c : Ctl) : Ctl :=
  mkCtl (ch c) (ch_cap c) (stopClosed c) (pauseCh c) (running c) b.
Definition set_pauseCh (m : option bool) (c : Ctl) : Ctl :=
  mkCtl (ch c) (ch_cap c) (stopClosed c) m (running c) (paused c).

Definition ctl_Stop (c : Ctl) : StepResult Ctl :=
  if negb (running c) then Next c
  else if stopClosed c then Panicked "close of closed channel"
  else Next (mkCtl (ch c) (ch_cap c) true (pauseCh c) false (paused c)).

(** The send is in a [select] with a [default]: a full slot drops it. *)
Definition ctl_Pause (c : Ctl) : Ctl :=
  if paused c then c
  else match pauseCh c with
       | None => set_paused true (set_pauseCh (Some true) c)
       | Some _ => c
       end.

Definition ctl_Resume (c : Ctl) : Ctl :=
  if negb (paused c) then c
  else match pauseCh c with
       | None => set_paused false (set_pauseCh (Some false) c)
       | Some _ => c
       end.

(** The non-blocking send of a tick. *)
Definition send_tick (x : TickContext) (c : Ctl) : Ctl :=
  if (length (ch c) <? ch_cap c)%nat then set_ch (ch c ++ [x]) c else c.

(** ** Loops *)

(** Where the top of an iteration leads: out of the loop, to the select of a
    paused ticker, to the one-minute wait outside the window, or to a timer
    for a tick that goes off at an instant. *)
Inductive top := TReturn | TPaused | TOutside | TArm (next : Time) (deadline : Instant).

Class TickerLoop (T : Type) := {
  get_ctl : T → Ctl;
  set_ctl : Ctl → T → T;
  loop_start : T → T * bool * option GoError;  (* Start; whether it reaches [go t.run()] *)
  loop_top : T → Instant → top;
  loop_paused_msg : bool → bool;         (* what the paused select stores in [paused] *)
  loop_fire : Time → Instant → Instant → T → T;  (* the timer case, two clock readings *)
  loop_fire_returns : bool;              (* the timer case ends the loop *)
  loop_deferred : T → T;                 (* the deferred call of run *)
}.

(** A loop goroutine: at the top of an iteration, blocked in one of the three
    selects, holding a message it is about to store, returning, or gone. *)
Inductive loop_pc :=
| AtTop | InPaused | Outside (until : Instant) | Armed (next : Time) (deadline : Instant)
| Store (b : bool) | Returning | Gone.

Section Loop.
Context {T : Type} `{TickerLoop T}.

Record loop_state := mkLoop { tick : T; loops : list loop_pc }.

Inductive loop_action :=
| LStart | LStop | LPause | LResume
| LConsume                        (* the scheduler receives a tick *)
| LTop (i : nat) (now : Instant)
| LStopSeen (i : nat)             (* case <-stopCh *)
| LMsg (i : nat)                  (* case b := <-pauseCh *)
| LStore (i : nat)                (* lock; paused = ...; unlock *)
| LTimer (i : nat) (now later : Instant) (* case <-timer.C; what the clock says then *)
| LReturn (i : nat).

Definition on_ctl (f : Ctl → Ctl) (s : loop_state) : loop_state :=
  mkLoop (set_ctl (f (get_ctl (tick s))) (tick s)) (loops s).
Definition set_loop (i : nat) (pc : loop_pc) (s : loop_state) : loop_state :=
  mkLoop (tick s) (<[i := pc]> (loops s)).

Definition step_top (s : loop_state) (i : nat) (now : Instant) : loop_state :=
  match loop_top (tick s) now with
  | TReturn => set_loop i Returning s
  | TPaused => set_loop i InPaused s
  | TOutside => set_loop i (Outside (now + Minute)) s
  | TArm next deadline => set_loop i (Armed next deadline) s
  end.

Definition step (s : loop_state) (a : loop_action) : StepResult loop_state :=
  match a with
  | LStart =>
      let '(t, spawned, _) := loop_start (tick s) in
      Next (mkLoop t (loops s ++ if (spawned : bool) then [AtTop] else []))
  | LStop =>
      match ctl_Stop (get_ctl (tick s)) with
      | Next c => Next (mkLoop (set_ctl c (tick s)) (loops s))
      | Disabled => Disabled
      | Panicked m => Panicked m
      end
  | LPause => Next (on_ctl ctl_Pause s)
  | LResume => Next (on_ctl ctl_Resume s)
  | LConsume =>
      match ch (get_ctl (tick s)) with
      | [] => Disabled
      | _ :: q => Next (on_ctl (set_ch q) s)
      end
  | LTop i now =>
      match loops s !! i with
      | Some AtTop => Next (step_top s i now)
      | _ => Disabled
      end
  | LStopSeen i =>
      if stopClosed (get_ctl (tick s)) then
        match loops s !! i with
        | Some (InPaused | Outside _ | Armed _ _) => Next (set_loop i Returning s)
        | _ => Disabled
        end
      else Disabled
  | LMsg i =>
      match pauseCh (get_ctl (tick s)), loops s !! i with
      | Some b, Some InPaused => Next (set_loop i (Store (loop_paused_msg b)) (on_ctl (set_pauseCh None) s))
      | Some b, Some (Outside _ | Armed _ _) => Next (set_loop i (Store b) (on_ctl (set_pauseCh None) s))
      | _, _ => Disabled
      end
  | LStore i =>
      match loops s !! i with
      | Some (Store b) => Next (set_loop i AtTop (on_ctl (set_paused b) s))
      | _ => Disabled
      end
  | LTimer i now later =>
      match loops s !! i with
      | Some (Outside u) => if u <=? now then Next (set_loop i AtTop s) else Disabled
      | Some (Armed next d) =>
          if d <=? now then
            Next (mkLoop (loop_fire next now later (tick s))
                    (<[i := if loop_fire_returns then Returning else AtTop]> (loops s)))
          else Disabled
      | _ => Disabled
      end
  | LReturn i =>
      match loops s !! i with
      | Some Returning => Next (mkLoop (loop_deferred (tick s)) (<[i := Gone]> (loops s)))
      | _ => Disabled
      end
  end.
End Loop.
Arguments loop_state : clear implicits.

(** The part of the Go interface called synchronously. [now] stands for
    [time.Now()]. *)
Class Ticker (T : Type) := {
  IsActive : T → Instant → bool;
  IsPaused : T → bool;
  IsEnabled : T → Instant → bool;
  NextRun : T → Instant → Result (option Time);
  GetOccurrencesBetween : T → Time → Time → Result (list Time);
}.

Lemma isWithinWindow_spec c t :
  isWithinWindow c t = true ↔
    (∀ s, cfg_StartTime c = Some s → inst s ≤ inst t) ∧
    (∀ e, cfg_EndTime c = Some e → inst t ≤ inst e).
Proof.
  unfold isWithinWindow, Before, After. rewrite andb_true_iff, !negb_true_iff.
  destruct (cfg_StartTime c) as [s|], (cfg_EndTime c) as [e|]; split;
    intros [H1 H2]; split; try done; try (intros ? [= <-]); try lia;
    try (specialize (H1 _ eq_refl)); try (specialize (H2 _ eq_refl)); lia.
Qed.
#[export] Instance isWithinWindow_proper c : Proper (same_instant ==> eq) (isWithinWindow c).
Proof.
  intros t u E. apply eq_true_iff_eq. rewrite !isWithinWindow_spec. unfold same_instant in E.
  by rewrite E.
Qed.

(** ** What the three loops have in common *)

(** The contract of a ticker's loop: the control fields are a field of the
    ticker; starting an idle ticker either marks it running and launches the
    loop or leaves it alone; firing sends at most one tick; the deferred call
    of [run] can only clear [running]. *)
Class TickerLoopLaws (T : Type) `{TickerLoop T} := {
  get_set c (t : T) : get_ctl (set_ctl c t) = c;
  start_running (t : T) : running (get_ctl t) = true → loop_start t = (t, false, None);
  start_idle (t : T) :
    running (get_ctl t) = false →
    (∃ t', loop_start t = (t', true, None) ∧ get_ctl t' = set_running true (get_ctl t)) ∨
    (∃ e, loop_start t = (t, false, Some e));
  fire_ctl next now later (t : T) :
    ∃ x, get_ctl (loop_fire next now later t) = send_tick x (get_ctl t) ∧ ScheduledTime x = next;
  deferred_ctl (t : T) :
    get_ctl (loop_deferred t) = get_ctl t ∨
    get_ctl (loop_deferred t) = set_running false (get_ctl t);
}.

Section LoopTheory.
Context {T : Type} `{TickerLoopLaws T}.

Lemma send_tick_length x c :
  (length (ch c) ≤ ch_cap c)%nat → (length (ch (send_tick x c)) ≤ ch_cap c)%nat.
Proof.
  unfold send_tick. destruct (Nat.ltb_spec (length (ch c)) (ch_cap c)); simpl;
    rewrite ?length_app; simpl; lia.
Qed.
Lemma send_tick_fields x c :
  ch_cap (send_tick x c) = ch_cap c ∧ stopClosed (send_tick x c) = stopClosed c ∧
  pauseCh (send_tick x c) = pauseCh c ∧ running (send_tick x c) = running c ∧
  paused (send_tick x c) = paused c.
Proof. unfold send_tick. by destruct (_ <? _)%nat. Qed.
Lemma ctl_Pause_fields c :
  ch (ctl_Pause c) = ch c ∧ ch_cap (ctl_Pause c) = ch_cap c ∧
  stopClosed (ctl_Pause c) = stopClosed c ∧ running (ctl_Pause c) = running c.
Proof. unfold ctl_Pause. by destruct (paused c), (pauseCh c). Qed.
Lemma ctl_Resume_fields c :
  ch (ctl_Resume c) = ch c ∧ ch_cap (ctl_Resume c) = ch_cap c ∧
  stopClosed (ctl_Resume c) = stopClosed c ∧ running (ctl_Resume c) = running c.
Proof. unfold ctl_Resume. by destruct (paused c), (pauseCh c). Qed.

(** The part of the control fields that [Stop] depends on. *)
Definition stop_fields (s : loop_state T) : bool * bool :=
  (running (get_ctl (tick s)), stopClosed (get_ctl (tick s))).
Definition ch_ok (s : loop_state T) : Prop :=
  (length (ch (get_ctl (tick s))) ≤ ch_cap (get_ctl (tick s)))%nat.

(** What a step can do to them. *)
Lemma step_stop_fields s a s' :
  step s a = Next s' → ch_ok s →
  ch_ok s' ∧
  match a with
  | LStart =>
      stop_fields s' = stop_fields s ∨ stop_fields s' = (true, snd (stop_fields s))
  | LStop => stop_fields s' = if fst (stop_fields s) then (false, true) else stop_fields s
  | LReturn _ =>
      stop_fields s' = stop_fields s ∨ stop_fields s' = (false, snd (stop_fields s))
  | _ => stop_fields s' = stop_fields s
  end.
Proof.
  unfold ch_ok, stop_fields. intros E Hch. destruct a; simpl in E.
  - destruct (loop_start (tick s)) as [[t b] e] eqn:Es. injection E as <-. simpl.
    destruct (running (get_ctl (tick s))) eqn:Er.
    + rewrite start_running in Es by done. injection Es as <- <- <-. rewrite Er. auto.
    + destruct (start_idle (tick s) Er) as [(t' & E' & Hc)|(e' & E')]; rewrite E' in Es;
        injection Es as <- <- <-; rewrite ?Hc, ?Er; simpl; auto.
  - unfold ctl_Stop in E. destruct (running (get_ctl (tick s))) eqn:Er; simpl in E.
    + destruct (stopClosed (get_ctl (tick s))) eqn:Ec; [done|]. injection E as <-.
      simpl. rewrite get_set. done.
    + injection E as <-. simpl. rewrite get_set, Er. done.
  - injection E as <-. simpl. rewrite get_set.
    destruct (ctl_Pause_fields (get_ctl (tick s))) as (-> & -> & -> & ->). done.
  - injection E as <-. simpl. rewrite get_set.
    destruct (ctl_Resume_fields (get_ctl (tick s))) as (-> & -> & -> & ->). done.
  - destruct (ch (get_ctl (tick s))) eqn:Eq; [done|]. injection E as <-.
    simpl. rewrite get_set. simpl in *. split; [lia|done].
  - cases_in E. unfold step_top. by destruct (loop_top _ _).
  - cases_in E; simpl; split; congruence || done.
  - cases_in E; simpl; rewrite ?get_set; simpl; split; congruence || done.
  - cases_in E; simpl; rewrite ?get_set; simpl; split; congruence || done.
  - cases_in E; simpl; try done.
    destruct (fire_ctl next now later (tick s)) as (y & -> & _).
    destruct (send_tick_fields y (get_ctl (tick s))) as (Hcap & -> & _ & -> & _).
    rewrite Hcap. split; [by apply send_tick_length|done].
  - cases_in E; simpl. destruct (deferred_ctl (tick s)) as [->| ->]; simpl; auto.
Qed.
End LoopTheory.

(** The trace starts the ticker at most [n] times. *)
Fixpoint starts_within (n : nat) (acts : list loop_action) : bool :=
  match acts with
  | [] => true
  | LStart :: acts' => match n with O => false | S n' => starts_within n' acts' end
  | _ :: acts' => starts_within n acts'
  end.

Section LoopProperties.
Context {T : Type} `{TickerLoopLaws T}.

Definition stop_safe (n : nat) (s : loop_state T) : Prop :=
  (n ≤ 1)%nat ∧ ch_ok s ∧ stop_fields s ≠ (true, true) ∧
  (n = 1%nat → stop_fields s = (false, false)).

Lemma stop_safe_no_panic n s a m : stop_safe n s → step s a ≠ Panicked m.
Proof.
  intros (_ & _ & Hne & _) E. unfold stop_fields in Hne. destruct a; simpl in E;
    try (repeat case_go; congruence).
  unfold ctl_Stop in E. repeat case_go; simpl in *; try congruence.
  all: destruct (running _); simpl in *; congruence.
Qed.

Lemma stop_safe_step n s a s' :
  starts_within n [a] = true → stop_safe n s → step s a = Next s' →
  stop_safe (match a with LStart => pred n | _ => n end) s'.
Proof.
  intros Hn (H1 & Hch & Hne & Hf) E. apply step_stop_fields in E as [Hch' E]; [|done].
  unfold stop_safe. destruct (stop_fields s) as [r c].
  destruct a; split; try (destruct n; simpl; lia); (split; [done|]);
    try (by rewrite E); try (destruct E as [->| ->]); try (rewrite E; destruct r).
  all: destruct n as [|[|]]; simpl in *; try discriminate; try lia.
  all: try (specialize (Hf eq_refl); simplify_eq). all: split; try done; auto; congruence.
Qed.

(** C28: a ticker that is started at most once is safe to control in any
    order: whatever the interleaving of its loop with Start, Stop, Pause,
    Resume and the consumer, no step panics, the tick channel never holds
    more than its capacity, and a further step cannot panic either. *)
Theorem single_start_never_panics (t : T) acts :
  running (get_ctl t) = false → stopClosed (get_ctl t) = false →
  ch (get_ctl t) = [] → starts_within 1 acts = true →
  match exec step (mkLoop t []) acts with
  | Panicked _ => False
  | Disabled => True
  | Next s => (length (ch (get_ctl (tick s))) ≤ ch_cap (get_ctl (tick s)))%nat
  end.
Proof.
  intros Hr Hc Hq Hs.
  assert (Hi : stop_safe 1 (mkLoop t [])).
  { repeat split; unfold ch_ok, stop_fields; simpl; rewrite ?Hr, ?Hc, ?Hq; simpl; try lia; done. }
  revert Hs Hi. generalize (mkLoop t []) as s, 1%nat as n.
  induction acts as [|a acts IH]; intros s n Hs Hi; simpl; [apply Hi|].
  destruct (step s a) eqn:E; [done| |by eapply stop_safe_no_panic in E].
  eapply IH; [|eapply stop_safe_step; [|done|done]];
    destruct a; simpl in *; try done; destruct n; done.
Qed.
End LoopProperties.
