(* ===== verification/CronTicker.v ===== *)
(** * ticker/cron.go

    [github.com/robfig/cron] is a parameter: [CronLib] names the parser and
    [Schedule.Next], [CronLaws] states what its documentation says of [Next]:
    the next activation strictly after the given time, or the zero time when
    there is none within the following five years. *)
From S2P Require Import Prelude GoTime Ticker.
Local Open Scope Z_scope.

Class CronLib := {
  Schedule : Type;
  Parse : string → Result Schedule;
  Next_activation : Schedule → Time → Time;
}.

Class CronLaws `{CronLib} := {
  activates : Schedule → Loc → Instant → Prop;
  next_found s t n :
    Next_activation s t = n → n ≠ zeroTime →
    loc n = loc t ∧ inst t < inst n ∧ activates s (loc t) (inst n) ∧
    (∀ i, inst t < i < inst n → ¬ activates s (loc t) i);
  next_none s t :
    Next_activation s t = zeroTime →
    ∀ i, inst t < i ≤ inst t + 5 * 365 * 24 * Hour → ¬ activates s (loc t) i;
}.

Module CronTicker.
Section Cron.
Context `{TzLib} `{CronLib}.

(** The parser object is not kept: it is only used by the constructor. *)
Record t := mk {
  expression : string;
  config : TickerConfig;
  schedule : Schedule;
  location : Loc;
  ctl : Ctl;
}.

Definition New (expr : string) (cfg : TickerConfig) : Result t :=
  match load_zone (cfg_Timezone cfg) with
  | Err e => Err e
  | Ok l =>
      match Parse expr with
      | Err e => Err ("invalid cron expression " +:+ expr +:+ ": " +:+ e)
      | Ok s => Ok (mk expr cfg s l (newCtl 10))
      end
  end.

Definition with_ctl (c : Ctl) (x : t) : t :=
  mk (expression x) (config x) (schedule x) (location x) c.

Definition start (x : t) : t * bool * option GoError :=
  if running (ctl x) then (x, false, None)
  else (with_ctl (set_running true (ctl x)) x, true, None).

Definition run_top (x : t) (now0 : Instant) : top :=
  if paused (ctl x) then TPaused
  else
    let now := mkTime now0 (location x) in
    let next := Next_activation (schedule x) now in
    if negb (isWithinWindow (config x) next) then TOutside
    else TArm next (now0 + Sub next now).

Definition run_fire (next : Time) (now _ : Instant) (x : t) : t :=
  with_ctl (send_tick (mkTickContext next (mkTime now (location x)) None) (ctl x)) x.

#[export] Instance loop : TickerLoop t := {
  get_ctl := ctl;
  set_ctl := with_ctl;
  loop_start := start;
  loop_top := run_top;
  loop_paused_msg shouldPause := shouldPause;
  loop_fire := run_fire;
  loop_fire_returns := false;
  loop_deferred x := x;
}.

Definition isActive (x : t) (now : Instant) : bool :=
  isWithinWindow (config x) (mkTime now (location x)).
Definition isPaused (x : t) : bool := paused (ctl x).

Definition nextRun (x : t) (now0 : Instant) : Result (option Time) :=
  let next := Next_activation (schedule x) (mkTime now0 (location x)) in
  if negb (isWithinWindow (config x) next) then Ok None else Ok (Some next).

(** The loop of [GetOccurrencesBetween]; [budget] is the number of iterations
    still allowed by [maxIterations]. *)
Fixpoint occurrences_loop (x : t) (budget : nat) (current en : Time) (occurrences : list Time)
  : Result (list Time) :=
  if Before current en then
    match budget with
    | O => Err "too many iterations while computing occurrences"
    | S budget' =>
        let next := Next_activation (schedule x) current in
        if After next en then Ok occurrences
        else
          occurrences_loop x budget' next en
            (if isWithinWindow (config x) next then occurrences ++ [next] else occurrences)
    end
  else Ok occurrences.

Definition getOccurrencesBetween (x : t) (start en : Time) : Result (list Time) :=
  occurrences_loop x MaxOccurrenceIterations (In (location x) start) (In (location x) en) [].

#[export] Instance ticker : Ticker t := {
  IsActive := isActive;
  IsPaused := isPaused;
  IsEnabled x now := isActive x now && negb (isPaused x);
  NextRun := nextRun;
  GetOccurrencesBetween := getOccurrencesBetween;
}.

#[export] Instance loop_laws : TickerLoopLaws t.
Proof.
  split; simpl; [done|intros x E; unfold start; by rewrite E| | |by left].
  - intros x E. left. unfold start. rewrite E. by eexists.
  - intros next now later x. by eexists.
Qed.
End Cron.

(** ** Occurrences *)
Section Occurrences.
Context `{TzLib} `{CronLaws}.
Implicit Types (x : t).

(** [l] lists, in order, activations after [c]. *)
Definition run_of x (c : Instant) (l : list Time) : Prop :=
  StronglySorted (λ u v, inst u < inst v) l ∧
  Forall (λ u, loc u = location x ∧ c < inst u ∧ activates (schedule x) (location x) (inst u)) l.

Definition exact x (c en : Instant) (l : list Time) : Prop :=
  run_of x c l ∧
  ∀ i, mkTime i (location x) ∈ l ↔
    c < i ≤ en ∧ activates (schedule x) (location x) i ∧
    isWithinWindow (config x) (mkTime i (location x)) = true.

Lemma run_of_cons x c n l :
  loc n = location x → c < inst n → activates (schedule x) (location x) (inst n) →
  run_of x (inst n) l → run_of x c (n :: l).
Proof.
  intros Hl Hc Ha [Hs Hf]. split; constructor; try done.
  - eapply Forall_impl; [exact Hf|]. simpl. tauto.
  - eapply Forall_impl; [exact Hf|]. simpl. intros u (? & ? & ?). split_and!; (done || lia).
Qed.
Lemma run_of_weaken x c c' l : c ≤ c' → run_of x c' l → run_of x c l.
Proof.
  intros Hc [Hs Hf]. split; [done|]. eapply Forall_impl; [exact Hf|].
  simpl. intros u (? & ? & ?). split_and!; (done || lia).
Qed.

(** One activation consumed: what remains is exact from there. *)
Lemma exact_cons x c n en l :
  loc n = location x → c < inst n ≤ en → activates (schedule x) (location x) (inst n) →
  (∀ i, c < i < inst n → ¬ activates (schedule x) (location x) i) →
  exact x (inst n) en l →
  exact x c en (if isWithinWindow (config x) n then n :: l else l).
Proof.
  intros Hl Hc Ha Hgap [Hrun Hex].
  assert (En : mkTime (inst n) (location x) = n) by (rewrite <- Hl; by destruct n).
  split.
  - destruct (isWithinWindow _ _); [apply run_of_cons; (done || lia)|].
    by eapply run_of_weaken; [|exact Hrun]; lia.
  - intros i. assert (Hi : mkTime i (location x) ∈ l ↔ mkTime i (location x) ∈ l ∧ i ≠ inst n).
    { rewrite Hex. split; [|tauto]. intros. split; [done|lia]. }
    destruct (decide (i = inst n)) as [->|Hne].
    + rewrite En. destruct (isWithinWindow (config x) n) eqn:Hw.
      * rewrite elem_of_cons. split; [intros _|by left]. split_and!; (done || lia).
      * rewrite En in Hi. split; [tauto|]. intros (_ & _ & [=]).
    + transitivity (mkTime i (location x) ∈ l).
      { destruct (isWithinWindow _ _); [|done]. rewrite elem_of_cons.
        split; [intros [E|]; [|done]|by right]. subst n. simpl in *. congruence. }
      rewrite Hex. split; intros (Hin & Hact & Hw); split_and!; try done; try lia.
      destruct (Z.lt_ge_cases i (inst n)); [|lia]. exfalso. by apply (Hgap i); [lia|].
Qed.

Lemma exact_nil x c en :
  (∀ i, c < i ≤ en → ¬ activates (schedule x) (location x) i) → exact x c en [].
Proof.
  intros Hno. split; [repeat constructor|]. intros i. split; [by intros ?%elem_of_nil|].
  intros (Hi & Ha & _). by apply Hno in Ha.
Qed.

Lemma occurrences_loop_exact x budget c en acc :
  loc c = location x →
  (∀ u, loc u = location x → inst c ≤ inst u < inst en → Next_activation (schedule x) u ≠ zeroTime) →
  match occurrences_loop x budget c en acc with
  | Ok l => ∃ l', l = acc ++ l' ∧ exact x (inst c) (inst en) l'
  | Err _ =>
      inst c < inst en ∧
      ∃ l, length l = budget ∧ run_of x (inst c) l ∧ Forall (λ u, inst u < inst en) l
  end.
Proof.
  revert c acc. induction budget as [|budget IH]; intros c acc Hl Hnz; cbn [occurrences_loop];
    unfold Before; destruct (Z.ltb_spec (inst c) (inst en)) as [Hb|Hb];
    try (exists []; rewrite app_nil_r; split; [done|apply exact_nil; lia]).
  { split; [done|]. exists []. repeat constructor. }
  set (n := Next_activation (schedule x) c).
  destruct (next_found (schedule x) c n eq_refl) as (Hln & Hcn & Han & Hgap);
    [by apply Hnz; [|lia]|]. rewrite Hl in Hln, Han, Hgap.
  unfold After. destruct (Z.ltb_spec (inst en) (inst n)) as [Ha|Ha].
  { exists []. rewrite app_nil_r. split; [done|]. apply exact_nil. intros i Hi. apply Hgap. lia. }
  specialize (IH n (if isWithinWindow (config x) n then acc ++ [n] else acc) Hln).
  destruct (occurrences_loop _ _ n en _) as [l|e].
  - destruct IH as (l' & -> & Hex); [intros u ??; apply Hnz; [done|lia]|].
    eexists. split; [|by apply (exact_cons x (inst c) n); [| |done|done|exact Hex]].
    destruct (isWithinWindow _ _); [by rewrite <- app_assoc|done].
  - destruct IH as (Hne & l & Hlen & Hrun & Hall); [intros u ??; apply Hnz; [done|lia]|].
    split; [done|]. exists (n :: l). split; [simpl; congruence|].
    split; [by apply run_of_cons|by constructor].
Qed.

(** C19: catching up on a cron schedule.  Given the documented behaviour of
    [Schedule.Next] and an activation to be found from every point of the
    interval, the result lists in increasing order exactly the activations
    in [(start, end]] that lie in the configured window, in the ticker's
    location; an error means that 10000 activations strictly inside the
    interval exist. *)
Theorem cron_occurrences_exact x st en :
  (∀ u, loc u = location x → inst st ≤ inst u < inst en →
     Next_activation (schedule x) u ≠ zeroTime) →
  match getOccurrencesBetween x st en with
  | Ok l => exact x (inst st) (inst en) l
  | Err _ =>
      ∃ l, length l = MaxOccurrenceIterations ∧ run_of x (inst st) l ∧
           Forall (λ u, inst u < inst en) l
  end.
Proof.
  intros Hnz. unfold getOccurrencesBetween.
  pose proof (occurrences_loop_exact x MaxOccurrenceIterations (In (location x) st)
    (In (location x) en) [] eq_refl Hnz) as Hx.
  destruct (occurrences_loop _ _ _ _ _); [by destruct Hx as (l' & -> & Hex)|apply Hx].
Qed.

(** A schedule that never activates (February 30th) makes [Next] return the
    zero time, which the loop takes for an activation and never leaves. *)
Lemma cron_never_activates_errors x st en :
  (∀ u, Next_activation (schedule x) u = zeroTime) →
  inst st < inst en → inst zeroTime < inst en →
  getOccurrencesBetween x st en = Err "too many iterations while computing occurrences".
Proof.
  intros Hz Hse Hze. unfold getOccurrencesBetween.
  assert (Hc : inst (In (location x) st) < inst (In (location x) en)) by done.
  revert Hc. generalize (In (location x) st) as c, (@nil Time) as acc.
  induction MaxOccurrenceIterations as [|b IH]; intros c acc Hc; cbn [occurrences_loop];
    unfold Before; rewrite (proj2 (Z.ltb_lt _ _) Hc); [done|].
  rewrite Hz. unfold After. rewrite (proj2 (Z.ltb_ge _ _)) by (simpl in *; lia).
  by apply IH.
Qed.
End Occurrences.

(** ** Pause *)
Section Pausing.
Context `{TzLib} `{CronLib}.
Implicit Types (s : loop_state t).

(** No request is under way that would make the ticker run: none in the pause
    channel, none held by a loop. *)
Definition no_resume (pc : loop_pc) : Prop := pc ≠ Store false.
Definition quiet s : Prop := pauseCh (ctl (tick s)) = None ∧ Forall no_resume (loops s).

(** Paused, and bound to stay so until [Resume]. *)
Definition holding s : Prop :=
  paused (ctl (tick s)) = true ∧ pauseCh (ctl (tick s)) ≠ Some false ∧ Forall no_resume (loops s).

(** Loops that wait for the timer of a tick. *)
Definition is_armed (pc : loop_pc) : bool := match pc with Armed _ _ => true | _ => false end.
Definition count_armed (l : list loop_pc) : nat := length (filter (λ pc, is_armed pc = true) l).
Definition armed s : nat := count_armed (loops s).

Lemma count_armed_insert l i pc pc' :
  l !! i = Some pc → (count_armed (<[i := pc']> l) + (if is_armed pc then 1 else 0) =
    count_armed l + (if is_armed pc' then 1 else 0))%nat.
Proof.
  intros (l1 & l2 & -> & Hins & _)%lookup_split. rewrite Hins. unfold count_armed.
  rewrite !filter_app, !filter_cons, !length_app.
  destruct (is_armed pc), (is_armed pc'); simpl; repeat case_decide; simpl; try done; lia.
Qed.
Lemma count_armed_app l l' : count_armed (l ++ l') = (count_armed l + count_armed l')%nat.
Proof. unfold count_armed. by rewrite filter_app, length_app. Qed.

(** From [s] to [s'] a paused ticker may take ticks out of its channel and
    send one more for each of its loops that stops waiting for one. *)
Definition winds_down s s' : Prop :=
  ∃ sent k, (length sent + armed s' ≤ armed s)%nat ∧
    (k ≤ length (ch (ctl (tick s)) ++ sent))%nat ∧
    ch (ctl (tick s')) = drop k (ch (ctl (tick s)) ++ sent).

Lemma winds_down_same s s' :
  (armed s' ≤ armed s)%nat → ch (ctl (tick s')) = ch (ctl (tick s)) → winds_down s s'.
Proof. intros Ha Hc. exists [], 0%nat. rewrite app_nil_r, drop_0. split_and!; [simpl; lia|lia|done]. Qed.
Lemma winds_down_trans s1 s2 s3 : winds_down s1 s2 → winds_down s2 s3 → winds_down s1 s3.
Proof.
  intros (x & j & Hx & Hj & Ex) (y & k & Hy & Hk & Ey). exists (x ++ y), (j + k)%nat.
  rewrite Ey, Ex in *. rewrite !length_app, length_drop in *. rewrite length_app in *.
  split_and!; [lia|lia|]. rewrite <- drop_drop, app_assoc. by rewrite (drop_app_le _ y j) by (rewrite length_app; lia).
Qed.

Lemma holding_step s a s' :
  holding s → a ≠ LResume → step s a = Next s' → holding s' ∧ winds_down s s'.
Proof.
  intros (Hp & Hm & Hall) Ha E.
  assert (Hset : ∀ i pc pc' c, loops s !! i = Some pc → no_resume pc' → is_armed pc' = false →
    paused c = true → pauseCh c ≠ Some false → ch c = ch (ctl (tick s)) →
    let s1 := mkLoop (with_ctl c (tick s)) (<[i := pc']> (loops s)) in holding s1 ∧ winds_down s s1).
  { intros i pc pc' c Hi Hn Hf Hc1 Hc2 Hc3. split; [split_and!; [done|done|by apply Forall_insert]|].
    apply winds_down_same; [|done]. unfold armed. simpl. pose proof (count_armed_insert _ i pc pc' Hi). rewrite Hf in *.
    destruct (is_armed pc); lia. }
  assert (Hctl : ∀ c, paused c = true → pauseCh c ≠ Some false → ch c = ch (ctl (tick s)) →
    let s1 := mkLoop (with_ctl c (tick s)) (loops s) in holding s1 ∧ winds_down s s1)
    by (intros c ? ? Hc; split; [done|by apply winds_down_same]).
  assert (Hid : with_ctl (ctl (tick s)) (tick s) = tick s) by (by destruct (tick s)).
  assert (Hmove : ∀ i pc pc', loops s !! i = Some pc → no_resume pc' → is_armed pc' = false →
    holding (set_loop i pc' s) ∧ winds_down s (set_loop i pc' s)).
  { intros i pc pc' Hi Hn Hf. pose proof (Hset i pc pc' (ctl (tick s)) Hi Hn Hf Hp Hm eq_refl) as Hs.
    cbv zeta in Hs. by rewrite Hid in Hs. }
  destruct a; simpl in E; try done.
  - unfold start in E. cases_in E; rewrite ?app_nil_r; [by split; [|by apply winds_down_same]|].
    split; [split_and!; [done|done|apply Forall_app; split; [done|by constructor]]|].
    apply winds_down_same; [|done]. unfold armed. simpl. rewrite count_armed_app. unfold count_armed at 2. simpl. lia.
  - unfold ctl_Stop in E. cases_in E; by apply Hctl.
  - injection E as <-. unfold on_ctl, ctl_Pause. simpl. rewrite Hp. by apply Hctl.
  - cases_in E. split; [done|]. exists [], 1%nat. rewrite app_nil_r. unfold armed. simpl. rewrite Heql.
    split_and!; [lia|simpl; lia|done].
  - cases_in E. unfold step_top. simpl. unfold run_top. rewrite Hp. by eapply Hmove.
  - cases_in E; by eapply Hmove.
  - cases_in E; destruct b; try done; unfold set_loop, on_ctl; simpl; by eapply Hset.
  - cases_in E. pose proof (Forall_lookup_1 _ _ _ _ Hall Heqo) as Hb. destruct b; [|done].
    unfold set_loop, on_ctl. simpl. by eapply Hset.
  - cases_in E; [by eapply Hmove|].
    pose proof (count_armed_insert _ i _ AtTop Heqo) as Hc. simpl in Hc.
    unfold run_fire. set (x := mkTickContext _ _ _).
    destruct (send_tick_fields x (ctl (tick s))) as (_ & _ & Hpc & _ & Hpa).
    split; [split_and!; simpl; [congruence|congruence|by apply Forall_insert]|].
    unfold winds_down, armed. simpl. unfold send_tick. destruct (_ <? _)%nat; simpl.
    + exists [x], 0%nat. rewrite drop_0. split_and!; [simpl; lia|lia|done].
    + exists [], 0%nat. rewrite drop_0, app_nil_r. split_and!; [simpl; lia|lia|done].
  - cases_in E. by eapply Hmove.
Qed.

End Pausing.
End CronTicker.

(** ** A concrete schedule for evaluation: every [p] nanoseconds from instant [p] *)
Module PeriodicCron.
#[export] Instance lib : CronLib := {
  Schedule := positive;
  Parse s := if bool_decide (s = "@every 10ns") then Ok 10%positive else Err "bad spec";
  Next_activation p t :=
    mkTime (Z.max (Zpos p) ((inst t / Zpos p + 1) * Zpos p)) (loc t);
}.

#[export, program] Instance laws : CronLaws := {
  activates p _ i := 0 < i ∧ i mod Zpos p = 0;
}.
Next Obligation.
  intros p t n <- _. cbn [Next_activation lib inst loc].
  pose proof (Z.div_mod (inst t) (Zpos p) ltac:(lia)).
  pose proof (Z.mod_pos_bound (inst t) (Zpos p) ltac:(lia)).
  split_and!; [done|nia|lia| |].
  - destruct (Z.max_spec (Zpos p) ((inst t / Zpos p + 1) * Zpos p)) as [[_ ->]|[_ ->]];
      [by apply Z.mod_mul|by apply Z.mod_same].
  - intros i Hi [Hpos Hm]. pose proof (Z.div_mod i (Zpos p) ltac:(lia)).
    assert (i = i / Zpos p * Zpos p) by lia.
    set (q := i / Zpos p) in *. set (k := inst t / Zpos p) in *.
    assert (1 ≤ q) by nia. assert (k + 1 ≤ q) by nia.
    assert (Zpos p * 1 ≤ Zpos p * q) by (apply Z.mul_le_mono_nonneg_l; lia).
    assert (Zpos p * (k + 1) ≤ Zpos p * q) by (apply Z.mul_le_mono_nonneg_l; lia). lia.
Qed.
Next Obligation.
  intros p t E i. apply (f_equal inst) in E. unfold zeroTime, Second in E. simpl in E. lia.
Qed.
End PeriodicCron.

Module CronExamples.
Import CronTicker PeriodicCron.
Definition window : TickerConfig := mkTickerConfig (Some (mkTime 15 UTC)) None EmptyString.
Definition every10 : t := mk "@every 10ns" window 10%positive UTC (newCtl 10).

Lemma cron_occurrences_exact_witness :
  getOccurrencesBetween every10 (mkTime 5 UTC) (mkTime 30 UTC) = Ok [mkTime 20 UTC; mkTime 30 UTC] ∧
  exact every10 5 30 [mkTime 20 UTC; mkTime 30 UTC].
Proof.
  split; [reflexivity|].
  apply (cron_occurrences_exact every10 (mkTime 5 UTC) (mkTime 30 UTC)).
  intros u _ _ E. apply (f_equal inst) in E. unfold zeroTime, Second in E. simpl in E. lia.
Defined.

(** Pause while the loop waits for a tick: the tick is sent, and no other. *)
Definition waiting : loop_state t :=
  mkLoop (with_ctl (set_running true (newCtl 10)) every10) [Armed (mkTime 20 UTC) 20].
Definition winding : list loop_action := [LTimer 0 21 21; LTop 0 22; LMsg 0; LStore 0; LTop 0 22].


(** The stop channel is created once: a second [Stop], after a second [Start],
    closes it again. *)
Lemma cron_restart_panics :
  exec step (mkLoop every10 []) [LStart; LStop; LStart; LStop] = Panicked "close of closed channel".
Proof. reflexivity. Qed.
End CronExamples.
