(* ===== verification/ISO8601Ticker.v ===== *)
(** * ticker/iso8601.go: fixed-interval schedules *)
From S2P Require Import Prelude GoTime Ticker.
Local Open Scope Z_scope.

Module ISO8601Ticker.
Section ISO.
Context `{TzLib}.

Record t := mk {
  interval : Duration;
  startTime : Time;
  repetitions : Z;          (* 0 means infinite *)
  config : TickerConfig;
  location : Loc;
  runCount : Z;
  lastRunTime : option Time;
  ctl : Ctl;
}.

Definition New (ivl : Duration) (start : Time) (reps : Z) (cfg : TickerConfig) : Result t :=
  match load_zone (cfg_Timezone cfg) with
  | Err e => Err e
  | Ok l =>
      if ivl <=? 0 then Err "interval must be positive"
      else Ok (mk ivl (In l start) reps cfg l 0 None (newCtl 10))
  end.

Definition with_ctl (c : Ctl) (x : t) : t :=
  mk (interval x) (startTime x) (repetitions x) (config x) (location x) (runCount x)
     (lastRunTime x) c.

Definition start (x : t) : t * bool * option GoError :=
  if running (ctl x) then (x, false, None)
  else (with_ctl (set_running true (ctl x)) x, true, None).

(** [time.Duration(runCount) * t.interval] is an [int64] product. *)
Definition calculateNextRun (x : t) : Time :=
  Add (startTime x) (wrap64 (runCount x * interval x)).

Definition limit_reached (x : t) (count : Z) : bool :=
  (0 <? repetitions x) && (repetitions x <=? count).

Definition run_top (x : t) (now0 : Instant) : top :=
  if limit_reached x (runCount x) then TReturn
  else if paused (ctl x) then TPaused
  else
    let now := mkTime now0 (location x) in
    let next := calculateNextRun x in
    if negb (isWithinWindow (config x) next) then
      if match cfg_EndTime (config x) with Some e => After now e | None => false end
      then TReturn else TOutside
    else
      let duration := if Before next now then 0 else Sub next now in
      TArm next (now0 + duration).

(** The tick carries the last run time as it was before the update; the clock
    is read once for the tick and once more for the new last run time. *)
Definition run_fire (next : Time) (now later : Instant) (x : t) : t :=
  let ctx := mkTickContext next (mkTime now (location x)) (lastRunTime x) in
  let nowTime := mkTime later (location x) in
  mk (interval x) (startTime x) (repetitions x) (config x) (location x)
     (wrap64 (runCount x + 1)) (Some nowTime) (send_tick ctx (ctl x)).

#[export] Instance loop : TickerLoop t := {
  get_ctl := ctl;
  set_ctl := with_ctl;
  loop_start := start;
  loop_top := run_top;
  loop_paused_msg resume := negb resume;
  loop_fire := run_fire;
  loop_fire_returns := false;
  loop_deferred x := x;
}.

Definition isActive (x : t) (now : Instant) : bool :=
  isWithinWindow (config x) (mkTime now (location x)).
Definition isPaused (x : t) : bool := paused (ctl x).

Definition nextRun (x : t) (now : Instant) : Result (option Time) :=
  if limit_reached x (runCount x) then Ok None
  else
    let next := calculateNextRun x in
    if negb (isWithinWindow (config x) next) then Ok None else Ok (Some next).

(** The loop of [GetOccurrencesBetween].  [left] is how often [count] may still
    be incremented before it exceeds [MaxOccurrenceIterations]. *)
Fixpoint occurrences_loop (x : t) (left : nat) (count : Z) (current start en : Time)
    (occurrences : list Time) : Result (list Time) :=
  if Before current en then
    if limit_reached x count then Ok occurrences
    else
      let occurrences' :=
        if (After current start || Equal current start) && isWithinWindow (config x) current
        then occurrences ++ [current] else occurrences in
      match left with
      | O => Err "too many occurrences"
      | S left' =>
          occurrences_loop x left' (count + 1) (Add current (interval x)) start en occurrences'
      end
  else Ok occurrences.

Definition getOccurrencesBetween (x : t) (start en : Time) : Result (list Time) :=
  occurrences_loop x MaxOccurrenceIterations 0 (startTime x)
    (In (location x) start) (In (location x) en) [].

#[export] Instance ticker : Ticker t := {
  IsActive := isActive;
  IsPaused := isPaused;
  IsEnabled x now := isActive x now && negb (isPaused x);
  NextRun := nextRun;
  GetOccurrencesBetween := getOccurrencesBetween;
}.
End ISO.

(** ** Occurrences, in closed form *)

(** The [k]-th activation of the schedule. *)
Definition occ (x : t) (k : Z) : Time := Add (startTime x) (k * interval x).

(** How many activations lie before [en]. *)
Definition total (x : t) (en : Time) : Z :=
  let by_time := Z.max 0 ((inst en - inst (startTime x) + interval x - 1) / interval x) in
  if 0 <? repetitions x then Z.min (repetitions x) by_time else by_time.

Section Occurrences.
Context `{TzLib}.
Implicit Types (x : t) (st en : Time).

Lemma limit_reached_false x k :
  limit_reached x k = false ↔ repetitions x ≤ 0 ∨ k < repetitions x.
Proof. unfold limit_reached. rewrite andb_false_iff, Z.ltb_ge, Z.leb_gt. done. Qed.
Lemma occ_0 x : occ x 0 = startTime x.
Proof. unfold occ, Add. destruct (startTime x); simpl. f_equal; lia. Qed.
Lemma occ_succ x k : Add (occ x k) (interval x) = occ x (k + 1).
Proof. unfold occ, Add; simpl. f_equal; lia. Qed.
Lemma occ_inst x k : inst (occ x k) = inst (startTime x) + k * interval x.
Proof. done. Qed.
Lemma occ_mono x j k : 0 < interval x → j < k → inst (occ x j) < inst (occ x k).
Proof. rewrite !occ_inst. nia. Qed.

Lemma ceil_div_spec a b k : 0 < b → k < (a + b - 1) / b ↔ k * b < a.
Proof.
  intros Hb. pose proof (Z.mul_div_le (a + b - 1) b Hb).
  pose proof (Z.mul_succ_div_gt (a + b - 1) b Hb). split; intros; nia.
Qed.

(** The loop condition and the repetition limit together. *)
Lemma total_spec x en k :
  0 < interval x → 0 ≤ k →
  k < total x en ↔ Before (occ x k) en = true ∧ limit_reached x k = false.
Proof.
  intros Hi Hk. unfold total, limit_reached. rewrite Before_spec, occ_inst.
  pose proof (ceil_div_spec (inst en - inst (startTime x)) (interval x) k Hi).
  destruct (0 <? repetitions x) eqn:E; simpl;
    rewrite ?Z.leb_gt; split; intros; lia.
Qed.
Lemma total_nonneg x en : 0 ≤ total x en.
Proof. unfold total. destruct (0 <? repetitions x) eqn:E; lia. Qed.

Lemma occurrences_loop_spec x st en left count acc :
  0 < interval x → 0 ≤ count → count + Z.of_nat left = 10000 →
  occurrences_loop x left count (occ x count) st en acc =
    if total x en <=? 10000
    then Ok (acc ++ filter (λ u, inst st ≤ inst u ∧ isWithinWindow (config x) u = true)
                      (occ x <$> seqZ count (total x en - count)))
    else Err "too many occurrences".
Proof.
  intros Hi. revert count acc.
  induction left as [|left IH]; intros count acc Hc Hl; cbn [occurrences_loop];
    pose proof (total_spec x en count Hi Hc) as Hdue;
    (destruct (Z.lt_ge_cases count (total x en)) as [Hlt|Hge];
     [apply Hdue in Hlt as HH; destruct HH as [-> ->]
     |rewrite (seqZ_nil count), app_nil_r by lia; rewrite (proj2 (Z.leb_le _ _)) by lia;
      destruct (Before (occ x count) en), (limit_reached x count); try done;
      exfalso; assert (count < total x en) by (by apply Hdue); lia]).
  - rewrite (proj2 (Z.leb_gt _ _)) by lia. done.
  - rewrite occ_succ, IH by lia. destruct (total x en <=? 10000); [|done].
    rewrite (seqZ_cons count) by lia.
    replace (Z.succ count) with (count + 1) by lia.
    replace (Z.pred (total x en - count)) with (total x en - (count + 1)) by lia.
    cbn [fmap list_fmap]. rewrite filter_cons.
    f_equal. unfold After, Equal.
    destruct (decide _) as [[H1 H2]|Hn].
    + rewrite H2, andb_true_r.
      destruct (Z.ltb_spec (inst st) (inst (occ x count))), (Z.eqb_spec (inst (occ x count)) (inst st));
        simpl; try lia; by rewrite <- app_assoc.
    + destruct (Z.ltb_spec (inst st) (inst (occ x count))), (Z.eqb_spec (inst (occ x count)) (inst st)),
        (isWithinWindow (config x) (occ x count)) eqn:?; simpl; try done;
        exfalso; apply Hn; split; (lia || done).
Qed.

Lemma occ_sorted x a n :
  0 < interval x → StronglySorted (λ u v, inst u < inst v) (occ x <$> seqZ a n).
Proof.
  intros Hi. destruct (Z.le_gt_cases n 0); [rewrite seqZ_nil by done; constructor|].
  revert a. apply (natlike_ind (λ n, ∀ a, StronglySorted _ (occ x <$> seqZ a n))); [|clear dependent n|lia].
  - intros a. by constructor.
  - intros n Hn IH a. rewrite seqZ_cons by lia. rewrite Z.pred_succ. cbn [fmap list_fmap].
    constructor; [apply IH|].
    apply Forall_forall. intros u (k & -> & Hk)%list_elem_of_fmap.
    rewrite elem_of_seqZ in Hk. apply occ_mono; lia.
Qed.

Lemma New_inv ivl s reps cfg x :
  New ivl s reps cfg = Ok x →
  0 < ivl ∧ interval x = ivl ∧ same_instant (startTime x) s ∧ repetitions x = reps ∧
  config x = cfg ∧ loc (startTime x) = location x ∧ runCount x = 0 ∧ ctl x = newCtl 10.
Proof.
  unfold New. destruct (load_zone _); [|done]. destruct (Z.leb_spec ivl 0); [done|].
  intros [= <-]. done.
Qed.

#[export] Instance loop_laws : TickerLoopLaws t.
Proof.
  split; simpl; [done|intros x E; unfold start; by rewrite E| | |by left].
  - intros x E. left. unfold start. rewrite E. by eexists.
  - intros next now later x. by eexists.
Qed.

(** C20: catching up on a fixed-interval schedule.  For a ticker the
    constructor accepts, the result is in strictly increasing order and
    holds exactly the activations [startTime + k*interval] (all of them, or
    the first [repetitions]) that lie in [[start, end)] and in the
    configured window; an error is returned exactly when more than 10000
    activations precede [end], whatever [start] is. *)
Theorem iso_occurrences_exact ivl s reps cfg x st en :
  New ivl s reps cfg = Ok x →
  let activation u :=
    ∃ k, 0 ≤ k ∧ (0 < reps → k < reps) ∧ u = mkTime (inst s + k * ivl) (location x) in
  let too_old := (reps ≤ 0 ∨ 10000 < reps) ∧ inst s + 10000 * ivl < inst en in
  match getOccurrencesBetween x st en with
  | Ok l =>
      ¬ too_old ∧ StronglySorted (λ u v, inst u < inst v) l ∧
      ∀ u, u ∈ l ↔ activation u ∧ inst st ≤ inst u < inst en ∧ isWithinWindow cfg u = true
  | Err _ => too_old
  end.
Proof.
  intros (Hi & <- & Hs & <- & <- & Hl & _)%New_inv activation too_old.
  unfold getOccurrencesBetween. rewrite <- (occ_0 x).
  rewrite occurrences_loop_spec by (unfold MaxOccurrenceIterations; lia).
  change (total x (In (location x) en)) with (total x en).
  assert (Hold : too_old ↔ 10000 < total x en).
  { pose proof (total_spec x en 10000 Hi ltac:(lia)) as Ht.
    rewrite limit_reached_false, Before_spec, occ_inst in Ht.
    unfold too_old, same_instant in *. lia. }
  destruct (Z.leb_spec (total x en) 10000); [|tauto].
  split; [intros ?%Hold; lia|]. rewrite app_nil_l, Z.sub_0_r.
  split; [by apply StronglySorted_filter, occ_sorted|].
  intros u. rewrite list_elem_of_filter, list_elem_of_fmap. simpl.
  assert (Hact : ∀ k, mkTime (inst s + k * interval x) (location x) = occ x k).
  { intros k. unfold occ, Add. unfold same_instant in Hs. by rewrite Hs, Hl. }
  split.
  - intros [[H1 H2] (k & -> & Hk)]. rewrite elem_of_seqZ in Hk.
    assert (k < total x en) as [Hb Hlim]%total_spec by lia; try lia.
    rewrite Before_spec in Hb. split; [exists k|done].
    rewrite limit_reached_false in Hlim. rewrite Hact. split_and!; (lia || done).
  - intros [(k & Hk & Hr & ->) [Hin Hw]]. rewrite Hact in *. split; [tauto|].
    exists k. split; [done|]. rewrite elem_of_seqZ.
    split; [done|]. rewrite Z.add_0_l, total_spec, Before_spec, limit_reached_false by done.
    lia.
Qed.
End Occurrences.

(** ** The live loop *)
Section Live.
Context `{TzLib}.
Implicit Types (x : t) (s : loop_state t).

(** A tick that is not early, inside the window. *)
Definition tick_ok x (c : TickContext) : Prop :=
  inst (ScheduledTime c) ≤ inst (ActualTime c) ∧
  isWithinWindow (config x) (ScheduledTime c) = true.

Definition schedule_of x := (interval x, startTime x, repetitions x, config x).

Definition armed_ok x (n : Z) (next : Time) (d : Instant) : Prop :=
  next = occ x n ∧ inst next ≤ d ∧ isWithinWindow (config x) next = true ∧
  limit_reached x n = false.

Record live x (steps : Z) s : Prop := {
  live_same : schedule_of (tick s) = schedule_of x;
  live_count : 0 ≤ runCount (tick s) ≤ steps;
  live_limit : 0 < repetitions x → runCount (tick s) ≤ repetitions x;
  live_ch : (ScheduledTime <$> ch (ctl (tick s)))
              `sublist_of` (occ x <$> seqZ 0 (runCount (tick s)));
  live_ticks : Forall (tick_ok x) (ch (ctl (tick s)));
  live_loops : ∀ next d i, loops s !! i = Some (Armed next d) →
    armed_ok x (runCount (tick s)) next d;
}.

Lemma occ_same x y k : schedule_of y = schedule_of x → occ y k = occ x k.
Proof. unfold occ. intros [= -> -> _ _]. done. Qed.
Lemma limit_same x y k :
  schedule_of y = schedule_of x → limit_reached y k = limit_reached x k.
Proof. unfold limit_reached. intros [= _ _ -> _]. done. Qed.

(** Actions that touch only the control fields, drop ticks at most, and arm
    no loop. *)
Lemma live_frame x n s c ls k :
  live x n s → ch c = drop k (ch (ctl (tick s))) →
  (∀ next d i, ls !! i = Some (Armed next d) → ∃ j, loops s !! j = Some (Armed next d)) →
  live x (n + 1) (mkLoop (with_ctl c (tick s)) ls).
Proof.
  intros [Hs Hc Hl Hq Ht Ha] Hch Hls. split; simpl; [done|lia|done| | |].
  - rewrite Hch, fmap_drop. etrans; [apply sublist_drop|done].
  - rewrite Hch. by apply Forall_drop.
  - intros next d i (j & Hj)%Hls. by eapply Ha.
Qed.
Lemma with_ctl_id x : with_ctl (ctl x) x = x.
Proof. by destruct x. Qed.

Lemma insert_not_armed (l : list loop_pc) i pc next d j :
  (∀ a b, pc ≠ Armed a b) → <[i := pc]> l !! j = Some (Armed next d) →
  ∃ j', l !! j' = Some (Armed next d).
Proof. intros Hpc [(-> & -> & _)|[_ E]]%list_lookup_insert_Some; [by edestruct Hpc|by eexists]. Qed.

(** A loop at the top: what it arms is the next activation. *)
Lemma live_top x n s i now :
  live x n s → loops s !! i = Some AtTop → n * interval x < 2 ^ 62 → 0 < interval x →
  inst (startTime x) - 2 ^ 62 ≤ now → live x (n + 1) (step_top s i now).
Proof.
  intros Hlv Hi Hov Hpos Hnow. unfold step_top.
  assert (Hset : ∀ pc, (∀ a b, pc ≠ Armed a b) → live x (n + 1) (set_loop i pc s)).
  { intros pc Hpc. unfold set_loop. rewrite <- (with_ctl_id (tick s)).
    apply (live_frame x n s _ _ 0); [done|by rewrite drop_0|].
    intros next d j. by apply insert_not_armed. }
  destruct (loop_top (tick s) now) as [| | |next d] eqn:E; [by apply Hset..|].
  destruct Hlv as [Hs Hc Hl Hq Ht Ha].
  split; simpl; [done|lia|done..|].
  intros next' d' j [(-> & [= <- <-] & _)|[_ Hj]]%list_lookup_insert_Some; [|by eapply Ha].
  assert (En : calculateNextRun (tick s) = occ x (runCount (tick s))).
  { rewrite <- (occ_same x (tick s)) by done. unfold calculateNextRun, occ.
    rewrite wrap64_id; [done|]. unfold in_int64. injection Hs as -> _ _ _. nia. }
  simpl in E. unfold run_top in E. rewrite (limit_same x), En in E by done.
  injection Hs as Hiv Hst Hr Hcf. rewrite Hcf in E. cases_in E.
  split_and!; [done| |by apply negb_false_iff|done].
  assert (0 ≤ runCount (tick s) * interval x < 2 ^ 62) by nia.
  unfold Before, occ, Add; simpl. destruct (Z.ltb_spec (inst (startTime x) + runCount (tick s) * interval x) now);
    unfold Sub, minDuration, maxDuration; simpl; lia.
Qed.

Lemma seqZ_snoc n : 0 ≤ n → seqZ 0 (n + 1) = seqZ 0 n ++ [n].
Proof. intros. rewrite seqZ_app by lia. by rewrite (seqZ_cons (0 + n)), (seqZ_nil (Z.succ _)) by lia. Qed.

Lemma live_fire x n s i next d now later :
  live x n s → loops s !! i = Some (Armed next d) → d ≤ now →
  (length (loops s) ≤ 1)%nat → n < 2 ^ 62 →
  live x (n + 1) (mkLoop (run_fire next now later (tick s)) (<[i := AtTop]> (loops s))).
Proof.
  intros [Hs Hc Hl Hq Ht Ha] Hi Hd Hlen Hn.
  destruct (Ha _ _ _ Hi) as (Hnext & Hnd & Hw & Hlim%limit_reached_false).
  assert (Hrun : wrap64 (runCount (tick s) + 1) = runCount (tick s) + 1)
    by (apply wrap64_id; unfold in_int64; lia).
  split; simpl; rewrite ?Hrun; [done|lia|lia| | |].
  - rewrite seqZ_snoc, fmap_app by lia. unfold send_tick.
    destruct (_ <? _)%nat; simpl; [|by apply sublist_inserts_r].
    rewrite fmap_app. simpl. rewrite Hnext. by apply sublist_app.
  - unfold send_tick. destruct (_ <? _)%nat; simpl; [|done].
    apply Forall_app; split; [done|]. constructor; [|done]. split; simpl; [lia|done].
  - intros next' d' j [(_ & [=] & _)|[Hne Hj]]%list_lookup_insert_Some.
    apply lookup_lt_Some in Hi, Hj. lia.
Qed.

Lemma length_loops (s : loop_state t) a s' :
  step s a = Next s' →
  (length (loops s') ≤ length (loops s) + match a with LStart => 1 | _ => 0 end)%nat.
Proof.
  intros E. destruct a; simpl in E; cases_in E; simplify_eq; unfold step_top; repeat case_match; simpl;
    rewrite ?length_app, ?length_insert; simpl; lia.
Qed.

Definition clock_ok x (a : loop_action) : Prop :=
  match a with LTop _ now => inst (startTime x) - 2 ^ 62 ≤ now | _ => True end.

Lemma live_step x n s a s' :
  live x n s → step s a = Next s' → clock_ok x a → 0 < interval x →
  n * interval x < 2 ^ 62 → (length (loops s) ≤ 1)%nat → live x (n + 1) s'.
Proof.
  intros Hlv E Hck Hpos Hov Hlen.
  assert (Hsame : ∀ ls, (∀ next d i, ls !! i = Some (Armed next d) → ∃ j, loops s !! j = Some (Armed next d)) →
    live x (n + 1) (mkLoop (tick s) ls)).
  { intros ls Hls. rewrite <- (with_ctl_id (tick s)).
    by apply (live_frame x n s _ _ 0); [|rewrite drop_0|]. }
  assert (Hself : ∀ next d i, loops s !! i = Some (Armed next d) → ∃ j, loops s !! j = Some (Armed next d)) by eauto.
  assert (Hset : ∀ c pc i, ch c = ch (ctl (tick s)) → (∀ a b, pc ≠ Armed a b) →
    live x (n + 1) (mkLoop (with_ctl c (tick s)) (<[i := pc]> (loops s)))).
  { intros c pc i Hch Hpc. apply (live_frame x n s _ _ 0); [done|by rewrite drop_0|].
    intros next d j. by apply insert_not_armed. }
  destruct a; simpl in E.
  - cases_in E. unfold start in Heqp. simpl.
    destruct (running (ctl (tick s))); injection Heqp as <- <- _.
    + rewrite app_nil_r, <- (with_ctl_id (tick s)). by apply (live_frame x n s _ _ 0); eauto.
    + apply (live_frame x n s _ _ 0); [done..|].
      intros next d i [?|[_ Hi]]%lookup_app_Some; [eauto|]. by apply list_lookup_singleton_Some in Hi as [_ ?].
  - unfold ctl_Stop in E. cases_in E; by apply (live_frame x n s _ _ 0); eauto.
  - injection E as <-. apply (live_frame x n s _ _ 0); eauto.
    simpl. by destruct (ctl_Pause_fields (ctl (tick s))) as (-> & _).
  - injection E as <-. apply (live_frame x n s _ _ 0); eauto.
    simpl. by destruct (ctl_Resume_fields (ctl (tick s))) as (-> & _).
  - cases_in E. apply (live_frame x n s _ _ 1); eauto. simpl. by rewrite Heql.
  - cases_in E. by apply live_top.
  - cases_in E; unfold set_loop; rewrite <- (with_ctl_id (tick s)); by apply Hset.
  - cases_in E; by apply Hset.
  - cases_in E; by apply Hset.
  - cases_in E.
    + unfold set_loop; rewrite <- (with_ctl_id (tick s)); by apply Hset.
    + apply (live_fire x n s _ _ deadline); try done; nia.
  - cases_in E. rewrite <- (with_ctl_id (tick s)). by apply Hset.
Qed.

Lemma live_exec x m n s acts s' :
  live x n s → (length (loops s) + m ≤ 1)%nat → starts_within m acts = true →
  Forall (clock_ok x) acts → 0 < interval x →
  (n + Z.of_nat (length acts)) * interval x < 2 ^ 62 →
  exec step s acts = Next s' → live x (n + Z.of_nat (length acts)) s'.
Proof.
  intros Hlv Hlen Hst Hck Hpos Hov. revert s n m Hlv Hlen Hst Hck Hov.
  induction acts as [|a acts IH]; intros s n m Hlv Hlen Hst Hck Hov E; cbn [exec length] in *.
  - injection E as <-. by rewrite Z.add_0_r.
  - apply Forall_cons in Hck as [Ha Hck]. destruct (step s a) as [|s1|] eqn:E1; [done| |done].
    replace (n + Z.of_nat (S (length acts)))
      with (n + 1 + Z.of_nat (length acts)) in * by lia.
    pose proof (length_loops _ _ _ E1).
    destruct a as [| | | | | | | | | |]; destruct m as [|m]; simpl in Hst; try done;
      (eapply IH; [eapply live_step; [done|done|done|done|nia|lia]| |exact Hst|done|lia|done]; lia).
Qed.

(** C22: the live loop of a ticker that is started at most once delivers the
    same schedule.  Start a freshly constructed ticker at most once and
    interleave its loop with consumers and control calls in any way, with a
    clock at most 2^62 ns before the start time and for fewer steps
    than would overflow the 64-bit product.  Then the ticks waiting in the channel are, in order and
    without repetition, activations [startTime + k*interval] with [k] below
    the number of ticks fired; none lies outside the window or was sent
    before its time; no more than [repetitions] have fired. *)
Theorem iso_live_ticks ivl st reps cfg x acts s :
  New ivl st reps cfg = Ok x → starts_within 1 acts = true →
  Forall (clock_ok x) acts → Z.of_nat (length acts) * ivl < 2 ^ 62 →
  exec step (mkLoop x []) acts = Next s →
  let fired := runCount (tick s) in
  (0 < reps → fired ≤ reps) ∧
  (ScheduledTime <$> ch (ctl (tick s)))
    `sublist_of` ((λ k, mkTime (inst st + k * ivl) (location x)) <$> seqZ 0 fired) ∧
  Forall (tick_ok x) (ch (ctl (tick s))).
Proof.
  intros (Hi & <- & Hs & <- & Hcfg & Hl & Hr & Hctl)%New_inv Hst Hck Hov E.
  assert (H0 : live x 0 (mkLoop x [])).
  { split; simpl; rewrite ?Hr, ?Hctl; simpl; try lia; done || constructor. }
  apply (live_exec x 1 0) in E; [|done|simpl; lia|done|done|done|lia].
  destruct E as [_ _ Hlim Hch Ht _]. split_and!; [done| |done].
  replace ((λ k, mkTime (inst st + k * interval x) (location x)) <$> seqZ 0 (runCount (tick s)))
    with (occ x <$> seqZ 0 (runCount (tick s))); [done|].
  apply list_fmap_ext. intros _ k _. unfold occ, Add. unfold same_instant in Hs. by rewrite Hs, Hl.
Qed.
End Live.
End ISO8601Ticker.

(** ** Witnesses and the behaviour of control calls on concrete runs *)
Module ISOExamples.
Import ISO8601Ticker.
#[export] Instance utc_only : TzLib := {
  LoadLocation s := if bool_decide (s = "UTC") then Ok UTC else Err "unknown time zone";
}.

(** Every 10 ns from instant 1000, at most 5 times, until instant 1035. *)
Definition cfg : TickerConfig := mkTickerConfig None (Some (mkTime 1035 UTC)) EmptyString.
Definition tick5 : t := mk 10 (mkTime 1000 UTC) 5 cfg UTC 0 None (newCtl 10).

Lemma single_start_never_panics_witness :
  match exec step (mkLoop tick5 []) [LStart; LTop 0 990; LStop; LStop; LStopSeen 0; LReturn 0] with
  | Panicked _ => False
  | Disabled => True
  | Next s => (length (ch (get_ctl (tick s))) ≤ ch_cap (get_ctl (tick s)))%nat
  end.
Proof. apply (single_start_never_panics tick5); reflexivity. Defined.

Lemma iso_occurrences_exact_witness :
  New 10 (mkTime 1000 UTC) 5 cfg = Ok tick5 ∧
  let activation u := ∃ k, 0 ≤ k ∧ (0 < 5 → k < 5) ∧ u = mkTime (1000 + k * 10) UTC in
  let l := [mkTime 1010 UTC; mkTime 1020 UTC; mkTime 1030 UTC] in
  ¬ ((5 ≤ 0 ∨ 10000 < 5) ∧ 1000 + 10000 * 10 < 2000) ∧
  StronglySorted (λ u v, inst u < inst v) l ∧
  ∀ u, u ∈ l ↔ activation u ∧ 1007 ≤ inst u < 2000 ∧ isWithinWindow cfg u = true.
Proof.
  split; [reflexivity|].
  exact (iso_occurrences_exact 10 (mkTime 1000 UTC) 5 cfg tick5 (mkTime 1007 UTC)
    (mkTime 2000 (LocPtr 3)) eq_refl).
Defined.

(** Two ticks; the first is consumed. *)
Definition run2 : list loop_action :=
  [LStart; LTop 0 990; LTimer 0 1001 1001; LTop 0 1002; LTimer 0 1013 1014; LConsume; LTop 0 1013].

Lemma iso_live_ticks_witness :
  ∃ s, exec step (mkLoop tick5 []) run2 = Next s ∧ runCount (tick s) = 2 ∧
    ((ScheduledTime <$> ch (ctl (tick s)))
      `sublist_of` ((λ k, mkTime (1000 + k * 10) UTC) <$> seqZ 0 2)) ∧
    Forall (tick_ok tick5) (ch (ctl (tick s))).
Proof.
  eexists. split; [reflexivity|]. split; [reflexivity|].
  assert (Hck : Forall (clock_ok tick5) run2) by (repeat constructor; simpl; lia).
  exact (proj2 (iso_live_ticks 10 (mkTime 1000 UTC) 5 cfg tick5 run2 _
    eq_refl eq_refl Hck eq_refl eq_refl)).
Defined.

(** [Resume] delivered to the paused select stores [true]: the ticker is
    paused again, its own [IsPaused] says so, and it blocks in the same select;
    a message sent by [Pause] would wake it. *)
Lemma iso_resume_leaves_paused :
  let paused_run := [LStart; LTop 0 990; LPause; LMsg 0; LStore 0; LTop 0 991] in
  ∃ s, exec step (mkLoop tick5 []) (paused_run ++ [LResume; LMsg 0; LStore 0; LTop 0 992]) = Next s ∧
    isPaused (tick s) = true ∧ loops s = [InPaused].
Proof. eexists. split; [vm_compute; reflexivity|]. split; reflexivity. Qed.

(** Stopped and started again while the first loop is still waiting: both
    loops send the same tick. *)
Lemma iso_restart_repeats_tick :
  match exec step (mkLoop tick5 [])
          [LStart; LTop 0 990; LStop; LStart; LTop 1 991; LTimer 0 1000 1000; LTimer 1 1001 1001] with
  | Next s => ScheduledTime <$> ch (ctl (tick s)) = [mkTime 1000 UTC; mkTime 1000 UTC]
  | _ => False
  end.
Proof. vm_compute. done. Qed.
End ISOExamples.
