(* ===== verification/OnceTicker.v ===== *)
(** * ticker/once.go: one-time schedules *)
From S2P Require Import Prelude GoTime Ticker ISO8601Ticker.
Local Open Scope Z_scope.

Module OnceTicker.
Section Once.
Context `{TzLib}.

Record t := mk {
  scheduledTime : Time;
  config : TickerConfig;
  executed : bool;
  location : Loc;
  ctl : Ctl;
}.

Definition New (scheduled : Time) (cfg : TickerConfig) : Result t :=
  match load_zone (cfg_Timezone cfg) with
  | Err e => Err e
  | Ok l => Ok (mk (In l scheduled) cfg false l (newCtl 1))
  end.

Definition with_ctl (c : Ctl) (x : t) : t :=
  mk (scheduledTime x) (config x) (executed x) (location x) c.

Definition start (x : t) : t * bool * option GoError :=
  if running (ctl x) then (x, false, None)
  else if executed x then (x, false, Some "once ticker has already been executed")
  else (with_ctl (set_running true (ctl x)) x, true, None).

Definition run_top (x : t) (now0 : Instant) : top :=
  if executed x then TReturn
  else if paused (ctl x) then TPaused
  else
    let now := mkTime now0 (location x) in
    if negb (isWithinWindow (config x) (scheduledTime x)) then
      if match cfg_EndTime (config x) with
         | Some e => After (scheduledTime x) e | None => false end
      then TReturn else TOutside
    else
      let duration := if Before (scheduledTime x) now then 0 else Sub (scheduledTime x) now in
      TArm (scheduledTime x) (now0 + duration).

Definition run_fire (next : Time) (now _ : Instant) (x : t) : t :=
  mk (scheduledTime x) (config x) true (location x)
     (send_tick (mkTickContext next (mkTime now (location x)) None) (ctl x)).

#[export] Instance loop : TickerLoop t := {
  get_ctl := ctl;
  set_ctl := with_ctl;
  loop_start := start;
  loop_top := run_top;
  loop_paused_msg resume := negb resume;
  loop_fire := run_fire;
  loop_fire_returns := true;
  loop_deferred x := with_ctl (set_running false (ctl x)) x;
}.

Definition isActive (x : t) (now : Instant) : bool :=
  isWithinWindow (config x) (mkTime now (location x)).
Definition isPaused (x : t) : bool := paused (ctl x).

Definition nextRun (x : t) (now : Instant) : Result (option Time) :=
  if executed x then Ok None
  else if negb (isWithinWindow (config x) (scheduledTime x)) then Ok None
  else Ok (Some (scheduledTime x)).

Definition getOccurrencesBetween (x : t) (start0 en0 : Time) : Result (list Time) :=
  let start := In (location x) start0 in
  let en := In (location x) en0 in
  if After (scheduledTime x) start && Before (scheduledTime x) en
     && isWithinWindow (config x) (scheduledTime x)
  then Ok [scheduledTime x] else Ok [].

#[export] Instance ticker : Ticker t := {
  IsActive := isActive;
  IsPaused := isPaused;
  IsEnabled x now := isActive x now && negb (isPaused x);
  NextRun := nextRun;
  GetOccurrencesBetween := getOccurrencesBetween;
}.

#[export] Instance loop_laws : TickerLoopLaws t.
Proof.
  split; simpl; [done|intros x E; unfold start; by rewrite E| | |by right].
  - intros x E. unfold start. rewrite E. destruct (executed x); [right|left]; by eexists.
  - intros next now later x. by eexists.
Qed.
End Once.

Section Live.
Context `{TzLib}.
Implicit Types (x : t) (s : loop_state t).

Definition tick_ok x (c : TickContext) : Prop :=
  ScheduledTime c = scheduledTime x ∧ inst (scheduledTime x) ≤ inst (ActualTime c) ∧
  isWithinWindow (config x) (scheduledTime x) = true.

(** What a loop may be doing: it arms only the scheduled time, and once the
    tick has been sent it can only end. *)
Definition pc_ok x (ex : bool) (pc : loop_pc) : Prop :=
  match pc with
  | Armed next d =>
      ex = false ∧ next = scheduledTime x ∧ inst next ≤ d ∧
      isWithinWindow (config x) next = true
  | Returning | Gone => True
  | _ => ex = false
  end.

Record live x s : Prop := {
  live_same : scheduledTime (tick s) = scheduledTime x ∧ config (tick s) = config x;
  live_ch : Forall (tick_ok x) (ch (ctl (tick s)));
  live_sent : executed (tick s) = false → ch (ctl (tick s)) = [];
  live_one : (length (ch (ctl (tick s))) ≤ 1)%nat;
  live_loops : Forall (pc_ok x (executed (tick s))) (loops s);
}.

Definition clock_ok x (a : loop_action) : Prop :=
  match a with LTop _ now => inst (scheduledTime x) - 2 ^ 63 < now | _ => True end.

Lemma once_live_frame x s c ls k :
  live x s → ch c = drop k (ch (ctl (tick s))) → Forall (pc_ok x (executed (tick s))) ls →
  live x (mkLoop (with_ctl c (tick s)) ls).
Proof.
  intros [Hs Hch Hsent Hone Hl] Hc Hls. split; simpl; rewrite ?Hc; [done|by apply Forall_drop| | |done].
  - intros ->%Hsent. by rewrite drop_nil.
  - rewrite length_drop. lia.
Qed.
Lemma once_with_ctl_id x : with_ctl (ctl x) x = x.
Proof. by destruct x. Qed.

Lemma live_set x s c i pc :
  live x s → ch c = ch (ctl (tick s)) → pc_ok x (executed (tick s)) pc →
  live x (mkLoop (with_ctl c (tick s)) (<[i := pc]> (loops s))).
Proof.
  intros Hlv Hc Hpc. apply (once_live_frame x s _ _ 0); [done..|].
  apply Forall_insert; [apply Hlv|done].
Qed.
Lemma live_set' x s i pc :
  live x s → pc_ok x (executed (tick s)) pc → live x (set_loop i pc s).
Proof. intros. unfold set_loop. rewrite <- (once_with_ctl_id (tick s)). by apply live_set. Qed.

Lemma live_loop x s i pc :
  live x s → loops s !! i = Some pc → pc_ok x (executed (tick s)) pc.
Proof. intros [_ _ _ _ Hl] Hi. by eapply Forall_lookup_1. Qed.

Lemma once_live_top x s i now :
  live x s → loops s !! i = Some AtTop → inst (scheduledTime x) - 2 ^ 63 < now →
  live x (step_top s i now).
Proof.
  intros Hlv Hi Hnow. pose proof (live_loop _ _ _ _ Hlv Hi) as Hex. simpl in Hex.
  destruct (live_same _ _ Hlv) as [Hst Hcf].
  unfold step_top. destruct (loop_top (tick s) now) as [| | |next d] eqn:E;
    apply live_set'; try done.
  simpl in E. unfold run_top in E. rewrite Hst, Hcf in E. cases_in E.
  split_and!; [done..| |by apply negb_false_iff].
  unfold Before; simpl. destruct (Z.ltb_spec (inst (scheduledTime x)) now); [lia|].
  unfold Sub, minDuration, maxDuration; simpl; lia.
Qed.

(** A single loop fires: the tick is the first. *)
Lemma once_live_fire x s i next d now later :
  live x s → loops s !! i = Some (Armed next d) → (length (loops s) ≤ 1)%nat → d ≤ now →
  live x (mkLoop (run_fire next now later (tick s)) (<[i := Returning]> (loops s))).
Proof.
  intros Hlv Hi Hlen Hd. destruct (live_loop _ _ _ _ Hlv Hi) as (Hex & -> & Hnd & Hw).
  destruct (live_same _ _ Hlv) as [Hst Hcf]. pose proof (live_sent _ _ Hlv Hex) as Hch.
  assert (Hl : <[i := Returning]> (loops s) = [Returning]).
  { destruct (loops s) as [|pc [|]]; simpl in *; [done| |lia]. by destruct i. }
  rewrite Hl. split; simpl; unfold send_tick; rewrite ?Hch; [done|..|repeat constructor];
    destruct (_ <? _)%nat; simpl; rewrite ?Hch; simpl; try done; try lia.
  repeat constructor; simpl; [lia|done].
Qed.

Lemma once_length_loops s a s' :
  step s a = Next s' →
  (length (loops s') ≤ length (loops s) + match a with LStart => 1 | _ => 0 end)%nat.
Proof.
  intros E. destruct a; simpl in E; cases_in E; simplify_eq; unfold step_top; repeat case_match; simpl;
    rewrite ?length_app, ?length_insert; simpl; lia.
Qed.

Lemma once_live_step x s a s' :
  live x s → step s a = Next s' → clock_ok x a → (length (loops s) ≤ 1)%nat → live x s'.
Proof.
  intros Hlv E Hck Hlen. pose proof (live_loops _ _ Hlv) as Hall.
  destruct a; simpl in E.
  - unfold start in E. simpl. cases_in E; rewrite ?app_nil_r;
      try (rewrite <- (once_with_ctl_id (tick s)); apply (once_live_frame x s _ _ 0); [done|done|apply Hlv]).
    apply (once_live_frame x s _ _ 0); [done..|]. apply Forall_app; split; [apply Hlv|].
    constructor; [done|constructor].
  - unfold ctl_Stop in E. cases_in E; (apply (once_live_frame x s _ _ 0); [done|done|apply Hlv]).
  - injection E as <-. apply (once_live_frame x s _ _ 0); [done| |apply Hlv].
    simpl. by destruct (ctl_Pause_fields (ctl (tick s))) as (-> & _).
  - injection E as <-. apply (once_live_frame x s _ _ 0); [done| |apply Hlv].
    simpl. by destruct (ctl_Resume_fields (ctl (tick s))) as (-> & _).
  - cases_in E. apply (once_live_frame x s _ _ 1); [done| |apply Hlv]. simpl. by rewrite Heql.
  - cases_in E. by apply once_live_top.
  - cases_in E; by apply live_set'.
  - cases_in E; apply (live_set x s); try done; apply (live_loop _ _ _ _ Hlv) in Heqo0; simpl in *; tauto.
  - cases_in E. apply (live_set x s); [done..|]. by apply (live_loop _ _ _ _ Hlv) in Heqo.
  - cases_in E.
    + apply (live_set' x s); [done|]. by apply (live_loop _ _ _ _ Hlv) in Heqo.
    + by eapply once_live_fire; [..|apply Z.leb_le].
  - cases_in E. by apply live_set.
Qed.

Lemma once_live_exec x m s acts s' :
  live x s → (length (loops s) + m ≤ 1)%nat → starts_within m acts = true →
  Forall (clock_ok x) acts → exec step s acts = Next s' → live x s'.
Proof.
  intros Hlv Hlen Hst Hck. revert s m Hlv Hlen Hst Hck.
  induction acts as [|a acts IH]; intros s m Hlv Hlen Hst Hck E; cbn [exec] in *; [by simplify_eq|].
  apply Forall_cons in Hck as [Ha Hck]. destruct (step s a) as [|s1|] eqn:E1; [done| |done].
  pose proof (once_length_loops _ _ _ E1).
  destruct a; destruct m as [|m]; simpl in Hst; try done;
    (eapply IH; [eapply once_live_step; [done|done|done|lia]| |exact Hst|done|done]; lia).
Qed.

(** After the tick has been sent nothing sends again, whatever is called. *)
Lemma executed_step x s a s' :
  live x s → executed (tick s) = true → step s a = Next s' →
  executed (tick s') = true ∧ Forall (pc_ok x true) (loops s') ∧
  ∃ k, ch (ctl (tick s')) = drop k (ch (ctl (tick s))).
Proof.
  intros Hlv Hex E. pose proof (live_loops _ _ Hlv) as Hall. rewrite Hex in Hall.
  assert (Hpc : ∀ i pc, loops s !! i = Some pc → pc = Returning ∨ pc = Gone).
  { intros i pc Hi. pose proof (Forall_lookup_1 _ _ _ _ Hall Hi) as Hp.
    destruct pc; simpl in Hp; try discriminate; auto. by destruct Hp. }
  assert (Hset : ∀ i, Forall (pc_ok x true) (<[i := Gone]> (loops s))) by (intros; by apply Forall_insert).
  destruct a; simpl in E; unfold start in E; try rewrite Hex in E; cases_in E; simplify_eq;
    try (apply Hpc in Heqo as [|]; discriminate); try (apply Hpc in Heqo0 as [|]; discriminate);
    simpl; rewrite ?app_nil_r; split_and!; eauto.
  all: try (exists 0%nat; rewrite drop_0;
    first [done|by destruct (ctl_Pause_fields (ctl (tick s))) as (-> & _)
               |by destruct (ctl_Resume_fields (ctl (tick s))) as (-> & _)]).
  - unfold ctl_Stop in *. cases_go; by exists 0%nat.
  - exists 1%nat. simpl. by rewrite ?Heql.
Qed.

(** C21: a one-time schedule that is started at most once fires at most once,
    never early and never outside its window.  Start a freshly constructed
    ticker at most once, with a clock less than 2^63 ns before the scheduled
    time, and interleave in any way: before its tick is sent the channel is
    empty; afterwards every further step, of any kind, leaves the channel as
    it is or takes the tick out.  ([once_restart_fires_twice] shows what a
    second Start can do.) *)
Theorem once_fires_once at0 cfg x acts s :
  New at0 cfg = Ok x → starts_within 1 acts = true → Forall (clock_ok x) acts →
  exec step (mkLoop x []) acts = Next s →
  Forall (tick_ok x) (ch (ctl (tick s))) ∧ (length (ch (ctl (tick s))) ≤ 1)%nat ∧
  (executed (tick s) = false → ch (ctl (tick s)) = []) ∧
  (executed (tick s) = true → ∀ a s', step s a = Next s' →
     executed (tick s') = true ∧ (ch (ctl (tick s')) = ch (ctl (tick s)) ∨ ch (ctl (tick s')) = [])).
Proof.
  intros Hnew Hst Hck E.
  assert (H0 : live x (mkLoop x [])).
  { unfold New in Hnew. destruct (load_zone _); [|done]. injection Hnew as <-.
    split; simpl; try lia; done || constructor. }
  apply (once_live_exec x 1) in E; [|done|simpl; lia|done..].
  split_and!; [apply E|apply E|apply E|]. intros Hex a s' Ea.
  destruct (executed_step _ _ _ _ E Hex Ea) as (He & _ & k & ->). split; [done|].
  pose proof (live_one _ _ E). destruct (ch (ctl (tick s))) as [|c [|]], k as [|[|]]; simpl in *;
    auto; lia.
Qed.
End Live.

(** Strictly between the bounds, unlike the other two tickers. *)
Lemma getOccurrencesBetween_once x st en :
  getOccurrencesBetween x st en =
    Ok (if bool_decide (inst st < inst (scheduledTime x) < inst en) &&
           isWithinWindow (config x) (scheduledTime x)
        then [scheduledTime x] else []).
Proof.
  unfold getOccurrencesBetween, After, Before; simpl. case_bool_decide;
    destruct (Z.ltb_spec (inst st) (inst (scheduledTime x))),
      (Z.ltb_spec (inst (scheduledTime x)) (inst en)); simpl; try lia; by destruct (isWithinWindow (config x) (scheduledTime x)).
Qed.
End OnceTicker.

Module OnceExamples.
Import OnceTicker ISOExamples.
Definition at50 : t := mk (mkTime 50 UTC) (mkTickerConfig None None EmptyString) false UTC (newCtl 1).
Definition fired : list loop_action := [LStart; LTop 0 7; LTimer 0 50 50; LReturn 0].

Lemma once_fires_once_witness :
  ∃ s, exec step (mkLoop at50 []) fired = Next s ∧ executed (tick s) = true ∧
    Forall (tick_ok at50) (ch (ctl (tick s))) ∧ (length (ch (ctl (tick s))) ≤ 1)%nat ∧
    (executed (tick s) = false → ch (ctl (tick s)) = []) ∧
    (executed (tick s) = true → ∀ a s', step s a = Next s' →
       executed (tick s') = true ∧ (ch (ctl (tick s')) = ch (ctl (tick s)) ∨ ch (ctl (tick s')) = [])).
Proof.
  eexists. split; [reflexivity|]. split; [reflexivity|].
  assert (Hck : Forall (clock_ok at50) fired) by (repeat constructor; simpl; lia).
  exact (once_fires_once (mkTime 50 UTC) (mkTickerConfig None None EmptyString) at50 fired _
    eq_refl eq_refl Hck eq_refl).
Defined.

(** Stopped and started again while the first loop is still waiting: both
    loops send the tick. *)
Lemma once_restart_fires_twice :
  let once acts := match exec step (mkLoop at50 []) acts with
                   | Next s => ScheduledTime <$> ch (ctl (tick s)) | _ => [] end in
  let acts := [LStart; LTop 0 1; LStop; LStart; LTop 1 2; LTimer 0 50 50] in
  once acts = [mkTime 50 UTC] ∧ once (acts ++ [LConsume]) = [] ∧
  once (acts ++ [LConsume; LTimer 1 51 51]) = [mkTime 50 UTC].
Proof. vm_compute. done. Qed.
End OnceExamples.
