(* ===== verification/Storage.v ===== *)
(** * storage/storage.go: what is stored, and the storage interface

    [encoding/json] is modelled at the level of documents: [Marshal] gives the
    list of named fields of a struct, [Unmarshal] looks fields up by name,
    ignores unknown ones, leaves absent or [null] ones at their zero value and
    fails on a value of another kind.  Times are instants (the code never
    looks at the location of a stored time); writing a year outside [0, 9999]
    fails, as in Go, but the year is that of the instant in UTC where Go takes
    the location of the time.  Strings are taken to be valid UTF-8:
    [encoding/json] writes other bytes as U+FFFD. *)
From S2P Require Import Prelude GoTime Types.
Local Open Scope Z_scope.

(** A [[]byte] field: nil, empty, or the JSON text of a configuration. *)
Inductive bytes :=
| BNil | BEmpty
| BJobConfig (c : JobConfig)
| BTaskConfig (c : TaskConfig).
#[export] Instance bytes_eq_dec : EqDecision bytes.
Proof. solve_decision. Defined.

(** JSON has no infinities and no NaN. *)
Definition float_ok (f : float64) : bool :=
  match f with S754_infinity _ | S754_nan => false | _ => true end.
Definition retry_ok (r : option RetryPolicy) : bool :=
  match r with Some p => float_ok (BackoffFactor p) | None => true end.

Definition json_unsupported : GoError := "json: unsupported value".
Definition Marshal_TaskConfig (c : TaskConfig) : Result bytes :=
  if retry_ok (tc_RetryPolicy c) then Ok (BTaskConfig c) else Err json_unsupported.
Definition Marshal_JobConfig (c : JobConfig) : Result bytes :=
  if retry_ok (tc_RetryPolicy (jc_TaskConfig c)) then Ok (BJobConfig c) else Err json_unsupported.

Record StorageJob := mkStorageJob {
  sj_ID : string;
  sj_Name : string;
  sj_ScheduleType : string;
  sj_ScheduleConfig : bytes;
  sj_Config : bytes;
  sj_Version : Z;
  sj_Active : bool;
  sj_Paused : bool;
  sj_LastRunTime : option Instant;
  sj_CreatedAt : Instant;
  sj_UpdatedAt : Instant;
}.

Record StorageTask := mkStorageTask {
  sk_ID : string;
  sk_JobID : string;
  sk_Name : string;
  sk_Config : bytes;
  sk_Order : Z;
  sk_CreatedAt : Instant;
  sk_UpdatedAt : Instant;
}.

Record StorageOccurrence := mkStorageOccurrence {
  so_ID : string;
  so_JobID : string;
  so_JobVersion : Z;
  so_ScheduledTime : Instant;
  so_Status : JobStatus;
  so_OwningNodeID : string;
  so_StartTime : option Instant;
  so_EndTime : option Instant;
  so_Config : bytes;
  so_IsRecoveryRun : bool;
  so_CreatedAt : Instant;
  so_UpdatedAt : Instant;
}.

Record TaskRun := mkTaskRun {
  sr_ID : string;
  sr_OccurrenceID : string;
  sr_TaskID : string;
  sr_Status : TaskStatus;
  sr_RetryCount : Z;
  sr_StartTime : option Instant;
  sr_EndTime : option Instant;
  sr_ErrorMessage : string;
  sr_CreatedAt : Instant;
  sr_UpdatedAt : Instant;
}.

Record ExecutionAttempt := mkExecutionAttempt {
  sa_ID : string;
  sa_TaskRunID : string;
  sa_AttemptNumber : Z;
  sa_Status : TaskStatus;
  sa_StartTime : Instant;
  sa_EndTime : option Instant;
  sa_ErrorMessage : string;
  sa_CreatedAt : Instant;
}.

#[export] Instance StorageJob_eq_dec : EqDecision StorageJob.
Proof. solve_decision. Defined.
#[export] Instance StorageTask_eq_dec : EqDecision StorageTask.
Proof. solve_decision. Defined.
#[export] Instance StorageOccurrence_eq_dec : EqDecision StorageOccurrence.
Proof. solve_decision. Defined.
#[export] Instance TaskRun_eq_dec : EqDecision TaskRun.
Proof. solve_decision. Defined.
#[export] Instance ExecutionAttempt_eq_dec : EqDecision ExecutionAttempt.
Proof. solve_decision. Defined.

(** The assignments [x.Field = v] of the code. *)
Definition set_sj_UpdatedAt (t : Instant) (j : StorageJob) : StorageJob :=
  mkStorageJob (sj_ID j) (sj_Name j) (sj_ScheduleType j) (sj_ScheduleConfig j) (sj_Config j)
    (sj_Version j) (sj_Active j) (sj_Paused j) (sj_LastRunTime j) (sj_CreatedAt j) t.
Definition set_sk_UpdatedAt (t : Instant) (k : StorageTask) : StorageTask :=
  mkStorageTask (sk_ID k) (sk_JobID k) (sk_Name k) (sk_Config k) (sk_Order k) (sk_CreatedAt k) t.
Definition set_so_UpdatedAt (t : Instant) (o : StorageOccurrence) : StorageOccurrence :=
  mkStorageOccurrence (so_ID o) (so_JobID o) (so_JobVersion o) (so_ScheduledTime o) (so_Status o)
    (so_OwningNodeID o) (so_StartTime o) (so_EndTime o) (so_Config o) (so_IsRecoveryRun o)
    (so_CreatedAt o) t.
Definition set_so_Status (st : JobStatus) (o : StorageOccurrence) : StorageOccurrence :=
  mkStorageOccurrence (so_ID o) (so_JobID o) (so_JobVersion o) (so_ScheduledTime o) st
    (so_OwningNodeID o) (so_StartTime o) (so_EndTime o) (so_Config o) (so_IsRecoveryRun o)
    (so_CreatedAt o) (so_UpdatedAt o).
Definition set_so_EndTime (t : option Instant) (o : StorageOccurrence) : StorageOccurrence :=
  mkStorageOccurrence (so_ID o) (so_JobID o) (so_JobVersion o) (so_ScheduledTime o) (so_Status o)
    (so_OwningNodeID o) (so_StartTime o) t (so_Config o) (so_IsRecoveryRun o)
    (so_CreatedAt o) (so_UpdatedAt o).
Definition set_sr_UpdatedAt (t : Instant) (r : TaskRun) : TaskRun :=
  mkTaskRun (sr_ID r) (sr_OccurrenceID r) (sr_TaskID r) (sr_Status r) (sr_RetryCount r)
    (sr_StartTime r) (sr_EndTime r) (sr_ErrorMessage r) (sr_CreatedAt r) t.

(** ** The interface

    Every method takes a context, which the implementation does not consult:
    it is left out.  Methods that read the clock take the reading. *)
Class Storage (S : Type) := {
  CreateJob : StorageJob → St S (Result unit);
  GetJob : string → St S (Result StorageJob);
  UpdateJob : Instant → StorageJob → St S (Result unit);
  DeleteJob : string → St S (Result unit);
  ListJobs : St S (Result (list StorageJob));
  CreateTask : StorageTask → St S (Result unit);
  GetTask : string → St S (Result StorageTask);
  UpdateTask : Instant → StorageTask → St S (Result unit);
  DeleteTask : string → St S (Result unit);
  ListTasksByJobID : string → St S (Result (list StorageTask));
  CreateJobOccurrence : StorageOccurrence → St S (Result unit);
  GetJobOccurrence : string → St S (Result StorageOccurrence);
  UpdateJobOccurrence : Instant → StorageOccurrence → St S (Result unit);
  DeleteJobOccurrence : string → St S (Result unit);
  ListRunningOccurrences : St S (Result (list StorageOccurrence));
  ListStaleOccurrences : Instant → Duration → St S (Result (list StorageOccurrence));
  ListQueuedOccurrencesByJobID : string → St S (Result (list StorageOccurrence));
  ListPendingOccurrences : string → St S (Result (list StorageOccurrence));
  CreateTaskRun : TaskRun → St S (Result unit);
  GetTaskRun : string → St S (Result TaskRun);
  UpdateTaskRun : Instant → TaskRun → St S (Result unit);
  DeleteTaskRun : string → St S (Result unit);
  ListTaskRunsByOccurrenceID : string → St S (Result (list TaskRun));
  CreateExecutionAttempt : ExecutionAttempt → St S (Result unit);
  GetExecutionAttempt : string → St S (Result ExecutionAttempt);
  UpdateExecutionAttempt : ExecutionAttempt → St S (Result unit);
  ListExecutionAttemptsByTaskRunID : string → St S (Result (list ExecutionAttempt));
  Close : St S (Result unit);
}.

(** ** Documents *)
Inductive jval :=
| JNull | JBool (b : bool) | JInt (z : Z) | JStr (s : string) | JTime (t : Instant) | JBytes (b : bytes).
#[export] Instance jval_eq_dec : EqDecision jval.
Proof. solve_decision. Defined.
Definition Doc := list (string * jval).

Fixpoint doc_get (d : Doc) (name : string) : jval :=
  match d with
  | [] => JNull
  | (n, v) :: d' => if String.eqb n name then v else doc_get d' name
  end.

Definition out_time (t : Instant) : Result jval :=
  if bool_decide (in_rfc3339_range t) then Ok (JTime t)
  else Err "Time.MarshalJSON: year outside of range [0,9999]".
Definition out_time_ptr (t : option Instant) : Result jval :=
  match t with Some t => out_time t | None => Ok JNull end.
Definition out_bytes (b : bytes) : jval := match b with BNil => JNull | _ => JBytes b end.

Definition json_kind {A} : Result A := Err "json: cannot unmarshal value into Go struct field".
Definition in_str (v : jval) : Result string :=
  match v with JStr s => Ok s | JNull => Ok EmptyString | _ => json_kind end.
Definition in_int (v : jval) : Result Z :=
  match v with JInt z => Ok z | JNull => Ok 0 | _ => json_kind end.
Definition in_bool (v : jval) : Result bool :=
  match v with JBool b => Ok b | JNull => Ok false | _ => json_kind end.
Definition in_time (v : jval) : Result Instant :=
  match v with JTime t => Ok t | JNull => Ok (inst zeroTime) | _ => json_kind end.
Definition in_time_ptr (v : jval) : Result (option Instant) :=
  match v with JTime t => Ok (Some t) | JNull => Ok None | _ => json_kind end.
Definition in_bytes (v : jval) : Result bytes :=
  match v with JBytes b => Ok b | JNull => Ok BNil | _ => json_kind end.

Definition Marshal_Job (j : StorageJob) : Result Doc :=
  last ← out_time_ptr (sj_LastRunTime j);
  created ← out_time (sj_CreatedAt j);
  updated ← out_time (sj_UpdatedAt j);
  Ok [("ID", JStr (sj_ID j)); ("Name", JStr (sj_Name j));
      ("ScheduleType", JStr (sj_ScheduleType j));
      ("ScheduleConfig", out_bytes (sj_ScheduleConfig j)); ("Config", out_bytes (sj_Config j));
      ("Version", JInt (sj_Version j)); ("Active", JBool (sj_Active j));
      ("Paused", JBool (sj_Paused j)); ("LastRunTime", last);
      ("CreatedAt", created); ("UpdatedAt", updated)].

Definition Unmarshal_Job (d : Doc) : Result StorageJob :=
  let f := doc_get d in
  id ← in_str (f "ID"); name ← in_str (f "Name"); typ ← in_str (f "ScheduleType");
  sched ← in_bytes (f "ScheduleConfig"); cfg ← in_bytes (f "Config");
  version ← in_int (f "Version"); active ← in_bool (f "Active"); paused ← in_bool (f "Paused");
  last ← in_time_ptr (f "LastRunTime");
  created ← in_time (f "CreatedAt"); updated ← in_time (f "UpdatedAt");
  Ok (mkStorageJob id name typ sched cfg version active paused last created updated).

Definition Marshal_Task (k : StorageTask) : Result Doc :=
  created ← out_time (sk_CreatedAt k);
  updated ← out_time (sk_UpdatedAt k);
  Ok [("ID", JStr (sk_ID k)); ("JobID", JStr (sk_JobID k)); ("Name", JStr (sk_Name k));
      ("Config", out_bytes (sk_Config k)); ("Order", JInt (sk_Order k));
      ("CreatedAt", created); ("UpdatedAt", updated)].

Definition Unmarshal_Task (d : Doc) : Result StorageTask :=
  let f := doc_get d in
  id ← in_str (f "ID"); job ← in_str (f "JobID"); name ← in_str (f "Name");
  cfg ← in_bytes (f "Config"); order ← in_int (f "Order");
  created ← in_time (f "CreatedAt"); updated ← in_time (f "UpdatedAt");
  Ok (mkStorageTask id job name cfg order created updated).

Definition Marshal_Occurrence (o : StorageOccurrence) : Result Doc :=
  scheduled ← out_time (so_ScheduledTime o);
  started ← out_time_ptr (so_StartTime o);
  ended ← out_time_ptr (so_EndTime o);
  created ← out_time (so_CreatedAt o);
  updated ← out_time (so_UpdatedAt o);
  Ok [("ID", JStr (so_ID o)); ("JobID", JStr (so_JobID o)); ("JobVersion", JInt (so_JobVersion o));
      ("ScheduledTime", scheduled); ("Status", JStr (so_Status o));
      ("OwningNodeID", JStr (so_OwningNodeID o)); ("StartTime", started); ("EndTime", ended);
      ("Config", out_bytes (so_Config o)); ("IsRecoveryRun", JBool (so_IsRecoveryRun o));
      ("CreatedAt", created); ("UpdatedAt", updated)].

Definition Unmarshal_Occurrence (d : Doc) : Result StorageOccurrence :=
  let f := doc_get d in
  id ← in_str (f "ID"); job ← in_str (f "JobID"); version ← in_int (f "JobVersion");
  scheduled ← in_time (f "ScheduledTime"); status ← in_str (f "Status");
  node ← in_str (f "OwningNodeID"); started ← in_time_ptr (f "StartTime");
  ended ← in_time_ptr (f "EndTime"); cfg ← in_bytes (f "Config");
  recovery ← in_bool (f "IsRecoveryRun");
  created ← in_time (f "CreatedAt"); updated ← in_time (f "UpdatedAt");
  Ok (mkStorageOccurrence id job version scheduled status node started ended cfg recovery created updated).

Definition Marshal_TaskRun (r : TaskRun) : Result Doc :=
  started ← out_time_ptr (sr_StartTime r);
  ended ← out_time_ptr (sr_EndTime r);
  created ← out_time (sr_CreatedAt r);
  updated ← out_time (sr_UpdatedAt r);
  Ok [("ID", JStr (sr_ID r)); ("OccurrenceID", JStr (sr_OccurrenceID r));
      ("TaskID", JStr (sr_TaskID r)); ("Status", JStr (sr_Status r));
      ("RetryCount", JInt (sr_RetryCount r)); ("StartTime", started); ("EndTime", ended);
      ("ErrorMessage", JStr (sr_ErrorMessage r)); ("CreatedAt", created); ("UpdatedAt", updated)].

Definition Unmarshal_TaskRun (d : Doc) : Result TaskRun :=
  let f := doc_get d in
  id ← in_str (f "ID"); occ ← in_str (f "OccurrenceID"); task ← in_str (f "TaskID");
  status ← in_str (f "Status"); retries ← in_int (f "RetryCount");
  started ← in_time_ptr (f "StartTime"); ended ← in_time_ptr (f "EndTime");
  msg ← in_str (f "ErrorMessage");
  created ← in_time (f "CreatedAt"); updated ← in_time (f "UpdatedAt");
  Ok (mkTaskRun id occ task status retries started ended msg created updated).

Definition Marshal_Attempt (a : ExecutionAttempt) : Result Doc :=
  started ← out_time (sa_StartTime a);
  ended ← out_time_ptr (sa_EndTime a);
  created ← out_time (sa_CreatedAt a);
  Ok [("ID", JStr (sa_ID a)); ("TaskRunID", JStr (sa_TaskRunID a));
      ("AttemptNumber", JInt (sa_AttemptNumber a)); ("Status", JStr (sa_Status a));
      ("StartTime", started); ("EndTime", ended); ("ErrorMessage", JStr (sa_ErrorMessage a));
      ("CreatedAt", created)].

Definition Unmarshal_Attempt (d : Doc) : Result ExecutionAttempt :=
  let f := doc_get d in
  id ← in_str (f "ID"); run ← in_str (f "TaskRunID"); number ← in_int (f "AttemptNumber");
  status ← in_str (f "Status"); started ← in_time (f "StartTime");
  ended ← in_time_ptr (f "EndTime"); msg ← in_str (f "ErrorMessage");
  created ← in_time (f "CreatedAt");
  Ok (mkExecutionAttempt id run number status started ended msg created).

(** ** Round trips *)

Lemma in_out_bytes b : in_bytes (out_bytes b) = Ok b.
Proof. by destruct b. Qed.
Lemma in_out_time t v : out_time t = Ok v → in_time v = Ok t.
Proof. unfold out_time. by case_bool_decide; intros [= <-]. Qed.
Lemma in_out_time_ptr t v : out_time_ptr t = Ok v → in_time_ptr v = Ok t.
Proof.
  destruct t; simpl; [unfold out_time; by case_bool_decide; intros [= <-]|by intros [= <-]].
Qed.



Lemma Result_bind_Ok {A B} (r : Result A) (f : A → Result B) b :
  (r ≫= f) = Ok b ↔ ∃ a, r = Ok a ∧ f a = Ok b.
Proof. destruct r; simpl; split; [eauto|by intros (? & [= ->] & ?)|done|by intros (? & ? & ?)]. Qed.

(** Both directions of a struct's encoding, field by field. *)
Ltac json_roundtrip :=
  cbn -[in_bytes out_bytes in_time in_time_ptr out_time out_time_ptr mbind]; intros ?;
  repeat match goal with
  | H : (_ ≫= _) = Ok _ |- _ => apply Result_bind_Ok in H as (? & ? & ?)
  | H : out_time _ = Ok _ |- _ => apply in_out_time in H
  | H : out_time_ptr _ = Ok _ |- _ => apply in_out_time_ptr in H
  end; simplify_eq; repeat (cbn -[in_bytes out_bytes in_time in_time_ptr];
  rewrite ?in_out_bytes;
  repeat match goal with
  | H : in_time _ = Ok _ |- _ => rewrite H; clear H
  | H : in_time_ptr _ = Ok _ |- _ => rewrite H; clear H
  end); try done.

Lemma Job_roundtrip j d : Marshal_Job j = Ok d → Unmarshal_Job d = Ok j.
Proof. unfold Marshal_Job, Unmarshal_Job. destruct j. json_roundtrip. Qed.
Lemma Task_roundtrip k d : Marshal_Task k = Ok d → Unmarshal_Task d = Ok k.
Proof. unfold Marshal_Task, Unmarshal_Task. destruct k. json_roundtrip. Qed.
Lemma Occurrence_roundtrip o d : Marshal_Occurrence o = Ok d → Unmarshal_Occurrence d = Ok o.
Proof. unfold Marshal_Occurrence, Unmarshal_Occurrence. destruct o. json_roundtrip. Qed.
Lemma TaskRun_roundtrip r d : Marshal_TaskRun r = Ok d → Unmarshal_TaskRun d = Ok r.
Proof. unfold Marshal_TaskRun, Unmarshal_TaskRun. destruct r. json_roundtrip. Qed.
Lemma Attempt_roundtrip a d : Marshal_Attempt a = Ok d → Unmarshal_Attempt d = Ok a.
Proof. unfold Marshal_Attempt, Unmarshal_Attempt. destruct a. json_roundtrip. Qed.
#[export] Hint Resolve Job_roundtrip Task_roundtrip Occurrence_roundtrip TaskRun_roundtrip
  Attempt_roundtrip : go.
