(* ===== verification/Badger.v ===== *)
(** * storage/badger/badger.go: the BadgerDB implementation of [Storage]

    The database is a parameter: [Badger] names the calls the code makes,
    [BadgerLaws] states what its documentation promises of them.  A
    transaction sees one consistent map and its own writes; [Update] commits
    all of it or nothing; [View] runs on a snapshot; iteration visits each key
    with a prefix once.  Every call may also fail with an error of the engine
    ([fault]): I/O, a conflicting transaction, a closed database. *)
From Stdlib Require Import Ascii.
From S2P Require Import Prelude GoTime Types Ids Storage.
Local Open Scope Z_scope.

Definition ErrKeyNotFound : GoError := "Key not found".

(** An item of a transaction: its value, or the error [Value] gives. *)
Definition Item := Result Doc.

Class Badger := {
  DB : Type;
  Txn : Type;
  Get : Txn → string → Result Item;
  Set_ : string → Doc → Txn → Result Txn;
  Delete : string → Txn → Result Txn;
  Iterate : Txn → string → list (string * Item);
  Update : (Txn → Result Txn) → St DB (Result unit);
  View : ∀ {A}, (Txn → Result A) → DB → Result A;
  Options : Type;
  DefaultOptions : string → Options;
  set_Logger_nil : Options → Options;
  Open : Options → Result DB;
  db_Close : St DB (Result unit);
}.

Class BadgerLaws `{Badger} := {
  contents : DB → gmap string Doc;
  txn_map : Txn → gmap string Doc;
  fault : GoError → Prop;
  fault_not_found e : fault e → e ≠ ErrKeyNotFound;
  item_ok (it : Item) (v : Doc) : Prop :=
    match it with Ok d => d = v | Err e => fault e end;
  Get_law t k :
    match Get t k with
    | Ok it => ∃ v, txn_map t !! k = Some v ∧ item_ok it v
    | Err e => (e = ErrKeyNotFound ∧ txn_map t !! k = None) ∨ fault e
    end;
  Set_law k d t :
    match Set_ k d t with Ok t' => txn_map t' = <[k := d]> (txn_map t) | Err e => fault e end;
  Delete_law k t :
    match Delete k t with Ok t' => txn_map t' = delete k (txn_map t) | Err e => fault e end;
  Iterate_nodup t p : NoDup (fst <$> Iterate t p);
  Iterate_item t p k it :
    (k, it) ∈ Iterate t p → ∃ v, txn_map t !! k = Some v ∧ String.prefix p k = true ∧ item_ok it v;
  Iterate_all t p k :
    is_Some (txn_map t !! k) → String.prefix p k = true → ∃ it, (k, it) ∈ Iterate t p;
  Update_law fn db :
    let '(db', r) := Update fn db in
    (∃ e, r = Err e ∧ fault e ∧ contents db' = contents db) ∨
    ∃ t, txn_map t = contents db ∧
      match fn t with
      | Ok t' => r = Ok tt ∧ contents db' = txn_map t'
      | Err e => r = Err e ∧ contents db' = contents db
      end;
  View_law {A} (fn : Txn → Result A) db :
    (∃ e, View fn db = Err e ∧ fault e) ∨
    ∃ t, txn_map t = contents db ∧ View fn db = fn t;
}.

(** ** Keys *)
Definition jobKey (id : string) : string := "job/" +:+ id.
Definition taskKey (jobID taskID : string) : string := "job/" +:+ jobID +:+ "/task/" +:+ taskID.
Definition occurrenceKey (jobID occurrenceID : string) : string :=
  "job/" +:+ jobID +:+ "/occurrence/" +:+ occurrenceID.
(** Declared by the code and used nowhere. *)
Definition taskRunKey (jobID occurrenceID taskID : string) : string :=
  "job/" +:+ jobID +:+ "/occurrence/" +:+ occurrenceID +:+ "/task/" +:+ taskID +:+ "/run".
Definition attemptKey (jobID occurrenceID taskID attemptID : string) : string :=
  "job/" +:+ jobID +:+ "/occurrence/" +:+ occurrenceID +:+ "/task/" +:+ taskID +:+
  "/run/attempt/" +:+ attemptID.
(** The keys the code uses for runs and attempts. *)
Definition runKey (id : string) : string := "taskrun/" +:+ id.
Definition execKey (id : string) : string := "attempt/" +:+ id.

(** [strings.Count(key, "/")], [strings.Contains], [strings.HasSuffix]. *)
Fixpoint count_slash (s : string) : nat :=
  match s with
  | EmptyString => O
  | String c s' => (if Ascii.eqb c "/" then 1 else 0) + count_slash s'
  end.
Fixpoint Contains (s sub : string) : bool :=
  String.prefix sub s || match s with EmptyString => false | String _ s' => Contains s' sub end.
Fixpoint HasSuffix (s suf : string) : bool :=
  String.eqb s suf || match s with EmptyString => false | String _ s' => HasSuffix s' suf end.

Section Operations.
Context `{Badger}.

(** The body shared by the five Create methods. *)
Definition create (key : string) (exists_msg marshal_msg : GoError) (data : Result Doc)
  : St DB (Result unit) :=
  Update (λ txn,
    match Get txn key with
    | Ok _ => Err exists_msg
    | Err e =>
        if negb (bool_decide (e = ErrKeyNotFound)) then Err e
        else match data with
             | Err e => Err (marshal_msg +:+ e)
             | Ok d => Set_ key d txn
             end
    end).

(** The body shared by the five Update methods. *)
Definition replace (key : string) (missing_msg marshal_msg : GoError) (data : Result Doc)
  : St DB (Result unit) :=
  Update (λ txn,
    match Get txn key with
    | Err e => if bool_decide (e = ErrKeyNotFound) then Err missing_msg else Err e
    | Ok _ =>
        match data with
        | Err e => Err (marshal_msg +:+ e)
        | Ok d => Set_ key d txn
        end
    end).

(** [View] with [txn.Get] and [item.Value(json.Unmarshal)]. *)
Definition read {A} (key : string) (missing_msg : GoError) (decode : Doc → Result A)
  : St DB (Result A) := λ db,
  let r := View (λ txn, item ← Get txn key; val ← item; decode val) db in
  (db, match r with
       | Err e => if bool_decide (e = ErrKeyNotFound) then Err missing_msg else Err e
       | Ok a => Ok a
       end).

(** A loop over the items of an iterator, collecting what is kept of each. *)
Fixpoint collect {A} (decode : Doc → Result A) (skip : string → bool) (keep : A → bool)
    (items : list (string * Item)) : Result (list A) :=
  match items with
  | [] => Ok []
  | (key, item) :: items' =>
      if skip key then collect decode skip keep items'
      else
        val ← item; x ← decode val;
        xs ← collect decode skip keep items';
        Ok (if keep x then x :: xs else xs)
  end.

Definition scan {A} (prefix : string) (decode : Doc → Result A) (skip : string → bool)
    (keep : A → bool) : St DB (Result (list A)) := λ db,
  (db, View (λ txn, collect decode skip keep (Iterate txn prefix)) db).

(** A loop that returns at the first matching key. *)
Fixpoint first_match {A} (decode : Doc → Result A) (matches : string → bool)
    (items : list (string * Item)) : Result (option A) :=
  match items with
  | [] => Ok None
  | (key, item) :: items' =>
      if matches key then val ← item; x ← decode val; Ok (Some x)
      else first_match decode matches items'
  end.

Definition search {A} (decode : Doc → Result A) (matches : string → bool) (missing_msg : GoError)
  : St DB (Result A) := λ db,
  (db, match View (λ txn, first_match decode matches (Iterate txn "job/")) db with
       | Err e => Err e
       | Ok None => Err missing_msg
       | Ok (Some x) => Ok x
       end).

Definition all {A} (_ : A) : bool := true.
Definition no_key (_ : string) : bool := false.
Definition status_is (st : JobStatus) (o : StorageOccurrence) : bool :=
  bool_decide (so_Status o = st).
End Operations.

Module BadgerStorage.
Section Badger.
Context `{Badger}.
Local Open Scope go_scope.

(** The struct holds the database and nothing else. *)
Definition NewBadgerStorage (path : string) : Result DB :=
  let opts := set_Logger_nil (DefaultOptions path) in
  match Open opts with
  | Err e => Err ("failed to open badger db: " +:+ e)
  | Ok db => Ok db
  end.
Definition Close : St DB (Result unit) := db_Close.

Definition CreateJob (job : StorageJob) : St DB (Result unit) :=
  create (jobKey (sj_ID job)) ("job already exists: " +:+ sj_ID job)
    "failed to marshal job: " (Marshal_Job job).
Definition GetJob (jobID : string) : St DB (Result StorageJob) :=
  read (jobKey jobID) ("job not found: " +:+ jobID) Unmarshal_Job.
Definition UpdateJob (now : Instant) (job : StorageJob) : St DB (Result unit) :=
  replace (jobKey (sj_ID job)) ("job not found: " +:+ sj_ID job)
    "failed to marshal job: " (Marshal_Job (set_sj_UpdatedAt now job)).
Definition DeleteJob (jobID : string) : St DB (Result unit) := Update (Delete (jobKey jobID)).
Definition ListJobs : St DB (Result (list StorageJob)) :=
  scan "job/" Unmarshal_Job (λ key, (1 <? count_slash key)%nat) all.

Definition CreateTask (task : StorageTask) : St DB (Result unit) :=
  create (taskKey (sk_JobID task) (sk_ID task)) ("task already exists: " +:+ sk_ID task)
    "failed to marshal task: " (Marshal_Task task).
Definition GetTask (taskID : string) : St DB (Result StorageTask) :=
  search Unmarshal_Task (λ key, Contains key "/task/" && HasSuffix key taskID)
    ("task not found: " +:+ taskID).
Definition UpdateTask (now : Instant) (task : StorageTask) : St DB (Result unit) :=
  replace (taskKey (sk_JobID task) (sk_ID task)) ("task not found: " +:+ sk_ID task)
    "failed to marshal task: " (Marshal_Task (set_sk_UpdatedAt now task)).
Definition DeleteTask (taskID : string) : St DB (Result unit) :=
  task <-? GetTask taskID;;
  Update (Delete (taskKey (sk_JobID task) (sk_ID task))).
Definition ListTasksByJobID (jobID : string) : St DB (Result (list StorageTask)) :=
  scan ("job/" +:+ jobID +:+ "/task/") Unmarshal_Task no_key all.

Definition CreateJobOccurrence (occurrence : StorageOccurrence) : St DB (Result unit) :=
  create (occurrenceKey (so_JobID occurrence) (so_ID occurrence))
    ("occurrence already exists: " +:+ so_ID occurrence)
    "failed to marshal occurrence: " (Marshal_Occurrence occurrence).
Definition GetJobOccurrence (occurrenceID : string) : St DB (Result StorageOccurrence) :=
  search Unmarshal_Occurrence
    (λ key, Contains key "/occurrence/" && HasSuffix key occurrenceID)
    ("occurrence not found: " +:+ occurrenceID).
Definition UpdateJobOccurrence (now : Instant) (occurrence : StorageOccurrence)
  : St DB (Result unit) :=
  replace (occurrenceKey (so_JobID occurrence) (so_ID occurrence))
    ("occurrence not found: " +:+ so_ID occurrence)
    "failed to marshal occurrence: " (Marshal_Occurrence (set_so_UpdatedAt now occurrence)).
Definition DeleteJobOccurrence (occurrenceID : string) : St DB (Result unit) :=
  occurrence <-? GetJobOccurrence occurrenceID;;
  Update (Delete (occurrenceKey (so_JobID occurrence) (so_ID occurrence))).
Definition not_occurrence (key : string) : bool := negb (Contains key "/occurrence/").
Definition ListRunningOccurrences : St DB (Result (list StorageOccurrence)) :=
  scan "job/" Unmarshal_Occurrence not_occurrence (status_is JobStatusRunning).
(** [time.Now().Add(-threshold)]: the negation is an [int64] operation. *)
Definition stale (now : Instant) (threshold : Duration) (o : StorageOccurrence) : bool :=
  let cutoff := now + wrap64 (- threshold) in
  status_is JobStatusRunning o &&
  match so_StartTime o with Some t => t <? cutoff | None => false end.
Definition ListStaleOccurrences (now : Instant) (threshold : Duration)
  : St DB (Result (list StorageOccurrence)) :=
  scan "job/" Unmarshal_Occurrence not_occurrence (stale now threshold).
Definition ListQueuedOccurrencesByJobID (jobID : string) : St DB (Result (list StorageOccurrence)) :=
  scan ("job/" +:+ jobID +:+ "/occurrence/") Unmarshal_Occurrence no_key (status_is JobStatusQueued).
Definition ListPendingOccurrences (jobID : string) : St DB (Result (list StorageOccurrence)) :=
  scan ("job/" +:+ jobID +:+ "/occurrence/") Unmarshal_Occurrence no_key (status_is JobStatusPending).

Definition CreateTaskRun (run : TaskRun) : St DB (Result unit) :=
  create (runKey (sr_ID run)) ("task run already exists: " +:+ sr_ID run)
    "failed to marshal task run: " (Marshal_TaskRun run).
Definition GetTaskRun (runID : string) : St DB (Result TaskRun) :=
  read (runKey runID) ("task run not found: " +:+ runID) Unmarshal_TaskRun.
Definition UpdateTaskRun (now : Instant) (run : TaskRun) : St DB (Result unit) :=
  replace (runKey (sr_ID run)) ("task run not found: " +:+ sr_ID run)
    "failed to marshal task run: " (Marshal_TaskRun (set_sr_UpdatedAt now run)).
Definition DeleteTaskRun (runID : string) : St DB (Result unit) := Update (Delete (runKey runID)).
Definition ListTaskRunsByOccurrenceID (occurrenceID : string) : St DB (Result (list TaskRun)) :=
  scan "taskrun/" Unmarshal_TaskRun no_key
    (λ run, bool_decide (sr_OccurrenceID run = occurrenceID)).

Definition CreateExecutionAttempt (attempt : ExecutionAttempt) : St DB (Result unit) :=
  create (execKey (sa_ID attempt)) ("execution attempt already exists: " +:+ sa_ID attempt)
    "failed to marshal execution attempt: " (Marshal_Attempt attempt).
Definition GetExecutionAttempt (attemptID : string) : St DB (Result ExecutionAttempt) :=
  read (execKey attemptID) ("execution attempt not found: " +:+ attemptID) Unmarshal_Attempt.
Definition UpdateExecutionAttempt (attempt : ExecutionAttempt) : St DB (Result unit) :=
  replace (execKey (sa_ID attempt)) ("execution attempt not found: " +:+ sa_ID attempt)
    "failed to marshal execution attempt: " (Marshal_Attempt attempt).
Definition ListExecutionAttemptsByTaskRunID (taskRunID : string)
  : St DB (Result (list ExecutionAttempt)) :=
  scan "attempt/" Unmarshal_Attempt no_key (λ a, bool_decide (sa_TaskRunID a = taskRunID)).

#[export] Instance storage : Storage DB := {
  Storage.CreateJob := CreateJob; Storage.GetJob := GetJob; Storage.UpdateJob := UpdateJob;
  Storage.DeleteJob := DeleteJob; Storage.ListJobs := ListJobs;
  Storage.CreateTask := CreateTask; Storage.GetTask := GetTask;
  Storage.UpdateTask := UpdateTask; Storage.DeleteTask := DeleteTask;
  Storage.ListTasksByJobID := ListTasksByJobID;
  Storage.CreateJobOccurrence := CreateJobOccurrence;
  Storage.GetJobOccurrence := GetJobOccurrence;
  Storage.UpdateJobOccurrence := UpdateJobOccurrence;
  Storage.DeleteJobOccurrence := DeleteJobOccurrence;
  Storage.ListRunningOccurrences := ListRunningOccurrences;
  Storage.ListStaleOccurrences := ListStaleOccurrences;
  Storage.ListQueuedOccurrencesByJobID := ListQueuedOccurrencesByJobID;
  Storage.ListPendingOccurrences := ListPendingOccurrences;
  Storage.CreateTaskRun := CreateTaskRun; Storage.GetTaskRun := GetTaskRun;
  Storage.UpdateTaskRun := UpdateTaskRun; Storage.DeleteTaskRun := DeleteTaskRun;
  Storage.ListTaskRunsByOccurrenceID := ListTaskRunsByOccurrenceID;
  Storage.CreateExecutionAttempt := CreateExecutionAttempt;
  Storage.GetExecutionAttempt := GetExecutionAttempt;
  Storage.UpdateExecutionAttempt := UpdateExecutionAttempt;
  Storage.ListExecutionAttemptsByTaskRunID := ListExecutionAttemptsByTaskRunID;
  Storage.Close := Close;
}.
End Badger.
End BadgerStorage.
