(* ===== verification/StorageSpec.v ===== *)
(** * What a storage promises: records addressed by slots

    The abstract store is a finite map from slots to records: a job under its
    identifier, a task or an occurrence under its job's identifier and its
    own, a task run or an attempt under its identifier.  [repr] relates it to
    the key-value contents of a database. *)
From Stdlib Require Import Ascii.
From S2P Require Import Prelude GoTime Types Ids Storage Badger.
Local Open Scope Z_scope.

Inductive slot :=
| JobSlot (id : string)
| TaskSlot (job task : string)
| OccSlot (job occ : string)
| RunSlot (id : string)
| AttemptSlot (id : string).
#[export] Instance slot_eq_dec : EqDecision slot.
Proof. solve_decision. Defined.

Definition slot_code (s : slot) : nat * string * string :=
  match s with
  | JobSlot i => (0%nat, i, EmptyString) | TaskSlot j t => (1%nat, j, t)
  | OccSlot j o => (2%nat, j, o) | RunSlot i => (3%nat, i, EmptyString)
  | AttemptSlot i => (4%nat, i, EmptyString)
  end.
Definition slot_decode (c : nat * string * string) : option slot :=
  match c with
  | (0%nat, i, _) => Some (JobSlot i) | (1%nat, j, t) => Some (TaskSlot j t)
  | (2%nat, j, o) => Some (OccSlot j o) | (3%nat, i, _) => Some (RunSlot i)
  | (4%nat, i, _) => Some (AttemptSlot i) | _ => None
  end.
#[export] Instance slot_countable : Countable slot :=
  inj_countable slot_code slot_decode (λ s, ltac:(by destruct s)).

Inductive entry :=
| EJob (j : StorageJob) | ETask (k : StorageTask) | EOcc (o : StorageOccurrence)
| ERun (r : TaskRun) | EAttempt (a : ExecutionAttempt).
#[export] Instance entry_eq_dec : EqDecision entry.
Proof. solve_decision. Defined.

Definition slot_of (e : entry) : slot :=
  match e with
  | EJob j => JobSlot (sj_ID j) | ETask k => TaskSlot (sk_JobID k) (sk_ID k)
  | EOcc o => OccSlot (so_JobID o) (so_ID o)
  | ERun r => RunSlot (sr_ID r) | EAttempt a => AttemptSlot (sa_ID a)
  end.
Definition Marshal (e : entry) : Result Doc :=
  match e with
  | EJob j => Marshal_Job j | ETask k => Marshal_Task k | EOcc o => Marshal_Occurrence o
  | ERun r => Marshal_TaskRun r | EAttempt a => Marshal_Attempt a
  end.
Definition key_of (s : slot) : string :=
  match s with
  | JobSlot i => jobKey i | TaskSlot j t => taskKey j t | OccSlot j o => occurrenceKey j o
  | RunSlot i => runKey i | AttemptSlot i => execKey i
  end.

(** Identifiers that are one component of a key.  A job named after one of the
    words of the key schema would make its records look like others. *)
Definition job_id_ok (j : string) : Prop :=
  slash_free j = true ∧ j ≠ "task" ∧ j ≠ "occurrence".
Definition slot_ok (s : slot) : Prop :=
  match s with
  | JobSlot i => job_id_ok i
  | TaskSlot j t => job_id_ok j ∧ slash_free t = true
  | OccSlot j o => job_id_ok j ∧ slash_free o = true
  | RunSlot i => slash_free i = true
  | AttemptSlot i => slash_free i = true
  end.

(** ** Keys, split at the slashes *)
Fixpoint split (s : string) : list string :=
  match s with
  | EmptyString => [EmptyString]
  | String c s' =>
      if Ascii.eqb c "/" then EmptyString :: split s'
      else match split s' with p :: ps => String c p :: ps | [] => [String c EmptyString] end
  end.

Definition parse_key (k : string) : option slot :=
  match split k with
  | ["job"; i] => Some (JobSlot i)
  | ["job"; j; w; x] =>
      if String.eqb w "task" then Some (TaskSlot j x)
      else if String.eqb w "occurrence" then Some (OccSlot j x) else None
  | [w; i] =>
      if String.eqb w "taskrun" then Some (RunSlot i)
      else if String.eqb w "attempt" then Some (AttemptSlot i) else None
  | _ => None
  end.

Lemma split_nonempty s : split s ≠ [].
Proof. destruct s as [|c s]; simpl; [done|]. destruct (Ascii.eqb _ _); [done|]. by destruct (split s). Qed.

(** Splitting a concatenation splits both sides and joins the pieces at the seam. *)
Lemma split_append a b :
  split (a +:+ b) =
    match rev (split a), split b with
    | x :: xs, y :: ys => rev xs ++ (x +:+ y) :: ys
    | _, _ => []
    end.
Proof.
  induction a as [|c a IH].
  - simpl. rewrite append_nil_l. pose proof (split_nonempty b). by destruct (split b).
  - rewrite append_cons. simpl. rewrite IH. clear IH.
    pose proof (split_nonempty a) as Ha. pose proof (split_nonempty b) as Hb.
    destruct (split b) as [|y ys]; [done|].
    destruct (rev (split a)) as [|x xs] eqn:E; [by apply (f_equal (@rev _)) in E; rewrite rev_involutive in E|].
    apply (f_equal (@rev _)) in E. rewrite rev_involutive in E. simpl in E.
    destruct (Ascii.eqb c "/").
    + rewrite E. simpl. rewrite rev_app_distr, rev_involutive. simpl. by rewrite rev_app_distr.
    + rewrite E. destruct (rev xs) as [|z zs] eqn:Ez; simpl.
      * done.
      * rewrite rev_app_distr. simpl. by rewrite rev_app_distr, rev_involutive.
Qed.

Lemma split_slash_free a : slash_free a = true → split a = [a].
Proof.
  induction a as [|c a IH]; [done|]. simpl. intros [Hc Ha]%andb_true_iff.
  apply negb_true_iff in Hc. by rewrite Hc, IH.
Qed.
Lemma split_cons_part a b : slash_free a = true → split (a +:+ "/" +:+ b) = a :: split b.
Proof.
  intros Ha. rewrite !split_append, (split_slash_free a Ha). simpl.
  pose proof (split_nonempty b). destruct (split b); [done|]. by rewrite append_nil_r, append_nil_l.
Qed.

(** The pieces of the key of a slot. *)
Definition pieces (s : slot) : list string :=
  match s with
  | JobSlot i => ["job"; i] | TaskSlot j t => ["job"; j; "task"; t]
  | OccSlot j o => ["job"; j; "occurrence"; o]
  | RunSlot i => ["taskrun"; i] | AttemptSlot i => ["attempt"; i]
  end.

Lemma split_key_of s : slot_ok s → split (key_of s) = pieces s.
Proof.
  destruct s as [i|j t|j o|i|i]; cbn [key_of pieces slot_ok];
    unfold jobKey, taskKey, occurrenceKey, runKey, execKey.
  - intros (Hi & _). change ("job/" +:+ i) with ("job" +:+ "/" +:+ i).
    by rewrite split_cons_part, split_slash_free.
  - intros ((Hj & _) & Ht).
    change ("job/" +:+ j +:+ "/task/" +:+ t) with ("job" +:+ "/" +:+ j +:+ "/" +:+ "task" +:+ "/" +:+ t).
    by rewrite !split_cons_part, split_slash_free.
  - intros ((Hj & _) & Ho).
    change ("job/" +:+ j +:+ "/occurrence/" +:+ o)
      with ("job" +:+ "/" +:+ j +:+ "/" +:+ "occurrence" +:+ "/" +:+ o).
    by rewrite !split_cons_part, split_slash_free.
  - intros Hi. change ("taskrun/" +:+ i) with ("taskrun" +:+ "/" +:+ i).
    by rewrite split_cons_part, split_slash_free.
  - intros Hi. change ("attempt/" +:+ i) with ("attempt" +:+ "/" +:+ i).
    by rewrite split_cons_part, split_slash_free.
Qed.

Lemma parse_key_of s : slot_ok s → parse_key (key_of s) = Some s.
Proof. intros Hs. unfold parse_key. rewrite split_key_of by done. by destruct s. Qed.
Lemma key_of_inj s s' : slot_ok s → slot_ok s' → key_of s = key_of s' → s = s'.
Proof. intros Hs Hs' E. apply parse_key_of in Hs, Hs'. congruence. Qed.

(** The string tests of the code, on keys of slots. *)
Lemma prefix_append p s : String.prefix p (p +:+ s) = true.
Proof. induction p as [|c p IH]; [by destruct s|]. rewrite append_cons. simpl. by destruct (ascii_dec c c). Qed.
Lemma prefix_inv p s : String.prefix p s = true → ∃ t, s = p +:+ t.
Proof.
  revert s; induction p as [|c p IH]; intros s E; [by exists s|].
  destruct s as [|c' s]; simpl in E; [done|]. destruct (ascii_dec c c') as [->|]; [|done].
  destruct (IH s E) as [t ->]. by exists t.
Qed.

Lemma Contains_inv s sub : Contains s sub = true → ∃ a b, s = a +:+ sub +:+ b.
Proof.
  induction s as [|c s IH]; cbn [Contains]; rewrite orb_true_iff; intros [H|H]; try done.
  - apply prefix_inv in H as [t ->]. exists EmptyString, t. done.
  - apply prefix_inv in H as [t ->]. exists EmptyString, t. done.
  - destruct (IH H) as (a & b & ->). by exists (String c a), b.
Qed.
Lemma Contains_append a sub b : Contains (a +:+ sub +:+ b) sub = true.
Proof.
  induction a as [|c a IH].
  - rewrite append_nil_l. pose proof (prefix_append sub b) as Hp. revert Hp.
    generalize (sub +:+ b). intros [|c t] Hp; cbn [Contains]; by rewrite Hp.
  - rewrite append_cons. cbn [Contains]. by rewrite IH, orb_true_r.
Qed.
Lemma HasSuffix_inv s suf : HasSuffix s suf = true → ∃ a, s = a +:+ suf.
Proof.
  induction s as [|c s IH]; cbn [HasSuffix]; rewrite orb_true_iff; intros [H|H]; try done.
  - apply String.eqb_eq in H as <-. by exists EmptyString.
  - apply String.eqb_eq in H as <-. by exists EmptyString.
  - destruct (IH H) as (a & ->). by exists (String c a).
Qed.
Lemma HasSuffix_append a suf : HasSuffix (a +:+ suf) suf = true.
Proof.
  induction a as [|c a IH].
  - rewrite append_nil_l. by destruct suf; cbn [HasSuffix]; rewrite String.eqb_refl.
  - rewrite append_cons. cbn [HasSuffix]. by rewrite IH, orb_true_r.
Qed.

(** A word between two slashes is one of the inner pieces. *)
Lemma Contains_piece s w :
  slash_free w = true → Contains s ("/" +:+ w +:+ "/") = true →
  ∃ x xs y ys, split s = (x :: xs) ++ w :: y :: ys.
Proof.
  intros Hw (a & b & ->)%Contains_inv.
  replace (a +:+ ("/" +:+ w +:+ "/") +:+ b) with (a +:+ "/" +:+ w +:+ "/" +:+ b)
    by (by rewrite !append_assoc).
  rewrite split_append.
  change ("/" +:+ w +:+ "/" +:+ b) with (EmptyString +:+ "/" +:+ w +:+ "/" +:+ b).
  rewrite !split_cons_part by done.
  pose proof (split_nonempty a). pose proof (split_nonempty b).
  destruct (split b) as [|y ys]; [done|].
  destruct (rev (split a)) as [|x xs] eqn:E;
    [by apply (f_equal (@rev _)) in E; rewrite rev_involutive in E|].
  rewrite append_nil_r. destruct (rev xs) as [|z zs]; simpl; [by exists x, [], y, ys|].
  exists z, (zs ++ [x]), y, ys. by rewrite <- app_assoc.
Qed.

Lemma key_is_task s :
  slot_ok s → Contains (key_of s) "/task/" = match s with TaskSlot _ _ => true | _ => false end.
Proof.
  intros Hs. apply eq_true_iff_eq. split.
  - intros (x & xs & y & ys & E)%(Contains_piece _ "task"); [|done].
    rewrite split_key_of in E by done.
    destruct s as [i|j t|j o|i|i]; simpl in *; try done;
      destruct xs as [|? [|? [|? []]]]; simplify_eq/=; by destruct Hs as ((? & ? & ?) & ?).
  - destruct s; try done. intros _. unfold key_of, taskKey.
    rewrite <- (append_assoc "job/"). apply (Contains_append ("job/" +:+ job) "/task/").
Qed.
Lemma key_is_occurrence s :
  slot_ok s →
  Contains (key_of s) "/occurrence/" = match s with OccSlot _ _ => true | _ => false end.
Proof.
  intros Hs. apply eq_true_iff_eq. split.
  - intros (x & xs & y & ys & E)%(Contains_piece _ "occurrence"); [|done].
    rewrite split_key_of in E by done.
    destruct s as [i|j t|j o|i|i]; simpl in *; try done;
      destruct xs as [|? [|? [|? []]]]; simplify_eq/=; by destruct Hs as ((? & ? & ?) & ?).
  - destruct s; try done. intros _. unfold key_of, occurrenceKey.
    rewrite <- (append_assoc "job/"). apply (Contains_append ("job/" +:+ job) "/occurrence/").
Qed.

Lemma key_job_prefix s :
  String.prefix "job/" (key_of s) =
    match s with JobSlot _ | TaskSlot _ _ | OccSlot _ _ => true | _ => false end.
Proof. by destruct s as [[]|[]|[]| |]. Qed.
Lemma key_run_prefix s :
  String.prefix "taskrun/" (key_of s) = match s with RunSlot _ => true | _ => false end.
Proof. by destruct s as [| | |[]|]. Qed.
Lemma key_attempt_prefix s :
  String.prefix "attempt/" (key_of s) = match s with AttemptSlot _ => true | _ => false end.
Proof. by destruct s as [| | | |[]]. Qed.

(** A prefix that ends with a slash fixes the pieces before it. *)
Lemma prefix_pieces j w s :
  slash_free j = true → slash_free w = true →
  String.prefix ("job/" +:+ j +:+ "/" +:+ w +:+ "/") s = true →
  ∃ y ys, split s = "job" :: j :: w :: y :: ys.
Proof.
  intros Hj Hw (t & ->)%prefix_inv.
  replace (("job/" +:+ j +:+ "/" +:+ w +:+ "/") +:+ t)
    with ("job" +:+ "/" +:+ j +:+ "/" +:+ w +:+ "/" +:+ t) by (by rewrite !append_assoc).
  rewrite !split_cons_part by done. pose proof (split_nonempty t).
  destruct (split t); [done|]. eauto.
Qed.

Lemma key_task_prefix j s :
  slash_free j = true → slot_ok s →
  String.prefix ("job/" +:+ j +:+ "/task/") (key_of s) = true ↔ ∃ t, s = TaskSlot j t.
Proof.
  intros Hj Hs. split.
  - intros (y & ys & E)%(prefix_pieces j "task"); [|done..].
    rewrite split_key_of in E by done. destruct s; simplify_eq/=; eauto.
  - intros (t & ->). unfold key_of, taskKey.
    replace ("job/" +:+ j +:+ "/task/" +:+ t) with (("job/" +:+ j +:+ "/task/") +:+ t)
      by (by rewrite !append_assoc). apply prefix_append.
Qed.
Lemma key_occ_prefix j s :
  slash_free j = true → slot_ok s →
  String.prefix ("job/" +:+ j +:+ "/occurrence/") (key_of s) = true ↔ ∃ o, s = OccSlot j o.
Proof.
  intros Hj Hs. split.
  - intros (y & ys & E)%(prefix_pieces j "occurrence"); [|done..].
    rewrite split_key_of in E by done. destruct s; simplify_eq/=; eauto.
  - intros (t & ->). unfold key_of, occurrenceKey.
    replace ("job/" +:+ j +:+ "/occurrence/" +:+ t) with (("job/" +:+ j +:+ "/occurrence/") +:+ t)
      by (by rewrite !append_assoc). apply prefix_append.
Qed.

Lemma count_slash_append a b : count_slash (a +:+ b) = (count_slash a + count_slash b)%nat.
Proof. induction a as [|c a IH]; [done|]. rewrite append_cons. simpl. rewrite IH. lia. Qed.
Lemma count_slash_free a : slash_free a = true → count_slash a = 0%nat.
Proof.
  induction a as [|c a IH]; [done|]. simpl. intros [Hc Ha]%andb_true_iff.
  apply negb_true_iff in Hc. by rewrite Hc, IH.
Qed.
Lemma key_is_job s :
  slot_ok s → String.prefix "job/" (key_of s) = true →
  (1 <? count_slash (key_of s))%nat = match s with JobSlot _ => false | _ => true end.
Proof.
  intros Hs. rewrite key_job_prefix.
  destruct s as [i|j t|j o|i|i]; try done; intros _; unfold key_of, jobKey, taskKey, occurrenceKey;
    rewrite !count_slash_append.
  - destruct Hs as (Hi & _). by rewrite (count_slash_free i).
  - by destruct (_ <? _)%nat eqn:E; [|apply Nat.ltb_ge in E; simpl in E; lia].
  - by destruct (_ <? _)%nat eqn:E; [|apply Nat.ltb_ge in E; simpl in E; lia].
Qed.

(** Between identifiers of one length a suffix test is an equality. *)
Lemma key_suffix_task j t u :
  String.length t = String.length u → HasSuffix (taskKey j t) u = true ↔ t = u.
Proof.
  intros Hl. unfold taskKey. split.
  - intros (a & E)%HasSuffix_inv. rewrite <- !append_assoc in E.
    by apply append_inj_len_r in E as [_ ->].
  - intros ->. rewrite <- !append_assoc. apply HasSuffix_append.
Qed.
Lemma key_suffix_occ j t u :
  String.length t = String.length u → HasSuffix (occurrenceKey j t) u = true ↔ t = u.
Proof.
  intros Hl. unfold occurrenceKey. split.
  - intros (a & E)%HasSuffix_inv. rewrite <- !append_assoc in E.
    by apply append_inj_len_r in E as [_ ->].
  - intros ->. rewrite <- !append_assoc. apply HasSuffix_append.
Qed.

(** ** The representation relation *)
Record repr (a : gmap slot entry) (m : gmap string Doc) : Prop := {
  repr_to s e : a !! s = Some e →
    slot_ok s ∧ slot_of e = s ∧ ∃ d, Marshal e = Ok d ∧ m !! key_of s = Some d;
  repr_from k d : m !! k = Some d → ∃ s e, a !! s = Some e ∧ k = key_of s;
}.

Lemma repr_empty : repr ∅ ∅.
Proof. split; intros ? ?; rewrite lookup_empty; done. Qed.

Lemma repr_lookup a m s :
  repr a m → slot_ok s →
  match a !! s with
  | Some e => slot_of e = s ∧ ∃ d, Marshal e = Ok d ∧ m !! key_of s = Some d
  | None => m !! key_of s = None
  end.
Proof.
  intros Hr Hs. destruct (a !! s) as [e|] eqn:E; [by apply (repr_to _ _ Hr) in E as (_ & ? & ?)|].
  destruct (m !! key_of s) as [d|] eqn:Em; [|done].
  apply (repr_from _ _ Hr) in Em as (s' & e & He & Hk).
  apply key_of_inj in Hk as ->; [congruence|done|].
  by apply (repr_to _ _ Hr) in He as (? & _).
Qed.

Lemma repr_insert a m e d :
  repr a m → slot_ok (slot_of e) → Marshal e = Ok d →
  repr (<[slot_of e := e]> a) (<[key_of (slot_of e) := d]> m).
Proof.
  intros Hr Hs Hd. split.
  - intros s e' [[<- <-]|[Hne He]]%lookup_insert_Some.
    + split_and!; [done..|]. exists d. by rewrite lookup_insert_eq.
    + apply (repr_to _ _ Hr) in He as (Hs' & Hslot & d' & Hd' & Hm). split_and!; [done..|].
      exists d'. split; [done|]. rewrite lookup_insert_ne; [done|].
      intros Hk. apply key_of_inj in Hk; [by subst|done..].
  - intros k d' [[<- <-]|[Hne Hm]]%lookup_insert_Some.
    + exists (slot_of e), e. by rewrite lookup_insert_eq.
    + apply (repr_from _ _ Hr) in Hm as (s & e' & He & ->).
      exists s, e'. split; [|done]. rewrite lookup_insert_ne; [done|]. by intros <-.
Qed.

Lemma repr_delete a m s :
  repr a m → slot_ok s → repr (delete s a) (delete (key_of s) m).
Proof.
  intros Hr Hs. split.
  - intros s' e [Hne He]%lookup_delete_Some.
    apply (repr_to _ _ Hr) in He as (Hs' & Hslot & d & Hd & Hm). split_and!; [done..|].
    exists d. split; [done|]. rewrite lookup_delete_ne; [done|].
    intros Hk. apply key_of_inj in Hk; [by subst|done..].
  - intros k d [Hne Hm]%lookup_delete_Some.
    apply (repr_from _ _ Hr) in Hm as (s' & e & He & ->).
    exists s', e. split; [|done]. rewrite lookup_delete_ne; [done|]. by intros <-.
Qed.

(** ** Documents *)

(** The times a record is stored with. *)
Definition times_of (e : entry) : list Instant :=
  match e with
  | EJob j => option_list (sj_LastRunTime j) ++ [sj_CreatedAt j; sj_UpdatedAt j]
  | ETask k => [sk_CreatedAt k; sk_UpdatedAt k]
  | EOcc o => so_ScheduledTime o :: option_list (so_StartTime o) ++ option_list (so_EndTime o) ++
              [so_CreatedAt o; so_UpdatedAt o]
  | ERun r => option_list (sr_StartTime r) ++ option_list (sr_EndTime r) ++ [sr_CreatedAt r; sr_UpdatedAt r]
  | EAttempt t => sa_StartTime t :: option_list (sa_EndTime t) ++ [sa_CreatedAt t]
  end.
(** What reading a document as a record of the same kind gives. *)
Definition Unmarshal_as (e : entry) (d : Doc) : Result entry :=
  match e with
  | EJob _ => j ← Unmarshal_Job d; Ok (EJob j)
  | ETask _ => k ← Unmarshal_Task d; Ok (ETask k)
  | EOcc _ => o ← Unmarshal_Occurrence d; Ok (EOcc o)
  | ERun _ => r ← Unmarshal_TaskRun d; Ok (ERun r)
  | EAttempt _ => t ← Unmarshal_Attempt d; Ok (EAttempt t)
  end.

Lemma out_time_ok t : is_ok (out_time t) = bool_decide (in_rfc3339_range t).
Proof. unfold out_time. by destruct (bool_decide _). Qed.
Lemma is_ok_bind {A B} (r : Result A) (f : A → Result B) (b c : bool) :
  is_ok r = b → (∀ x, is_ok (f x) = c) → is_ok (r ≫= f) = b && c.
Proof. intros <- Hc. destruct r; simpl; [apply Hc|done]. Qed.
Lemma out_time_ptr_ok t :
  is_ok (out_time_ptr t) = forallb (λ t, bool_decide (in_rfc3339_range t)) (option_list t).
Proof. destruct t; simpl; [by rewrite out_time_ok, andb_true_r|done]. Qed.

(** A record can be written just when its times can. *)
Lemma Marshal_ok (e : entry) : is_ok (Marshal e) = true ↔ Forall in_rfc3339_range (times_of e).
Proof.
  assert (Hok : is_ok (Marshal e) = forallb (λ t, bool_decide (in_rfc3339_range t)) (times_of e)).
  { destruct e; cbn [Marshal times_of];
      unfold Marshal_Job, Marshal_Task, Marshal_Occurrence, Marshal_TaskRun, Marshal_Attempt;
      cbn [forallb]; rewrite ?forallb_app; cbn [forallb];
      repeat (apply is_ok_bind; [apply out_time_ok || apply out_time_ptr_ok|intros]); done. }
  rewrite Hok, forallb_forall, Forall_forall. setoid_rewrite <- list_elem_of_In.
  by setoid_rewrite bool_decide_eq_true.
Qed.
