(* ===== verification/BadgerCorrect.v ===== *)
(** * BadgerStorage implements the slot store

    For contents that represent an abstract store, every operation of
    [BadgerStorage] either fails with an error of the engine and changes
    nothing, or does to the abstract store exactly what its name says. *)
From S2P Require Import Prelude GoTime Types Ids Storage Badger StorageSpec.
Local Open Scope Z_scope.

Section Entries.
Context `{Badger}.
Import BadgerStorage.

(** The Create, Update and Delete methods, by kind of record. *)
Definition do_create (e : entry) : St DB (Result unit) :=
  match e with
  | EJob j => CreateJob j | ETask k => CreateTask k | EOcc o => CreateJobOccurrence o
  | ERun r => CreateTaskRun r | EAttempt a => CreateExecutionAttempt a
  end.
Definition do_update (now : Instant) (e : entry) : St DB (Result unit) :=
  match e with
  | EJob j => UpdateJob now j | ETask k => UpdateTask now k | EOcc o => UpdateJobOccurrence now o
  | ERun r => UpdateTaskRun now r | EAttempt a => UpdateExecutionAttempt a
  end.
(** What Update stores: an attempt has no update time. *)
Definition touch (now : Instant) (e : entry) : entry :=
  match e with
  | EJob j => EJob (set_sj_UpdatedAt now j) | ETask k => ETask (set_sk_UpdatedAt now k)
  | EOcc o => EOcc (set_so_UpdatedAt now o) | ERun r => ERun (set_sr_UpdatedAt now r)
  | EAttempt a => EAttempt a
  end.

Definition noun (e : entry) : string :=
  match e with
  | EJob _ => "job" | ETask _ => "task" | EOcc _ => "occurrence" | ERun _ => "task run"
  | EAttempt _ => "execution attempt"
  end.
Definition entry_id (e : entry) : string :=
  match e with
  | EJob j => sj_ID j | ETask k => sk_ID k | EOcc o => so_ID o | ERun r => sr_ID r
  | EAttempt a => sa_ID a
  end.
Definition exists_msg (e : entry) : GoError := noun e +:+ " already exists: " +:+ entry_id e.
Definition missing_msg (e : entry) : GoError := noun e +:+ " not found: " +:+ entry_id e.
Definition marshal_msg (e : entry) : GoError := "failed to marshal " +:+ noun e +:+ ": ".

Lemma do_create_eq e :
  do_create e = create (key_of (slot_of e)) (exists_msg e) (marshal_msg e) (Marshal e).
Proof. by destruct e. Qed.
Lemma do_update_eq now e :
  do_update now e = replace (key_of (slot_of e)) (missing_msg e) (marshal_msg e) (Marshal (touch now e)).
Proof. by destruct e. Qed.
Lemma slot_of_touch now e : slot_of (touch now e) = slot_of e.
Proof. by destruct e. Qed.
End Entries.

Section Writes.
Context `{BadgerLaws}.
Implicit Types (a : gmap slot entry) (db : DB).

(** An engine error that left the database as it was. *)
Definition faulted {A} db db' (r : Result A) : Prop :=
  ∃ er, r = Err er ∧ fault er ∧ contents db' = contents db.

Lemma create_spec a db key_msg m_msg e db' r :
  repr a (contents db) → slot_ok (slot_of e) →
  create (key_of (slot_of e)) key_msg m_msg (Marshal e) db = (db', r) →
  faulted db db' r ∨
  match a !! slot_of e, Marshal e with
  | Some _, _ => r = Err key_msg ∧ contents db' = contents db
  | None, Err er => r = Err (m_msg +:+ er) ∧ contents db' = contents db
  | None, Ok d => r = Ok tt ∧ contents db' = <[key_of (slot_of e) := d]> (contents db)
  end.
Proof.
  intros Hr Hs E. unfold create in E.
  pose proof (repr_lookup _ _ _ Hr Hs) as Hl.
  match type of E with Update ?fn _ = _ => pose proof (Update_law fn db) as HU; rewrite E in HU end.
  destruct HU as [(er & -> & Hf & Hc)|(t & Ht & HU)]; [left; by exists er|].
  pose proof (Get_law t (key_of (slot_of e))) as HG. rewrite Ht in HG.
  destruct (Get t _) as [it|ge].
  - right. destruct HG as (v & Hv & _). destruct (a !! slot_of e); [done|congruence].
  - destruct HG as [[-> Hn]|Hf].
    + rewrite bool_decide_true in HU by done. simpl in HU.
      destruct (a !! slot_of e); [destruct Hl as (_ & ? & _ & ?); congruence|].
      destruct (Marshal e) as [d|me]; [|by right].
      pose proof (Set_law (key_of (slot_of e)) d t) as HS.
      destruct (Set_ _ _ _) as [t'|se].
      * right. destruct HU as [-> ->]. by rewrite HS, Ht.
      * left. exists se. destruct HU. done.
    + rewrite bool_decide_false in HU by (by apply fault_not_found).
      left. exists ge. by destruct HU.
Qed.

Lemma replace_spec a db key_msg m_msg s e db' r :
  repr a (contents db) → slot_ok s →
  replace (key_of s) key_msg m_msg (Marshal e) db = (db', r) →
  faulted db db' r ∨
  match a !! s, Marshal e with
  | None, _ => r = Err key_msg ∧ contents db' = contents db
  | Some _, Err er => r = Err (m_msg +:+ er) ∧ contents db' = contents db
  | Some _, Ok d => r = Ok tt ∧ contents db' = <[key_of s := d]> (contents db)
  end.
Proof.
  intros Hr Hs E. unfold replace in E.
  pose proof (repr_lookup _ _ _ Hr Hs) as Hl.
  match type of E with Update ?fn _ = _ => pose proof (Update_law fn db) as HU; rewrite E in HU end.
  destruct HU as [(er & -> & Hf & Hc)|(t & Ht & HU)]; [left; by exists er|].
  pose proof (Get_law t (key_of s)) as HG. rewrite Ht in HG.
  destruct (Get t _) as [it|ge].
  - destruct HG as (v & Hv & _). destruct (a !! s); [|congruence].
    destruct (Marshal e) as [d|me]; [|by right].
    pose proof (Set_law (key_of s) d t) as HS.
    destruct (Set_ _ _ _) as [t'|se].
    + right. destruct HU as [-> ->]. by rewrite HS, Ht.
    + left. exists se. by destruct HU.
  - destruct HG as [[-> Hn]|Hf].
    + rewrite bool_decide_true in HU by done. right.
      destruct (a !! s); [destruct Hl as (_ & ? & _ & ?); congruence|done].
    + rewrite bool_decide_false in HU by (by apply fault_not_found).
      left. exists ge. by destruct HU.
Qed.

Lemma delete_spec a db s db' r :
  repr a (contents db) → slot_ok s → Update (Delete (key_of s)) db = (db', r) →
  faulted db db' r ∨ (r = Ok tt ∧ repr (delete s a) (contents db')).
Proof.
  intros Hr Hs E. pose proof (Update_law (Delete (key_of s)) db) as HU. rewrite E in HU.
  destruct HU as [(er & -> & Hf & Hc)|(t & Ht & HU)]; [left; by exists er|].
  pose proof (Delete_law (key_of s) t) as HD. destruct (Delete _ t) as [t'|de].
  - right. destruct HU as [-> ->]. rewrite HD, Ht. split; [done|by apply repr_delete].
  - left. exists de. by destruct HU.
Qed.
End Writes.

Section Reads.
Context `{BadgerLaws}.
Implicit Types (a : gmap slot entry) (db : DB).

Lemma read_spec {A} a db s msg (decode : Doc → Result A) (E : A → entry) :
  repr a (contents db) → slot_ok s →
  (∀ x d, Marshal (E x) = Ok d → decode d = Ok x) →
  (∀ e, slot_of e = s → ∃ x, e = E x) →
  ∃ r, read (key_of s) msg decode db = (db, r) ∧
    ((∃ er, r = Err er ∧ fault er) ∨
     match a !! s with
     | Some e => ∃ x, e = E x ∧ r = Ok x
     | None => r = Err msg
     end).
Proof.
  intros Hr Hs Hdec HE. unfold read. eexists. split; [done|].
  pose proof (repr_lookup _ _ _ Hr Hs) as Hl.
  match goal with |- context [View ?fn db] => destruct (View_law fn db) as [(er & -> & Hf)|(t & Ht & ->)] end.
  { left. exists er. rewrite bool_decide_false by (by apply fault_not_found). done. }
  pose proof (Get_law t (key_of s)) as HG. rewrite Ht in HG.
  destruct (Get t _) as [it|ge]; simpl.
  - destruct HG as (v & Hv & Hit). destruct it as [d|ie]; simpl in *.
    + right. subst d. destruct (a !! s) as [e|]; [|congruence].
      destruct Hl as (Hsl & d & Hd & Hm). destruct (HE e Hsl) as [x ->].
      exists x. split; [done|]. assert (v = d) as -> by congruence.
      by rewrite (Hdec x d Hd).
    + left. exists ie. rewrite bool_decide_false by (by apply fault_not_found). done.
  - destruct HG as [[-> Hn]|Hf].
    + right. rewrite bool_decide_true by done. destruct (a !! s); [|done].
      destruct Hl as (_ & ? & _ & ?). congruence.
    + left. exists ge. rewrite bool_decide_false by (by apply fault_not_found). done.
Qed.

(** The items that a loop over an iterator keeps, as a function. *)
Definition kept {A} (decode : Doc → Result A) (skip : string → bool) (keep : A → bool)
    (p : string * Item) : option A :=
  if skip p.1 then None
  else match p.2 with
       | Ok v => match decode v with Ok x => if keep x then Some x else None | Err _ => None end
       | Err _ => None
       end.

Lemma kept_skip {A} (decode : Doc → Result A) skip keep k it :
  skip k = true → kept decode skip keep (k, it) = None.
Proof. unfold kept. simpl. by intros ->. Qed.
Lemma kept_ok {A} (decode : Doc → Result A) skip keep k v x :
  skip k = false → decode v = Ok x →
  kept decode skip keep (k, Ok v) = if keep x then Some x else None.
Proof. unfold kept. simpl. by intros -> ->. Qed.

Lemma collect_spec {A} (decode : Doc → Result A) skip keep items :
  match collect decode skip keep items with
  | Ok xs =>
      xs = omap (kept decode skip keep) items ∧
      ∀ k it, (k, it) ∈ items → skip k = false → ∃ v x, it = Ok v ∧ decode v = Ok x
  | Err er =>
      ∃ k it, (k, it) ∈ items ∧ skip k = false ∧
        (it = Err er ∨ ∃ v, it = Ok v ∧ decode v = Err er)
  end.
Proof.
  induction items as [|[k it] items IH]; [split; [done|by intros ? ? ?%elem_of_nil]|].
  cbn [collect]. destruct (skip k) eqn:Ek.
  - destruct (collect _ _ _ items) as [xs|er].
    + destruct IH as [-> IH]. cbn [omap list_omap]. rewrite (kept_skip _ _ _ k it Ek).
      split; [done|]. intros k' it' [[= -> ->]|Hin]%elem_of_cons; [congruence|by apply IH].
    + destruct IH as (k' & it' & Hin & IH). exists k', it'. split; [by right|done].
  - destruct it as [v|ie]; simpl; [|exists k, (Err ie); split_and!; [by left|done|by left]].
    destruct (decode v) as [x|de] eqn:Ed; simpl;
      [|exists k, (Ok v); split_and!; [by left|done|right; by exists v]].
    destruct (collect _ _ _ items) as [xs|er]; simpl.
    + destruct IH as [-> IH]. cbn [omap list_omap]. rewrite (kept_ok _ _ _ k v x Ek Ed).
      split; [by destruct (keep x)|].
      intros k' it' [[= -> ->]|Hin]%elem_of_cons; [by exists v, x|by apply IH].
    + destruct IH as (k' & it' & Hin & IH). exists k', it'. split; [by right|done].
Qed.

(** What a listing must return: exactly the records that satisfy [P], each
    once, unless the engine failed. *)
Definition lists {A} (r : Result (list A)) (P : A → Prop) : Prop :=
  match r with Ok l => NoDup l ∧ ∀ x, x ∈ l ↔ P x | Err er => fault er end.

Lemma scan_spec {A} a db prefix (decode : Doc → Result A) skip keep (E : A → entry) :
  repr a (contents db) →
  (∀ x d, Marshal (E x) = Ok d → decode d = Ok x) →
  (∀ s e, a !! s = Some e → String.prefix prefix (key_of s) = true → skip (key_of s) = false →
     ∃ x, e = E x) →
  ∃ r, scan prefix decode skip keep db = (db, r) ∧
    lists r (λ x, a !! slot_of (E x) = Some (E x) ∧
      String.prefix prefix (key_of (slot_of (E x))) = true ∧
      skip (key_of (slot_of (E x))) = false ∧ keep x = true).
Proof.
  intros Hr Hdec HE. eexists. split; [done|].
  match goal with |- context [View ?fn db] => destruct (View_law fn db) as [(er & -> & Hf)|(t & Ht & ->)] end;
    [done|].
  (* what an item that is not skipped holds *)
  assert (Hitem : ∀ k it, (k, it) ∈ Iterate t prefix → skip k = false →
    ∃ x d, a !! slot_of (E x) = Some (E x) ∧ k = key_of (slot_of (E x)) ∧
      String.prefix prefix k = true ∧ item_ok it d ∧ decode d = Ok x).
  { intros k it Hin Hsk. apply Iterate_item in Hin as (v & Hv & Hp & Hok). rewrite Ht in Hv.
    destruct (repr_from _ _ Hr _ _ Hv) as (s & e & He & ->).
    destruct (HE s e He Hp Hsk) as [x ->].
    destruct (repr_to _ _ Hr _ _ He) as (_ & <- & d & Hd & Hm).
    exists x, d. split_and!; try done; [congruence|by apply Hdec]. }
  pose proof (collect_spec decode skip keep (Iterate t prefix)) as HC.
  destruct (collect _ _ _ _) as [xs|er].
  - destruct HC as [-> Hall]. split.
    + apply (NoDup_fmap_1 (λ x, key_of (slot_of (E x)))).
      eapply sublist_NoDup; [apply (Iterate_nodup t prefix)|].
      clear Hall. revert Hitem. generalize (Iterate t prefix). intros items Hitem.
      induction items as [|[k it] items IH]; [done|]. cbn [omap list_omap fmap list_fmap].
      assert (IH' := IH ltac:(intros; apply Hitem; [by right|done])).
      destruct (kept decode skip keep (k, it)) as [x|] eqn:Ek; [|by apply sublist_cons].
      unfold kept in Ek. simpl in Ek. cases_in Ek.
      destruct (Hitem k (Ok a0)) as (x' & d & _ & -> & _ & Hok & Hd); [by left|done|].
      simpl in Hok. subst. assert (x' = x) as -> by congruence. by apply sublist_skip.
    + intros x. rewrite list_elem_of_omap. split.
      * intros ((k & it) & Hin & Hk). unfold kept in Hk. simpl in Hk. cases_in Hk.
        destruct (Hitem k (Ok a0) Hin) as (x' & d & Ha & -> & Hp & Hok & Hd); [done|].
        simpl in Hok. subst. assert (x' = x) as -> by congruence. done.
      * intros (Ha & Hp & Hsk & Hk).
        destruct (repr_to _ _ Hr _ _ Ha) as (_ & _ & d & Hd & Hm).
        destruct (Iterate_all t prefix (key_of (slot_of (E x)))) as [it Hin]; [rewrite Ht; by eexists|done|].
        destruct (Hall _ _ Hin Hsk) as (v & y & -> & Hy).
        exists (key_of (slot_of (E x)), Ok v). split; [done|]. unfold kept. simpl. rewrite Hsk.
        apply Iterate_item in Hin as (v' & Hv' & _ & Hok). simpl in Hok. subst v'.
        rewrite Ht in Hv'. assert (v = d) as -> by congruence.
        by rewrite (Hdec x d Hd), Hk.
  - destruct HC as (k & it & Hin & Hsk & HC).
    destruct (Hitem k it Hin Hsk) as (x & d & _ & _ & _ & Hok & Hd).
    destruct HC as [->|(v & -> & Hv)]; [done|]. simpl in Hok. congruence.
Qed.
End Reads.

Section Searches.
Context `{BadgerLaws}.
Implicit Types (a : gmap slot entry) (db : DB).

Lemma first_match_spec {A} (decode : Doc → Result A) matches items :
  match first_match decode matches items with
  | Ok None => ∀ k it, (k, it) ∈ items → matches k = false
  | Ok (Some x) => ∃ k v, (k, Ok v) ∈ items ∧ matches k = true ∧ decode v = Ok x
  | Err er =>
      ∃ k it, (k, it) ∈ items ∧ matches k = true ∧
        (it = Err er ∨ ∃ v, it = Ok v ∧ decode v = Err er)
  end.
Proof.
  induction items as [|[k it] items IH]; [by intros ? ? ?%elem_of_nil|].
  cbn [first_match]. destruct (matches k) eqn:Ek.
  - destruct it as [v|ie]; simpl.
    + destruct (decode v) as [x|de] eqn:Ed; simpl.
      * exists k, v. split_and!; [by left|done..].
      * exists k, (Ok v). split_and!; [by left|done|right; by exists v].
    + exists k, (Err ie). split_and!; [by left|done|by left].
  - destruct (first_match _ _ items) as [[x|]|er].
    + destruct IH as (k' & v & Hin & IH). exists k', v. split; [by right|done].
    + intros k' it' [[= -> ->]|Hin]%elem_of_cons; [done|by eapply IH].
    + destruct IH as (k' & it' & Hin & IH). exists k', it'. split; [by right|done].
Qed.

(** What a search must return: a record that satisfies [P], or word that
    there is none. *)
Definition finds {A} (r : Result A) (msg : GoError) (P : A → Prop) : Prop :=
  match r with Ok x => P x | Err er => fault er ∨ (er = msg ∧ ∀ x, ¬ P x) end.

Lemma search_spec {A} a db (decode : Doc → Result A) matches msg (E : A → entry) :
  repr a (contents db) →
  (∀ x d, Marshal (E x) = Ok d → decode d = Ok x) →
  (∀ s e, a !! s = Some e → String.prefix "job/" (key_of s) = true → matches (key_of s) = true →
     ∃ x, e = E x) →
  ∃ r, search decode matches msg db = (db, r) ∧
    finds r msg (λ x, a !! slot_of (E x) = Some (E x) ∧
      String.prefix "job/" (key_of (slot_of (E x))) = true ∧
      matches (key_of (slot_of (E x))) = true).
Proof.
  intros Hr Hdec HE. unfold search. eexists. split; [done|].
  match goal with |- context [View ?fn db] => destruct (View_law fn db) as [(er & -> & Hf)|(t & Ht & ->)] end;
    [by left|].
  assert (Hitem : ∀ k it, (k, it) ∈ Iterate t "job/" → matches k = true →
    ∃ x d, a !! slot_of (E x) = Some (E x) ∧ k = key_of (slot_of (E x)) ∧
      String.prefix "job/" k = true ∧ item_ok it d ∧ decode d = Ok x).
  { intros k it Hin Hm. apply Iterate_item in Hin as (v & Hv & Hp & Hok). rewrite Ht in Hv.
    destruct (repr_from _ _ Hr _ _ Hv) as (s & e & He & ->).
    destruct (HE s e He Hp Hm) as [x ->].
    destruct (repr_to _ _ Hr _ _ He) as (_ & <- & d & Hd & Hmd).
    exists x, d. split_and!; try done; [congruence|by apply Hdec]. }
  pose proof (first_match_spec decode matches (Iterate t "job/")) as HF.
  destruct (first_match _ _ _) as [[x|]|er]; simpl.
  - destruct HF as (k & v & Hin & Hm & Hv).
    destruct (Hitem k (Ok v) Hin Hm) as (y & d & Hy & -> & Hp & Hok & Hd).
    simpl in Hok. subst. assert (y = x) as -> by congruence. done.
  - right. split; [done|]. intros x (Hx & Hp & Hm).
    destruct (repr_to _ _ Hr _ _ Hx) as (_ & _ & d & _ & Hd).
    destruct (Iterate_all t "job/" (key_of (slot_of (E x)))) as [it Hin];
      [rewrite Ht; by eexists|done|].
    apply HF in Hin. congruence.
  - left. destruct HF as (k & it & Hin & Hm & HC).
    destruct (Hitem k it Hin Hm) as (x & d & _ & _ & _ & Hok & Hd).
    destruct HC as [->|(v & -> & Hv)]; [done|]. simpl in Hok. congruence.
Qed.

Import BadgerStorage.

(** All task identifiers, or all occurrence identifiers, have one length, as
    the generated ones do: then a key that ends with an identifier is the
    key of that record. *)
Definition task_ids_length a (n : nat) : Prop :=
  ∀ j t, is_Some (a !! TaskSlot j t) → String.length t = n.
Definition occ_ids_length a (n : nat) : Prop :=
  ∀ j o, is_Some (a !! OccSlot j o) → String.length o = n.

Lemma GetTask_spec a db tid :
  repr a (contents db) → task_ids_length a (String.length tid) →
  ∃ r, GetTask tid db = (db, r) ∧
    finds r ("task not found: " +:+ tid) (λ k, a !! TaskSlot (sk_JobID k) tid = Some (ETask k)).
Proof.
  intros Hr Hlen. destruct (search_spec a db Unmarshal_Task
    (λ key, Contains key "/task/" && HasSuffix key tid) ("task not found: " +:+ tid) ETask Hr)
    as (r & HE & Hf); [apply Task_roundtrip| |].
  { intros s e He _ [Hc _]%andb_true_iff. destruct (repr_to _ _ Hr _ _ He) as (Hs & Hsl & _).
    rewrite key_is_task in Hc by done. destruct s, e; simplify_eq/=; eauto. }
  exists r. split; [done|].
  assert (HP : ∀ x, a !! TaskSlot (sk_JobID x) tid = Some (ETask x) ↔
    a !! slot_of (ETask x) = Some (ETask x) ∧
    String.prefix "job/" (key_of (slot_of (ETask x))) = true ∧
    Contains (key_of (slot_of (ETask x))) "/task/" && HasSuffix (key_of (slot_of (ETask x))) tid = true).
  { intros x. split.
    - intros Hx. destruct (repr_to _ _ Hr _ _ Hx) as (Hs & [= Hid] & _). simpl. rewrite Hid.
      split; [done|]. split; [apply (key_job_prefix (TaskSlot _ _))|].
      apply andb_true_iff. split; [by apply (key_is_task (TaskSlot _ _))|by apply key_suffix_task].
    - intros (Hx & _ & [_ Hsuf]%andb_true_iff). simpl in *.
      apply key_suffix_task in Hsuf; [by rewrite Hsuf in Hx|]. by eapply Hlen. }
  destruct r as [x|er]; simpl in *; [by apply HP|].
  destruct Hf as [|[-> Hno]]; [by left|right]. split; [done|]. intros x Hx%HP. by eapply Hno.
Qed.

Lemma GetJobOccurrence_spec a db oid :
  repr a (contents db) → occ_ids_length a (String.length oid) →
  ∃ r, GetJobOccurrence oid db = (db, r) ∧
    finds r ("occurrence not found: " +:+ oid)
      (λ o, a !! OccSlot (so_JobID o) oid = Some (EOcc o)).
Proof.
  intros Hr Hlen. destruct (search_spec a db Unmarshal_Occurrence
    (λ key, Contains key "/occurrence/" && HasSuffix key oid) ("occurrence not found: " +:+ oid) EOcc Hr)
    as (r & HE & Hf); [apply Occurrence_roundtrip| |].
  { intros s e He _ [Hc _]%andb_true_iff. destruct (repr_to _ _ Hr _ _ He) as (Hs & Hsl & _).
    rewrite key_is_occurrence in Hc by done. destruct s, e; simplify_eq/=; eauto. }
  exists r. split; [done|].
  assert (HP : ∀ x, a !! OccSlot (so_JobID x) oid = Some (EOcc x) ↔
    a !! slot_of (EOcc x) = Some (EOcc x) ∧
    String.prefix "job/" (key_of (slot_of (EOcc x))) = true ∧
    Contains (key_of (slot_of (EOcc x))) "/occurrence/" && HasSuffix (key_of (slot_of (EOcc x))) oid = true).
  { intros x. split.
    - intros Hx. destruct (repr_to _ _ Hr _ _ Hx) as (Hs & [= Hid] & _). simpl. rewrite Hid.
      split; [done|]. split; [apply (key_job_prefix (OccSlot _ _))|].
      apply andb_true_iff. split; [by apply (key_is_occurrence (OccSlot _ _))|by apply key_suffix_occ].
    - intros (Hx & _ & [_ Hsuf]%andb_true_iff). simpl in *.
      apply key_suffix_occ in Hsuf; [by rewrite Hsuf in Hx|]. by eapply Hlen. }
  destruct r as [x|er]; simpl in *; [by apply HP|].
  destruct Hf as [|[-> Hno]]; [by left|right]. split; [done|]. intros x Hx%HP. by eapply Hno.
Qed.
End Searches.

(** Calls made one after the other, as the transactions of several nodes are
    serialised by the database. *)
Fixpoint run_all {W A} (ms : list (St W A)) (w : W) : W * list A :=
  match ms with
  | [] => (w, [])
  | m :: ms' => let '(w1, r) := m w in let '(w2, rs) := run_all ms' w1 in (w2, r :: rs)
  end.

Section Properties.
Context `{BadgerLaws}.
Implicit Types (a : gmap slot entry) (db : DB).
Import BadgerStorage.

Lemma create_cases a db e :
  repr a (contents db) → slot_ok (slot_of e) →
  let '(db', r) := do_create e db in
  (∃ er, r = Err er ∧ fault er ∧ repr a (contents db')) ∨
  match a !! slot_of e, Marshal e with
  | Some _, _ => r = Err (exists_msg e) ∧ repr a (contents db')
  | None, Err er => r = Err (marshal_msg e +:+ er) ∧ repr a (contents db')
  | None, Ok _ => r = Ok tt ∧ repr (<[slot_of e := e]> a) (contents db')
  end.
Proof.
  intros Hr Hs. rewrite do_create_eq. destruct (create _ _ _ _ db) as [db' r] eqn:E.
  apply (create_spec a) in E as [(er & -> & Hf & Hc)|E]; [..|done|done].
  - left. exists er. by rewrite Hc.
  - right. destruct (a !! slot_of e); [by destruct E as [-> ->]|].
    destruct (Marshal e) as [d|er] eqn:Em; destruct E as [-> ->]; [|done].
    split; [done|by apply repr_insert].
Qed.

(** C9: the five Create methods refine insertion into the slot store: a
    record is stored, under its own slot, only when the slot was free and
    the record can be serialised; every error leaves the store as it was and
    says which of the two, unless the engine itself failed. *)
Theorem badger_create_refines a db e :
  repr a (contents db) → slot_ok (slot_of e) →
  let '(db', r) := do_create e db in
  match r with
  | Ok _ => a !! slot_of e = None ∧ repr (<[slot_of e := e]> a) (contents db')
  | Err er =>
      repr a (contents db') ∧
      (fault er ∨ (is_Some (a !! slot_of e) ∧ er = exists_msg e) ∨
       (a !! slot_of e = None ∧ ∃ me, Marshal e = Err me ∧ er = marshal_msg e +:+ me))
  end.
Proof.
  intros Hr Hs. pose proof (create_cases a db e Hr Hs) as HC.
  destruct (do_create e db) as [db' r]. destruct HC as [(er & -> & Hf & Hc)|HC]; [by split; [|left]|].
  destruct (a !! slot_of e) eqn:Ea; [destruct HC as [-> ?]; split; [done|right; left; by split]|].
  destruct (Marshal e) as [d|me]; destruct HC as [-> ?]; [done|].
  split; [done|]. right; right. split; [done|]. by exists me.
Qed.

Lemma update_cases a db now e :
  repr a (contents db) → slot_ok (slot_of e) →
  let '(db', r) := do_update now e db in
  (∃ er, r = Err er ∧ fault er ∧ repr a (contents db')) ∨
  match a !! slot_of e, Marshal (touch now e) with
  | None, _ => r = Err (missing_msg e) ∧ repr a (contents db')
  | Some _, Err er => r = Err (marshal_msg e +:+ er) ∧ repr a (contents db')
  | Some _, Ok _ => r = Ok tt ∧ repr (<[slot_of e := touch now e]> a) (contents db')
  end.
Proof.
  intros Hr Hs. rewrite do_update_eq. destruct (replace _ _ _ _ db) as [db' r] eqn:E.
  apply (replace_spec a) in E as [(er & -> & Hf & Hc)|E]; [..|done|done].
  - left. exists er. by rewrite Hc.
  - right. destruct (a !! slot_of e); [|by destruct E as [-> ->]].
    destruct (Marshal (touch now e)) as [d|me] eqn:Em; destruct E as [-> ->]; [|done].
    split; [done|]. rewrite <- (slot_of_touch now e). by apply repr_insert; rewrite ?slot_of_touch.
Qed.

(** C10: the five Update methods refine replacement: the slot must be
    occupied, the stored record is the given one with its update time set,
    and every error leaves the store as it was. *)
Theorem badger_update_refines a db now e :
  repr a (contents db) → slot_ok (slot_of e) →
  let '(db', r) := do_update now e db in
  match r with
  | Ok _ => is_Some (a !! slot_of e) ∧ repr (<[slot_of e := touch now e]> a) (contents db')
  | Err er =>
      repr a (contents db') ∧
      (fault er ∨ (a !! slot_of e = None ∧ er = missing_msg e) ∨
       (is_Some (a !! slot_of e) ∧
        ∃ me, Marshal (touch now e) = Err me ∧ er = marshal_msg e +:+ me))
  end.
Proof.
  intros Hr Hs. pose proof (update_cases a db now e Hr Hs) as HC.
  destruct (do_update now e db) as [db' r].
  destruct HC as [(er & -> & Hf & Hc)|HC]; [by split; [|left]|].
  destruct (a !! slot_of e) eqn:Ea; [|destruct HC as [-> ?]; split; [done|right; left; by split]].
  destruct (Marshal (touch now e)) as [d|me]; destruct HC as [-> ?].
  - split; [by eexists|done].
  - split; [done|]. right; right. split; [by eexists|]. by exists me.
Qed.

Definition returns {A} db (m : St DB (Result (list A))) (P : A → Prop) : Prop :=
  ∃ r, m db = (db, r) ∧ lists r P.

Lemma returns_ext {A} db (m : St DB (Result (list A))) (P Q : A → Prop) :
  returns db m P → (∀ x, P x ↔ Q x) → returns db m Q.
Proof.
  intros (r & Hm & Hl) HPQ. exists r. split; [done|]. destruct r; [|done].
  destruct Hl as [Hn Hl]. split; [done|]. intros x. by rewrite Hl.
Qed.

(** A stored record sits in an admissible slot, its own. *)
Lemma stored a db s e : repr a (contents db) → a !! s = Some e → slot_ok s ∧ slot_of e = s.
Proof. intros Hr He. by destruct (repr_to _ _ Hr _ _ He) as (? & ? & _). Qed.

Lemma all_occurrences a db keep :
  repr a (contents db) →
  returns db (scan "job/" Unmarshal_Occurrence not_occurrence keep)
    (λ o, a !! OccSlot (so_JobID o) (so_ID o) = Some (EOcc o) ∧ keep o = true).
Proof.
  intros Hr. eapply returns_ext.
  - apply (scan_spec a db "job/" _ not_occurrence keep EOcc Hr Occurrence_roundtrip).
    unfold not_occurrence. intros s e He _ Hk%negb_false_iff.
    destruct (stored _ _ _ _ Hr He) as [Hs Hsl]. rewrite key_is_occurrence in Hk by done.
    destruct s, e; simplify_eq/=; eauto.
  - intros o. cbn [slot_of]. split; [tauto|]. intros [Ho Hk]. destruct (stored _ _ _ _ Hr Ho) as [Hs _].
    split_and!; [done|apply (key_job_prefix (OccSlot _ _))| |done]. unfold not_occurrence.
    apply negb_false_iff. by apply (key_is_occurrence (OccSlot (so_JobID o) (so_ID o))).
Qed.

Lemma job_occurrences a db jid keep :
  repr a (contents db) → slash_free jid = true →
  returns db (scan ("job/" +:+ jid +:+ "/occurrence/") Unmarshal_Occurrence no_key keep)
    (λ o, a !! OccSlot (so_JobID o) (so_ID o) = Some (EOcc o) ∧ so_JobID o = jid ∧ keep o = true).
Proof.
  intros Hr Hj. eapply returns_ext.
  - apply (scan_spec a db _ _ no_key keep EOcc Hr Occurrence_roundtrip).
    intros s e He Hp _. destruct (stored _ _ _ _ Hr He) as [Hs Hsl].
    apply key_occ_prefix in Hp as [o ->]; [|done..]. destruct e; simplify_eq/=; eauto.
  - intros o. split.
    + intros (Ho & Hp & _ & Hk). destruct (stored _ _ _ _ Hr Ho) as [Hs _].
      apply key_occ_prefix in Hp as [o' [= Hjid _]]; [|done..]. by split_and!.
    + intros (Ho & Hjid & Hk). destruct (stored _ _ _ _ Hr Ho) as [Hs _].
      split_and!; try done.
      apply (key_occ_prefix _ (OccSlot (so_JobID o) (so_ID o))); [done..|].
      exists (so_ID o). by rewrite <- Hjid.
Qed.

Lemma status_is_spec st o : status_is st o = true ↔ so_Status o = st.
Proof. unfold status_is. by rewrite bool_decide_eq_true. Qed.

(** C11: the listing methods.  Each returns exactly the stored records its
    name describes, each once, whatever other kinds of record share the
    database, unless the engine failed; none changes the database. *)
Theorem badger_lists_exact a db jid oid rid now th :
  repr a (contents db) → slash_free jid = true →
  let occ o := a !! OccSlot (so_JobID o) (so_ID o) = Some (EOcc o) in
  returns db ListJobs (λ j, a !! JobSlot (sj_ID j) = Some (EJob j)) ∧
  returns db (ListTasksByJobID jid) (λ k, a !! TaskSlot jid (sk_ID k) = Some (ETask k)) ∧
  returns db ListRunningOccurrences (λ o, occ o ∧ so_Status o = JobStatusRunning) ∧
  returns db (ListStaleOccurrences now th) (λ o, occ o ∧ so_Status o = JobStatusRunning ∧
    ∃ t, so_StartTime o = Some t ∧ t < now + wrap64 (- th)) ∧
  returns db (ListQueuedOccurrencesByJobID jid) (λ o, occ o ∧ so_JobID o = jid ∧ so_Status o = JobStatusQueued) ∧
  returns db (ListPendingOccurrences jid) (λ o, occ o ∧ so_JobID o = jid ∧ so_Status o = JobStatusPending) ∧
  returns db (ListTaskRunsByOccurrenceID oid)
    (λ r, a !! RunSlot (sr_ID r) = Some (ERun r) ∧ sr_OccurrenceID r = oid) ∧
  returns db (ListExecutionAttemptsByTaskRunID rid)
    (λ t, a !! AttemptSlot (sa_ID t) = Some (EAttempt t) ∧ sa_TaskRunID t = rid).
Proof.
  intros Hr Hj occ. split_and!.
  - eapply (returns_ext db).
    + apply (scan_spec a db "job/" _ (λ key, (1 <? count_slash key)%nat) all EJob Hr Job_roundtrip).
      intros s e He Hp Hk. destruct (stored _ _ _ _ Hr He) as [Hs Hsl].
      rewrite key_is_job in Hk by done. destruct s, e; simplify_eq/=; eauto.
    + intros x. split; [tauto|]. intros Hx. destruct (stored _ _ _ _ Hr Hx) as [Hs _].
      split_and!; [done|apply (key_job_prefix (JobSlot _))| |done].
      apply (key_is_job (JobSlot (sj_ID x))); [done|apply (key_job_prefix (JobSlot _))].
  - eapply (returns_ext db).
    + apply (scan_spec a db _ _ no_key all ETask Hr Task_roundtrip).
      intros s e He Hp _. destruct (stored _ _ _ _ Hr He) as [Hs Hsl].
      apply key_task_prefix in Hp as [t ->]; [|done..]. destruct e; simplify_eq/=; eauto.
    + intros x. split.
      * intros (Hx & Hp & _). destruct (stored _ _ _ _ Hr Hx) as [Hs _].
        apply key_task_prefix in Hp as [t [= Hjid _]]; [|done..]. by rewrite <- Hjid.
      * intros Hx. destruct (stored _ _ _ _ Hr Hx) as [Hs [= Hjid]]. simpl. rewrite Hjid.
        split_and!; try done. apply (key_task_prefix _ (TaskSlot _ _)); [done..|by eexists].
  - eapply (returns_ext db); [by apply all_occurrences|]. intros o; cbv beta. by rewrite status_is_spec.
  - eapply (returns_ext db); [by apply all_occurrences|]. intros o; cbv beta; unfold stale.
    rewrite andb_true_iff, status_is_spec. destruct (so_StartTime o) as [t|].
    + rewrite Z.ltb_lt. split; [intros (? & ? & ?); eauto|].
      intros (? & ? & t' & [= <-] & ?). done.
    + split; [by intros (? & ? & ?)|by intros (? & ? & ? & ? & ?)].
  - eapply (returns_ext db); [by apply job_occurrences|]. intros o; cbv beta. by rewrite status_is_spec.
  - eapply (returns_ext db); [by apply job_occurrences|]. intros o; cbv beta. by rewrite status_is_spec.
  - eapply (returns_ext db).
    + apply (scan_spec a db _ _ no_key _ ERun Hr TaskRun_roundtrip).
      intros s e He Hp _. rewrite key_run_prefix in Hp.
      destruct (stored _ _ _ _ Hr He) as [_ Hsl]. destruct s, e; simplify_eq/=; eauto.
    + intros x; cbv beta. rewrite bool_decide_eq_true. split; [tauto|]. intros [Hx Ho].
      split_and!; try done; apply (key_run_prefix (RunSlot (sr_ID x))).
  - eapply (returns_ext db).
    + apply (scan_spec a db _ _ no_key _ EAttempt Hr Attempt_roundtrip).
      intros s e He Hp _. rewrite key_attempt_prefix in Hp.
      destruct (stored _ _ _ _ Hr He) as [_ Hsl]. destruct s, e; simplify_eq/=; eauto.
    + intros x; cbv beta. rewrite bool_decide_eq_true. split; [tauto|]. intros [Hx Ho].
      split_and!; try done; apply (key_attempt_prefix (AttemptSlot (sa_ID x))).
Qed.

Definition looks_up {A} db (m : St DB (Result A)) msg (P : A → Prop) : Prop :=
  ∃ r, m db = (db, r) ∧ finds r msg P.

Lemma read_looks_up {A} a db s msg (decode : Doc → Result A) (E : A → entry) :
  repr a (contents db) → slot_ok s →
  (∀ x d, Marshal (E x) = Ok d → decode d = Ok x) → (∀ e, slot_of e = s → ∃ x, e = E x) →
  (∀ x y, E x = E y → x = y) →
  looks_up db (read (key_of s) msg decode) msg (λ x, a !! s = Some (E x)).
Proof.
  intros Hr Hs Hdec HE Hinj.
  destruct (read_spec a db s msg decode E Hr Hs Hdec HE) as (r & Hm & HR).
  exists r. split; [done|]. destruct HR as [(er & -> & Hf)|HR]; [by left|].
  destruct (a !! s) as [e|]; [by destruct HR as (x & -> & ->)|].
  rewrite HR. right. split; [done|]. by intros.
Qed.
Lemma GetJob_spec a db i :
  repr a (contents db) → job_id_ok i →
  looks_up db (GetJob i) ("job not found: " +:+ i) (λ j, a !! JobSlot i = Some (EJob j)).
Proof.
  intros Hr Hi. apply (read_looks_up a db (JobSlot i)); [done|done|apply Job_roundtrip| |congruence].
  intros [] ?; simplify_eq/=; eauto.
Qed.

(** C12: the reading methods.  Each gives the record stored under the
    identifier, or says that there is none, unless the engine failed; none
    changes the database.  The two that search every key for one that ends
    with the identifier need identifiers of one length. *)
Theorem badger_reads_exact a db i :
  repr a (contents db) → job_id_ok i →
  looks_up db (GetJob i) ("job not found: " +:+ i) (λ j, a !! JobSlot i = Some (EJob j)) ∧
  looks_up db (GetTaskRun i) ("task run not found: " +:+ i) (λ r, a !! RunSlot i = Some (ERun r)) ∧
  looks_up db (GetExecutionAttempt i) ("execution attempt not found: " +:+ i)
    (λ t, a !! AttemptSlot i = Some (EAttempt t)) ∧
  (task_ids_length a (String.length i) → looks_up db (GetTask i) ("task not found: " +:+ i)
    (λ k, a !! TaskSlot (sk_JobID k) i = Some (ETask k))) ∧
  (occ_ids_length a (String.length i) → looks_up db (GetJobOccurrence i) ("occurrence not found: " +:+ i)
    (λ o, a !! OccSlot (so_JobID o) i = Some (EOcc o))).
Proof.
  intros Hr Hi.
  split_and!; [by apply GetJob_spec|..|intros; by apply GetTask_spec|intros; by apply GetJobOccurrence_spec].
  - apply (read_looks_up a db (RunSlot i)); [done|apply Hi|apply TaskRun_roundtrip| |congruence].
    intros [] ?; simplify_eq/=; eauto.
  - apply (read_looks_up a db (AttemptSlot i)); [done|apply Hi|apply Attempt_roundtrip| |congruence].
    intros [] ?; simplify_eq/=; eauto.
Qed.

Lemma delete_refines a db s :
  repr a (contents db) → slot_ok s →
  let '(db', r) := Update (Delete (key_of s)) db in
  match r with
  | Ok _ => repr (delete s a) (contents db')
  | Err er => fault er ∧ repr a (contents db')
  end.
Proof.
  intros Hr Hs. destruct (Update _ db) as [db' r] eqn:E.
  apply (delete_spec a) in E as [(er & -> & Hf & Hc)|[-> HE]]; [|done..].
  by rewrite Hc.
Qed.

(** What a Delete that must search first does: it removes the record that
    the search finds, or fails and changes nothing when there is none. *)
Definition removes_found {A} a db (m : St DB (Result unit)) (msg : GoError) (slot_for : A → slot) (E : A → entry) : Prop :=
  let '(db', r) := m db in
  match r with
  | Ok _ => ∃ x, a !! slot_for x = Some (E x) ∧ repr (delete (slot_for x) a) (contents db')
  | Err er => repr a (contents db') ∧ (fault er ∨ (er = msg ∧ ∀ x, a !! slot_for x ≠ Some (E x)))
  end.
Lemma delete_found {A} a db (get : St DB (Result A)) msg (slot_for slot' : A → slot) (E : A → entry) :
  repr a (contents db) → looks_up db get msg (λ x, a !! slot_for x = Some (E x)) →
  (∀ x, slot_of (E x) = slot' x) →
  removes_found a db (try_bind (λ x, Update (Delete (key_of (slot' x)))) get) msg slot_for E.
Proof.
  intros Hr (r & Hg & Hf) Hs. unfold removes_found, try_bind. rewrite Hg.
  destruct r as [x|er]; simpl in Hf; [|by split].
  destruct (stored _ _ _ _ Hr Hf) as [Hok Hid]. rewrite <- Hs, Hid.
  pose proof (delete_refines a db _ Hr Hok) as HD.
  destruct (Update _ db) as [db' [u|er]]; [by exists x|]. destruct HD. by split; [|left].
Qed.

(** C13: the Delete methods remove exactly one record.  [DeleteJob] leaves
    the job's tasks and occurrences in place; [DeleteTask] and
    [DeleteJobOccurrence] remove the record that their search finds, and
    fail, changing nothing, when there is none. *)
Theorem badger_deletes_refine a db i :
  repr a (contents db) → job_id_ok i → task_ids_length a (String.length i) →
  occ_ids_length a (String.length i) →
  let removes (m : St DB (Result unit)) (s : slot) :=
    let '(db', r) := m db in
    match r with
    | Ok _ => repr (delete s a) (contents db')
    | Err er => fault er ∧ repr a (contents db')
    end in
  removes (DeleteJob i) (JobSlot i) ∧ removes (DeleteTaskRun i) (RunSlot i) ∧
  removes_found a db (DeleteTask i) ("task not found: " +:+ i) (λ k, TaskSlot (sk_JobID k) i) ETask ∧
  removes_found a db (DeleteJobOccurrence i) ("occurrence not found: " +:+ i)
    (λ o, OccSlot (so_JobID o) i) EOcc.
Proof.
  intros Hr Hi Htl Hol removes. split_and!.
  - by apply (delete_refines a db (JobSlot i)).
  - apply (delete_refines a db (RunSlot i)); [done|apply Hi].
  - by apply (delete_found a db _ _ _ (λ k, TaskSlot (sk_JobID k) (sk_ID k)) ETask Hr (GetTask_spec a db i Hr Htl)).
  - by apply (delete_found a db _ _ _ (λ o, OccSlot (so_JobID o) (so_ID o)) EOcc Hr (GetJobOccurrence_spec a db i Hr Hol)).
Qed.

Lemma badger_create_state a db e :
  repr a (contents db) → slot_ok (slot_of e) →
  let '(db', r) := do_create e db in
  match r with
  | Ok _ => repr (<[slot_of e := e]> a) (contents db')
  | Err _ => repr a (contents db')
  end.
Proof.
  intros Hr Hs. pose proof (create_cases a db e Hr Hs) as HC.
  destruct (do_create e db) as [db' r]. destruct HC as [(er & -> & _ & ?)|HC]; [done|].
  destruct (a !! slot_of e), (Marshal e); by destruct HC as [-> ?].
Qed.

(** Once a slot is taken, every further Create for it fails. *)
Lemma creates_lose a db s es :
  repr a (contents db) → slot_ok s → is_Some (a !! s) → Forall (λ e, slot_of e = s) es →
  let '(db', rs) := run_all (do_create <$> es) db in
  repr a (contents db') ∧ Forall (λ r, is_ok r = false) rs ∧
  ((∀ er, ¬ fault er) → rs = (λ e, Err (exists_msg e)) <$> es).
Proof.
  intros Hr Hs [e0 He0] Hes. revert db Hr. induction Hes as [|e es He _ IH]; intros db Hr; [done|].
  cbn [fmap list_fmap run_all].
  pose proof (create_cases a db e Hr ltac:(by rewrite He)) as HC.
  rewrite He, He0 in HC. destruct (do_create e db) as [db1 r].
  assert (Hr1 : repr a (contents db1)) by (destruct HC as [(? & _ & _ & ?)|[_ ?]]; done).
  specialize (IH db1 Hr1). fold (fmap (M:=list) do_create es) in *.
  destruct (run_all _ db1) as [db2 rs]. destruct IH as (Hr2 & Hall & Hno).
  split_and!; [done| |].
  - constructor; [|done]. by destruct HC as [(? & -> & _)|[-> _]].
  - intros Hf. rewrite Hno by done. destruct HC as [(er & _ & Her & _)|[-> _]]; [|done].
    by apply Hf in Her.
Qed.

Lemma no_ok_filter (rs : list (Result unit)) :
  Forall (λ r, is_ok r = false) rs → filter (λ r, is_ok r = true) rs = [].
Proof.
  induction 1 as [|r rs Hr _ IH]; [done|]. rewrite filter_cons.
  destruct (decide _); [congruence|done].
Qed.

Lemma creates_one_winner a db s es :
  repr a (contents db) → slot_ok s → Forall (λ e, slot_of e = s) es →
  (length (filter (λ r, is_ok r = true) (run_all (do_create <$> es) db).2) ≤ 1)%nat.
Proof.
  intros Hr Hs Hes. revert a db Hr. induction Hes as [|e es He Hes IH]; intros a db Hr; [simpl; lia|].
  cbn [fmap list_fmap run_all]. fold (fmap (M:=list) do_create es).
  pose proof (badger_create_state a db e Hr ltac:(by rewrite He)) as HC. rewrite He in HC.
  destruct (do_create e db) as [db1 r]. destruct r as [[]|er].
  - pose proof (creates_lose _ _ s es HC Hs ltac:(rewrite lookup_insert_eq; by eexists) Hes) as HL.
    destruct (run_all _ db1) as [db2 rs]. destruct HL as (_ & Hall & _).
    cbn [snd]. rewrite filter_cons, (no_ok_filter rs Hall). destruct (decide _); simpl; lia.
  - specialize (IH a db1 HC). destruct (run_all _ db1) as [db2 rs]. cbn [snd] in *.
    rewrite filter_cons. by destruct (decide _).
Qed.

(** C2: creation is a race with one winner.  However many nodes create a
    record in one free slot, in whatever order the database serialises them,
    at most one Create succeeds; when the engine does not fail, the first
    one does, its record is the one stored, and every other node is told
    that the record exists. *)
Theorem first_creator_wins a db e es :
  repr a (contents db) → slot_ok (slot_of e) → a !! slot_of e = None →
  Forall (λ e', slot_of e' = slot_of e) es → is_ok (Marshal e) = true →
  let '(db', rs) := run_all (do_create <$> (e :: es)) db in
  ((∀ er, ¬ fault er) →
    rs = Ok tt :: ((λ e', Err (exists_msg e')) <$> es) ∧
    repr (<[slot_of e := e]> a) (contents db')) ∧
  (length (filter (λ r, is_ok r = true) rs) ≤ 1)%nat.
Proof.
  intros Hr Hs Ha Hes Hm.
  pose proof (creates_one_winner a db (slot_of e) (e :: es) Hr Hs ltac:(by constructor)) as H1.
  destruct (run_all (do_create <$> (e :: es)) db) as [db' rs] eqn:E. split; [|done].
  intros Hf. cbn [fmap list_fmap run_all] in E. fold (fmap (M:=list) do_create es) in E.
  pose proof (create_cases a db e Hr Hs) as HC. rewrite Ha in HC.
  destruct (do_create e db) as [db1 r].
  destruct HC as [(er & _ & Her & _)|HC]; [by apply Hf in Her|].
  destruct (Marshal e); [|done]. destruct HC as [-> Hr1].
  pose proof (creates_lose _ _ (slot_of e) es Hr1 Hs ltac:(rewrite lookup_insert_eq; by eexists) Hes) as HL.
  destruct (run_all _ db1) as [db2 rs2]. destruct HL as (Hr2 & _ & Hrs). simplify_eq.
  split; [by rewrite Hrs|done].
Qed.
(** *** What was written is read *)
Inductive write := Created (e : entry) | Updated (now : Instant) (e : entry).
Definition target (w : write) : slot := match w with Created e | Updated _ e => slot_of e end.
Definition written (w : write) : entry := match w with Created e => e | Updated now e => touch now e end.
Definition do_write (w : write) : St DB (Result unit) :=
  match w with Created e => do_create e | Updated now e => do_update now e end.

(** The reading method of a slot's kind, by the slot's identifier. *)
Definition as_entry {A} (E : A → entry) (m : St DB (Result A)) : St DB (Result entry) := λ db,
  let '(db', r) := m db in (db', match r with Ok x => Ok (E x) | Err er => Err er end).
Definition read_slot (s : slot) : St DB (Result entry) :=
  match s with
  | JobSlot i => as_entry EJob (GetJob i) | TaskSlot _ i => as_entry ETask (GetTask i)
  | OccSlot _ i => as_entry EOcc (GetJobOccurrence i)
  | RunSlot i => as_entry ERun (GetTaskRun i) | AttemptSlot i => as_entry EAttempt (GetExecutionAttempt i)
  end.

(** Identifiers in use: those of tasks have one length and belong to one job
    each, and so have those of occurrences. *)
Definition regular (used : slot → Prop) : Prop :=
  (∀ j i j' i', used (TaskSlot j i) → used (TaskSlot j' i') →
     String.length i = String.length i' ∧ (i = i' → j = j')) ∧
  (∀ j i j' i', used (OccSlot j i) → used (OccSlot j' i') →
     String.length i = String.length i' ∧ (i = i' → j = j')).

Lemma write_state a db w :
  repr a (contents db) → slot_ok (target w) →
  let '(db', r) := do_write w db in
  repr (if is_ok r then <[target w := written w]> a else a) (contents db').
Proof.
  intros Hr Hs. destruct w as [e|now e]; simpl in *.
  - pose proof (badger_create_state a db e Hr Hs). by destruct (do_create e db) as [db' [u|er]].
  - pose proof (update_cases a db now e Hr Hs) as HC. destruct (do_update now e db) as [db' r].
    destruct HC as [(er & -> & _ & ?)|HC]; [done|].
    destruct (a !! slot_of e), (Marshal (touch now e)); by destruct HC as [-> ?].
Qed.

Lemma found_is_read {A} db (m : St DB (Result A)) msg (P : A → Prop) (E : A → entry) x :
  (∀ er, ¬ fault er) → looks_up db m msg P → P x → (∀ y, P y → y = x) →
  as_entry E m db = (db, Ok (E x)).
Proof.
  intros Hf (r & Hm & HP) Hx Hu. unfold as_entry. rewrite Hm. destruct r as [y|er]; simpl in HP.
  - by rewrite (Hu y HP).
  - destruct HP as [Her|[_ Hn]]; [by apply Hf in Her|by apply Hn in Hx].
Qed.

Lemma stored_is_read used a db s e :
  regular used → (∀ s, is_Some (a !! s) → used s) → repr a (contents db) → (∀ er, ¬ fault er) →
  a !! s = Some e → read_slot s db = (db, Ok e).
Proof.
  intros [Ht Ho] Hu Hr Hf He. destruct (stored a db s e Hr He) as [Hs He'].
  assert (Hus : used s) by (apply Hu; by eexists).
  destruct s as [i|j i|j i|i|i], e as [x|x|x|x|x]; try discriminate He'; simpl.
  - eapply (found_is_read db (GetJob i)); [done|by apply GetJob_spec|done|]. simpl. congruence.
  - eapply (found_is_read db (GetTask i)); [done|apply (GetTask_spec a)| |]; [done|..].
    + intros j' i' Hi'. by apply (Ht j' i' j i); [apply Hu|].
    + simpl in He'. simplify_eq. exact He.
    + intros y Hy. simpl in Hy, He'. assert (sk_JobID y = j) as E by (eapply Ht; [apply Hu; by eexists|done|done]).
      rewrite E in Hy. congruence.
  - eapply (found_is_read db (GetJobOccurrence i)); [done|apply (GetJobOccurrence_spec a)| |]; [done|..].
    + intros j' i' Hi'. by apply (Ho j' i' j i); [apply Hu|].
    + simpl in He'. simplify_eq. exact He.
    + intros y Hy. simpl in Hy, He'. assert (so_JobID y = j) as E by (eapply Ho; [apply Hu; by eexists|done|done]).
      rewrite E in Hy. congruence.
  - apply (found_is_read db (GetTaskRun i) ("task run not found: " +:+ i) (λ y, a !! RunSlot i = Some (ERun y)) ERun x Hf);
      [|exact He|simpl; congruence].
    apply (read_looks_up a db (RunSlot i)); [done|done|apply TaskRun_roundtrip| |congruence].
    intros [] ?; simplify_eq/=; eauto.
  - apply (found_is_read db (GetExecutionAttempt i) ("execution attempt not found: " +:+ i) (λ y, a !! AttemptSlot i = Some (EAttempt y)) EAttempt x Hf);
      [|exact He|simpl; congruence].
    apply (read_looks_up a db (AttemptSlot i)); [done|done|apply Attempt_roundtrip| |congruence].
    intros [] ?; simplify_eq/=; eauto.
Qed.

Lemma writes_keep used a db s ws :
  (∀ s, is_Some (a !! s) → used s) → repr a (contents db) →
  Forall (λ w, slot_ok (target w) ∧ used (target w) ∧ target w ≠ s) ws →
  ∃ a', repr a' (contents (run_all (do_write <$> ws) db).1) ∧ a' !! s = a !! s ∧
    ∀ s, is_Some (a' !! s) → used s.
Proof.
  intros Hu Hr Hws. revert a db Hu Hr. induction Hws as [|w ws (Hok & Huw & Hne) _ IH]; intros a db Hu Hr;
    [by exists a|]. cbn [fmap list_fmap run_all]. fold (fmap (M:=list) do_write ws).
  pose proof (write_state a db w Hr Hok) as HW. destruct (do_write w db) as [db1 r].
  destruct (IH (if is_ok r then <[target w := written w]> a else a) db1) as (a' & Hr' & Hs & Hu'); [|done|].
  - intros s'. destruct (is_ok r); [|apply Hu]. intros [<-|[_ ?]]%lookup_insert_is_Some; [done|by apply Hu].
  - destruct (run_all _ db1) as [db2 rs]. exists a'. split; [done|]. split; [|done]. rewrite Hs.
    destruct (is_ok r); [by rewrite lookup_insert_ne|done].
Qed.

(** C36: what was written is read.  On a healthy engine, when the identifiers
    in use are regular, after a successful Create or Update of a record of any
    kind, and after any further writes to other records, successful or not,
    the reading method of the record's kind returns by its identifier exactly
    what was written (an Update with the time of the update), and changes
    nothing. *)
Theorem last_write_is_read used a db w ws :
  regular used → (∀ s, is_Some (a !! s) → used s) → repr a (contents db) → (∀ er, ¬ fault er) →
  slot_ok (target w) → used (target w) →
  Forall (λ w', slot_ok (target w') ∧ used (target w') ∧ target w' ≠ target w) ws →
  (do_write w db).2 = Ok tt →
  let db' := (run_all (do_write <$> ws) (do_write w db).1).1 in
  read_slot (target w) db' = (db', Ok (written w)).
Proof.
  intros Hreg Hu Hr Hf Hok Huw Hws E. pose proof (write_state a db w Hr Hok) as HW.
  destruct (do_write w db) as [db1 r]. simpl in E. subst r. cbn [is_ok fst] in *.
  destruct (writes_keep used _ db1 (target w) ws ltac:(intros s [<-|[_ ?]]%lookup_insert_is_Some; [done|by apply Hu]) HW Hws)
    as (a' & Hr' & Hs & Hu').
  rewrite lookup_insert_eq in Hs. by apply (stored_is_read used a').
Qed.
End Properties.
