(* ===== verification/MemBadger.v ===== *)
(** * A concrete key-value engine

    Maps as databases, keys visited in byte order: an engine that never fails.
    It shows that the laws assumed of BadgerDB can hold, and runs the storage
    operations on concrete data. *)
From S2P Require Import Prelude GoTime Types Ids Storage Badger StorageSpec BadgerCorrect.
Local Open Scope Z_scope.

Module MemBadger.
Definition key_le (p q : string * Doc) : Prop := String.leb p.1 q.1 = true.
#[export] Instance key_le_dec : RelDecision key_le.
Proof. intros p q. unfold key_le. apply _. Defined.

Definition items (m : gmap string Doc) (prefix : string) : list (string * Item) :=
  (λ p, (p.1, Ok p.2)) <$>
    merge_sort key_le (filter (λ p, String.prefix prefix p.1 = true) (map_to_list m)).

#[export] Instance mem : Badger := {
  DB := gmap string Doc;
  Txn := gmap string Doc;
  Get t k := match t !! k with Some d => Ok (Ok d) | None => Err ErrKeyNotFound end;
  Set_ k d t := Ok (<[k := d]> t);
  Delete k t := Ok (delete k t);
  Iterate := items;
  Update fn db := match fn db with Ok t => (t, Ok tt) | Err e => (db, Err e) end;
  View A fn db := fn db;
  Options := string;
  DefaultOptions path := path;
  set_Logger_nil opts := opts;
  Open _ := Ok ∅;
  db_Close db := (db, Ok tt);
}.

Lemma items_spec m prefix k it :
  (k, it) ∈ items m prefix ↔ ∃ d, it = Ok d ∧ m !! k = Some d ∧ String.prefix prefix k = true.
Proof.
  unfold items. rewrite list_elem_of_fmap. split.
  - intros ([k' d] & [= -> ->] & Hin). rewrite (merge_sort_Permutation key_le) in Hin.
    apply list_elem_of_filter in Hin as [Hp Hin]. apply elem_of_map_to_list in Hin. by exists d.
  - intros (d & -> & Hm & Hp). exists (k, d). split; [done|].
    rewrite (merge_sort_Permutation key_le). apply list_elem_of_filter. split; [done|].
    by apply elem_of_map_to_list.
Qed.

Lemma items_nodup m prefix : NoDup (fst <$> items m prefix).
Proof.
  unfold items. rewrite <- list_fmap_compose. change (fst ∘ _) with (fst : string * Doc → string).
  rewrite (merge_sort_Permutation key_le).
  eapply sublist_NoDup; [apply (NoDup_fst_map_to_list m)|].
  apply fmap_sublist, sublist_filter.
Qed.

Lemma mem_get (t : gmap string Doc) k :
  match (match t !! k with Some d => Ok (Ok d) | None => Err ErrKeyNotFound end : Result Item) with
  | Ok it => ∃ v, t !! k = Some v ∧ match it with Ok d => d = v | Err _ => False end
  | Err e => e = ErrKeyNotFound ∧ t !! k = None ∨ False
  end.
Proof. destruct (t !! k) as [d|]; [by exists d|by left]. Qed.

#[export, program] Instance mem_laws : BadgerLaws := {
  contents db := db;
  txn_map t := t;
  fault _ := False;
}.
Next Obligation. done. Qed.
Next Obligation. intros t k. exact (mem_get t k). Qed.
Next Obligation. done. Qed.
Next Obligation. done. Qed.
Next Obligation. intros t p. exact (items_nodup t p). Qed.
Next Obligation.
  intros t p k it Hin. apply items_spec in Hin as (d & -> & ? & ?). by exists d.
Qed.
Next Obligation. intros t p k [d Hd] Hp. exists (Ok d). apply items_spec. by exists d. Qed.
Next Obligation.
  intros fn db. simpl. destruct (fn db) eqn:E; right; exists db; by rewrite E.
Qed.
Next Obligation. intros A fn db. right. by exists db. Qed.
End MemBadger.

(** ** Concrete runs *)
Module StoreExamples.
Import MemBadger BadgerStorage.

Definition job1 : StorageJob :=
  mkStorageJob "job-1" "nightly" "cron" BNil BEmpty 1 true false None 5 5.
Definition task1 : StorageTask := mkStorageTask "tk-01" "job-1" "load" BEmpty 0 5 5.
Definition occ1 : StorageOccurrence :=
  mkStorageOccurrence "oc-01" "job-1" 1 100 JobStatusRunning "node-a" (Some 101) None BNil false 100 100.
Definition occ2 : StorageOccurrence :=
  mkStorageOccurrence "oc-01" "job-1" 1 100 JobStatusPending "node-b" None None BNil false 102 102.

Definition db0 : DB := (∅ : gmap string Doc).
Definition a2 : gmap slot entry :=
  <[slot_of (EOcc occ1) := EOcc occ1]> (<[slot_of (ETask task1) := ETask task1]> ∅).
Definition db2 : DB :=
  (run_all (do_create <$> [ETask task1; EOcc occ1]) db0).1.

Ltac ids := repeat split; done.

Lemma repr_a2 : repr a2 (contents db2).
Proof.
  pose proof (badger_create_state ∅ db0 (ETask task1) repr_empty ltac:(ids)) as H1.
  pose proof (badger_create_state _ _ (EOcc occ1) H1 ltac:(ids)) as H2.
  exact H2.
Qed.

Lemma badger_create_refines_witness :
  (do_create (EOcc occ2) db2).2 = Err "occurrence already exists: oc-01" ∧
  repr a2 (contents (do_create (EOcc occ2) db2).1) ∧
  (do_create (EJob job1) db2).2 = Ok tt ∧
  repr (<[slot_of (EJob job1) := EJob job1]> a2) (contents (do_create (EJob job1) db2).1).
Proof.
  split; [vm_compute; reflexivity|]. split.
  - exact (proj1 (badger_create_refines a2 db2 (EOcc occ2) repr_a2 ltac:(ids))).
  - split; [vm_compute; reflexivity|].
    exact (proj2 (badger_create_refines a2 db2 (EJob job1) repr_a2 ltac:(ids))).
Defined.

Lemma badger_update_refines_witness :
  (do_update 200 (EOcc occ2) db2).2 = Ok tt ∧
  repr (<[slot_of (EOcc occ2) := touch 200 (EOcc occ2)]> a2)
    (contents (do_update 200 (EOcc occ2) db2).1).
Proof.
  split; [vm_compute; reflexivity|].
  exact (proj2 (badger_update_refines a2 db2 200 (EOcc occ2) repr_a2 ltac:(ids))).
Defined.

Lemma badger_lists_exact_witness :
  ListRunningOccurrences db2 = (db2, Ok [occ1]) ∧
  returns db2 ListRunningOccurrences
    (λ o, a2 !! OccSlot (so_JobID o) (so_ID o) = Some (EOcc o) ∧ so_Status o = JobStatusRunning).
Proof.
  split; [vm_compute; reflexivity|].
  apply (badger_lists_exact a2 db2 "job-1" "oc-01" "run" 0 0 repr_a2 eq_refl).
Defined.

Lemma lengths_a2 : task_ids_length a2 5 ∧ occ_ids_length a2 5.
Proof.
  split; intros j t; unfold a2; rewrite !lookup_insert_is_Some', lookup_empty;
    intros [E|[E|[? E]]]; by simplify_eq/=.
Qed.

Lemma badger_reads_exact_witness :
  (GetTask "tk-01" db2).2 = Ok task1 ∧
  looks_up db2 (GetTask "tk-01") "task not found: tk-01"
    (λ k, a2 !! TaskSlot (sk_JobID k) "tk-01" = Some (ETask k)).
Proof.
  split; [vm_compute; reflexivity|].
  apply (badger_reads_exact a2 db2 "tk-01" repr_a2 ltac:(ids)). apply lengths_a2.
Defined.

(** A second task is created; of the three writes that follow the last two fail. *)
Definition task2 : StorageTask := mkStorageTask "tk-02" "job-1" "clean" BEmpty 1 6 6.
Definition later_writes : list write := [Updated 200 (EOcc occ2); Created (ETask task1); Updated 201 (EJob job1)].
Definition in_use (s : slot) : Prop :=
  s ∈ [JobSlot "job-1"; TaskSlot "job-1" "tk-01"; TaskSlot "job-1" "tk-02"; OccSlot "job-1" "oc-01"].

Lemma last_write_is_read_witness :
  let db' := (run_all (do_write <$> later_writes) (do_write (Created (ETask task2)) db2).1).1 in
  GetTask "tk-02" db' = (db', Ok task2) ∧
  read_slot (TaskSlot "job-1" "tk-02") db' = (db', Ok (ETask task2)).
Proof.
  intros db'. split; [vm_compute; reflexivity|].
  apply (last_write_is_read in_use a2 db2 (Created (ETask task2)) later_writes).
  - split; intros j i j' i' Hi Hi'; unfold in_use in *;
      rewrite !elem_of_cons, elem_of_nil in Hi, Hi'; destruct_or!; by simplify_eq.
  - intros s [e He]. unfold a2 in He. rewrite !lookup_insert_Some, lookup_empty in He. unfold in_use.
    destruct He as [[<- _]|[_ [[<- _]|[_ [=]]]]]; [right; right; right; left|right; left].
  - exact repr_a2.
  - intros er [].
  - ids.
  - right; right; left.
  - repeat constructor; try done; simpl;
      first [right; right; right; left|right; left|left|congruence].
  - vm_compute. reflexivity.
Defined.

Lemma badger_deletes_refine_witness :
  ∃ k, a2 !! TaskSlot (sk_JobID k) "tk-01" = Some (ETask k) ∧
    repr (delete (TaskSlot (sk_JobID k) "tk-01") a2) (contents (DeleteTask "tk-01" db2).1).
Proof.
  destruct (badger_deletes_refine a2 db2 "tk-01" repr_a2 ltac:(ids) (proj1 lengths_a2) (proj2 lengths_a2))
    as (_ & _ & HT & _).
  exact HT.
Defined.

Lemma first_creator_wins_witness :
  let '(db', rs) := run_all (do_create <$> [EOcc occ1; EOcc occ2; EOcc occ1]) db0 in
  ((∀ er, ¬ fault er) →
    rs = [Ok tt; Err "occurrence already exists: oc-01"; Err "occurrence already exists: oc-01"] ∧
    repr (<[slot_of (EOcc occ1) := EOcc occ1]> ∅) (contents db')) ∧
  (length (filter (λ r, is_ok r = true) rs) ≤ 1)%nat.
Proof.
  apply (first_creator_wins ∅ db0 (EOcc occ1) [EOcc occ2; EOcc occ1]);
    [apply repr_empty|ids|reflexivity|repeat constructor|vm_compute; reflexivity].
Defined.

(** The search by suffix takes the first key that ends with the identifier:
    identifiers of different lengths are mixed up. *)
Lemma suffix_search_confuses :
  (GetTask "01" db2).2 = Ok task1.
Proof. vm_compute. reflexivity. Qed.

(** Deleting a job leaves its tasks and occurrences listed. *)
Lemma delete_job_leaves_orphans :
  let db3 := (do_create (EJob job1) db2).1 in
  let db4 := (DeleteJob "job-1" db3).1 in
  (ListJobs db4).2 = Ok [] ∧ (ListTasksByJobID "job-1" db4).2 = Ok [task1] ∧
  (ListRunningOccurrences db4).2 = Ok [occ1].
Proof. vm_compute. done. Qed.
End StoreExamples.
