(* ===== verification/GoFloat.v ===== *)
(** * float64 as far as the retry backoff uses it

    Conversions between [int64] and [float64], multiplication, and the branch
    of [math.Pow] for a base above 1 and a small non-negative integer
    exponent, transcribed from the standard library's portable version:
    binary powering on the mantissa with the exponent kept apart. *)
From Stdlib Require Import SpecFloat.
From S2P Require Import Prelude GoTime Types.
Local Open Scope Z_scope.

Definition prec : Z := 53.
Definition emax : Z := 1024.

Definition f_of_Z (z : Z) : float64 := binary_normalize prec emax z 0 false.
Definition f_mul (x y : float64) : float64 := SFmul prec emax x y.
Definition f_add (x y : float64) : float64 := SFadd prec emax x y.
Definition f_lt (x y : float64) : bool := SFltb x y.
Definition f_one : float64 := f_of_Z 1.
Definition f_half : float64 := SFldexp prec emax f_one (-1).

(** [math.Pow(x, float64(n))] for [1 < x] and [0 <= n < 2^53]. *)
Fixpoint pow_loop (fuel : nat) (i : Z) (x1 a1 : float64) (xe ae : Z) : float64 * Z :=
  match fuel with
  | O => (a1, ae)
  | S fuel' =>
      if i =? 0 then (a1, ae)
      else if (xe <? - 2 ^ 12) || (2 ^ 12 <? xe) then (a1, ae + xe)
      else
        let '(a1, ae) := if Z.testbit i 0 then (f_mul a1 x1, ae + xe) else (a1, ae) in
        let x1 := f_mul x1 x1 in
        let xe := Z.shiftl xe 1 in
        let '(x1, xe) := if f_lt x1 f_half then (f_add x1 x1, xe - 1) else (x1, xe) in
        pow_loop fuel' (Z.shiftr i 1) x1 a1 xe ae
  end.

Definition Pow (x : float64) (n : Z) : float64 :=
  if n =? 0 then f_one
  else if n =? 1 then x
  else match x with
       | S754_finite _ _ _ =>
           let '(x1, xe) := SFfrexp prec emax x in
           let '(a1, ae) := pow_loop 64 n x1 f_one xe 0 in
           SFldexp prec emax a1 ae
       | _ => x
       end.

(** The integer part of a finite float. *)
Definition f_trunc (x : float64) : option Z :=
  match x with
  | S754_zero _ => Some 0
  | S754_finite s m e =>
      let a := if 0 <=? e then Zpos m * 2 ^ e else Zpos m / 2 ^ (- e) in
      Some (if s then - a else a)
  | _ => None
  end.

Section Convert.
(** Go leaves a conversion that does not fit to the implementation. *)
Context (out_of_range : float64 → Z).

Definition f_to_int64 (x : float64) : Z :=
  match f_trunc x with
  | Some z => if (- 2 ^ 63 <=? z) && (z <? 2 ^ 63) then z else out_of_range x
  | None => out_of_range x
  end.
End Convert.

(** Smoke tests of the transcription: 1.5^3 = 3.375, 2^10, 10^400 = +Inf. *)
Example pow_three_halves :
  Pow (SFdiv prec emax (f_of_Z 3) (f_of_Z 2)) 3 = SFdiv prec emax (f_of_Z 27) (f_of_Z 8).
Proof. vm_compute. reflexivity. Qed.
Example pow_two : f_to_int64 (λ _, 0) (Pow (f_of_Z 2) 10) = 1024.
Proof. vm_compute. reflexivity. Qed.
Example pow_overflow : Pow (f_of_Z 10) 400 = S754_infinity false.
Proof. vm_compute. reflexivity. Qed.
