(* ===== verification/Effects.v ===== *)
(** * Programs over the world: storage, metrics, clock, user code

    The executor's functions are programs: trees of effects, each with the
    continuation of its answer.  [perform] gives an effect's meaning: the
    world after it, the answer, and the instant at which the answer is there.
    [run] executes one program alone; the executor's parallel mode interleaves
    several.  Reading the clock takes time: [jitter n] passes before the
    [n]-th reading.  When a [select] finds both its cases ready at the same
    instant, [coin] decides. *)
From S2P Require Import Prelude GoTime GoContext Types Ids Job Metrics Storage.
Local Open Scope Z_scope.

(** The earliest instant at which a context is done, if any. *)
Definition done_at (c : Ctx) : option Instant := earlier (cx_deadline c) (cx_cancel c).

(** A callback of a job that has been called. *)
Inductive hook_call :=
| OnStartCalled (h : HookRef) (occurrence : JobOccurrence)
| OnCompleteCalled (h : HookRef) (report : option ExecutionReport).

Section Effects.
Context {S M : Type}.

Inductive Eff : Type → Type :=
| Now : Eff Instant
| Wait (ctx : Ctx) (d : Duration) : Eff bool
| AskErr (ctx : Ctx) : Eff (option CtxErr)
| Call (fn : TaskFunc) (ctx : Ctx) (ec : ExecutionContext) : Eff (option GoError)
| OnStore {R} (m : St S R) : Eff R
| OnMetrics (f : M → M) : Eff unit
| Hook (h : hook_call) : Eff unit.

Inductive Prog (A : Type) : Type :=
| Ret (a : A)
| Panic (msg : string)
| Act {R} (e : Eff R) (k : R → Prog A).
Global Arguments Ret {A} a.
Global Arguments Panic {A} msg.
Global Arguments Act {A R} e k.

Fixpoint prog_bind {A B} (f : A → Prog B) (p : Prog A) : Prog B :=
  match p with
  | Ret a => f a
  | Panic m => Panic m
  | Act e k => Act e (λ r, prog_bind f (k r))
  end.

Record World := mkWorld {
  w_store : S;
  w_metrics : M;
  w_time : Instant;
  w_reads : nat;
  w_hooks : list hook_call;
}.
Definition set_store (s : S) (w : World) : World :=
  mkWorld s (w_metrics w) (w_time w) (w_reads w) (w_hooks w).
Definition set_metrics (m : M) (w : World) : World :=
  mkWorld (w_store w) m (w_time w) (w_reads w) (w_hooks w).
Definition set_time (t : Instant) (w : World) : World :=
  mkWorld (w_store w) (w_metrics w) t (w_reads w) (w_hooks w).
Definition add_hook (h : hook_call) (w : World) : World :=
  mkWorld (w_store w) (w_metrics w) (w_time w) (w_reads w) (w_hooks w ++ [h]).

Context (jitter : nat → Z) (coin : nat → bool).

(** Time passes before a reading. *)
Definition read_clock (w : World) : World :=
  mkWorld (w_store w) (w_metrics w) (w_time w + Z.max 0 (jitter (w_reads w)))
    (Datatypes.S (w_reads w)) (w_hooks w).

(** [select { case <-ctx.Done(): ...; case <-time.After(d): ... }] reached
    at [t]: whether the context wins, and when. *)
Definition race (n : nat) (ctx : Ctx) (t : Instant) (d : Duration) : bool * Instant :=
  let timer := t + Z.max 0 d in
  match done_at ctx with
  | None => (false, timer)
  | Some x =>
      let x := Z.max t x in
      if x <? timer then (true, x)
      else if timer <? x then (false, timer)
      else (coin n, timer)
  end.

Definition perform {R} (e : Eff R) (w : World) : World * R * Instant :=
  match e in Eff R return World * R * Instant with
  | Now => let w := read_clock w in (w, w_time w, w_time w)
  | Wait ctx d =>
      let w := read_clock w in
      let '(b, until) := race (w_reads w) ctx (w_time w) d in (w, b, until)
  | AskErr ctx => let w := read_clock w in (w, ctx_Err ctx (w_time w), w_time w)
  | Call fn ctx ec =>
      let '(err, d) := fn ctx ec (w_time w) in (w, err, w_time w + Z.max 0 d)
  | OnStore m => let '(s, r) := m (w_store w) in (set_store s w, r, w_time w)
  | OnMetrics f => (set_metrics (f (w_metrics w)) w, tt, w_time w)
  | Hook h => (add_hook h w, tt, w_time w)
  end.

(** One program alone: it sleeps until each answer is there. *)
Fixpoint run {A} (p : Prog A) (w : World) : World * Outcome A :=
  match p with
  | Ret a => (w, Done a)
  | Panic m => (w, Crash m)
  | Act e k => let '(w', r, until) := perform e w in run (k r) (set_time until w')
  end.

Definition do {R} (e : Eff R) : Prog R := Act e Ret.

(** Equal but for the form of their continuations. *)
Inductive same {A} : Prog A → Prog A → Prop :=
| same_refl p : same p p
| same_act {R} (e : Eff R) k k' : (∀ r, same (k r) (k' r)) → same (Act e k) (Act e k').
End Effects.
Arguments Eff : clear implicits.
Arguments Prog : clear implicits.
Arguments World : clear implicits.

#[export] Instance Prog_ret {S M} : MRet (Prog S M) := λ A a, Ret a.
#[export] Instance Prog_bind {S M} : MBind (Prog S M) := λ A B f p, prog_bind f p.

Lemma same_ret {S M A} (p : Prog S M A) f : (∀ a, f a = Ret a) → same p (p ≫= f).
Proof.
  intros Hf. unfold mbind, Prog_bind. induction p as [a|m|R e k IH]; simpl; [rewrite Hf; constructor|constructor|].
  by constructor.
Qed.

(** The next reading of the clock. *)
Definition next_reading {S M} (jitter : nat → Z) (w : World S M) : Instant :=
  w_time w + Z.max 0 (jitter (w_reads w)).

Section RunTheory.
Context {S M : Type} (jitter : nat → Z) (coin : nat → bool).
Implicit Types (w : World S M).

Lemma run_bind {A B} (p : Prog S M A) (f : A → Prog S M B) w :
  run jitter coin (p ≫= f) w =
    let '(w', o) := run jitter coin p w in
    match o with Done a => run jitter coin (f a) w' | Crash m => (w', Crash m) end.
Proof.
  unfold mbind, Prog_bind. revert w; induction p as [a|m|R e k IH]; intros w; simpl; [done..|].
  destruct (perform jitter coin e w) as [[w' r] u]. apply IH.
Qed.
Lemma run_do {R} (e : Eff S M R) w :
  run jitter coin (do e) w = let '(w', r, u) := perform jitter coin e w in (set_time u w', Done r).
Proof. simpl. by destruct (perform jitter coin e w) as [[w' r] u]. Qed.
Lemma run_act {A R} (e : Eff S M R) (f : R → Prog S M A) w :
  run jitter coin (do e ≫= f) w =
    let '(w', r, u) := perform jitter coin e w in run jitter coin (f r) (set_time u w').
Proof. rewrite run_bind, run_do. by destruct (perform jitter coin e w) as [[w' r] u]. Qed.

Lemma run_now {A} (f : Instant → Prog S M A) w :
  run jitter coin (do Now ≫= f) w = run jitter coin (f (next_reading jitter w)) (read_clock jitter w).
Proof. by rewrite run_act. Qed.
Lemma run_store {A R} (m : St S R) (f : R → Prog S M A) w s r :
  m (w_store w) = (s, r) → run jitter coin (do (OnStore m) ≫= f) w = run jitter coin (f r) (set_store s w).
Proof. intros E. rewrite run_act. cbn [perform]. by rewrite E. Qed.
(** A store operation that only reads. *)
Lemma run_read {A R} (m : St S R) (f : R → Prog S M A) w r :
  m (w_store w) = (w_store w, r) → run jitter coin (do (OnStore m) ≫= f) w = run jitter coin (f r) w.
Proof. intros E. rewrite run_act. cbn [perform]. rewrite E. by destruct w. Qed.

Lemma run_same {A} (p q : Prog S M A) w : same p q → run jitter coin p w = run jitter coin q w.
Proof.
  intros E. revert w. induction E as [p|R e k k' _ IH]; intros w; [done|]. simpl.
  destruct (perform jitter coin e w) as [[w' r] u]. apply IH.
Qed.

(** The clock never goes back. *)
Lemma race_later n ctx t d : t ≤ (race coin n ctx t d).2.
Proof. unfold race. destruct (done_at ctx); repeat case_match; simpl; lia. Qed.
Lemma perform_later {R} (e : Eff S M R) w :
  let '(w', _, u) := perform jitter coin e w in w_time w ≤ u.
Proof.
  destruct e; simpl; try lia.
  - pose proof (race_later (Datatypes.S (w_reads w)) ctx (w_time w + Z.max 0 (jitter (w_reads w))) d).
    destruct (race _ _ _ _ _); simpl in *; lia.
  - destruct (fn ctx ec (w_time w)). lia.
  - destruct (m (w_store w)). lia.
Qed.
Lemma run_later {A} (p : Prog S M A) w : w_time w ≤ w_time (run jitter coin p w).1.
Proof.
  revert w; induction p as [a|m|R e k IH]; intros w; simpl; [lia..|].
  pose proof (perform_later e w) as Hp. destruct (perform jitter coin e w) as [[w' r] u].
  etrans; [exact Hp|apply (IH r (set_time u w'))].
Qed.
Lemma run_bind_done {A B} (p : Prog S M A) (f : A → Prog S M B) w w' b :
  run jitter coin (p ≫= f) w = (w', Done b) →
  ∃ w1 a, run jitter coin p w = (w1, Done a) ∧ run jitter coin (f a) w1 = (w', Done b) ∧
    w_time w ≤ w_time w1 ∧ w_time w1 ≤ w_time w'.
Proof.
  rewrite run_bind. pose proof (run_later p w) as H1.
  destruct (run jitter coin p w) as [w1 [a|m]]; [|done]. intros E.
  pose proof (run_later (f a) w1) as H2. rewrite E in H2. by exists w1, a.
Qed.
End RunTheory.

(** ** Reasoning about programs without running them *)
Section Leaves.
Context {S M : Type}.

(** Whatever the effects answer, a result of the program satisfies [P]. *)
Fixpoint leaves {A} (P : A → Prop) (p : Prog S M A) : Prop :=
  match p with Ret a => P a | Panic _ => True | Act e k => ∀ r, leaves P (k r) end.

(** No answer of the effects leads to a panic. *)
Fixpoint no_panic {A} (p : Prog S M A) : Prop :=
  match p with Ret _ => True | Panic _ => False | Act e k => ∀ r, no_panic (k r) end.

(** Every effect the program may perform satisfies [Q]. *)
Fixpoint only {A} (Q : ∀ R, Eff S M R → Prop) (p : Prog S M A) : Prop :=
  match p with Ret _ | Panic _ => True | Act e k => Q _ e ∧ ∀ r, only Q (k r) end.

Lemma leaves_bind {A B} (P : B → Prop) (Q : A → Prop) (p : Prog S M A) (f : A → Prog S M B) :
  leaves Q p → (∀ a, Q a → leaves P (f a)) → leaves P (p ≫= f).
Proof. unfold mbind, Prog_bind. induction p; simpl; auto. Qed.
Lemma leaves_impl {A} (P Q : A → Prop) (p : Prog S M A) :
  leaves P p → (∀ a, P a → Q a) → leaves Q p.
Proof. induction p; simpl; auto. Qed.
Lemma leaves_True {A} (p : Prog S M A) : leaves (λ _, True) p.
Proof. induction p; simpl; auto. Qed.
Lemma leaves_do {R} (e : Eff S M R) : leaves (λ _, True) (do e).
Proof. by intros r. Qed.
Lemma leaves_act {A R} (P : A → Prop) (e : Eff S M R) (f : R → Prog S M A) :
  (∀ r, leaves P (f r)) → leaves P (do e ≫= f).
Proof. simpl. auto. Qed.
Lemma leaves_skip {A B} (P : B → Prop) (p : Prog S M A) (f : A → Prog S M B) :
  (∀ a, leaves P (f a)) → leaves P (p ≫= f).
Proof. intros Hf. apply (leaves_bind _ (λ _, True)); [apply leaves_True|auto]. Qed.

Lemma no_panic_bind {A B} (p : Prog S M A) (f : A → Prog S M B) :
  no_panic p → (∀ a, no_panic (f a)) → no_panic (p ≫= f).
Proof. unfold mbind, Prog_bind. induction p; simpl; auto; done. Qed.
Lemma no_panic_do {R} (e : Eff S M R) : no_panic (do e).
Proof. by intros r. Qed.

Lemma only_bind {A B} Q (p : Prog S M A) (f : A → Prog S M B) :
  only Q p → (∀ a, only Q (f a)) → only Q (p ≫= f).
Proof. unfold mbind, Prog_bind. induction p; simpl; auto. intros [? ?] ?. split; auto. Qed.
Lemma only_do {R} Q (e : Eff S M R) : Q R e → only Q (do e).
Proof. by split. Qed.

Context (jitter : nat → Z) (coin : nat → bool).

Lemma run_leaves {A} (P : A → Prop) (p : Prog S M A) w w' a :
  leaves P p → run jitter coin p w = (w', Done a) → P a.
Proof.
  revert w; induction p as [b|m|R e k IH]; intros w Hp E; simpl in *; [by simplify_eq|done|].
  destruct (perform jitter coin e w) as [[w1 r] u]. by eapply IH.
Qed.
Lemma run_no_panic {A} (p : Prog S M A) w :
  no_panic p → ∃ w' a, run jitter coin p w = (w', Done a).
Proof.
  revert w; induction p as [b|m|R e k IH]; intros w Hp; simpl in *; [eauto|done|].
  destruct (perform jitter coin e w) as [[w1 r] u]. by apply IH.
Qed.

(** An observation of the world that the program's effects leave alone. *)
Lemma run_only {A O} (Q : ∀ R, Eff S M R → Prop) (obs : World S M → O) (p : Prog S M A) w :
  (∀ R (e : Eff S M R) w, Q R e →
     let '(w', _, u) := perform jitter coin e w in obs (set_time u w') = obs w) →
  only Q p → obs (run jitter coin p w).1 = obs w.
Proof.
  intros HQ. revert w; induction p as [b|m|R e k IH]; intros w Hp; simpl in *; [done..|].
  destruct Hp as [He Hk]. specialize (HQ R e w He).
  destruct (perform jitter coin e w) as [[w1 r] u]. by rewrite IH, HQ.
Qed.
End Leaves.
#[export] Hint Resolve leaves_do leaves_True no_panic_do only_do : go.

(** Walks down a program whose effects are irrelevant to the goal. *)
Ltac no_panic_prog :=
  repeat first
    [ apply no_panic_do | apply no_panic_bind; [|intros] | progress (cbn [no_panic])
    | exact I | case_match | done ].
Ltac only_prog :=
  repeat first
    [ apply only_do; done | apply only_bind; [|intros] | exact I | case_match | done ].

(** Effects other than calling a job's hooks. *)
Definition not_hook {S M} (R : Type) (e : Eff S M R) : Prop :=
  match e with Hook _ => False | _ => True end.

Lemma run_keeps_hooks {S M A} jitter coin (p : Prog S M A) w :
  only not_hook p → w_hooks (run jitter coin p w).1 = w_hooks w.
Proof.
  apply run_only. intros R e v He. destruct e; simpl; try done.
  - by destruct (race _ _ _ _ _).
  - by destruct (fn ctx ec (w_time v)).
  - by destruct (m (w_store v)).
Qed.

(** Effects that keep the storage within a set of states. *)
Definition preserves {S M} (I : S → Prop) (R : Type) (e : Eff S M R) : Prop :=
  match e with OnStore m => ∀ s, I s → I (m s).1 | _ => True end.

Section Preserves.
Context {S M : Type} (jitter : nat → Z) (coin : nat → bool) (I : S → Prop).
Implicit Types (w : World S M).

Lemma perform_preserves {R} (e : Eff S M R) w w' r u :
  preserves I R e → I (w_store w) → perform jitter coin e w = (w', r, u) → I (w_store w').
Proof.
  intros He Hw E. destruct e; simpl in He, E; cases_in E; simplify_eq/=; try exact Hw.
  specialize (He _ Hw). by rewrite Heqp in He.
Qed.
Lemma run_preserves {A} (p : Prog S M A) w :
  only (preserves I) p → I (w_store w) → I (w_store (run jitter coin p w).1).
Proof.
  revert w; induction p as [a|m|R e k IH]; intros w Hp Hw; simpl in *; [done..|].
  destruct Hp as [He Hk]. destruct (perform jitter coin e w) as [[w1 r] u] eqn:E.
  apply IH; [apply Hk|]. change (I (w_store w1)). by eapply (perform_preserves e w).
Qed.

(** The clock of the world an effect leaves behind. *)
Lemma perform_world_later {R} (e : Eff S M R) w :
  w_time w ≤ w_time (perform jitter coin e w).1.1.
Proof.
  destruct e; simpl; try lia.
  - destruct (race _ _ _ _ _). simpl. lia.
  - destruct (fn ctx ec (w_time w)). simpl. lia.
  - destruct (m (w_store w)). simpl. lia.
Qed.
End Preserves.

(** ** Reasoning about a run in time: what holds of the final world and result *)
Section Runs.
Context {S M : Type} (jitter : nat → Z) (coin : nat → bool).
Implicit Types (w : World S M).

Definition runs {A} (p : Prog S M A) w (Q : World S M → A → Prop) : Prop :=
  match run jitter coin p w with (w', Done a) => Q w' a | (_, Crash _) => True end.

Lemma runs_ret {A} (a : A) w Q : Q w a → runs (Ret a) w Q.
Proof. done. Qed.
Lemma runs_bind {A B} (p : Prog S M A) (f : A → Prog S M B) w Q :
  runs p w (λ w' a, runs (f a) w' Q) → runs (p ≫= f) w Q.
Proof. unfold runs. rewrite run_bind. by destruct (run _ _ p w) as [w' [a|m]]. Qed.
Lemma runs_act {A R} (e : Eff S M R) (f : R → Prog S M A) w Q :
  (∀ w' r u, perform jitter coin e w = (w', r, u) → w_time w ≤ u → runs (f r) (set_time u w') Q) →
  runs (do e ≫= f) w Q.
Proof.
  unfold runs. rewrite run_act. intros HQ. pose proof (perform_later jitter coin e w) as Hp.
  destruct (perform jitter coin e w) as [[w' r] u] eqn:E. exact (HQ w' r u eq_refl Hp).
Qed.
Lemma runs_impl {A} (p : Prog S M A) w (Q Q' : World S M → A → Prop) :
  runs p w Q → (∀ w' a, w_time w ≤ w_time w' → Q w' a → Q' w' a) → runs p w Q'.
Proof.
  unfold runs. intros HQ HI. pose proof (run_later jitter coin p w).
  destruct (run jitter coin p w) as [w' [a|m]]; auto.
Qed.
Lemma runs_later {A} (p : Prog S M A) w : runs p w (λ w' _, w_time w ≤ w_time w').
Proof.
  unfold runs. pose proof (run_later jitter coin p w). by destruct (run jitter coin p w) as [w' [a|m]].
Qed.
Lemma runs_now {A} (f : Instant → Prog S M A) w Q :
  (∀ w', w_time w ≤ w_time w' → runs (f (w_time w')) w' Q) → runs (do Now ≫= f) w Q.
Proof.
  intros HQ. apply runs_act. intros w' r u [= <- <- <-] Hu. apply (HQ (set_time _ _)). done.
Qed.
Lemma runs_wait {A} ctx d (f : bool → Prog S M A) w Q :
  (∀ w' b, (b = false → w_time w + Z.max 0 d ≤ w_time w') → runs (f b) w' Q) →
  runs (do (Wait ctx d) ≫= f) w Q.
Proof.
  intros HQ. apply runs_act. intros w' b u E _. apply HQ. intros ->. simpl in E.
  destruct (race _ _ _ _ _) as [b' u'] eqn:Er. injection E as <- -> ->. simpl.
  unfold race in Er. repeat case_match; simplify_eq; lia.
Qed.
Lemma runs_and {A} (p : Prog S M A) w (Q Q' : World S M → A → Prop) :
  runs p w Q → runs p w Q' → runs p w (λ w' a, Q w' a ∧ Q' w' a).
Proof. unfold runs. destruct (run jitter coin p w) as [w' [a|m]]; auto. Qed.
Lemma runs_leaves {A} (P : A → Prop) (p : Prog S M A) w : leaves P p → runs p w (λ _ a, P a).
Proof.
  unfold runs. intros Hp. destruct (run jitter coin p w) as [w' [a|m]] eqn:E; [|done].
  by eapply run_leaves.
Qed.
Lemma runs_case {A} (b : bool) (p q : Prog S M A) w Q :
  runs p w Q → runs q w Q → runs (if b then p else q) w Q.
Proof. by destruct b. Qed.
End Runs.
