(* ===== verification/Executor.v ===== *)
(** * executor/executor.go: running occurrences, tasks and attempts

    The functions are programs ([Effects]).  Results the Go code ignores
    (errors of most storage calls) are ignored here.  A panic in a task's own
    function is not modelled; the one panic of this file's code, [lastErr.Error()] on a nil error,
    is.  The attempt counter is taken not to reach the largest [int]. *)
From S2P Require Import Prelude GoTime GoContext Types Ids Job Metrics Storage GoFloat Effects.
Local Open Scope Z_scope.

(** Assignments to fields of an occurrence. *)
Definition set_jo_Status (st : JobStatus) (o : JobOccurrence) : JobOccurrence :=
  mkJobOccurrence (jo_ID o) (jo_JobID o) (jo_JobVersion o) (jo_ScheduledTime o) st
    (jo_OwningNodeID o) (jo_StartTime o) (jo_EndTime o) (jo_Config o) (jo_IsRecoveryRun o)
    (jo_CreatedAt o) (jo_UpdatedAt o).
Definition set_jo_StartTime (t : option Instant) (o : JobOccurrence) : JobOccurrence :=
  mkJobOccurrence (jo_ID o) (jo_JobID o) (jo_JobVersion o) (jo_ScheduledTime o) (jo_Status o)
    (jo_OwningNodeID o) t (jo_EndTime o) (jo_Config o) (jo_IsRecoveryRun o)
    (jo_CreatedAt o) (jo_UpdatedAt o).
Definition set_jo_EndTime (t : option Instant) (o : JobOccurrence) : JobOccurrence :=
  mkJobOccurrence (jo_ID o) (jo_JobID o) (jo_JobVersion o) (jo_ScheduledTime o) (jo_Status o)
    (jo_OwningNodeID o) (jo_StartTime o) t (jo_Config o) (jo_IsRecoveryRun o)
    (jo_CreatedAt o) (jo_UpdatedAt o).

Definition elapsed (fin start : Instant) : Duration := Sub (mkTime fin UTC) (mkTime start UTC).

Section Executor.
Context {S M : Type} `{UuidLib} `{Storage S} `{MetricsCollector M}.
Context (out_of_range : float64 → Z).

(** *** Attempts *)
Definition executeAttempt (ctx : Ctx) (job : Job) (task : Task) (taskRun : TaskRun)
    (attemptNum : Z) (config : TaskConfig) : Prog S M AttemptReport :=
  let attemptID := GenerateExecutionAttemptID (sr_ID taskRun) attemptNum in
  startTime ← do Now;
  createdAt ← do Now;
  _ ← do (OnStore (CreateExecutionAttempt
           (mkExecutionAttempt attemptID (sr_ID taskRun) attemptNum TaskStatusRunning
              startTime None EmptyString createdAt)));
  let timeout := default (5 * Minute) (tc_TaskTimeout config) in
  t0 ← do Now;
  let taskCtx := WithTimeout ctx t0 timeout in
  err ← do (Call (t_Fn task) taskCtx
              (mkExecutionContext (sr_OccurrenceID taskRun) (sr_ID taskRun) attemptID));
  endTime ← do Now;
  let duration := elapsed endTime startTime in
  sm ← match err with
       | Some e =>
           ctxErr ← do (AskErr taskCtx);
           Ret (if bool_decide (ctxErr = Some DeadlineExceeded)
                then (TaskStatusTimeout, "task execution timeout")
                else (TaskStatusFailed, e))
       | None => Ret (TaskStatusSuccess, EmptyString)
       end;
  let '(status, msg) := (sm : TaskStatus * string) in
  _ ← do (OnStore (UpdateExecutionAttempt
           (mkExecutionAttempt attemptID (sr_ID taskRun) attemptNum status
              startTime (Some endTime) msg createdAt)));
  _ ← do (OnMetrics (IncTaskAttempts (j_Name job) (t_Name task) status));
  _ ← do (OnMetrics (ObserveTaskDuration (j_Name job) (t_Name task) duration));
  Ret (mkAttemptReport attemptNum status startTime (Some endTime) duration msg).

(** *** Retries *)
Definition backoff (p : RetryPolicy) (attempt : Z) : Duration :=
  if f_lt f_one (BackoffFactor p)
  then f_to_int64 out_of_range (f_mul (f_of_Z (RetryInterval p)) (Pow (BackoffFactor p) attempt))
  else RetryInterval p.

(** [UpdateTaskRun] reads the clock itself. *)
Definition store_run (r : TaskRun) : Prog S M unit :=
  now ← do Now; _ ← do (OnStore (UpdateTaskRun now r)); Ret tt.

(** [taskRun.Status = st; taskRun.EndTime = timePtr(time.Now()); UpdateTaskRun] *)
Definition close_run (r : TaskRun) (st : TaskStatus) (retries : Z) (msg : string) : Prog S M unit :=
  fin ← do Now;
  store_run (mkTaskRun (sr_ID r) (sr_OccurrenceID r) (sr_TaskID r) st retries (sr_StartTime r)
               (Some fin) msg (sr_CreatedAt r) (sr_UpdatedAt r)).

Definition task_report (task : Task) (attempts : list AttemptReport) (st : TaskStatus) : TaskReport :=
  mkTaskReport (t_ID task) (t_Name task) attempts st.

(** The loop of [executeTask]; [left] is how many more attempts the condition
    [attempt <= MaxRetries] allows. *)
Fixpoint attempts_loop (ctx : Ctx) (job : Job) (task : Task) (taskRun : TaskRun)
    (config : TaskConfig) (policy : RetryPolicy) (left : nat) (attempt : Z)
    (done : list AttemptReport) (lastErr : option GoError) : Prog S M TaskReport :=
  match left with
  | O =>
      match lastErr with
      | None => Panic "invalid memory address or nil pointer dereference"
      | Some msg =>
          _ ← close_run taskRun TaskStatusFailed (Z.of_nat (length done)) msg;
          Ret (task_report task done TaskStatusFailed)
      end
  | Datatypes.S left' =>
      r ← executeAttempt ctx job task taskRun attempt config;
      let done := done ++ [r] in
      if bool_decide (ar_Status r = TaskStatusSuccess) then
        _ ← close_run taskRun TaskStatusSuccess (sr_RetryCount taskRun) (sr_ErrorMessage taskRun);
        Ret (task_report task done TaskStatusSuccess)
      else
        let next := attempts_loop ctx job task taskRun config policy left' (attempt + 1) done
                      (Some (ar_ErrorMessage r)) in
        if attempt <? MaxRetries policy then
          canceled ← do (Wait ctx (backoff policy attempt));
          if (canceled : bool) then
            _ ← close_run taskRun TaskStatusCanceled (sr_RetryCount taskRun) (sr_ErrorMessage taskRun);
            Ret (task_report task done TaskStatusCanceled)
          else next
        else next
  end.

Definition no_retry : RetryPolicy := mkRetryPolicy 0 0 (S754_zero false).

Definition executeTask (ctx : Ctx) (job : Job) (task : Task) (occurrence : JobOccurrence)
  : Prog S M TaskReport :=
  let taskConfig := GetEffectiveConfig job task in
  createdAt ← do Now;
  let taskRun := mkTaskRun (GenerateTaskRunID (jo_ID occurrence) (t_ID task)) (jo_ID occurrence)
                   (t_ID task) TaskStatusPending 0 None None EmptyString createdAt (inst zeroTime) in
  _ ← do (OnStore (CreateTaskRun taskRun));
  let retryPolicy := default no_retry (tc_RetryPolicy taskConfig) in
  attempts_loop ctx job task taskRun taskConfig retryPolicy
    (Z.to_nat (MaxRetries retryPolicy + 1)) 0 [] None.

(** *** Task groups *)
Fixpoint sequential_loop (ctx : Ctx) (job : Job) (occurrence : JobOccurrence)
    (tasks : list Task) (report : ExecutionReport) : Prog S M (ExecutionReport * option GoError) :=
  match tasks with
  | [] => Ret (set_GroupOutcome report "completed", None)
  | task :: tasks' =>
      taskReport ← executeTask ctx job task occurrence;
      let report := AddTaskReport report taskReport in
      if bool_decide (tr_FinalStatus taskReport = TaskStatusFailed) &&
         bool_decide (jc_FailureStrategy (j_Config job) = FailureStrategyFailFast)
      then Ret (set_GroupOutcome report "failed",
                Some ("task " +:+ t_Name task +:+ " failed, aborting due to fail-fast"))
      else
        ctxErr ← do (AskErr ctx);
        match ctxErr with
        | Some e => Ret (set_GroupOutcome report "canceled", Some (CtxErr_msg e))
        | None => sequential_loop ctx job occurrence tasks' report
        end
  end.

Definition executeSequential (ctx : Ctx) (job : Job) (occurrence : JobOccurrence)
  : Prog S M (ExecutionReport * option GoError) :=
  sequential_loop ctx job occurrence (j_Tasks job)
    (NewExecutionReport (jo_ID occurrence) (jc_FailureStrategy (j_Config job))).

(** The goroutine of one task of a parallel group: executing (perhaps asleep
    until an answer is there), about to apply the failure strategy, gone. *)
Inductive goroutine :=
| Ready (p : Prog S M TaskReport)
| Asleep (until : Instant) (p : Prog S M TaskReport)
| Deciding (r : TaskReport)
| Gone.

(** [g_cancel] is the instant of the first call of [cancel], if any. *)
Record group := mkGroup {
  g_world : World S M;
  g_threads : list (Task * goroutine);
  g_report : ExecutionReport;
  g_cancel : option Instant;
}.

Context (jitter : nat → Z) (coin : nat → bool).

Definition fails_fast (job : Job) (t : Task) : bool :=
  let strategy := default (jc_FailureStrategy (j_Config job))
                    (tc_FailureStrategy (GetEffectiveConfig job t)) in
  bool_decide (strategy = FailureStrategyFailFast).

Definition set_thread (i : nat) (t : Task) (g : goroutine) (s : group) (w : World S M) : group :=
  mkGroup w (<[i := (t, g)]> (g_threads s)) (g_report s) (g_cancel s).

(** Goroutine [i] takes a step at the instant [now]. *)
Definition group_step (job : Job) (s : group) (a : nat * Instant) : StepResult group :=
  let '(i, now) := a in
  if now <? w_time (g_world s) then Disabled
  else
    let w := set_time now (g_world s) in
    match g_threads s !! i with
    | Some (t, Ready (Ret r)) =>
        Next (mkGroup w (<[i := (t, Deciding r)]> (g_threads s))
                (AddTaskReport (g_report s) r) (g_cancel s))
    | Some (t, Ready (Panic m)) => Panicked m
    | Some (t, Ready (Act e k)) =>
        let '(w', r, until) := perform jitter coin e w in
        Next (set_thread i t (Asleep until (k r)) s w')
    | Some (t, Asleep until p) =>
        if until <=? now then Next (set_thread i t (Ready p) s w) else Disabled
    | Some (t, Deciding r) =>
        let cancels := bool_decide (tr_FinalStatus r = TaskStatusFailed) && fails_fast job t in
        Next (mkGroup w (<[i := (t, Gone)]> (g_threads s)) (g_report s)
                (if cancels then earlier (g_cancel s) (Some now) else g_cancel s))
    | _ => Disabled
    end.

Definition is_gone (p : Task * goroutine) : bool := match p.2 with Gone => true | _ => false end.
Definition has_failure (report : ExecutionReport) : bool :=
  existsb (λ tr, bool_decide (tr_FinalStatus tr = TaskStatusFailed)) (er_TaskReports report).

(** A parallel run follows a schedule of its goroutines.  The group context
    is cancelled at [tc]; the schedule is a run of the code only if that is
    when the goroutines do cancel it. *)
Definition executeParallel (sched : list (nat * Instant)) (tc : option Instant)
    (ctx : Ctx) (job : Job) (occurrence : JobOccurrence) (w : World S M)
  : StepResult (World S M * (ExecutionReport * option GoError)) :=
  let groupCtx := WithCancel ctx tc in
  let init := mkGroup w ((λ t, (t, Ready (executeTask groupCtx job t occurrence))) <$> j_Tasks job)
                (NewExecutionReport (jo_ID occurrence) (jc_FailureStrategy (j_Config job))) None in
  match exec (group_step job) init sched with
  | Disabled => Disabled
  | Panicked m => Panicked m
  | Next s =>
      if forallb is_gone (g_threads s) && bool_decide (g_cancel s = tc) then
        let '(w', ctxErr, _) := perform jitter coin (AskErr ctx) (g_world s) in
        let outcome := match ctxErr with
                       | Some _ => "canceled"
                       | None => if has_failure (g_report s) then "failed" else "completed"
                       end in
        Next (w', (set_GroupOutcome (g_report s) outcome, None))
      else Disabled
  end.

(** *** Occurrences *)
Definition updateOccurrenceStatus (o : JobOccurrence) : Prog S M (Result unit) :=
  updatedAt ← do Now;
  now ← do Now;
  do (OnStore (UpdateJobOccurrence now
    (mkStorageOccurrence (jo_ID o) (jo_JobID o) (jo_JobVersion o) (jo_ScheduledTime o)
       (jo_Status o) (jo_OwningNodeID o) (jo_StartTime o) (jo_EndTime o) BNil
       (jo_IsRecoveryRun o) (jo_CreatedAt o) updatedAt))).

(** Up to the choice of the mode: the start time, the job's context and the
    running occurrence. *)
Definition begin_occurrence (ctx : Ctx) (job : Job) (occurrence : JobOccurrence)
  : Prog S M (Result (Instant * Ctx * JobOccurrence)) :=
  startTime ← do Now;
  t0 ← do Now;
  let jobCtx := WithTimeout ctx t0 (jc_ExecutionTimeout (j_Config job)) in
  let occurrence := set_jo_StartTime (Some startTime) (set_jo_Status JobStatusRunning occurrence) in
  r ← updateOccurrenceStatus occurrence;
  match r with
  | Err e => Ret (Err e)
  | Ok _ =>
      _ ← match j_OnStart job with
          | Some h => do (Hook (OnStartCalled h occurrence)) | None => Ret tt
          end;
      Ret (Ok (startTime, jobCtx, occurrence))
  end.

(** From the end of the tasks. *)
Definition finish_occurrence (job : Job) (occurrence : JobOccurrence) (startTime : Instant)
    (report : ExecutionReport) (err : option GoError) : Prog S M (option ExecutionReport * option GoError) :=
  endTime ← do Now;
  let status := match err with Some _ => JobStatusFailed | None => JobStatusCompleted end in
  let occurrence := set_jo_Status status (set_jo_EndTime (Some endTime) occurrence) in
  _ ← updateOccurrenceStatus occurrence;
  _ ← do (OnMetrics (ObserveJobDuration (j_Name job) (elapsed endTime startTime)));
  _ ← do (OnMetrics (IncJobOccurrences (j_Name job) status));
  _ ← match j_OnComplete job with
      | Some h => do (Hook (OnCompleteCalled h (Some report))) | None => Ret tt
      end;
  Ret (Some report, err).

Definition of_outcome {A} (p : World S M * Outcome A) : StepResult (World S M * A) :=
  match p with (w, Done a) => Next (w, a) | (_, Crash m) => Panicked m end.

Definition ExecuteJobOccurrence (sched : list (nat * Instant)) (tc : option Instant)
    (ctx : Ctx) (job : Job) (occurrence : JobOccurrence) (w : World S M)
  : StepResult (World S M * (option ExecutionReport * option GoError)) :=
  match of_outcome (run jitter coin (begin_occurrence ctx job occurrence) w) with
  | Disabled => Disabled
  | Panicked m => Panicked m
  | Next (w, Err e) => Next (w, (None, Some e))
  | Next (w, Ok (startTime, jobCtx, occurrence)) =>
      let tasks :=
        if bool_decide (jc_TaskExecutionMode (j_Config job) = TaskExecutionModeParallel)
        then executeParallel sched tc jobCtx job occurrence w
        else of_outcome (run jitter coin (executeSequential jobCtx job occurrence) w) in
      match tasks with
      | Disabled => Disabled
      | Panicked m => Panicked m
      | Next (w, (report, err)) =>
          of_outcome (run jitter coin (finish_occurrence job occurrence startTime report err) w)
      end
  end.
End Executor.

(** ** The shape of reports *)
Section Shapes.
Context {S M : Type} `{UuidLib} `{Storage S} `{MetricsCollector M}.
Context (out_of_range : float64 → Z).

Lemma executeAttempt_shape ctx job task run n c :
  leaves (λ r, ar_AttemptNumber r = n ∧
      ar_Status r ∈ [TaskStatusSuccess; TaskStatusFailed; TaskStatusTimeout])
    (executeAttempt (S:=S) (M:=M) ctx job task run n c).
Proof.
  unfold executeAttempt. do 5 (apply leaves_act; intros). apply leaves_act; intros endTime.
  apply (leaves_bind _ (λ sm : TaskStatus * string,
    sm.1 ∈ [TaskStatusSuccess; TaskStatusFailed; TaskStatusTimeout])).
  - case_match; [|set_solver]. apply leaves_act. intros. simpl. case_bool_decide; set_solver.
  - intros [st msg] Hst. do 3 (apply leaves_act; intros). done.
Qed.

(** A report of a task that was given [max] retries. *)
Definition report_shape (task : Task) (max : Z) (r : TaskReport) : Prop :=
  tr_TaskID r = t_ID task ∧ tr_TaskName r = t_Name task ∧
  (1 ≤ length (tr_Attempts r))%nat ∧ Z.of_nat (length (tr_Attempts r)) ≤ max + 1 ∧
  (∀ i a, tr_Attempts r !! i = Some a →
     ar_AttemptNumber a = Z.of_nat i ∧
     (ar_Status a = TaskStatusSuccess → Datatypes.S i = length (tr_Attempts r) ∧ tr_FinalStatus r = TaskStatusSuccess)) ∧
  match last (tr_Attempts r) with
  | Some a =>
      (tr_FinalStatus r = TaskStatusSuccess ∧ ar_Status a = TaskStatusSuccess) ∨
      (tr_FinalStatus r = TaskStatusFailed ∧ Z.of_nat (length (tr_Attempts r)) = max + 1) ∨
      (tr_FinalStatus r = TaskStatusCanceled ∧ Z.of_nat (length (tr_Attempts r)) < max + 1)
  | None => False
  end.

(** The attempts made so far. *)
Definition attempts_so_far (done : list AttemptReport) : Prop :=
  ∀ i a, done !! i = Some a → ar_AttemptNumber a = Z.of_nat i ∧ ar_Status a ≠ TaskStatusSuccess.

Lemma report_shape_intro task max done a st :
  attempts_so_far done → ar_AttemptNumber a = Z.of_nat (length done) →
  Z.of_nat (length done) < max + 1 →
  (ar_Status a = TaskStatusSuccess ∧ st = TaskStatusSuccess) ∨
  (ar_Status a ≠ TaskStatusSuccess ∧ st = TaskStatusFailed ∧ Z.of_nat (length done) = max) ∨
  (ar_Status a ≠ TaskStatusSuccess ∧ st = TaskStatusCanceled ∧ Z.of_nat (length done) < max) →
  report_shape task max (task_report task (done ++ [a]) st).
Proof.
  intros Hd Ha Hmax Hst. unfold report_shape, task_report; simpl.
  rewrite length_app, last_snoc. simpl. split_and!; [done..|lia|lia| |].
  - intros i b. rewrite lookup_app_Some. intros [Hi|[Hi Hb]].
    + destruct (Hd i b Hi) as [? ?]. split; [done|]. by intros.
    + apply list_lookup_singleton_Some in Hb as [Hi0 <-]. split; [rewrite Ha; lia|].
      intros Hs. split; [lia|]. destruct Hst as [[_ ->]|[(? & _)|(? & _)]]; done.
  - destruct Hst as [[? ->]|[(? & -> & ?)|(? & -> & ?)]]; [left; done|right; left; split; [done|lia]|].
    right; right. split; [done|lia].
Qed.

Lemma attempts_so_far_snoc done a :
  attempts_so_far done → ar_AttemptNumber a = Z.of_nat (length done) →
  ar_Status a ≠ TaskStatusSuccess → attempts_so_far (done ++ [a]).
Proof.
  intros Hd Ha Hs i b. rewrite lookup_app_Some. intros [Hi|[Hi Hb]]; [by apply Hd|].
  apply list_lookup_singleton_Some in Hb as [Hi0 <-]. split; [rewrite Ha; lia|done].
Qed.

Lemma executeAttempt_no_panic ctx job task run n c :
  no_panic (executeAttempt (S:=S) (M:=M) ctx job task run n c).
Proof. unfold executeAttempt. no_panic_prog. Qed.
Lemma close_run_no_panic run st n msg : no_panic (close_run (S:=S) (M:=M) run st n msg).
Proof. unfold close_run, store_run. no_panic_prog. Qed.

Lemma attempts_loop_no_panic ctx job task run c p left attempt done lastErr :
  (left = 0%nat → lastErr ≠ None) →
  no_panic (attempts_loop (S:=S) (M:=M) out_of_range ctx job task run c p left attempt done lastErr).
Proof.
  revert attempt done lastErr. induction left as [|left IH]; intros n done lastErr Hz; cbn [attempts_loop].
  - destruct lastErr; [|by destruct Hz]. apply no_panic_bind; [apply close_run_no_panic|done].
  - apply no_panic_bind; [apply executeAttempt_no_panic|]. intros r.
    case_bool_decide; [apply no_panic_bind; [apply close_run_no_panic|done]|].
    destruct (_ <? _); [|by apply IH]. apply no_panic_bind; [apply no_panic_do|].
    intros [|]; [apply no_panic_bind; [apply close_run_no_panic|done]|by apply IH].
Qed.

Lemma attempts_loop_shape ctx job task run c p left done lastErr :
  attempts_so_far done → Z.of_nat (length done) + Z.of_nat left = MaxRetries p + 1 →
  (left = 0%nat → done ≠ []) →
  leaves (report_shape task (MaxRetries p))
    (attempts_loop (S:=S) (M:=M) out_of_range ctx job task run c p left
       (Z.of_nat (length done)) done lastErr).
Proof.
  revert done lastErr. induction left as [|left IH]; intros done lastErr Hd Hn Hz; cbn [attempts_loop].
  - destruct lastErr as [msg|]; [|done]. specialize (Hz eq_refl).
    apply leaves_skip. intros _. simpl.
    destruct (exists_last Hz) as (ds & d & ->). rewrite length_app in Hn. simpl in Hn.
    destruct (Hd (length ds) d) as [Hnum Hst]; [by apply list_lookup_middle|].
    apply report_shape_intro; [|done|lia|right; left; split_and!; [done..|lia]].
    intros i a Hi. apply Hd. by rewrite lookup_app_l by (by eapply lookup_lt_Some).
  - eapply leaves_bind; [apply executeAttempt_shape|]. intros r [Hr _].
    case_bool_decide as Hsucc; [apply leaves_skip; intros _; apply report_shape_intro; auto; lia|].
    assert (Hnext : leaves (report_shape task (MaxRetries p))
      (attempts_loop (S:=S) (M:=M) out_of_range ctx job task run c p left
         (Z.of_nat (length done) + 1) (done ++ [r]) (Some (ar_ErrorMessage r)))).
    { replace (Z.of_nat (length done) + 1) with (Z.of_nat (length (done ++ [r])))
        by (rewrite length_app; simpl; lia).
      apply IH; [by apply attempts_so_far_snoc|rewrite length_app; simpl; lia|by destruct done]. }
    destruct (Z.ltb_spec (Z.of_nat (length done)) (MaxRetries p)) as [Hlt|Hge]; [|done].
    apply leaves_act. intros [|]; [|done]. apply leaves_skip. intros _.
    apply report_shape_intro; [done..|lia|right; right; split_and!; [done..|lia]].
Qed.

(** The retry policy of a task. *)
Definition policy_of (job : Job) (task : Task) : RetryPolicy :=
  default no_retry (tc_RetryPolicy (GetEffectiveConfig job task)).

Lemma executeTask_shape ctx job task occ :
  leaves (report_shape task (MaxRetries (policy_of job task)))
    (executeTask (S:=S) (M:=M) out_of_range ctx job task occ).
Proof.
  unfold executeTask. apply leaves_act; intros t0. apply leaves_act; intros _.
  fold (policy_of job task).
  destruct (Z.lt_ge_cases (MaxRetries (policy_of job task)) 0) as [Hneg|Hpos].
  - by replace (Z.to_nat _) with 0%nat by lia.
  - apply (attempts_loop_shape _ _ _ _ _ _ _ []); [done|simpl; lia|lia].
Qed.
Lemma executeTask_no_panic ctx job task occ :
  0 ≤ MaxRetries (policy_of job task) →
  no_panic (executeTask (S:=S) (M:=M) out_of_range ctx job task occ).
Proof.
  intros Hpos. unfold executeTask. do 2 (apply no_panic_bind; [apply no_panic_do|intros ?]).
  apply attempts_loop_no_panic. fold (policy_of job task). lia.
Qed.
Lemma executeTask_negative ctx job task occ :
  MaxRetries (policy_of job task) < 0 →
  leaves (λ _, False) (executeTask (S:=S) (M:=M) out_of_range ctx job task occ).
Proof.
  intros Hneg. unfold executeTask. apply leaves_act; intros t0. apply leaves_act; intros _.
  fold (policy_of job task). by replace (Z.to_nat _) with 0%nat by lia.
Qed.

Context (jitter : nat → Z) (coin : nat → bool).

(** C15: running a task.  With a non-negative retry limit it always ends with
    a report, without panicking: between one and [MaxRetries + 1] attempts,
    numbered from 0 in order, none after a success; the task succeeded
    exactly when its last attempt did, failed when the attempts are used up,
    and was canceled otherwise.  With a negative limit the process panics. *)
Theorem executeTask_reports ctx job task occ (w : World S M) :
  match run jitter coin (executeTask out_of_range ctx job task occ) w with
  | (_, Done r) => report_shape task (MaxRetries (policy_of job task)) r
  | (_, Crash _) => MaxRetries (policy_of job task) < 0
  end.
Proof.
  destruct (run _ _ _ w) as [w' [r|m]] eqn:E.
  - eapply run_leaves; [|exact E]. apply executeTask_shape.
  - destruct (Z.lt_ge_cases (MaxRetries (policy_of job task)) 0) as [|Hpos]; [done|].
    destruct (run_no_panic jitter coin _ w (executeTask_no_panic ctx job task occ Hpos)) as (w2 & a & E2).
    congruence.
Qed.
End Shapes.

(** ** When attempts are made *)
Section Spans.
Context {S M : Type} `{UuidLib} `{Storage S} `{MetricsCollector M}.
Context (out_of_range : float64 → Z) (jitter : nat → Z) (coin : nat → bool).
Implicit Types (w : World S M).

(** The attempt lies in the time its execution takes. *)
Lemma executeAttempt_times ctx job task run n c w :
  runs jitter coin (executeAttempt (S:=S) (M:=M) ctx job task run n c) w (λ w' r,
    ∃ e, ar_EndTime r = Some e ∧ w_time w ≤ ar_StartTime r ≤ e ∧ e ≤ w_time w').
Proof.
  unfold executeAttempt. apply runs_now; intros w1 T1. apply runs_now; intros w2 T2.
  apply runs_act; intros w3 r3 u3 _ T3. apply runs_now; intros w4 T4. simpl in T4.
  apply runs_act; intros w5 err u5 _ T5. apply runs_now; intros w6 T6. simpl in T6.
  apply runs_bind. eapply runs_impl; [apply runs_later|]. intros w7 [st msg] T7 _.
  apply runs_act; intros w8 r8 u8 _ T8. apply runs_act; intros w9 r9 u9 _ T9. simpl in T9.
  apply runs_act; intros w10 r10 u10 _ T10. simpl in T10. apply runs_ret. simpl.
  exists (w_time w6). split; [done|lia].
Qed.

(** All attempts of a task lie between two instants. *)
Definition made_within (t t' : Instant) (l : list AttemptReport) : Prop :=
  Forall (λ x, t ≤ ar_StartTime x ∧ ∃ e, ar_EndTime x = Some e ∧ e ≤ t') l.

Lemma made_within_weaken t t' u u' l : made_within t t' l → u ≤ t → t' ≤ u' → made_within u u' l.
Proof.
  intros Hl Hu Hu'. eapply Forall_impl; [exact Hl|]. intros x (Hs & e & He & Hle).
  split; [lia|]. exists e. split; [done|lia].
Qed.

Lemma attempts_loop_within ctx job task run c p left n done lastErr t w :
  t ≤ w_time w → made_within t (w_time w) done →
  runs jitter coin
    (attempts_loop (S:=S) (M:=M) out_of_range ctx job task run c p left n done lastErr) w
    (λ w' r, made_within t (w_time w') (tr_Attempts r)).
Proof.
  revert n done lastErr w. induction left as [|left IH]; intros n done lastErr w Ht Hd; cbn [attempts_loop].
  - destruct lastErr; [|done]. apply runs_bind. eapply runs_impl; [apply runs_later|].
    intros w1 u Hle _. by eapply made_within_weaken.
  - apply runs_bind. eapply runs_impl; [apply executeAttempt_times|].
    intros w1 r Hle (e & He & Hse & Hw1).
    assert (Hd' : made_within t (w_time w1) (done ++ [r])).
    { apply Forall_app. split; [by eapply made_within_weaken|]. constructor; [|done].
      split; [lia|]. by exists e. }
    assert (Hend : ∀ w2 st a b, w_time w1 ≤ w_time w2 →
      runs jitter coin (_ ← close_run (S:=S) (M:=M) run st a b; Ret (task_report task (done ++ [r]) st)) w2
        (λ w' r, made_within t (w_time w') (tr_Attempts r))).
    { intros w2 st a b Hw2. apply runs_bind. eapply runs_impl; [apply runs_later|].
      intros w3 u Hw3 _. eapply made_within_weaken; [exact Hd'|lia|lia]. }
    case_bool_decide; [by apply Hend|].
    destruct (_ <? _); [|apply IH; [lia|done]].
    apply runs_act. intros w2 b u Ep Hu. destruct b; [by apply (Hend (set_time u w2))|].
    apply IH; [simpl; lia|]. by eapply made_within_weaken.
Qed.

Lemma executeTask_within ctx job task occ w :
  runs jitter coin (executeTask (S:=S) (M:=M) out_of_range ctx job task occ) w
    (λ w' r, made_within (w_time w) (w_time w') (tr_Attempts r)).
Proof.
  unfold executeTask. apply runs_now; intros w1 T1. apply runs_act; intros w2 r2 u2 _ T2.
  eapply runs_impl; [apply (attempts_loop_within _ _ _ _ _ _ _ _ _ _ (w_time w))|].
  - simpl. lia.
  - constructor.
  - done.
Qed.
End Spans.

(** ** Task groups *)
Section Groups.
Context {S M : Type} `{UuidLib} `{Storage S} `{MetricsCollector M}.
Context (out_of_range : float64 → Z).

Definition failed (r : TaskReport) : Prop := tr_FinalStatus r = TaskStatusFailed.
Definition is_fail_fast (job : Job) : Prop :=
  jc_FailureStrategy (j_Config job) = FailureStrategyFailFast.
Definition reports_on (job : Job) : list Task → list TaskReport → Prop :=
  Forall2 (λ t r, report_shape t (MaxRetries (policy_of job t)) r).

(** How a sequential group may end at [now], given the reports on the tasks
    run. *)
Definition sequential_end (ctx : Ctx) (now : Instant) (job : Job) (tasks : list Task)
    (rs : list TaskReport) (outcome : string) (err : option GoError) : Prop :=
  match err with
  | None =>
      outcome = "completed" ∧ reports_on job tasks rs ∧ (is_fail_fast job → Forall (λ r, ¬ failed r) rs) ∧
      (tasks ≠ [] → ctx_Err ctx now = None)
  | Some e =>
      ∃ t before rest rs' r, tasks = before ++ t :: rest ∧ rs = rs' ++ [r] ∧
        reports_on job (before ++ [t]) rs ∧ (is_fail_fast job → Forall (λ r, ¬ failed r) rs') ∧
        ((outcome = "failed" ∧ is_fail_fast job ∧ failed r ∧
          e = "task " +:+ t_Name t +:+ " failed, aborting due to fail-fast") ∨
         (outcome = "canceled" ∧ (is_fail_fast job → ¬ failed r) ∧
          ∃ ce, ctx_Err ctx now = Some ce ∧ e = CtxErr_msg ce))
  end.

(** Between two tasks the context was seen not to be done: after the last
    attempt of the one, before the first attempt of the other. *)
Definition live_between (ctx : Ctx) (rs : list TaskReport) : Prop :=
  ∀ i r r', rs !! i = Some r → rs !! Datatypes.S i = Some r' →
    ∃ t, ctx_Err ctx t = None ∧
      Forall (λ x, ∃ e, ar_EndTime x = Some e ∧ e ≤ t) (tr_Attempts r) ∧
      Forall (λ x, t ≤ ar_StartTime x) (tr_Attempts r').

Lemma sequential_end_cons ctx now job task tasks r rs outcome err :
  report_shape task (MaxRetries (policy_of job task)) r → (is_fail_fast job → ¬ failed r) →
  (tasks = [] → ctx_Err ctx now = None) →
  sequential_end ctx now job tasks rs outcome err →
  sequential_end ctx now job (task :: tasks) (r :: rs) outcome err.
Proof.
  intros Hr Hf Hn. destruct err as [e|]; simpl.
  - intros (t & before & rest & rs' & r' & -> & -> & Hon & Hff & Hend).
    exists t, (task :: before), rest, (r :: rs'), r'.
    split_and!; [done|done|by constructor|intros ?; constructor; auto|done].
  - intros (-> & Hon & Hff & Hlive). split_and!; [done|by constructor|intros ?; constructor; auto|].
    intros _. destruct tasks; [by apply Hn|by apply Hlive].
Qed.

Context (jitter : nat → Z) (coin : nat → bool).

Definition starts_after (t : Instant) (rs : list TaskReport) : Prop :=
  ∀ r, head rs = Some r → Forall (λ x, t ≤ ar_StartTime x) (tr_Attempts r).
Lemma live_between_cons ctx r rs t :
  ctx_Err ctx t = None → Forall (λ x, ∃ e, ar_EndTime x = Some e ∧ e ≤ t) (tr_Attempts r) →
  starts_after t rs → live_between ctx rs → live_between ctx (r :: rs).
Proof.
  intros Hc Hr Hs Hl [|i] x y Hx Hy; simpl in *; [|by eapply Hl].
  injection Hx as <-. exists t. split_and!; [done|done|]. apply Hs. by destruct rs.
Qed.

Lemma sequential_loop_runs ctx job occ tasks report (w : World S M) :
  runs jitter coin (sequential_loop (S:=S) (M:=M) out_of_range ctx job occ tasks report) w
    (λ w' x, er_OccurrenceID x.1 = er_OccurrenceID report ∧ ∃ rs,
      er_TaskReports x.1 = er_TaskReports report ++ rs ∧
      sequential_end ctx (w_time w') job tasks rs (er_GroupOutcome x.1) x.2 ∧
      live_between ctx rs ∧ starts_after (w_time w) rs ∧ (tasks = [] → w_time w' = w_time w)).
Proof.
  revert report w. induction tasks as [|task tasks IH]; intros report w; cbn [sequential_loop].
  - apply runs_ret. split; [done|]. exists []. rewrite app_nil_r. repeat split; try done; constructor.
  - apply runs_bind. eapply runs_impl; [apply runs_and;
      [eapply runs_leaves, (executeTask_shape out_of_range ctx job task occ)|apply executeTask_within]|].
    intros w1 r H01 [Hr Hin].
    assert (Hst : Forall (λ x, w_time w ≤ ar_StartTime x) (tr_Attempts r))
      by (eapply Forall_impl; [exact Hin|]; by intros x [? _]).
    assert (Hone : live_between ctx [r]) by (by intros [|i] x y Hx Hy).
    destruct (bool_decide (tr_FinalStatus r = TaskStatusFailed) &&
              bool_decide (jc_FailureStrategy (j_Config job) = FailureStrategyFailFast)) eqn:Eff.
    + apply andb_true_iff in Eff as [Hf Hff]. rewrite bool_decide_eq_true in Hf, Hff.
      apply runs_ret. split; [done|]. exists [r]. split_and!; [done| |done|by intros ? [= <-]|done].
      exists task, [], tasks, [], r. split_and!; [done|done|by constructor|constructor|by left].
    + assert (Hnf : is_fail_fast job → ¬ failed r).
      { unfold is_fail_fast, failed. intros Hff Hf. by rewrite !bool_decide_true in Eff. }
      apply runs_act. intros w2 ce u Ep Hu. simpl in Ep. injection Ep as <- <- <-.
      set (w2 := set_time _ _).
      assert (Hle : Forall (λ x, ∃ e, ar_EndTime x = Some e ∧ e ≤ w_time w2) (tr_Attempts r)).
      { eapply Forall_impl; [exact Hin|]. intros x (_ & e & He & ?). exists e. split; [done|]. subst w2. simpl in *. lia. }
      change (w_time w1 + 0 `max` jitter (w_reads w1)) with (w_time w2).
      destruct (ctx_Err ctx (w_time w2)) as [e|] eqn:Ec.
      * apply runs_ret. split; [done|]. exists [r]. split_and!; [done| |done|by intros ? [= <-]|done].
        exists task, [], tasks, [], r.
        split_and!; [done|done|by constructor|constructor|right]. split_and!; [done|done|]. by exists e.
      * eapply runs_impl; [apply IH|]. intros w3 [rep err] H23 (Hid & rs & Hrs & Hend & Hl & Hs & Hz). simpl in *.
        split; [done|]. exists (r :: rs). rewrite Hrs, <- app_assoc.
        split_and!; [done| | |by intros ? [= <-]|done].
        -- apply sequential_end_cons; [done|done| |done]. intros Hnil. by rewrite (Hz Hnil).
        -- by eapply live_between_cons.
Qed.

(** C16: sequential groups.  The tasks run in the order of the list, each
    reported once.  Without an error all of them ran, none failed under
    fail-fast, and the context was not done after the last.  With an error
    the group stopped after some task and no later one was started: under
    fail-fast because that task, and no earlier one, failed; otherwise because
    the context is done when the group returns, and the error is its error.
    A task is followed by another only when the context was not done at an
    instant after all attempts of the one and before those of the other. *)
Theorem executeSequential_reports ctx job occ (w w' : World S M) report err :
  run jitter coin (executeSequential out_of_range ctx job occ) w = (w', Done (report, err)) →
  er_OccurrenceID report = jo_ID occ ∧
  sequential_end ctx (w_time w') job (j_Tasks job) (er_TaskReports report) (er_GroupOutcome report) err ∧
  live_between ctx (er_TaskReports report).
Proof.
  intros E. unfold executeSequential in E.
  pose proof (sequential_loop_runs ctx job occ (j_Tasks job)
    (NewExecutionReport (jo_ID occ) (jc_FailureStrategy (j_Config job))) w) as HR.
  unfold runs in HR. rewrite E in HR. destruct HR as (Hid & rs & Hrs & Hend & Hl & _). simpl in *. by rewrite Hrs.
Qed.

(** ** Parallel groups *)

(** Where the goroutine of a task is: its program still ends in a report on
    that task, or it has added the report. *)
Definition thread_ok (job : Job) (p : Task * goroutine (S:=S) (M:=M)) : Prop :=
  match p.2 with
  | Ready q | Asleep _ q => leaves (report_shape p.1 (MaxRetries (policy_of job p.1))) q
  | Deciding r => report_shape p.1 (MaxRetries (policy_of job p.1)) r
  | Gone => True
  end.
Definition reported (p : Task * goroutine (S:=S) (M:=M)) : bool :=
  match p.2 with Deciding _ | Gone => true | _ => false end.

(** [prs] pairs the reports added so far with their tasks. *)
Definition cancelling (job : Job) (p : Task * TaskReport) : Prop :=
  fails_fast job p.1 = true ∧ failed p.2.

Record group_inv (job : Job) (occID : string) (tasks : list Task)
    (prs : list (Task * TaskReport)) (s : group (S:=S) (M:=M)) : Prop := {
  gi_tasks : (g_threads s).*1 = tasks;
  gi_threads : Forall (thread_ok job) (g_threads s);
  gi_id : er_OccurrenceID (g_report s) = occID;
  gi_reports : er_TaskReports (g_report s) = prs.*2;
  gi_shapes : Forall (λ p, report_shape p.1 (MaxRetries (policy_of job p.1)) p.2) prs;
  gi_perm : prs.*1 ≡ₚ (filter (λ p, reported p = true) (g_threads s)).*1;
  gi_deciding : ∀ i t r, g_threads s !! i = Some (t, Deciding r) → (t, r) ∈ prs;
  gi_why : is_Some (g_cancel s) → ∃ p, p ∈ prs ∧ cancelling job p;
  gi_due : ∀ p, p ∈ prs → cancelling job p →
    is_Some (g_cancel s) ∨ ∃ i, g_threads s !! i = Some (p.1, Deciding p.2);
}.

Lemma filter_insert_same {A} (P : A → Prop) `{∀ x, Decision (P x)} (l : list A) i x y :
  l !! i = Some x → (P x ↔ P y) →
  length (filter P (<[i := y]> l)) = length (filter P l) ∧
  ∀ {B} (f : A → B), f x = f y → f <$> filter P (<[i := y]> l) = f <$> filter P l.
Proof.
  intros (l1 & l2 & -> & Hins & _)%lookup_split HP. rewrite Hins, !filter_app, !filter_cons.
  split; [|intros B f Hf]; repeat case_decide; try tauto;
    rewrite ?length_app, ?fmap_app; simpl; rewrite ?Hf; done.
Qed.
Lemma filter_insert_new {A} (P : A → Prop) `{∀ x, Decision (P x)} (l : list A) i x y :
  l !! i = Some x → ¬ P x → P y → filter P (<[i := y]> l) ≡ₚ filter P l ++ [y].
Proof.
  intros (l1 & l2 & -> & Hins & _)%lookup_split Hx Hy. rewrite Hins, !filter_app, !filter_cons.
  destruct (decide (P x)), (decide (P y)); try done.
  rewrite <- app_assoc. apply Permutation_app_head. apply Permutation_cons_append.
Qed.
Lemma fst_insert {A B} (l : list (A * B)) i a b b' :
  l !! i = Some (a, b) → (<[i := (a, b')]> l).*1 = l.*1.
Proof.
  intros Hi. rewrite list_fmap_insert. apply list_insert_id. by rewrite list_lookup_fmap, Hi.
Qed.

(** A goroutine moves without reporting or deciding. *)
Lemma group_inv_move job occID tasks prs s i t g g' w :
  group_inv job occID tasks prs s → g_threads s !! i = Some (t, g) →
  reported (t, g) = false → reported (t, g') = false → thread_ok job (t, g') →
  group_inv job occID tasks prs (set_thread i t g' s w).
Proof.
  intros Hi Hl Hg Hg' Hok. destruct Hi. split; simpl; try done.
  - by erewrite fst_insert.
  - by apply Forall_insert.
  - rewrite (proj2 (filter_insert_same (λ p, reported p = true) _ _ _ (t, g') Hl ltac:(cbv beta; by rewrite Hg, Hg')) _ fst eq_refl).
    done.
  - intros k t' r [(_ & [= <- ->] & _)|[_ Hk]]%list_lookup_insert_Some; [done|by eapply gi_deciding0].
  - intros p Hp Hc. destruct (gi_due0 p Hp Hc) as [|[k Hk]]; [by left|right].
    exists k. rewrite list_lookup_insert_ne; [done|]. intros ->. rewrite Hl in Hk. by simplify_eq/=.
Qed.

Lemma group_inv_report job occID tasks prs s i t r w :
  group_inv job occID tasks prs s → g_threads s !! i = Some (t, Ready (Ret r)) →
  group_inv job occID tasks (prs ++ [(t, r)])
    (mkGroup w (<[i := (t, Deciding r)]> (g_threads s)) (AddTaskReport (g_report s) r) (g_cancel s)).
Proof.
  intros Hi Hl. destruct Hi. assert (Hlen := lookup_lt_Some _ _ _ Hl).
  pose proof (Forall_lookup_1 _ _ _ _ gi_threads0 Hl) as Hshape. simpl in Hshape.
  split; simpl; try done.
  - by erewrite fst_insert.
  - by apply Forall_insert.
  - rewrite fmap_app. by f_equal.
  - apply Forall_app. split; [done|]. by constructor.
  - rewrite fmap_app, gi_perm0. simpl.
    rewrite (filter_insert_new (λ p, reported p = true) _ _ _ (t, Deciding r) Hl) by done.
    by rewrite fmap_app.
  - intros k t' r' [(_ & [= <- <-] & _)|[_ Hk]]%list_lookup_insert_Some; apply elem_of_app;
      [right; by apply list_elem_of_singleton|left; by eapply gi_deciding0].
  - intros Hc. destruct (gi_why0 Hc) as (p & Hp & ?). exists p. split; [apply elem_of_app; by left|done].
  - intros p [Hp|Hp%list_elem_of_singleton]%elem_of_app Hc.
    + destruct (gi_due0 p Hp Hc) as [|[k Hk]]; [by left|right]. exists k.
      rewrite list_lookup_insert_ne; [done|]. intros ->. rewrite Hl in Hk. by simplify_eq/=.
    + subst p. right. exists i. by rewrite list_lookup_insert_eq.
Qed.

Lemma group_inv_decide job occID tasks prs s i t r w now :
  group_inv job occID tasks prs s → g_threads s !! i = Some (t, Deciding r) →
  group_inv job occID tasks prs
    (mkGroup w (<[i := (t, Gone)]> (g_threads s)) (g_report s)
       (if bool_decide (tr_FinalStatus r = TaskStatusFailed) && fails_fast job t
        then earlier (g_cancel s) (Some now) else g_cancel s)).
Proof.
  intros Hi Hl. destruct Hi. pose proof (gi_deciding0 i t r Hl) as Hin.
  split; simpl; try done.
  - by erewrite fst_insert.
  - by apply Forall_insert.
  - by rewrite (proj2 (filter_insert_same (λ p, reported p = true) _ _ _ (t, Gone) Hl ltac:(done)) _ fst eq_refl).
  - intros k t' r' [(_ & [= _ ?] & _)|[_ Hk]]%list_lookup_insert_Some; by eapply gi_deciding0.
  - case_match eqn:Ec; [|done]. intros _. apply andb_true_iff in Ec as [Hf Hff].
    exists (t, r). split; [done|]. split; [done|]. by apply bool_decide_eq_true in Hf.
  - intros p Hp Hc. destruct (gi_due0 p Hp Hc) as [[x Hx]|[k Hk]].
    + left. rewrite Hx. case_match; simpl; by eexists.
    + destruct (decide (k = i)) as [->|Hne].
      * left. rewrite Hl in Hk. injection Hk as -> ->. destruct Hc as [Hff Hf].
        rewrite bool_decide_true, Hff by done. simpl. destruct (g_cancel s); by eexists.
      * right. exists k. by rewrite list_lookup_insert_ne.
Qed.

Lemma group_inv_step job occID tasks prs s a s' :
  group_inv job occID tasks prs s → group_step jitter coin job s a = Next s' →
  ∃ prs', group_inv job occID tasks prs' s'.
Proof.
  intros Hi E. destruct a as [i now]. unfold group_step in E.
  destruct (now <? w_time (g_world s)); [done|].
  destruct (g_threads s !! i) as [[t [[r|m|R e k]|u p|r|]]|] eqn:Hl; try done.
  - injection E as <-. eexists. by apply group_inv_report.
  - destruct (perform jitter coin e _) as [[w' x] u] eqn:Ep. injection E as <-. exists prs.
    eapply group_inv_move; [done|done|done|done|].
    pose proof (Forall_lookup_1 _ _ _ _ (gi_threads _ _ _ _ _ Hi) Hl) as Hok. apply Hok.
  - destruct (u <=? now); [|done]. injection E as <-. exists prs.
    eapply group_inv_move; [done|done|done|done|].
    apply (Forall_lookup_1 _ _ _ _ (gi_threads _ _ _ _ _ Hi) Hl).
  - injection E as <-. exists prs. by apply group_inv_decide.
Qed.

Lemma group_inv_exec job occID tasks prs s sched s' :
  group_inv job occID tasks prs s → exec (group_step jitter coin job) s sched = Next s' →
  ∃ prs', group_inv job occID tasks prs' s'.
Proof.
  revert s prs. induction sched as [|a sched IH]; intros s prs Hi E; simpl in E; [simplify_eq; by exists prs|].
  destruct (group_step jitter coin job s a) as [|s1|] eqn:E1; [done| |done].
  destruct (group_inv_step _ _ _ _ _ _ _ Hi E1) as [prs1 Hi1]. by eapply IH.
Qed.

Lemma has_failure_spec report :
  has_failure report = true ↔ Exists failed (er_TaskReports report).
Proof.
  unfold has_failure. rewrite existsb_exists, Exists_exists. split; intros (r & Hr & Hf); exists r;
    rewrite list_elem_of_In in *; rewrite bool_decide_eq_true in *; done.
Qed.

Lemma group_inv_init job occ ctx (w : World S M) report :
  group_inv job (er_OccurrenceID report) (j_Tasks job) []
    (mkGroup w ((λ t, (t, Ready (executeTask out_of_range ctx job t occ))) <$> j_Tasks job)
       (mkExecutionReport (er_OccurrenceID report) (er_FailureStrategy report) [] (er_GroupOutcome report)) None).
Proof.
  split; simpl; try done.
  - rewrite <- list_fmap_compose. apply list_fmap_id.
  - apply Forall_fmap, Forall_forall. intros t _. apply executeTask_shape.
  - induction (j_Tasks job) as [|t ts IH]; [done|]. simpl. rewrite filter_cons.
    by destruct (decide _).
  - intros i t r Hi. rewrite list_lookup_fmap in Hi.
    by destruct (j_Tasks job !! i); simplify_eq/=.
  - intros p Hp. by apply elem_of_nil in Hp.
Qed.

Lemma parallel_basics sched tc ctx job occ (w w' : World S M) report err :
  executeParallel out_of_range jitter coin sched tc ctx job occ w = Next (w', (report, err)) →
  err = None ∧ er_OccurrenceID report = jo_ID occ.
Proof.
  unfold executeParallel. intros E.
  destruct (exec _ _ sched) as [|s|] eqn:Ex; [done| |done].
  destruct (group_inv_exec job (jo_ID occ) (j_Tasks job) [] _ _ _
    (group_inv_init job occ _ w (NewExecutionReport (jo_ID occ) (jc_FailureStrategy (j_Config job)))) Ex)
    as [prs []]. cases_in E; done.
Qed.

(** C17: parallel groups.  Whatever the interleaving of the goroutines, the
    group ends with exactly one report per task and no error at all; its
    outcome says whether the context was done, else whether some task
    failed; the group context was cancelled exactly when a task whose
    effective strategy is fail-fast failed. *)
Theorem executeParallel_reports sched tc ctx job occ (w w' : World S M) report err :
  executeParallel out_of_range jitter coin sched tc ctx job occ w = Next (w', (report, err)) →
  err = None ∧ er_OccurrenceID report = jo_ID occ ∧
  ∃ prs, prs.*1 ≡ₚ j_Tasks job ∧ er_TaskReports report = prs.*2 ∧
    Forall (λ p, report_shape p.1 (MaxRetries (policy_of job p.1)) p.2) prs ∧
    (is_Some tc ↔ ∃ p, p ∈ prs ∧ cancelling job p) ∧
    match ctx_Err ctx (w_time w') with
    | Some _ => er_GroupOutcome report = "canceled"
    | None => er_GroupOutcome report = "failed" ∧ Exists failed prs.*2 ∨
              er_GroupOutcome report = "completed" ∧ ¬ Exists failed prs.*2
    end.
Proof.
  unfold executeParallel. intros E.
  destruct (exec _ _ sched) as [|s|] eqn:Ex; [done| |done].
  destruct (group_inv_exec job (jo_ID occ) (j_Tasks job) [] _ _ _
    (group_inv_init job occ _ w (NewExecutionReport (jo_ID occ) (jc_FailureStrategy (j_Config job)))) Ex)
    as [prs []].
  destruct (forallb is_gone (g_threads s)) eqn:Hgone; [|done].
  case_bool_decide as Htc; [|done]. simpl in E. injection E as <- <- <-. simpl.
  assert (Hall : Forall (λ p, p.2 = Gone) (g_threads s)).
  { apply Forall_forall. intros p Hp. apply list_elem_of_In in Hp.
    rewrite forallb_forall in Hgone. specialize (Hgone p Hp). unfold is_gone in Hgone.
    by destruct (p.2). }
  split_and!; [done..|]. exists prs. split_and!; [|done|done| |].
  - rewrite gi_perm0, <- gi_tasks0. f_equiv. clear -Hall.
    induction Hall as [|[t g] l Hg _ IH]; [done|]. simpl in Hg. subst g.
    rewrite filter_cons_True by done. by constructor.
  - subst tc. split; [done|]. intros (p & Hp & Hc). destruct (gi_due0 p Hp Hc) as [|[k Hk]]; [done|].
    by apply (Forall_lookup_1 _ _ _ _ Hall) in Hk.
  - destruct (ctx_Err ctx _); [done|]. destruct (has_failure (g_report s)) eqn:Hf;
      [apply has_failure_spec in Hf|apply not_true_iff_false in Hf; rewrite has_failure_spec in Hf];
      rewrite gi_reports0 in Hf; [by left|by right].
Qed.
End Groups.

(** ** Occurrences *)
Section Occurrences.
Context {S M : Type} `{UuidLib} `{Storage S} `{MetricsCollector M}.
Context (out_of_range : float64 → Z) (jitter : nat → Z) (coin : nat → bool).
Implicit Types (w : World S M).

(** Tasks, alone or in a group, call no hook of the job. *)
Lemma close_run_no_hook run st n msg : only not_hook (close_run (S:=S) (M:=M) run st n msg).
Proof. unfold close_run, store_run. only_prog. Qed.
Lemma executeAttempt_no_hook ctx job task run n c :
  only not_hook (executeAttempt (S:=S) (M:=M) ctx job task run n c).
Proof. unfold executeAttempt. only_prog. Qed.
Lemma attempts_loop_no_hook ctx job task run c p left n done lastErr :
  only not_hook (attempts_loop (S:=S) (M:=M) out_of_range ctx job task run c p left n done lastErr).
Proof.
  revert n done lastErr. induction left as [|left IH]; intros n done lastErr; cbn [attempts_loop].
  - destruct lastErr; [|done]. apply only_bind; [apply close_run_no_hook|done].
  - apply only_bind; [apply executeAttempt_no_hook|]. intros r.
    case_bool_decide; [apply only_bind; [apply close_run_no_hook|done]|].
    destruct (_ <? _); [|apply IH]. apply only_bind; [by apply only_do|].
    intros [|]; [apply only_bind; [apply close_run_no_hook|done]|apply IH].
Qed.
Lemma executeTask_no_hook ctx job task occ :
  only not_hook (executeTask (S:=S) (M:=M) out_of_range ctx job task occ).
Proof.
  unfold executeTask. do 2 (apply only_bind; [by apply only_do|intros ?]). apply attempts_loop_no_hook.
Qed.
Lemma sequential_loop_no_hook ctx job occ tasks report :
  only not_hook (sequential_loop (S:=S) (M:=M) out_of_range ctx job occ tasks report).
Proof.
  revert report. induction tasks as [|t ts IH]; intros report; cbn [sequential_loop]; [done|].
  apply only_bind; [apply executeTask_no_hook|]. intros r. case_match; [done|].
  apply only_bind; [by apply only_do|]. intros [e|]; [done|apply IH].
Qed.

Definition thread_no_hook (p : Task * goroutine (S:=S) (M:=M)) : Prop :=
  match p.2 with Ready q | Asleep _ q => only not_hook q | _ => True end.

Lemma perform_keeps_hooks {R} (e : Eff S M R) w w' r u :
  not_hook R e → perform jitter coin e w = (w', r, u) → w_hooks w' = w_hooks w.
Proof.
  intros He E. pose proof (run_keeps_hooks jitter coin (do e) w ltac:(by apply only_do)) as Hr.
  rewrite run_do, E in Hr. exact Hr.
Qed.

Lemma group_step_no_hook job s a s' :
  Forall thread_no_hook (g_threads s) → group_step jitter coin job s a = Next s' →
  Forall thread_no_hook (g_threads s') ∧ w_hooks (g_world s') = w_hooks (g_world s).
Proof.
  intros Hall E. destruct a as [i now]. unfold group_step in E.
  destruct (now <? w_time (g_world s)); [done|].
  destruct (g_threads s !! i) as [[t g]|] eqn:Hl; [|done].
  pose proof (Forall_lookup_1 _ _ _ _ Hall Hl) as Hg.
  destruct g as [[r|m|R e k]|u p|r|]; try done.
  - injection E as <-. simpl. split; [by apply Forall_insert|done].
  - destruct (perform jitter coin e _) as [[w' x] u] eqn:Ep. injection E as <-. simpl.
    destruct Hg as [He Hk]. split; [apply Forall_insert; [done|apply Hk]|].
    by apply perform_keeps_hooks in Ep.
  - destruct (u <=? now); [|done]. injection E as <-. simpl. split; [by apply Forall_insert|done].
  - injection E as <-. simpl. split; [by apply Forall_insert|done].
Qed.

Lemma executeParallel_keeps_hooks sched tc ctx job occ w w' x :
  executeParallel out_of_range jitter coin sched tc ctx job occ w = Next (w', x) →
  w_hooks w' = w_hooks w.
Proof.
  unfold executeParallel. intros E. destruct (exec _ _ sched) as [|s|] eqn:Ex; [done| |done].
  cases_in E. simpl.
  match type of Ex with exec _ ?s0 _ = _ => transitivity (w_hooks (g_world s0)); [|done] end.
  match type of Ex with exec _ ?s0 _ = _ => assert (Hall : Forall thread_no_hook (g_threads s0)) end.
  { simpl. apply Forall_fmap, Forall_forall. intros t _. apply executeTask_no_hook. }
  revert Ex Hall. generalize (mkGroup w) as mk0. intros mk0.
  match goal with |- exec _ ?s0 _ = _ → _ => generalize s0 end. clear mk0.
  induction sched as [|a sched IH]; intros s0 Ex Hall; simpl in Ex; [by simplify_eq|].
  destruct (group_step jitter coin job s0 a) as [|s1|] eqn:E1; [done| |done].
  destruct (group_step_no_hook _ _ _ _ Hall E1) as [Hall1 <-]. by apply IH.
Qed.

Definition started (job : Job) (o : JobOccurrence) : list hook_call :=
  match j_OnStart job with Some h => [OnStartCalled h o] | None => [] end.
Definition completed (job : Job) (r : ExecutionReport) : list hook_call :=
  match j_OnComplete job with Some h => [OnCompleteCalled h (Some r)] | None => [] end.

(** The record an occurrence is written as. *)
Definition occurrence_of (o : JobOccurrence) (updated : Instant) : StorageOccurrence :=
  mkStorageOccurrence (jo_ID o) (jo_JobID o) (jo_JobVersion o) (jo_ScheduledTime o) (jo_Status o)
    (jo_OwningNodeID o) (jo_StartTime o) (jo_EndTime o) BNil (jo_IsRecoveryRun o)
    (jo_CreatedAt o) updated.

(** One update of the occurrence's record, with its answer, took the store of
    [w] to that of [w']. *)
Definition wrote (o : JobOccurrence) w w' (r : Result unit) : Prop :=
  ∃ u v, w_time w ≤ u ≤ v ∧ v ≤ w_time w' ∧
    UpdateJobOccurrence v (occurrence_of o u) (w_store w) = (w_store w', r).

Definition running_since (t : Instant) (occ : JobOccurrence) : JobOccurrence :=
  set_jo_StartTime (Some t) (set_jo_Status JobStatusRunning occ).
Definition final_status (err : option GoError) : JobStatus :=
  match err with Some _ => JobStatusFailed | None => JobStatusCompleted end.
Definition ended_at (e : Instant) (err : option GoError) (o : JobOccurrence) : JobOccurrence :=
  set_jo_Status (final_status err) (set_jo_EndTime (Some e) o).

Lemma run_updateOccurrenceStatus o w :
  ∃ w1 r, run jitter coin (updateOccurrenceStatus o) w = (w1, Done r) ∧ wrote o w w1 r ∧
    w_time w ≤ w_time w1 ∧ w_metrics w1 = w_metrics w ∧ w_hooks w1 = w_hooks w.
Proof.
  unfold updateOccurrenceStatus. rewrite !run_now, run_do. cbn [perform].
  fold (occurrence_of o (next_reading jitter w)).
  destruct (UpdateJobOccurrence _ _ _) as [st r] eqn:E. eexists _, r. split; [reflexivity|].
  split; [|split_and!; [simpl; lia|done..]].
  eexists _, _. split; [|split; [|exact E]]; unfold next_reading; simpl; lia.
Qed.

Lemma run_begin ctx job occ w :
  ∃ w1 t r, run jitter coin (begin_occurrence ctx job occ) w = (w1, Done r) ∧
    w_metrics w1 = w_metrics w ∧ w_time w ≤ t ≤ w_time w1 ∧
    match r with
    | Err e => w_hooks w1 = w_hooks w ∧ wrote (running_since t occ) w w1 (Err e)
    | Ok (t', jobCtx, o) =>
        t' = t ∧ o = running_since t occ ∧
        (∃ t0, t ≤ t0 ∧ jobCtx = WithTimeout ctx t0 (jc_ExecutionTimeout (j_Config job))) ∧
        w_hooks w1 = w_hooks w ++ started job o ∧ wrote o w w1 (Ok tt)
    end.
Proof.
  unfold begin_occurrence. rewrite !run_now, run_bind.
  set (t := next_reading jitter w). set (v := read_clock jitter (read_clock jitter w)).
  fold (running_since t occ).
  destruct (run_updateOccurrenceStatus (running_since t occ) v) as (w1 & r & E & (u & u' & Hu & Hu' & Hwr) & Hle & Hm & Hh).
  rewrite E. assert (Ht : w_time w ≤ t ∧ t ≤ w_time v) by (subst t v; unfold next_reading; simpl; lia).
  assert (Hw : wrote (running_since t occ) w w1 r) by (exists u, u'; split_and!; [lia..|exact Hwr]).
  destruct r as [[]|e];
    [|by exists w1, t, (Err e); split; [|split; [|split; [split; lia|]]]].
  assert (Hend : ∀ c : Ctx, ∃ w2, run jitter coin
      (_ ← match j_OnStart job with Some h => do (Hook (OnStartCalled h (running_since t occ))) | None => Ret tt end;
       Ret (Ok (t, c, running_since t occ) : Result (Instant * Ctx * JobOccurrence))) w1 =
        (w2, Done (Ok (t, c, running_since t occ))) ∧
    w_store w2 = w_store w1 ∧ w_time w2 = w_time w1 ∧ w_metrics w2 = w_metrics w1 ∧
    w_hooks w2 = w_hooks w1 ++ started job (running_since t occ)).
  { intros c. unfold started. destruct (j_OnStart job); simpl; eexists; rewrite ?app_nil_r; by split. }
  destruct (Hend (WithTimeout ctx (next_reading jitter (read_clock jitter w)) (jc_ExecutionTimeout (j_Config job))))
    as (w2 & E2 & Hs2 & Ht2 & Hm2 & Hh2).
  exists w2, t. eexists. split; [exact E2|]. split; [by rewrite Hm2, Hm|]. split; [lia|].
  split; [done|]. split; [done|]. split; [|split; [by rewrite Hh2, Hh|]].
  - eexists. split; [|reflexivity]. subst t. unfold next_reading. simpl. lia.
  - destruct Hw as (x & y & Hx & Hy & Hu3). exists x, y. rewrite Hs2, Ht2. done.
Qed.

Lemma run_finish job occ t report err w :
  ∃ w1 e r, run jitter coin (finish_occurrence job occ t report err) w = (w1, Done (Some report, err)) ∧
    w_time w ≤ e ≤ w_time w1 ∧ wrote (ended_at e err occ) w w1 r ∧
    w_hooks w1 = w_hooks w ++ completed job report ∧
    w_metrics w1 = IncJobOccurrences (j_Name job) (final_status err)
      (ObserveJobDuration (j_Name job) (elapsed e t) (w_metrics w)).
Proof.
  unfold finish_occurrence. rewrite run_now. set (e := next_reading jitter w). set (v := read_clock jitter w).
  fold (final_status err) (ended_at e err occ). rewrite run_bind.
  destruct (run_updateOccurrenceStatus (ended_at e err occ) v) as (w1 & r & E & (u & u' & Hu & Hu' & Hwr) & Hle & Hm & Hh).
  rewrite E. assert (Ht : w_time w ≤ e ∧ e = w_time v) by (subst e v; unfold next_reading; simpl; lia).
  assert (Hw : wrote (ended_at e err occ) w w1 r) by (exists u, u'; split_and!; [lia..|exact Hwr]).
  unfold completed. destruct (j_OnComplete job) as [h|]; simpl;
    eexists _, e, r; (split; [reflexivity|]); simpl; rewrite ?Hh, ?Hm, ?app_nil_r;
    (split; [lia|split; [exact Hw|by split]]).
Qed.

(** The tasks of an occurrence, whichever the mode. *)
Definition run_tasks sched tc ctx (job : Job) (o : JobOccurrence) w
  : StepResult (World S M * (ExecutionReport * option GoError)) :=
  if bool_decide (jc_TaskExecutionMode (j_Config job) = TaskExecutionModeParallel)
  then executeParallel out_of_range jitter coin sched tc ctx job o w
  else of_outcome (run jitter coin (executeSequential out_of_range ctx job o) w).

(** No hook, a report of this occurrence, and no error of a parallel group. *)
Lemma tasks_basics sched tc ctx job o w w' report err :
  run_tasks sched tc ctx job o w = Next (w', (report, err)) →
  w_hooks w' = w_hooks w ∧ er_OccurrenceID report = jo_ID o ∧
  (jc_TaskExecutionMode (j_Config job) = TaskExecutionModeParallel → err = None).
Proof.
  unfold run_tasks. case_bool_decide as Hmode; intros E.
  - pose proof (executeParallel_keeps_hooks _ _ _ _ _ _ _ _ E).
    destruct (parallel_basics _ _ _ _ _ _ _ _ _ _ _ _ E) as [He Hid]. done.
  - destruct (run _ _ _ w) as [w2 [[report2 err2]|]] eqn:Es; [|done]. injection E as -> -> ->.
    split_and!; [| |done].
    + pose proof (run_keeps_hooks jitter coin _ w (sequential_loop_no_hook ctx job o (j_Tasks job)
        (NewExecutionReport (jo_ID o) (jc_FailureStrategy (j_Config job))))) as Hk.
      unfold executeSequential in Es. by rewrite Es in Hk.
    + unfold executeSequential in Es.
      pose proof (sequential_loop_runs out_of_range jitter coin ctx job o (j_Tasks job)
        (NewExecutionReport (jo_ID o) (jc_FailureStrategy (j_Config job))) w) as HR.
      unfold runs in HR. rewrite Es in HR. by destruct HR.
Qed.

End Occurrences.

(** ** Retries in time *)
Section Timing.
Context {S M : Type} `{UuidLib} `{Storage S} `{MetricsCollector M}.
Context (out_of_range : float64 → Z) (jitter : nat → Z) (coin : nat → bool).
Implicit Types (w : World S M).

(** Between consecutive attempts at least the backoff goes by. *)
Definition gaps_ok (p : RetryPolicy) (l : list AttemptReport) : Prop :=
  ∀ i a b, l !! i = Some a → l !! Datatypes.S i = Some b →
    ∃ e, ar_EndTime a = Some e ∧
      e + Z.max 0 (backoff out_of_range p (Z.of_nat i)) ≤ ar_StartTime b.

(** The last attempt ended early enough for the next to start at [t]. *)
Definition ready_at (p : RetryPolicy) (l : list AttemptReport) (t : Instant) : Prop :=
  match last l with
  | None => True
  | Some a => ∃ e, ar_EndTime a = Some e ∧
      e + Z.max 0 (backoff out_of_range p (Z.of_nat (length l) - 1)) ≤ t
  end.

Lemma gaps_ok_snoc p l a :
  gaps_ok p l → ready_at p l (ar_StartTime a) → gaps_ok p (l ++ [a]).
Proof.
  intros Hl Hr i x y Hx Hy. apply lookup_app_Some in Hy as [Hy|[Hi Hy]].
  - rewrite lookup_app_l in Hx by (apply lookup_lt_Some in Hy; lia). by eapply Hl.
  - apply list_lookup_singleton_Some in Hy as [Hi0 <-].
    rewrite lookup_app_l in Hx by lia. unfold ready_at in Hr.
    rewrite last_lookup in Hr. replace (pred (length l)) with i in Hr by lia. rewrite Hx in Hr.
    destruct Hr as (e & He & Hle). exists e. split; [done|].
    by replace (Z.of_nat i) with (Z.of_nat (length l) - 1) by lia.
Qed.

Lemma attempts_loop_times ctx job task run c p left n done lastErr w :
  n = Z.of_nat (length done) → n + Z.of_nat left = MaxRetries p + 1 →
  gaps_ok p done → (left ≠ 0%nat → ready_at p done (w_time w)) →
  runs jitter coin
    (attempts_loop (S:=S) (M:=M) out_of_range ctx job task run c p left n done lastErr) w
    (λ _ r, gaps_ok p (tr_Attempts r)).
Proof.
  revert n done lastErr w. induction left as [|left IH]; intros n done lastErr w Hn Hm Hg Hr;
    cbn [attempts_loop].
  - destruct lastErr; [|done]. apply runs_bind. eapply runs_impl; [apply runs_later|]. done.
  - apply runs_bind. eapply runs_impl; [apply executeAttempt_times|].
    intros w1 r _ (e & He & Hse & Hw1). specialize (Hr ltac:(done)).
    assert (Hg' : gaps_ok p (done ++ [r])).
    { apply gaps_ok_snoc; [done|]. unfold ready_at in *. destruct (last done); [|done].
      destruct Hr as (e0 & ? & ?). exists e0. split; [done|lia]. }
    case_bool_decide.
    { apply runs_bind. eapply runs_impl; [apply runs_later|]. done. }
    assert (Hlen : Z.of_nat (length (done ++ [r])) = n + 1) by (rewrite length_app; simpl; lia).
    destruct (Z.ltb_spec n (MaxRetries p)).
    + apply runs_wait. intros w2 [|] Hw2.
      * apply runs_bind. eapply runs_impl; [apply runs_later|]. done.
      * apply IH; [lia|lia|done|]. intros _. unfold ready_at. rewrite last_snoc. exists e.
        split; [done|]. rewrite Hlen. replace (n + 1 - 1) with n by lia.
        specialize (Hw2 eq_refl). lia.
    + apply IH; [lia|lia|done|lia].
Qed.

(** C30: retries back off.  In the report of a task, every attempt ends after
    it starts, and the next one starts no earlier than the policy's backoff
    for that attempt after it ended. *)
Theorem executeTask_backs_off ctx job task occ w :
  let p := policy_of job task in
  match run jitter coin (executeTask (S:=S) (M:=M) out_of_range ctx job task occ) w with
  | (_, Done r) =>
      ∀ i a b, tr_Attempts r !! i = Some a → tr_Attempts r !! Datatypes.S i = Some b →
        ∃ e, ar_EndTime a = Some e ∧
          e + Z.max 0 (backoff out_of_range p (Z.of_nat i)) ≤ ar_StartTime b
  | (_, Crash _) => True
  end.
Proof.
  change (runs jitter coin (executeTask (S:=S) (M:=M) out_of_range ctx job task occ) w
    (λ _ r, gaps_ok (policy_of job task) (tr_Attempts r))).
  unfold executeTask. apply runs_now; intros w1 T1. apply runs_act; intros w2 r2 u2 _ T2.
  fold (policy_of job task).
  destruct (Z.lt_ge_cases (MaxRetries (policy_of job task)) 0) as [Hneg|Hpos].
  - by replace (Z.to_nat _) with 0%nat by lia.
  - apply attempts_loop_times; [done|lia|by intros [|]|done].
Qed.
End Timing.

(** The product of the backoff leaves [int64] after a few retries; what the
    conversion then gives is up to the machine: with the smallest [int64], as
    on amd64, the wait is over at once. *)
Lemma backoff_overflow :
  let p := mkRetryPolicy 20 Second (f_of_Z 10) in
  let amd64 (_ : float64) := - 2 ^ 63 in
  backoff amd64 p 9 = 1000000000 * Second ∧ backoff amd64 p 10 < 0.
Proof. vm_compute. done. Qed.
