(* ===== verification/ExecutorTotal.v ===== *)
(** * Executions end

    No execution of a job whose retry limits are not negative panics, whatever
    the mode and the schedule; in sequence it always ends; and when no task
    fails fast a parallel group has a schedule that ends it.  (A schedule
    says beforehand when the group's context is cancelled, and the tasks'
    functions are any functions of that context: for a fail-fast group with a
    function that looks ahead there may be no schedule at all.) *)
From S2P Require Import Prelude GoTime GoContext Types Ids Job Metrics Storage GoFloat Effects Executor.
Local Open Scope Z_scope.

Definition retries_ok (job : Job) : Prop := Forall (λ t, 0 ≤ MaxRetries (policy_of job t)) (j_Tasks job).
Definition parallel (job : Job) : Prop := jc_TaskExecutionMode (j_Config job) = TaskExecutionModeParallel.
Definition never_fails_fast (job : Job) : Prop := Forall (λ t, fails_fast job t = false) (j_Tasks job).

Section Total.
Context {S M : Type} `{UuidLib} `{Storage S} `{MetricsCollector M}.
Context (out_of_range : float64 → Z) (jitter : nat → Z) (coin : nat → bool).
Implicit Types (w : World S M).

(** *** Sequential groups *)
Lemma sequential_no_panic ctx job occ tasks report :
  Forall (λ t, 0 ≤ MaxRetries (policy_of job t)) tasks →
  no_panic (sequential_loop (S:=S) (M:=M) out_of_range ctx job occ tasks report).
Proof.
  intros Ht. revert report. induction Ht as [|t ts Ht _ IH]; intros report; cbn [sequential_loop]; [done|].
  apply no_panic_bind; [by apply executeTask_no_panic|]. intros r. case_match; [done|].
  apply no_panic_bind; [apply no_panic_do|]. intros [e|]; [done|apply IH].
Qed.

(** *** Parallel groups *)
Definition thread_no_panic (p : Task * goroutine (S:=S) (M:=M)) : Prop :=
  match p.2 with Ready q | Asleep _ q => no_panic q | _ => True end.

Lemma group_step_no_panic job s a :
  Forall thread_no_panic (g_threads s) →
  match group_step jitter coin job s a with
  | Next s' => Forall thread_no_panic (g_threads s') | Disabled => True | Panicked _ => False
  end.
Proof.
  intros Hall. destruct a as [i now]. unfold group_step. destruct (now <? _); [done|].
  destruct (g_threads s !! i) as [[t g]|] eqn:Hl; [|done].
  pose proof (Forall_lookup_1 _ _ _ _ Hall Hl) as Hg.
  destruct g as [[r|m|R e k]|u p|r|]; try done.
  - by apply Forall_insert.
  - destruct (perform jitter coin e _) as [[w' x] u]. apply Forall_insert; [done|apply Hg].
  - destruct (u <=? now); [|done]. by apply Forall_insert.
  - by apply Forall_insert.
Qed.
Lemma group_exec_no_panic job s sched m :
  Forall thread_no_panic (g_threads s) → exec (group_step jitter coin job) s sched ≠ Panicked m.
Proof.
  revert s. induction sched as [|a sched IH]; intros s Hall; [done|]. simpl.
  pose proof (group_step_no_panic job s a Hall) as Hs.
  destruct (group_step jitter coin job s a) as [|s1|]; [done|by apply IH|done].
Qed.

Lemma thread_finishes job s i t q :
  g_threads s !! i = Some (t, Ready q) → no_panic q → fails_fast job t = false →
  ∃ sched s', exec (group_step jitter coin job) s sched = Next s' ∧
    g_threads s' = <[i := (t, Gone (S:=S) (M:=M))]> (g_threads s) ∧ g_cancel s' = g_cancel s.
Proof.
  intros Hl Hq Hff. revert s Hl. induction q as [r|m|R e k IH]; intros s Hl; simpl in Hq; [|done|].
  - assert (Hlt := lookup_lt_Some _ _ _ Hl). set (now := w_time (g_world s)).
    exists [(i, now); (i, now)]. eexists. split.
    + simpl. rewrite Z.ltb_irrefl, Hl. simpl. rewrite Z.ltb_irrefl, list_lookup_insert_eq by done. reflexivity.
    + simpl. rewrite Hff, andb_false_r, list_insert_insert_eq. done.
  - assert (Hlt := lookup_lt_Some _ _ _ Hl). set (now := w_time (g_world s)).
    destruct (perform jitter coin e (set_time now (g_world s))) as [[w' r] u] eqn:Ep.
    set (late := Z.max u (w_time w')).
    set (s2 := set_thread i t (Ready (k r)) (set_thread i t (Asleep u (k r)) s w') (set_time late w')).
    assert (Hs2 : exec (group_step jitter coin job) s [(i, now); (i, late)] = Next s2).
    { simpl. subst now. rewrite Z.ltb_irrefl, Hl, Ep. simpl.
      rewrite (proj2 (Z.ltb_ge _ _)) by lia. rewrite list_lookup_insert_eq by done.
      by rewrite (proj2 (Z.leb_le _ _)) by lia. }
    destruct (IH r (Hq r) s2) as (sched & s' & E & Ht & Hc).
    { simpl. rewrite list_lookup_insert_eq; [done|]. by rewrite length_insert. }
    exists ([(i, now); (i, late)] ++ sched), s'. split; [by rewrite exec_app, Hs2|]. split; [|exact Hc].
    rewrite Ht. subst s2. simpl. by rewrite !list_insert_insert_eq.
Qed.

Lemma group_finishes job s gone todo (f : Task → Prog S M TaskReport) :
  g_threads s = gone ++ ((λ t, (t, Ready (f t))) <$> todo) →
  Forall (λ t, no_panic (f t) ∧ fails_fast job t = false) todo →
  ∃ sched s', exec (group_step jitter coin job) s sched = Next s' ∧
    g_threads s' = gone ++ ((λ t, (t, Gone (S:=S) (M:=M))) <$> todo) ∧ g_cancel s' = g_cancel s.
Proof.
  intros Ht Hall. revert gone s Ht. induction Hall as [|t todo [Hp Hff] _ IH]; intros gone s Ht.
  { exists [], s. done. }
  destruct (thread_finishes job s (length gone) t (f t)) as (l1 & s1 & E1 & Ht1 & Hc1); [|done|done|].
  { rewrite Ht. by apply list_lookup_middle. }
  destruct (IH (gone ++ [(t, Gone (S:=S) (M:=M))]) s1) as (l2 & s2 & E2 & Ht2 & Hc2).
  { rewrite Ht1, Ht, insert_app_r_alt, Nat.sub_diag by done. simpl. by rewrite <- app_assoc. }
  exists (l1 ++ l2), s2. split; [by rewrite exec_app, E1|]. split; [|by rewrite Hc2].
  rewrite Ht2, <- app_assoc. done.
Qed.

Lemma parallel_ends ctx job occ w :
  retries_ok job → never_fails_fast job →
  ∃ sched x, executeParallel out_of_range jitter coin sched None ctx job occ w = Next x.
Proof.
  intros Hr Hf. unfold executeParallel.
  match goal with |- ∃ sched x, match exec _ ?s0 sched with _ => _ end = _ =>
    destruct (group_finishes job s0 [] (j_Tasks job)
      (λ t, executeTask out_of_range (WithCancel ctx None) job t occ)) as (sched & s' & E & Ht & Hc); [done| |] end.
  { apply Forall_and. split; [|exact Hf]. eapply Forall_impl; [exact Hr|]. intros t Ht.
    by apply executeTask_no_panic. }
  exists sched. rewrite E, Ht, Hc. cbn [app g_cancel]. rewrite bool_decide_true, andb_true_r by done.
  assert (Hg : ∀ l : list Task, forallb (is_gone (S:=S) (M:=M)) ((λ t, (t, Gone (S:=S) (M:=M))) <$> l) = true)
    by (induction l; done).
  rewrite Hg. by eexists.
Qed.

(** *** Whole executions *)
Lemma ExecuteJobOccurrence_eq sched tc ctx job occ w :
  ExecuteJobOccurrence out_of_range jitter coin sched tc ctx job occ w =
    match of_outcome (run jitter coin (begin_occurrence ctx job occ) w) with
    | Next (w1, Ok (startTime, jobCtx, o)) =>
        match run_tasks out_of_range jitter coin sched tc jobCtx job o w1 with
        | Next (w2, (report, err)) =>
            of_outcome (run jitter coin (finish_occurrence job o startTime report err) w2)
        | Disabled => Disabled | Panicked m => Panicked m
        end
    | Next (w1, Err e) => Next (w1, (None, Some e))
    | Disabled => Disabled | Panicked m => Panicked m
    end.
Proof. done. Qed.

(** How the tasks of a job can fail to end: by a negative retry limit, or by
    a schedule that is none of the group. *)
Lemma run_tasks_ends sched tc ctx job occ w :
  match run_tasks out_of_range jitter coin sched tc ctx job occ w with
  | Next _ => True | Disabled => parallel job | Panicked _ => ¬ retries_ok job
  end.
Proof.
  unfold run_tasks, parallel. case_bool_decide as Hm.
  - destruct (executeParallel _ _ _ _ _ _ _ _ _) as [| |m] eqn:E; [done..|]. intros Hr. revert E.
    unfold executeParallel. destruct (exec _ _ sched) as [|s|m'] eqn:Ex; [done| |].
    + by destruct (_ && _).
    + intros _. eapply group_exec_no_panic; [|exact Ex]. simpl. apply Forall_fmap.
      eapply Forall_impl; [exact Hr|]. intros t Ht. by apply executeTask_no_panic.
  - destruct (run _ _ _ w) as [w1 [x|m]] eqn:E; [done|]. simpl. intros Hr.
    destruct (run_no_panic jitter coin _ w (sequential_no_panic ctx job occ (j_Tasks job)
      (NewExecutionReport (jo_ID occ) (jc_FailureStrategy (j_Config job))) Hr)) as (w2 & a & E2).
    unfold executeSequential in E. by rewrite E2 in E.
Qed.
Lemma execution_ends sched tc ctx job occ w :
  match ExecuteJobOccurrence out_of_range jitter coin sched tc ctx job occ w with
  | Next _ => True | Disabled => parallel job | Panicked _ => ¬ retries_ok job
  end.
Proof.
  rewrite ExecuteJobOccurrence_eq. destruct (run_begin jitter coin ctx job occ w) as (w1 & t & r & E & _).
  rewrite E. cbn [of_outcome]. destruct r as [[[t' c] o]|e]; [|done].
  pose proof (run_tasks_ends sched tc c job o w1) as Hr.
  destruct (run_tasks _ _ _ _ _ _ _ _ w1) as [|[w2 [rep err]]|m]; [done| |done].
  destruct (run_finish jitter coin job o t' rep err w2) as (w3 & e & i & E3 & _). by rewrite E3.
Qed.
Lemma execution_can_end ctx job occ w :
  retries_ok job → never_fails_fast job →
  ∃ sched x, ExecuteJobOccurrence out_of_range jitter coin sched None ctx job occ w = Next x.
Proof.
  intros Hr Hf. setoid_rewrite ExecuteJobOccurrence_eq.
  destruct (run_begin jitter coin ctx job occ w) as (w1 & t & r & E & _).
  rewrite E. cbn [of_outcome]. destruct r as [[[t' c] o]|e]; [|exists []; by eexists].
  assert (Hx : ∃ sched x, run_tasks out_of_range jitter coin sched None c job o w1 = Next x).
  { destruct (decide (parallel job)) as [Hp|Hp].
    - unfold run_tasks. rewrite bool_decide_true by done. by apply parallel_ends.
    - pose proof (run_tasks_ends [] None c job o w1) as Hx.
      destruct (run_tasks _ _ _ [] _ _ _ _ w1) as [|x|] eqn:Ex; [done|by exists [], x|done]. }
  destruct Hx as (sched & [w2 [rep err]] & Ex). exists sched. rewrite Ex.
  destruct (run_finish jitter coin job o t' rep err w2) as (w3 & e & i & E3 & _). rewrite E3. by eexists.
Qed.
End Total.
