(* ===== verification/ExecutorExamples.v ===== *)
(** * Runs of the executor on concrete jobs *)
From S2P Require Import Prelude GoTime GoContext Types Ids Job Metrics Storage Badger MemBadger GoFloat Effects Executor.
Local Open Scope Z_scope.
Import ToyUuid MemBadger.
#[local] Existing Instances BadgerStorage.storage NoOpMetrics.collector.

Definition run_ok (d : Duration) : TaskFunc := λ _ _ _, (None, d).
Definition run_bad (d : Duration) : TaskFunc := λ _ _ _, (Some "boom", d).

Definition config (mode : TaskExecutionMode) : JobConfig :=
  mkJobConfig mode FailureStrategyFailFast Hour OverlapPolicySkip RecoveryStrategyExecuteAll None
    TaskConfig_zero.
Definition retry_once : TaskConfig :=
  mkTaskConfig None (Some (mkRetryPolicy 1 100 (f_of_Z 1))) None.
Definition job (mode : TaskExecutionMode) : Job :=
  let j := NewJob "nightly" 1%positive (config mode) in
  let j := (AddTask j "load" (run_ok 10) TaskConfig_zero).1 in
  let j := (AddTask j "clean" (run_bad 5) retry_once).1 in
  (AddTask j "report" (run_ok 7) TaskConfig_zero).1.
Definition occ0 (j : Job) : JobOccurrence :=
  mkJobOccurrence (GenerateJobOccurrenceID (j_ID j) (mkTime 1000 UTC)) (j_ID j) 1 1000 JobStatusPending
    EmptyString None None (j_Config j) false 1001 1001.

(** Every reading of the clock takes 1 ns; ties go to the context. *)
Definition jitter (_ : nat) : Z := 1.
Definition coin (_ : nat) : bool := true.
Definition amd64 (_ : float64) : Z := - 2 ^ 63.
Definition W : Type := World DB unit.
Definition world0 : W := mkWorld (∅ : gmap string Doc) tt 2000 0 [].

(** Drives goroutine [i] until it blocks for good. *)
Fixpoint drive (fuel : nat) (j : Job) (i : nat) (s : group (S:=DB) (M:=unit)) : list (nat * Instant) :=
  match fuel with
  | O => []
  | Datatypes.S fuel' =>
      let t := w_time (g_world s) in
      let now := match g_threads s !! i with Some (_, Asleep u _) => Z.max t u | _ => t end in
      match group_step jitter coin j s (i, now) with
      | Next s' => (i, now) :: drive fuel' j i s'
      | _ => []
      end
  end.
Definition no_report : ExecutionReport := NewExecutionReport EmptyString EmptyString.

Definition result_or {A} (r : StepResult A) (d : A) : A := match r with Next x => x | _ => d end.

(** The shape of a result, without computing the world in it. *)
Definition is_next {A} (r : StepResult A) : bool := match r with Next _ => true | _ => false end.
Lemma next_eta {A B C} (r : StepResult (A * (B * C))) d :
  is_next r = true →
  r = Next (fst (result_or r d), (fst (snd (result_or r d)), snd (snd (result_or r d)))).
Proof. by destruct r as [|[a [b c]]|]. Qed.

(** *** A sequential group: "clean" fails twice, "report" is not run. *)
Definition seq_job : Job := job TaskExecutionModeSequential.
Definition seq_run : W * Outcome (ExecutionReport * option GoError) :=
  run jitter coin (executeSequential amd64 Background seq_job (occ0 seq_job)) world0.
Definition result_of (o : Outcome (ExecutionReport * option GoError)) : ExecutionReport * option GoError :=
  match o with Done x => x | Crash _ => (no_report, None) end.
Definition seq_report : ExecutionReport := (result_of (snd seq_run)).1.
Definition seq_err : option GoError := (result_of (snd seq_run)).2.

Lemma executeSequential_reports_witness :
  seq_run = (seq_run.1, Done (seq_report, seq_err)) ∧
  seq_err = Some "task clean failed, aborting due to fail-fast" ∧
  (length <$> (tr_Attempts <$> er_TaskReports seq_report)) = [1; 2]%nat ∧
  er_OccurrenceID seq_report = jo_ID (occ0 seq_job) ∧
  sequential_end Background (w_time seq_run.1) seq_job (j_Tasks seq_job) (er_TaskReports seq_report)
    (er_GroupOutcome seq_report) seq_err ∧
  live_between Background (er_TaskReports seq_report).
Proof.
  assert (E2 : snd seq_run = Done (seq_report, seq_err)) by (vm_compute; reflexivity).
  assert (E : seq_run = (seq_run.1, Done (seq_report, seq_err)))
    by (rewrite <- E2; apply surjective_pairing).
  split; [exact E|]. split; [vm_compute; reflexivity|]. split; [vm_compute; reflexivity|].
  exact (executeSequential_reports amd64 jitter coin Background seq_job (occ0 seq_job)
    world0 seq_run.1 seq_report seq_err E).
Defined.

(** *** A parallel group: its failing task cancels the others at 2171. *)
Definition par_job : Job := job TaskExecutionModeParallel.
Definition par_init (tc : option Instant) : group (S:=DB) (M:=unit) :=
  mkGroup world0 ((λ t, (t, Ready (executeTask amd64 (WithCancel Background tc) par_job t (occ0 par_job)))) <$> j_Tasks par_job)
    (NewExecutionReport (jo_ID (occ0 par_job)) FailureStrategyFailFast) None.
Definition then_drive (i : nat) (sl : group (S:=DB) (M:=unit) * list (nat * Instant)) :=
  let l := drive 100 par_job i sl.1 in
  (result_or (exec (group_step jitter coin par_job) sl.1 l) sl.1, sl.2 ++ l).
Definition drive_all (s : group (S:=DB) (M:=unit)) : list (nat * Instant) :=
  (then_drive 2 (then_drive 1 (then_drive 0 (s, [])))).2.
Definition par_sched : list (nat * Instant) := drive_all (par_init (Some 2141)).
Definition par_run : StepResult (W * (ExecutionReport * option GoError)) :=
  executeParallel amd64 jitter coin par_sched (Some 2141) Background par_job (occ0 par_job) world0.
Definition par_result : W * (ExecutionReport * option GoError) :=
  result_or par_run (world0, (no_report, None)).

Lemma executeParallel_reports_witness :
  par_run = Next (fst par_result, (fst (snd par_result), None)) ∧
  (er_GroupOutcome (fst (snd par_result)) = "failed") ∧
  length (er_TaskReports (fst (snd par_result))) = 3%nat ∧
  ∃ prs, prs.*1 ≡ₚ j_Tasks par_job ∧ er_TaskReports (fst (snd par_result)) = prs.*2 ∧
    ∃ p, p ∈ prs ∧ cancelling par_job p.
Proof.
  assert (E2 : snd (snd par_result) = None) by (vm_compute; reflexivity).
  assert (N : is_next par_run = true) by (vm_compute; reflexivity).
  assert (E : par_run = Next (fst par_result, (fst (snd par_result), None))).
  { rewrite <- E2. unfold par_result. exact (next_eta par_run _ N). }
  split; [exact E|]. split; [vm_compute; reflexivity|]. split; [vm_compute; reflexivity|].
  destruct (executeParallel_reports amd64 jitter coin par_sched (Some 2141) Background par_job
    (occ0 par_job) world0 (fst par_result) (fst (snd par_result)) None E) as (_ & _ & prs & Hp & Hr & _ & Hc & _).
  exists prs. split; [exact Hp|]. split; [exact Hr|]. apply Hc. by eexists.
Defined.

(** *** A whole occurrence: the stored record, then the tasks. *)
Definition stored_occ : StorageOccurrence :=
  mkStorageOccurrence (jo_ID (occ0 par_job)) (j_ID par_job) 1 1000 JobStatusPending "node-a" None None
    BEmpty false 1001 1001.
Definition world1 : W := set_store (fst (BadgerStorage.CreateJobOccurrence stored_occ (w_store world0))) world0.
Definition occ_run : StepResult (W * (option ExecutionReport * option GoError)) :=
  ExecuteJobOccurrence amd64 jitter coin [] None Background seq_job (occ0 seq_job) world1.
Definition occ_result : W * (option ExecutionReport * option GoError) :=
  result_or occ_run (world0, (None, None)).


(** Executing rewrites the stored record without its configuration snapshot
    and without its owner. *)
Definition snapshot (r : Result StorageOccurrence) : option (JobStatus * string * bytes) :=
  match r with Ok o => Some (so_Status o, so_OwningNodeID o, so_Config o) | Err _ => None end.
Lemma execution_drops_snapshot :
  snapshot (snd (BadgerStorage.GetJobOccurrence (jo_ID (occ0 seq_job)) (w_store (fst occ_result))))
    = Some (JobStatusFailed, EmptyString, BNil).
Proof. vm_compute. reflexivity. Qed.
