(* ===== verification/Logged.v ===== *)
(** * A storage with a log of submissions beside it

    Clients that hand work to the pool run over a store paired with the list
    of what has been handed over, so that theorems can speak of both. *)
From S2P Require Import Prelude GoTime Types Job Storage Effects.
Local Open Scope Z_scope.

Definition Submission : Type := Job * JobOccurrence.

Section Lift.
Context {S : Type} `{Storage S}.

Definition lift {R} (m : St S R) : St (S * list Submission) R := λ '(s, l),
  let '(s', r) := m s in ((s', l), r).

#[export] Instance logged_storage : Storage (S * list Submission) := {
  CreateJob j := lift (CreateJob j); GetJob i := lift (GetJob i);
  UpdateJob n j := lift (UpdateJob n j); DeleteJob i := lift (DeleteJob i);
  ListJobs := lift ListJobs;
  CreateTask k := lift (CreateTask k); GetTask i := lift (GetTask i);
  UpdateTask n k := lift (UpdateTask n k); DeleteTask i := lift (DeleteTask i);
  ListTasksByJobID i := lift (ListTasksByJobID i);
  CreateJobOccurrence o := lift (CreateJobOccurrence o);
  GetJobOccurrence i := lift (GetJobOccurrence i);
  UpdateJobOccurrence n o := lift (UpdateJobOccurrence n o);
  DeleteJobOccurrence i := lift (DeleteJobOccurrence i);
  ListRunningOccurrences := lift ListRunningOccurrences;
  ListStaleOccurrences n d := lift (ListStaleOccurrences n d);
  ListQueuedOccurrencesByJobID i := lift (ListQueuedOccurrencesByJobID i);
  ListPendingOccurrences i := lift (ListPendingOccurrences i);
  CreateTaskRun r := lift (CreateTaskRun r); GetTaskRun i := lift (GetTaskRun i);
  UpdateTaskRun n r := lift (UpdateTaskRun n r); DeleteTaskRun i := lift (DeleteTaskRun i);
  ListTaskRunsByOccurrenceID i := lift (ListTaskRunsByOccurrenceID i);
  CreateExecutionAttempt a := lift (CreateExecutionAttempt a);
  GetExecutionAttempt i := lift (GetExecutionAttempt i);
  UpdateExecutionAttempt a := lift (UpdateExecutionAttempt a);
  ListExecutionAttemptsByTaskRunID i := lift (ListExecutionAttemptsByTaskRunID i);
  Close := lift Close;
}.

(** Handing an execution to the pool. *)
Definition submit_logged {M} (job : Job) (o : JobOccurrence) : Prog (S * list Submission) M unit :=
  do (OnStore (λ '(s, l), ((s, l ++ [(job, o)]), tt))).
End Lift.
