(* ===== verification/OccStore.v ===== *)
(** * Rewriting stored occurrences

    The reaper and the update policies read a list of occurrences and write
    each back with a new status.  What one such write does to the slot store,
    and what a list of them does. *)
From S2P Require Import Prelude GoTime Types Ids Storage Badger StorageSpec BadgerCorrect Effects.
Local Open Scope Z_scope.

Lemma range_between x y z :
  in_rfc3339_range x → in_rfc3339_range z → x ≤ y ≤ z → in_rfc3339_range y.
Proof. unfold in_rfc3339_range. lia. Qed.

Definition occ_slot_of (o : StorageOccurrence) : slot := OccSlot (so_JobID o) (so_ID o).

(** A field-wise change of an occurrence, given a reading of the clock, that
    keeps its slot and what makes it serialisable. *)
Record keeps_record (f : Instant → StorageOccurrence → StorageOccurrence) : Prop := {
  keeps_slot e o : occ_slot_of (f e o) = occ_slot_of o;
  keeps_marshal e u o :
    is_ok (Marshal (EOcc o)) = true → in_rfc3339_range e → in_rfc3339_range u →
    is_ok (Marshal (EOcc (set_so_UpdatedAt u (f e o)))) = true;
}.

(** Every listed occurrence is rewritten, at some readings of the clock, and
    nothing else changes. *)
Definition rewritten (f : Instant → StorageOccurrence → StorageOccurrence)
    (os : list StorageOccurrence) (a a' : gmap slot entry) : Prop :=
  (∀ o, o ∈ os → ∃ e u, a' !! occ_slot_of o = Some (EOcc (set_so_UpdatedAt u (f e o)))) ∧
  (∀ s, s ∉ occ_slot_of <$> os → a' !! s = a !! s).

(** An occurrence that the store holds. *)
Definition writable (a : gmap slot entry) (o : StorageOccurrence) : Prop :=
  slot_ok (occ_slot_of o) ∧ is_ok (Marshal (EOcc o)) = true ∧ is_Some (a !! occ_slot_of o).

Lemma rewritten_nil f a : rewritten f [] a a.
Proof. split; [by intros ? ?%elem_of_nil|done]. Qed.
Lemma rewritten_cons f o os a a' e u :
  occ_slot_of o ∉ occ_slot_of <$> os →
  rewritten f os (<[occ_slot_of o := EOcc (set_so_UpdatedAt u (f e o))]> a) a' →
  rewritten f (o :: os) a a'.
Proof.
  intros Hnin [Hin Hout]. split.
  - intros o' [->|Ho']%elem_of_cons; [|by apply Hin].
    exists e, u. rewrite Hout by done. by rewrite lookup_insert_eq.
  - intros s Hs. cbn [fmap list_fmap] in Hs. apply not_elem_of_cons in Hs as [Hne Hs].
    rewrite Hout by done. by rewrite lookup_insert_ne.
Qed.
Lemma writable_insert a s e o : writable a o → writable (<[s := e]> a) o.
Proof. intros (? & ? & ?). split_and!; [done|done|]. apply lookup_insert_is_Some'. by right. Qed.

Section OccStore.
Context {M : Type} `{BadgerLaws}.
Context (jitter : nat → Z) (coin : nat → bool).
Implicit Types (w : World DB M) (a : gmap slot entry) (o : StorageOccurrence).
#[local] Existing Instance BadgerStorage.storage.

(** Read the clock, change the copy, write it back. *)
Definition rewrite_occ (f : Instant → StorageOccurrence → StorageOccurrence) o
  : Prog DB M (Result unit) :=
  e ← do Now; u ← do Now; do (OnStore (UpdateJobOccurrence u (f e o))).

Lemma rewrite_store f o a w w' r :
  (∀ er, ¬ fault er) → keeps_record f → writable a o →
  in_rfc3339_range (w_time w) → in_rfc3339_range (w_time w') → repr a (contents (w_store w)) →
  run jitter coin (rewrite_occ f o) w = (w', r) →
  r = Done (Ok tt) ∧ ∃ e u,
    repr (<[occ_slot_of o := EOcc (set_so_UpdatedAt u (f e o))]> a) (contents (w_store w')).
Proof.
  intros Hf Hk (Hok & Hm & [e0 Ha]) Hw Hw' Hr E. unfold rewrite_occ in E. simpl in E.
  set (e := w_time w + _) in E. set (u := e + _) in E.
  assert (Hslot : slot_of (EOcc (f e o)) = occ_slot_of o) by apply (keeps_slot _ Hk).
  pose proof (update_cases a (w_store w) u (EOcc (f e o)) Hr ltac:(by rewrite Hslot)) as HC.
  change (do_update u (EOcc (f e o))) with (BadgerStorage.UpdateJobOccurrence u (f e o)) in HC.
  destruct (BadgerStorage.UpdateJobOccurrence u (f e o) (w_store w)) as [db1 r1]. simpl in E.
  injection E as <- <-. simpl in Hw' |- *.
  assert (in_rfc3339_range e) by (eapply range_between; [exact Hw|exact Hw'|subst u e; lia]).
  assert (in_rfc3339_range u) by (eapply range_between; [exact Hw|exact Hw'|subst u e; lia]).
  pose proof (keeps_marshal _ Hk e u o Hm ltac:(done) ltac:(done)) as Hm'.
  change (touch u (EOcc (f e o))) with (EOcc (set_so_UpdatedAt u (f e o))) in HC.
  rewrite Hslot, Ha in HC. destruct HC as [(er & _ & Her & _)|HC]; [by apply Hf in Her|].
  destruct (Marshal (EOcc (set_so_UpdatedAt u (f e o)))); [|done].
  destruct HC as [-> HC]. split; [done|]. by exists e, u.
Qed.

(** Listed records are distinct, stored and serialisable. *)
Lemma listed_writable a db os :
  repr a (contents db) → NoDup os →
  (∀ o, o ∈ os → a !! occ_slot_of o = Some (EOcc o)) →
  NoDup (occ_slot_of <$> os) ∧ Forall (writable a) os.
Proof.
  intros Hr Hnd Hin. split.
  - apply NoDup_fmap_2_strong; [|done]. intros x y Hx%Hin Hy%Hin Hxy. rewrite Hxy in Hx. congruence.
  - apply Forall_forall. intros o Ho%Hin.
    destruct (repr_to _ _ Hr _ _ Ho) as (Hok & _ & d & Hd & _). unfold writable. rewrite Hd.
    split_and!; [done|done|by eexists].
Qed.
End OccStore.
