(* ===== verification/TaskStore.v ===== *)
(** * Tasks over the database

    What running one task leaves in the database and in the metrics: a record
    for the run, a record for every attempt, one count for every attempt,
    all in agreement with the report that is returned. *)
From S2P Require Import Prelude GoTime GoContext Types Ids Job Metrics Storage Badger StorageSpec BadgerCorrect GoFloat Effects OccStore Executor.
Local Open Scope Z_scope.

Section TaskStore.
Context {M : Type} `{UuidLaws} `{BadgerLaws} `{MetricsCollector M}.
Context (out_of_range : float64 → Z) (jitter : nat → Z) (coin : nat → bool).
Implicit Types (w : World DB M) (a : gmap slot entry).
#[local] Existing Instance BadgerStorage.storage.

(** On a healthy engine a Create leaves its slot filled, an Update of a filled
    slot replaces it. *)
Lemma create_fills a db e :
  (∀ er, ¬ fault er) → repr a (contents db) → slot_ok (slot_of e) → is_ok (Marshal e) = true →
  ∃ a', repr a' (contents (do_create e db).1) ∧ is_Some (a' !! slot_of e) ∧
    ∀ s, s ≠ slot_of e → a' !! s = a !! s.
Proof.
  intros Hf Hr Hs Hm. pose proof (create_cases a db e Hr Hs) as HC.
  destruct (do_create e db) as [db' r]. destruct HC as [(er & _ & Her & _)|HC]; [by apply Hf in Her|].
  simpl. destruct (a !! slot_of e) eqn:Ea; [destruct HC; exists a; by rewrite Ea|].
  destruct (Marshal e); [|done]. destruct HC as [_ Hr'].
  exists (<[slot_of e := e]> a). rewrite lookup_insert_eq. split_and!; [done|by eexists|].
  intros s Hne. by rewrite lookup_insert_ne.
Qed.
Lemma update_replaces a db now e :
  (∀ er, ¬ fault er) → repr a (contents db) → slot_ok (slot_of e) → is_Some (a !! slot_of e) →
  is_ok (Marshal (touch now e)) = true →
  repr (<[slot_of e := touch now e]> a) (contents (do_update now e db).1).
Proof.
  intros Hf Hr Hs [e0 Ha] Hm. pose proof (update_cases a db now e Hr Hs) as HC.
  destruct (do_update now e db) as [db' r]. destruct HC as [(er & _ & Her & _)|HC]; [by apply Hf in Her|].
  rewrite Ha in HC. destruct (Marshal (touch now e)); [|done]. by destruct HC.
Qed.

(** *** One attempt *)

(** A stored attempt that says what the report says. *)
Definition agrees (runID : string) (x : AttemptReport) (rec : ExecutionAttempt) : Prop :=
  sa_TaskRunID rec = runID ∧ sa_AttemptNumber rec = ar_AttemptNumber x ∧
  sa_Status rec = ar_Status x ∧ sa_StartTime rec = ar_StartTime x ∧
  sa_EndTime rec = ar_EndTime x ∧ sa_ErrorMessage rec = ar_ErrorMessage x.
Definition attempt_slot (runID : string) (n : Z) : slot :=
  AttemptSlot (GenerateExecutionAttemptID runID n).
Definition count (job : Job) (task : Task) (m : M) (x : AttemptReport) : M :=
  ObserveTaskDuration (j_Name job) (t_Name task) (ar_Duration x)
    (IncTaskAttempts (j_Name job) (t_Name task) (ar_Status x) m).

(** The two times of an attempt and its result, in program order. *)
Lemma attempt_stores ctx job task run n c a w w' o :
  (∀ er, ¬ fault er) → repr a (contents (w_store w)) →
  in_rfc3339_range (w_time w) → in_rfc3339_range (w_time w') →
  Effects.run jitter coin (executeAttempt ctx job task run n c) w = (w', o) →
  ∃ x rec a', o = Done x ∧ agrees (sr_ID run) x rec ∧ ar_AttemptNumber x = n ∧
    repr a' (contents (w_store w')) ∧ a' !! attempt_slot (sr_ID run) n = Some (EAttempt rec) ∧
    (∀ s, s ≠ attempt_slot (sr_ID run) n → a' !! s = a !! s) ∧
    w_metrics w' = count job task (w_metrics w) x.
Proof.
  intros Hf Hr Hw Hw' E. unfold executeAttempt in E. rewrite !run_now in E.
  set (t := next_reading jitter w) in E. set (w1 := read_clock jitter (read_clock jitter w)) in E.
  set (cr := next_reading jitter (read_clock jitter w)) in E.
  assert (Ht : w_time w ≤ t ≤ w_time w1 ∧ cr = w_time w1)
    by (subst t cr w1; unfold next_reading; simpl; lia).
  set (id := GenerateExecutionAttemptID (sr_ID run) n) in *.
  set (rec0 := mkExecutionAttempt id _ _ _ t _ _ cr) in E.
  rewrite run_act in E. cbn [perform] in E.
  change (CreateExecutionAttempt rec0) with (do_create (EAttempt rec0)) in E.
  destruct (do_create (EAttempt rec0) (w_store w1)) as [db1 r1] eqn:E1.
  set (w2 := set_time _ (set_store db1 w1)) in E.
  rewrite run_now in E. set (w3 := read_clock jitter w2) in E.
  assert (Hle3 : w_time w1 ≤ w_time w3) by (subst w3 w2; simpl; lia).
  rewrite run_act in E. cbn [perform] in E.
  destruct (t_Fn task _ _ _) as [err d]. set (w4 := set_time _ w3) in E.
  rewrite run_now in E. set (fin := next_reading jitter w4) in E. set (w5 := read_clock jitter w4) in E.
  assert (Hle5 : w_time w3 ≤ fin ∧ fin = w_time w5) by (subst fin w5 w4; unfold next_reading; simpl; lia).
  rewrite run_bind in E.
  match type of E with (let '(_, _) := Effects.run _ _ ?p w5 in _) = _ =>
    assert (Hsm : ∃ w6 sm, Effects.run jitter coin p w5 = (w6, Done sm) ∧ w_store w6 = w_store w5 ∧
      w_metrics w6 = w_metrics w5 ∧ w_time w5 ≤ w_time w6) end.
  { destruct err as [er|]; simpl; eexists _, _; split_and!; [reflexivity|..]; simpl; (done || lia). }
  destruct Hsm as (w6 & [st msg] & Ep & Hst6 & Hm6 & Ht6). rewrite Ep in E. clear Ep.
  set (rec := mkExecutionAttempt id (sr_ID run) n st t (Some fin) msg cr).
  cbv beta iota in E. rewrite run_act in E. cbn [perform] in E.
  change (UpdateExecutionAttempt _) with (do_update fin (EAttempt rec)) in E.
  destruct (do_update fin (EAttempt rec) (w_store w6)) as [db2 r2] eqn:E2.
  injection E as <- <-. simpl in Hw' |- *.
  pose proof (λ y, range_between (w_time w) y (w_time w6) Hw Hw') as Hin.
  assert (Hslot : slot_ok (AttemptSlot id)) by (simpl; subst id; auto with go).
  destruct (create_fills a (w_store w1) (EAttempt rec0) Hf Hr Hslot) as (a1 & Hr1 & Ha1 & Hs1).
  { apply Marshal_ok. simpl. repeat (constructor; [apply Hin; lia|]). constructor. }
  rewrite E1 in Hr1. cbn [fst slot_of] in Hr1, Ha1, Hs1.
  assert (Hr2 : repr (<[AttemptSlot id := EAttempt rec]> a1) (contents db2)).
  { change (w_store w5) with db1 in Hst6. rewrite Hst6 in E2.
    pose proof (update_replaces a1 db1 fin (EAttempt rec) Hf Hr1 Hslot Ha1) as HU. rewrite E2 in HU.
    apply HU, Marshal_ok. simpl. repeat (constructor; [apply Hin; lia|]). constructor. }
  eexists _, rec, _. split_and!; [reflexivity|by split_and!|done|exact Hr2|apply lookup_insert_eq| |].
  - intros s Hne. rewrite lookup_insert_ne by done. by apply Hs1.
  - unfold count. simpl. by rewrite Hm6.
Qed.

(** *** The run's record *)
Definition run_slot (occ : JobOccurrence) (task : Task) : slot :=
  RunSlot (GenerateTaskRunID (jo_ID occ) (t_ID task)).

Lemma close_stores run st n msg a w w' o :
  (∀ er, ¬ fault er) → repr a (contents (w_store w)) → slot_ok (RunSlot (sr_ID run)) →
  is_Some (a !! RunSlot (sr_ID run)) → in_rfc3339_range (sr_CreatedAt run) → sr_StartTime run = None →
  in_rfc3339_range (w_time w) → in_rfc3339_range (w_time w') →
  Effects.run jitter coin (close_run run st n msg) w = (w', o) →
  ∃ fin u, o = Done tt ∧ w_metrics w' = w_metrics w ∧
    repr (<[RunSlot (sr_ID run) := ERun (mkTaskRun (sr_ID run) (sr_OccurrenceID run) (sr_TaskID run) st n
              (sr_StartTime run) (Some fin) msg (sr_CreatedAt run) u)]> a) (contents (w_store w')).
Proof.
  intros Hf Hr Hs Ha Hc Hst Hw Hw' E. unfold close_run, store_run in E. rewrite !run_now in E.
  set (fin := next_reading jitter w) in E. set (w1 := read_clock jitter w) in E.
  set (u := next_reading jitter w1) in E. set (w2 := read_clock jitter w1) in E.
  assert (Ht : w_time w ≤ fin ≤ u ∧ u = w_time w2) by (subst fin u w2 w1; unfold next_reading; simpl; lia).
  set (run' := mkTaskRun _ _ _ st n _ (Some fin) msg _ _) in E.
  rewrite run_act in E. cbn [perform] in E.
  change (UpdateTaskRun u run') with (do_update u (ERun run')) in E.
  pose proof (update_replaces a (w_store w2) u (ERun run') Hf Hr Hs Ha) as HU.
  destruct (do_update u (ERun run') (w_store w2)) as [db r]. injection E as <- <-. simpl in Hw' |- *.
  exists fin, u. split_and!; [done|done|]. apply HU, Marshal_ok. simpl. rewrite Hst. simpl.
  pose proof (λ y, range_between (w_time w) y (w_time w2) Hw Hw') as Hin.
  constructor; [apply Hin; lia|]. constructor; [done|]. constructor; [apply Hin; lia|constructor].
Qed.

(** *** The attempts of a task *)
Definition recorded (runID : string) a (l : list AttemptReport) : Prop :=
  ∀ i x, l !! i = Some x →
    ∃ rec, a !! attempt_slot runID (Z.of_nat i) = Some (EAttempt rec) ∧ agrees runID x rec.
Definition distinct_attempts (runID : string) (max : Z) : Prop :=
  ∀ i j, 0 ≤ i < j → j ≤ max →
    GenerateExecutionAttemptID runID i ≠ GenerateExecutionAttemptID runID j.

(** What the report of a task leaves in its run: the number of attempts and
    the last message if it failed, what was there before otherwise. *)
Definition retries_of (run : TaskRun) (r : TaskReport) : Z * string :=
  if bool_decide (tr_FinalStatus r = TaskStatusFailed)
  then (Z.of_nat (length (tr_Attempts r)), from_option ar_ErrorMessage EmptyString (last (tr_Attempts r)))
  else (sr_RetryCount run, sr_ErrorMessage run).
Definition closed (run : TaskRun) (r : TaskReport) (fin u : Instant) : TaskRun :=
  mkTaskRun (sr_ID run) (sr_OccurrenceID run) (sr_TaskID run) (tr_FinalStatus r) (retries_of run r).1
    (sr_StartTime run) (Some fin) (retries_of run r).2 (sr_CreatedAt run) u.

(** The database and the metrics after the attempts [l]. *)
Record so_far (run : TaskRun) (job : Job) (task : Task) (m0 : M) (l : list AttemptReport)
    (a : gmap slot entry) (w : World DB M) : Prop := {
  sf_repr : repr a (contents (w_store w));
  sf_run : is_Some (a !! RunSlot (sr_ID run));
  sf_attempts : recorded (sr_ID run) a l;
  sf_metrics : w_metrics w = foldl (count job task) m0 l;
}.

Lemma recorded_snoc runID max a a' l x rec :
  distinct_attempts runID max → Z.of_nat (length l) ≤ max →
  recorded runID a l → agrees runID x rec →
  a' !! attempt_slot runID (Z.of_nat (length l)) = Some (EAttempt rec) →
  (∀ s, s ≠ attempt_slot runID (Z.of_nat (length l)) → a' !! s = a !! s) →
  recorded runID a' (l ++ [x]).
Proof.
  intros Hd Hm Hl Hx Ha Hs i y Hy. apply lookup_app_Some in Hy as [Hy|[Hi Hy]].
  - apply lookup_lt_Some in Hy as Hi. destruct (Hl i y Hy) as (ry & Hry & Hay). exists ry.
    split; [|done]. rewrite Hs; [done|]. unfold attempt_slot. intros E.
    apply (Hd (Z.of_nat i) (Z.of_nat (length l))); [lia..|congruence].
  - apply list_lookup_singleton_Some in Hy as [Hi0 <-]. exists rec. split; [|done].
    by replace i with (length l) by lia.
Qed.

Lemma so_far_same run job task m0 l a w w' :
  w_store w' = w_store w → w_metrics w' = w_metrics w →
  so_far run job task m0 l a w → so_far run job task m0 l a w'.
Proof. intros Hs Hm []. by split; rewrite ?Hs, ?Hm. Qed.

Context (run : TaskRun) (job : Job) (task : Task) (m0 : M).
Context (healthy : ∀ er, ¬ fault er) (run_ok : slot_ok (RunSlot (sr_ID run))).
Context (created : in_rfc3339_range (sr_CreatedAt run)) (unstarted : sr_StartTime run = None).

(** The end of the loop: the run is closed, the report is the result. *)
Lemma end_so_far a w w' r r' :
  so_far run job task m0 (tr_Attempts r) a w → in_rfc3339_range (w_time w) → in_rfc3339_range (w_time w') →
  Effects.run jitter coin (close_run run (tr_FinalStatus r) (retries_of run r).1 (retries_of run r).2 ≫=
    λ _, Ret r) w = (w', Done r') →
  ∃ a' fin u, so_far run job task m0 (tr_Attempts r') a' w' ∧
    a' !! RunSlot (sr_ID run) = Some (ERun (closed run r' fin u)).
Proof.
  intros [Hr Hrun Hatt Hm] Hw Hw' E. apply run_bind_done in E as (w1 & x1 & E1 & E2 & _ & _).
  injection E2 as -> <-.
  destruct (close_stores run _ _ _ a w w' _ healthy Hr run_ok Hrun created unstarted Hw Hw' E1)
    as (fin & u & _ & Hm' & Hr').
  eexists _, fin, u. split; [|apply lookup_insert_eq]. split; [done|rewrite lookup_insert_eq; by eexists| |congruence].
  intros i x Hx. destruct (Hatt i x Hx) as (rec & Hrec & Ha). exists rec. by rewrite lookup_insert_ne.
Qed.

Lemma attempt_so_far ctx c max l a w w' x :
  distinct_attempts (sr_ID run) max → Z.of_nat (length l) ≤ max → so_far run job task m0 l a w →
  in_rfc3339_range (w_time w) → in_rfc3339_range (w_time w') →
  Effects.run jitter coin (executeAttempt ctx job task run (Z.of_nat (length l)) c) w = (w', Done x) →
  ∃ a', so_far run job task m0 (l ++ [x]) a' w'.
Proof.
  intros Hd Hmax [Hr Hrun Hatt Hm] Hw Hw' E.
  destruct (attempt_stores ctx job task run _ c a w w' (Done x) healthy Hr Hw Hw' E)
    as (x1 & rec & a1 & [= <-] & Hag & _ & Hr1 & Ha1 & Hs1 & Hm1).
  exists a1. split; [done|by rewrite Hs1|by eapply recorded_snoc|by rewrite foldl_app, Hm1, Hm].
Qed.

Lemma attempts_loop_stores ctx c p left l lastErr a w w' r :
  distinct_attempts (sr_ID run) (MaxRetries p) →
  Z.of_nat (length l) + Z.of_nat left = MaxRetries p + 1 →
  lastErr = ar_ErrorMessage <$> last l → so_far run job task m0 l a w →
  in_rfc3339_range (w_time w) → in_rfc3339_range (w_time w') →
  Effects.run jitter coin (attempts_loop out_of_range ctx job task run c p left
    (Z.of_nat (length l)) l lastErr) w = (w', Done r) →
  ∃ a' fin u, so_far run job task m0 (tr_Attempts r) a' w' ∧
    a' !! RunSlot (sr_ID run) = Some (ERun (closed run r fin u)).
Proof.
  intros Hd. revert l lastErr a w.
  induction left as [|left IH]; intros l lastErr a w Hleft HlE Hsf Hw Hw' E; cbn [attempts_loop] in E.
  - destruct (last l) as [y|] eqn:Hy; subst lastErr; [|done].
    eapply (end_so_far a w w' (task_report task l TaskStatusFailed)); [done..|].
    unfold retries_of. simpl. by rewrite Hy.
  - apply run_bind_done in E as (w1 & x & E1 & E2 & H01 & H12).
    assert (Hw1 : ∀ t, w_time w1 ≤ t ≤ w_time w' → in_rfc3339_range t)
      by (intros; eapply range_between; [exact Hw|exact Hw'|lia]).
    destruct (attempt_so_far ctx c (MaxRetries p) l a w w1 x) as [a1 Hsf1]; [done|lia|done|done|apply Hw1; lia|done|].
    assert (Hend : ∀ w2 st, st ≠ TaskStatusFailed → so_far run job task m0 (l ++ [x]) a1 w2 →
      w_time w1 ≤ w_time w2 ≤ w_time w' →
      Effects.run jitter coin (_ ← close_run run st (sr_RetryCount run) (sr_ErrorMessage run);
        Ret (task_report task (l ++ [x]) st)) w2 = (w', Done r) →
      ∃ a' fin u, so_far run job task m0 (tr_Attempts r) a' w' ∧
        a' !! RunSlot (sr_ID run) = Some (ERun (closed run r fin u))).
    { intros w2 st Hne Hsf2 Ht2 E3. eapply (end_so_far a1 w2 w' (task_report task (l ++ [x]) st)); [done|by apply Hw1|done|].
      unfold retries_of. simpl. by rewrite bool_decide_eq_false_2. }
    assert (Hnext : ∀ w2, so_far run job task m0 (l ++ [x]) a1 w2 → w_time w1 ≤ w_time w2 ≤ w_time w' →
      Effects.run jitter coin (attempts_loop out_of_range ctx job task run c p left
        (Z.of_nat (length l) + 1) (l ++ [x]) (Some (ar_ErrorMessage x))) w2 = (w', Done r) →
      ∃ a' fin u, so_far run job task m0 (tr_Attempts r) a' w' ∧
        a' !! RunSlot (sr_ID run) = Some (ERun (closed run r fin u))).
    { intros w2 Hsf2 Ht2 E3. assert (Hl : Z.of_nat (length (l ++ [x])) = Z.of_nat (length l) + 1)
        by (rewrite length_app; simpl; lia).
      rewrite <- Hl in E3. eapply IH in E3; [done|lia|by rewrite last_snoc|done|by apply Hw1|done]. }
    case_bool_decide; [by apply (Hend w1 TaskStatusSuccess)|].
    destruct (_ <? _); [|by apply (Hnext w1)].
    apply run_bind_done in E2 as (w2 & b & E2 & E3 & ? & ?).
    assert (Hsf2 : so_far run job task m0 (l ++ [x]) a1 w2).
    { rewrite run_do in E2. simpl in E2. destruct (race _ _ _ _ _). injection E2 as <- _.
      by apply (so_far_same _ _ _ _ _ _ w1). }
    destruct b; [by apply (Hend w2 TaskStatusCanceled)|by apply (Hnext w2)].
Qed.
End TaskStore.

Section TaskRecorded.
Context {M : Type} `{UuidLaws} `{BadgerLaws} `{MetricsCollector M}.
Context (out_of_range : float64 → Z) (jitter : nat → Z) (coin : nat → bool).
#[local] Existing Instance BadgerStorage.storage.

(** The run as [executeTask] creates it. *)
Definition new_run (occ : JobOccurrence) (task : Task) (created : Instant) : TaskRun :=
  mkTaskRun (GenerateTaskRunID (jo_ID occ) (t_ID task)) (jo_ID occ) (t_ID task) TaskStatusPending 0
    None None EmptyString created (inst zeroTime).

(** C7: what a task leaves behind.  On a healthy engine, when [executeTask]
    returns, the database and the metrics agree with its report: the run of
    this occurrence and task is stored with the report's final status and its
    end time, and, if it failed, with the number of attempts and the last
    message; every attempt of the report is stored under its number with its
    status, its times and its message; and every attempt is counted once, in
    order, with its status and its duration. *)
Theorem task_recorded ctx job task occ a (w w' : World DB M) r :
  let runID := GenerateTaskRunID (jo_ID occ) (t_ID task) in
  (∀ er, ¬ fault er) → repr a (contents (w_store w)) →
  distinct_attempts runID (MaxRetries (policy_of job task)) →
  in_rfc3339_range (w_time w) → in_rfc3339_range (w_time w') →
  run jitter coin (executeTask out_of_range ctx job task occ) w = (w', Done r) →
  ∃ a' created fin u, repr a' (contents (w_store w')) ∧
    a' !! run_slot occ task = Some (ERun (closed (new_run occ task created) r fin u)) ∧
    recorded runID a' (tr_Attempts r) ∧
    w_metrics w' = foldl (count job task) (w_metrics w) (tr_Attempts r).
Proof.
  intros runID Hf Hr Hd Hw Hw' E. unfold executeTask in E. rewrite run_now in E.
  set (w1 := read_clock jitter w) in E. set (created := next_reading jitter w) in E.
  fold (new_run occ task created) (policy_of job task) in E.
  apply run_bind_done in E as (w2 & res & E2 & E3 & H12 & H23).
  assert (Hc : w_time w ≤ created ∧ created = w_time w1) by (subst created w1; unfold next_reading; simpl; lia).
  pose proof (λ y, range_between _ y _ Hw Hw') as Hin.
  rewrite run_do in E2. cbn [perform] in E2.
  change (CreateTaskRun (new_run occ task created)) with (do_create (ERun (new_run occ task created))) in E2.
  destruct (create_fills a (w_store w1) (ERun (new_run occ task created)) Hf Hr) as (a1 & Hr1 & Ha1 & Hs1).
  { simpl. auto with go. }
  { apply Marshal_ok. simpl. constructor; [apply Hin; lia|]. constructor; [|constructor].
    vm_compute. split; congruence. }
  destruct (do_create _ (w_store w1)) as [db1 r1]. injection E2 as <- <-.
  destruct (Z.lt_ge_cases (MaxRetries (policy_of job task)) 0) as [Hneg|Hpos].
  { replace (Z.to_nat _) with 0%nat in E3 by lia. done. }
  apply (attempts_loop_stores out_of_range jitter coin (new_run occ task created) job task (w_metrics w)
    Hf ltac:(simpl; auto with go) (Hin created ltac:(lia)) eq_refl _ _ _ _ [] None a1) in E3;
    [|done|simpl; lia|done| |apply Hin; lia|done].
  - destruct E3 as (a' & fin & u & [Hr' _ Hatt Hm] & Hrun). by exists a', created, fin, u.
  - split; [done..| |done]. by intros i x ?.
Qed.
End TaskRecorded.
