(* ===== verification/ExecutorStore.v ===== *)
(** * Executions over the database

    What running an occurrence leaves in the database.  Its tasks write only
    records whose identifiers are derived from the occurrence's own ([own]);
    the occurrence's record is written twice, as running and as ended. *)
From S2P Require Import Prelude GoTime GoContext Types Ids Job Metrics Storage Badger StorageSpec BadgerCorrect GoFloat Effects OccStore Executor ExecutorTotal.
Local Open Scope Z_scope.

(** The runs and attempts of an occurrence. *)
Definition own `{UuidLib} (occID : string) (s : slot) : Prop :=
  match s with
  | RunSlot r => ∃ task, r = GenerateTaskRunID occID task
  | AttemptSlot x => ∃ task n, x = GenerateExecutionAttemptID (GenerateTaskRunID occID task) n
  | _ => False
  end.

Section ExecutorStore.
Context {M : Type} `{UuidLaws} `{BadgerLaws} `{MetricsCollector M}.
Context (out_of_range : float64 → Z) (jitter : nat → Z) (coin : nat → bool).
Implicit Types (w : World DB M) (a : gmap slot entry).
#[local] Existing Instance BadgerStorage.storage.

(** The database represents [a] but for the runs and attempts of [occID]. *)
Definition within (occID : string) a (db : DB) : Prop :=
  ∃ a', repr a' (contents db) ∧ ∀ s, ¬ own occID s → a' !! s = a !! s.

Lemma within_create occID a e db :
  own occID (slot_of e) → slot_ok (slot_of e) → within occID a db → within occID a (do_create e db).1.
Proof.
  intros Ho Hs (a' & Hr & Ha). pose proof (badger_create_state a' db e Hr Hs) as HC.
  destruct (do_create e db) as [db' [u|er]]; [|by exists a'].
  exists (<[slot_of e := e]> a'). split; [done|]. intros s Hn.
  rewrite lookup_insert_ne; [by apply Ha|]. by intros <-.
Qed.
Lemma within_update occID a now e db :
  own occID (slot_of e) → slot_ok (slot_of e) → within occID a db → within occID a (do_update now e db).1.
Proof.
  intros Ho Hs (a' & Hr & Ha). pose proof (update_cases a' db now e Hr Hs) as HC.
  destruct (do_update now e db) as [db' r]. simpl.
  destruct HC as [(er & _ & _ & ?)|HC]; [by exists a'|].
  destruct (a' !! slot_of e); [|exists a'; by destruct HC].
  destruct (Marshal _); destruct HC as [_ HC]; [|by exists a'].
  exists (<[slot_of e := touch now e]> a'). split; [done|]. intros s Hn.
  rewrite lookup_insert_ne; [by apply Ha|]. by intros <-.
Qed.

(** *** Tasks stay within their occurrence *)
Abbreviation stays occID a := (only (preserves (S:=DB) (M:=M) (within occID a))).

Definition own_run (occID : string) (r : TaskRun) : Prop :=
  ∃ task, sr_ID r = GenerateTaskRunID occID task.
Lemma own_run_slot occID r : own_run occID r → own occID (RunSlot (sr_ID r)) ∧ slot_ok (RunSlot (sr_ID r)).
Proof. intros [task E]. simpl. rewrite E. split; [by exists task|auto with go]. Qed.

Lemma stays_run occID a run st n msg :
  own_run occID run → stays occID a (close_run (M:=M) run st n msg).
Proof.
  intros Ho. split; [done|]. intros t. split; [done|]. intros u. split; [|done].
  intros db Hdb. apply (within_update occID a u (ERun (mkTaskRun _ _ _ _ _ _ _ _ _ _))); [..|done];
    by apply (own_run_slot occID run).
Qed.

Lemma stays_attempt occID a ctx job task run n c :
  own_run occID run → stays occID a (executeAttempt (M:=M) ctx job task run n c).
Proof.
  intros [tid Hrun].
  assert (Hown : own occID (AttemptSlot (GenerateExecutionAttemptID (sr_ID run) n)) ∧
                 slot_ok (AttemptSlot (GenerateExecutionAttemptID (sr_ID run) n))).
  { rewrite Hrun. split; [by exists tid, n|simpl; auto with go]. }
  destruct Hown as [Hown Hok]. unfold executeAttempt.
  do 2 (apply only_bind; [by apply only_do|intros ?]).
  apply only_bind; [apply only_do; intros db; by apply (within_create occID a (EAttempt _))|intros ?].
  do 3 (apply only_bind; [by apply only_do|intros ?]).
  apply only_bind; [by only_prog|]. intros [st msg].
  apply only_bind; [apply only_do; intros db; by apply (within_update occID a 0 (EAttempt _))|intros ?].
  only_prog.
Qed.

Lemma stays_attempts occID a ctx job task run c p left n done lastErr :
  own_run occID run →
  stays occID a (attempts_loop (M:=M) out_of_range ctx job task run c p left n done lastErr).
Proof.
  intros Ho. revert n done lastErr. induction left as [|left IH]; intros n done lastErr; cbn [attempts_loop].
  - destruct lastErr; [|done]. apply only_bind; [by apply stays_run|done].
  - apply only_bind; [by apply stays_attempt|]. intros r.
    case_bool_decide; [apply only_bind; [by apply stays_run|done]|].
    destruct (_ <? _); [|apply IH]. apply only_bind; [by apply only_do|].
    intros [|]; [apply only_bind; [by apply stays_run|done]|apply IH].
Qed.
Lemma stays_task a ctx job task occ :
  stays (jo_ID occ) a (executeTask (M:=M) out_of_range ctx job task occ).
Proof.
  unfold executeTask. apply only_bind; [by apply only_do|]. intros t.
  assert (Ho : ∀ x, own_run (jo_ID occ) (mkTaskRun (GenerateTaskRunID (jo_ID occ) (t_ID task)) (jo_ID occ)
    (t_ID task) TaskStatusPending 0 None None EmptyString x (inst zeroTime))) by (by eexists).
  apply only_bind; [|intros; by apply stays_attempts].
  apply only_do. intros db. apply (within_create _ a (ERun _)); by apply (own_run_slot (jo_ID occ)).
Qed.
Lemma stays_sequential a ctx job occ tasks report :
  stays (jo_ID occ) a (sequential_loop (M:=M) out_of_range ctx job occ tasks report).
Proof.
  revert report. induction tasks as [|t ts IH]; intros report; cbn [sequential_loop]; [done|].
  apply only_bind; [apply stays_task|]. intros r. case_match; [done|].
  apply only_bind; [by apply only_do|]. intros [e|]; [done|apply IH].
Qed.

(** *** Groups of tasks *)
Definition thread_stays occID a (p : Task * goroutine (S:=DB) (M:=M)) : Prop :=
  match p.2 with Ready q | Asleep _ q => stays occID a q | _ => True end.

Lemma group_step_within job occID a s act s' :
  Forall (thread_stays occID a) (g_threads s) → within occID a (w_store (g_world s)) →
  group_step jitter coin job s act = Next s' →
  Forall (thread_stays occID a) (g_threads s') ∧ within occID a (w_store (g_world s')).
Proof.
  intros Hall Hw E. destruct act as [i now]. unfold group_step in E.
  destruct (now <? w_time (g_world s)); [done|].
  destruct (g_threads s !! i) as [[t g]|] eqn:Hl; [|done].
  pose proof (Forall_lookup_1 _ _ _ _ Hall Hl) as Hg.
  destruct g as [[r|m|R e k]|u p|r|]; try done.
  - injection E as <-. simpl. split; [by apply Forall_insert|done].
  - destruct Hg as [He Hk].
    destruct (perform jitter coin e _) as [[w' x] u] eqn:Ep. injection E as <-. simpl in *.
    split; [apply Forall_insert; [done|apply Hk]|by eapply (perform_preserves _ _ _ e (set_time now (g_world s)))].
  - destruct (u <=? now); [|done]. injection E as <-. simpl. split; [by apply Forall_insert|done].
  - injection E as <-. simpl. split; [by apply Forall_insert|done].
Qed.
Lemma group_step_later job s act s' :
  group_step (S:=DB) (M:=M) jitter coin job s act = Next s' → w_time (g_world s) ≤ w_time (g_world s').
Proof.
  destruct act as [i now]. unfold group_step.
  destruct (Z.ltb_spec now (w_time (g_world s))); [done|].
  destruct (g_threads s !! i) as [[t [[r|m|R e k]|u p|r|]]|]; try done.
  - by intros [= <-].
  - pose proof (perform_world_later jitter coin e (set_time now (g_world s))) as Hl.
    destruct (perform jitter coin e _) as [[w' x] u]. intros [= <-]. simpl in *. lia.
  - destruct (u <=? now); [|done]. by intros [= <-].
  - by intros [= <-].
Qed.

Lemma parallel_within sched tc ctx job occ a w w' x :
  within (jo_ID occ) a (w_store w) →
  executeParallel out_of_range jitter coin sched tc ctx job occ w = Next (w', x) →
  within (jo_ID occ) a (w_store w').
Proof.
  intros Hw E. unfold executeParallel in E.
  match type of E with match exec _ ?s0 _ with _ => _ end = _ =>
    assert (Hall : Forall (thread_stays (jo_ID occ) a) (g_threads s0));
    [|change (within (jo_ID occ) a (w_store (g_world s0))) in Hw; revert Hall Hw E; generalize s0]
  end.
  { simpl. apply Forall_fmap, Forall_forall. intros t _. apply stays_task. }
  induction sched as [|act sched IH]; intros s Hall Hs E; cbn [exec] in E; [by cases_in E|].
  destruct (group_step jitter coin job s act) as [|s1|] eqn:E1; [done| |done].
  destruct (group_step_within _ _ _ _ _ _ Hall Hs E1) as [Hall1 Hs1]. exact (IH s1 Hall1 Hs1 E).
Qed.
Lemma parallel_later sched tc ctx job occ w w' x :
  executeParallel (M:=M) out_of_range jitter coin sched tc ctx job occ w = Next (w', x) →
  w_time w ≤ w_time w'.
Proof.
  unfold executeParallel. intros E.
  match type of E with match exec _ ?s0 _ with _ => _ end = _ =>
    change (w_time w) with (w_time (g_world s0)); revert E; generalize s0 end.
  induction sched as [|act sched IH]; intros s E; cbn [exec] in E; [cases_in E; simpl; lia|].
  destruct (group_step jitter coin job s act) as [|s1|] eqn:E1; [done| |done].
  apply group_step_later in E1. apply IH in E. lia.
Qed.

(** *** The occurrence's record *)
Definition jo_slot (o : JobOccurrence) : slot := OccSlot (jo_JobID o) (jo_ID o).

(** Every time of the occurrence but the last update can be written. *)
Definition writable_times (o : JobOccurrence) : Prop :=
  Forall in_rfc3339_range
    (jo_ScheduledTime o :: option_list (jo_StartTime o) ++ option_list (jo_EndTime o) ++ [jo_CreatedAt o]).

Lemma occurrence_of_marshals o u :
  writable_times o → in_rfc3339_range u → is_ok (Marshal (EOcc (occurrence_of o u))) = true.
Proof.
  intros Ho Hu. apply Marshal_ok. unfold writable_times in Ho. simpl.
  apply Forall_cons in Ho as [Hs Ho]. constructor; [done|].
  apply Forall_app in Ho as [Hst Ho]. apply Forall_app in Ho as [He [Hc _]%Forall_cons].
  apply Forall_app; split; [done|]. apply Forall_app; split; [done|]. constructor; [done|]. constructor; [done|constructor].
Qed.

Lemma update_status_stores o a w w' r :
  (∀ er, ¬ fault er) → repr a (contents (w_store w)) → is_Some (a !! jo_slot o) →
  writable_times o → in_rfc3339_range (w_time w) → in_rfc3339_range (w_time w') →
  run jitter coin (updateOccurrenceStatus o) w = (w', r) →
  r = Done (Ok tt) ∧ ∃ u, repr (<[jo_slot o := EOcc (occurrence_of o u)]> a) (contents (w_store w')).
Proof.
  intros Hf Hr [e0 Ha] Ho Hw Hw' E. unfold updateOccurrenceStatus in E. simpl in E.
  set (u0 := w_time w + _) in E. set (u := u0 + _) in E.
  pose proof (update_cases a (w_store w) u (EOcc (occurrence_of o u0)) Hr) as HC.
  simpl slot_of in HC. change (OccSlot (jo_JobID o) (jo_ID o)) with (jo_slot o) in HC.
  specialize (HC ltac:(by destruct (repr_to _ _ Hr _ _ Ha))). rewrite Ha in HC.
  change (do_update u (EOcc (occurrence_of o u0)))
    with (BadgerStorage.UpdateJobOccurrence u (occurrence_of o u0)) in HC.
  change (touch u (EOcc (occurrence_of o u0))) with (EOcc (occurrence_of o u)) in HC.
  change (mkStorageOccurrence _ _ _ _ _ _ _ _ _ _ _ u0) with (occurrence_of o u0) in E.
  destruct (BadgerStorage.UpdateJobOccurrence u (occurrence_of o u0) (w_store w)) as [db r1].
  injection E as <- <-. simpl in Hw' |- *.
  destruct HC as [(er & _ & Her & _)|HC]; [by apply Hf in Her|].
  assert (Hu : in_rfc3339_range u) by (eapply range_between; [exact Hw|exact Hw'|subst u u0; lia]).
  pose proof (occurrence_of_marshals o u Ho Hu) as Hm.
  destruct (Marshal (EOcc (occurrence_of o u))); [|done].
  destruct HC as [-> HC]. split; [done|]. by exists u.
Qed.

(** *** Whole executions *)

Lemma tasks_within sched tc ctx job o a w w' x :
  within (jo_ID o) a (w_store w) → run_tasks out_of_range jitter coin sched tc ctx job o w = Next (w', x) →
  within (jo_ID o) a (w_store w').
Proof.
  intros Hw E. unfold run_tasks in E. case_bool_decide; [by eapply parallel_within|].
  pose proof (run_preserves jitter coin (within (jo_ID o) a)
    (executeSequential out_of_range ctx job o) w (stays_sequential a ctx job o _ _) Hw) as HS.
  destruct (run _ _ _ w) as [w1 [y|m]]; by simplify_eq/=.
Qed.
Lemma tasks_later sched tc ctx job o w w' x :
  run_tasks out_of_range jitter coin sched tc ctx job o w = Next (w', x) → w_time w ≤ w_time w'.
Proof.
  unfold run_tasks. case_bool_decide; [apply parallel_later|]. intros E.
  pose proof (run_later jitter coin (executeSequential (M:=M) out_of_range ctx job o) w) as HT.
  destruct (run _ _ _ w) as [w1 [y|m]]; by simplify_eq/=.
Qed.

Lemma execution_later sched tc ctx job o w w' x :
  ExecuteJobOccurrence out_of_range jitter coin sched tc ctx job o w = Next (w', x) → w_time w ≤ w_time w'.
Proof.
  rewrite ExecuteJobOccurrence_eq. intros E.
  pose proof (run_later jitter coin (begin_occurrence (M:=M) ctx job o) w) as Hb.
  destruct (run _ _ (begin_occurrence _ _ _) w) as [w1 [[[[t c] o1]|e]|m]]; cbn [of_outcome fst] in Hb, E; [|by simplify_eq|done].
  destruct (run_tasks _ _ _ _ _ _ _ _ w1) as [|[w2 [rep err]]|m] eqn:Et; [done| |done].
  apply tasks_later in Et.
  pose proof (run_later jitter coin (finish_occurrence (M:=M) job o1 t rep err) w2) as Hf.
  destruct (run _ _ _ w2) as [w3 [y|m]]; simpl in *; [|done]. injection E as <- _. lia.
Qed.

(** The first half: the record says Running. *)
Lemma begin_stores ctx job o a w w' r :
  (∀ er, ¬ fault er) → repr a (contents (w_store w)) → is_Some (a !! jo_slot o) →
  writable_times o → in_rfc3339_range (w_time w) → in_rfc3339_range (w_time w') →
  run jitter coin (begin_occurrence ctx job o) w = (w', r) →
  ∃ t u jobCtx, let o' := set_jo_StartTime (Some t) (set_jo_Status JobStatusRunning o) in
    r = Done (Ok (t, jobCtx, o')) ∧ w_time w ≤ t ≤ w_time w' ∧ in_rfc3339_range t ∧
    repr (<[jo_slot o := EOcc (occurrence_of o' u)]> a) (contents (w_store w')).
Proof.
  intros Hf Hr Ha Ho Hw Hw' E. unfold begin_occurrence in E. rewrite !run_now in E.
  set (w2 := read_clock jitter (read_clock jitter w)) in E.
  set (t := next_reading jitter w) in E.
  set (o' := set_jo_StartTime (Some t) (set_jo_Status JobStatusRunning o)) in E.
  assert (Ht : w_time w ≤ t ∧ t ≤ w_time w2) by (subst t w2; unfold next_reading; simpl; lia).
  rewrite run_bind in E. destruct (run jitter coin (updateOccurrenceStatus o') w2) as [w3 r3] eqn:E3.
  assert (Hw3 : w_time w2 ≤ w_time w3 ≤ w_time w').
  { pose proof (run_later jitter coin (updateOccurrenceStatus (M:=M) o') w2) as H23. rewrite E3 in H23.
    split; [done|]. destruct r3 as [r3|m]; [|by simplify_eq].
    match type of E with run _ _ ?p w3 = _ => pose proof (run_later jitter coin p w3) as H34 end.
    by rewrite E in H34. }
  pose proof (λ y, range_between _ y _ Hw Hw') as Hin.
  assert (Ho' : writable_times o').
  { unfold writable_times in *. apply Forall_cons in Ho as [Hs Ho].
    apply Forall_app in Ho as [_ Ho]. repeat (constructor; [by first [done|apply Hin; lia]|]). exact Ho. }
  destruct (update_status_stores o' a w2 w3 r3 Hf Hr Ha Ho' ltac:(apply Hin; lia) ltac:(apply Hin; lia) E3)
    as (-> & u & Hr3).
  assert (Hend : w_store w' = w_store w3 ∧ w_time w' = w_time w3 ∧ ∃ c, r = Done (Ok (t, c, o'))).
  { destruct (j_OnStart job); simpl in E; injection E as <- <-; simpl; eauto. }
  destruct Hend as (Hst & Hti & c & ->). exists t, u, c. cbv zeta. fold o'. rewrite Hst.
  split_and!; [reflexivity|lia|lia|apply Hin; lia|exact Hr3].
Qed.

(** The second half: the record says how it ended. *)
Lemma finish_stores job o t rep err a w w' r :
  (∀ er, ¬ fault er) → repr a (contents (w_store w)) → is_Some (a !! jo_slot o) →
  writable_times o → in_rfc3339_range (w_time w) → in_rfc3339_range (w_time w') →
  run jitter coin (finish_occurrence job o t rep err) w = (w', r) →
  ∃ e u, let o' := set_jo_Status (match err with Some _ => JobStatusFailed | None => JobStatusCompleted end)
                     (set_jo_EndTime (Some e) o) in
    r = Done (Some rep, err) ∧ w_time w ≤ e ≤ w_time w' ∧
    repr (<[jo_slot o := EOcc (occurrence_of o' u)]> a) (contents (w_store w')).
Proof.
  intros Hf Hr Ha Ho Hw Hw' E. unfold finish_occurrence in E. rewrite run_now in E.
  set (w1 := read_clock jitter w) in E. set (e := next_reading jitter w) in E.
  set (o' := set_jo_Status _ (set_jo_EndTime (Some e) o)) in E.
  assert (He : w_time w ≤ e ∧ e = w_time w1) by (subst e w1; unfold next_reading; simpl; lia).
  rewrite run_bind in E. destruct (run jitter coin (updateOccurrenceStatus o') w1) as [w2 r2] eqn:E2.
  assert (Hw2 : w_time w1 ≤ w_time w2 ≤ w_time w').
  { pose proof (run_later jitter coin (updateOccurrenceStatus (M:=M) o') w1) as H12. rewrite E2 in H12.
    split; [done|]. destruct r2 as [r2|m]; [|by simplify_eq].
    match type of E with run _ _ ?p w2 = _ => pose proof (run_later jitter coin p w2) as H23 end.
    by rewrite E in H23. }
  pose proof (λ y, range_between _ y _ Hw Hw') as Hin.
  assert (Ho' : writable_times o').
  { unfold writable_times in *. apply Forall_cons in Ho as [Hs Ho].
    apply Forall_app in Ho as [Hst Ho]. apply Forall_app in Ho as [_ Hc].
    constructor; [done|]. apply Forall_app; split; [done|]. constructor; [apply Hin; lia|done]. }
  destruct (update_status_stores o' a w1 w2 r2 Hf Hr Ha Ho' ltac:(apply Hin; lia) ltac:(apply Hin; lia) E2)
    as (-> & u & Hr2).
  exists e, u. cbv zeta. fold o'.
  assert (Hend : w_store w' = w_store w2 ∧ w_time w' = w_time w2 ∧ r = Done (Some rep, err)).
  { destruct (j_OnComplete job); simpl in E; injection E as <- <-; simpl; eauto. }
  destruct Hend as (Hst & Hti & ->). rewrite Hst.
  split_and!; [reflexivity|lia|lia|exact Hr2].
Qed.

(** The record of an ended execution. *)
Definition ended (occ : JobOccurrence) (err : option GoError) (t e u : Instant) : StorageOccurrence :=
  mkStorageOccurrence (jo_ID occ) (jo_JobID occ) (jo_JobVersion occ) (jo_ScheduledTime occ)
    (match err with Some _ => JobStatusFailed | None => JobStatusCompleted end)
    (jo_OwningNodeID occ) (Some t) (Some e) BNil (jo_IsRecoveryRun occ) (jo_CreatedAt occ) u.

Lemma execution_stores sched tc ctx job occ a w w' rep err :
  (∀ er, ¬ fault er) → repr a (contents (w_store w)) → is_Some (a !! jo_slot occ) →
  writable_times occ → in_rfc3339_range (w_time w) → in_rfc3339_range (w_time w') →
  ExecuteJobOccurrence out_of_range jitter coin sched tc ctx job occ w = Next (w', (rep, err)) →
  (∃ r, rep = Some r ∧ er_OccurrenceID r = jo_ID occ) ∧
  ∃ a' t e u, w_time w ≤ t ≤ e ∧ e ≤ w_time w' ∧ repr a' (contents (w_store w')) ∧
    a' !! jo_slot occ = Some (EOcc (ended occ err t e u)) ∧
    ∀ s, s ≠ jo_slot occ → ¬ own (jo_ID occ) s → a' !! s = a !! s.
Proof.
  intros Hf Hr Ha Ho Hw Hw' E. unfold ExecuteJobOccurrence in E.
  destruct (run jitter coin (begin_occurrence ctx job occ) w) as [w1 r1] eqn:E1.
  assert (H01 : w_time w ≤ w_time w1)
    by (pose proof (run_later jitter coin (begin_occurrence (M:=M) ctx job occ) w) as Hl; by rewrite E1 in Hl).
  destruct r1 as [[[[t0 c0] o0]|e0]|m]; simpl in E; [| |done].
  2:{ injection E as <- <- <-. by edestruct (begin_stores _ _ _ _ _ _ _ Hf Hr Ha Ho Hw Hw' E1)
        as (? & ? & ? & [=] & _). }
  change (match run_tasks out_of_range jitter coin sched tc c0 job o0 w1 with
          | Disabled => Disabled | Panicked m => Panicked m
          | Next (w, (report, err)) => of_outcome (run jitter coin (finish_occurrence job o0 t0 report err) w)
          end = Next (w', (rep, err))) in E.
  destruct (run_tasks out_of_range jitter coin sched tc c0 job o0 w1) as [|[w2 [rep2 err2]]|] eqn:E2; [done| |done].
  destruct (run jitter coin (finish_occurrence job o0 t0 rep2 err2) w2) as [w3 r3] eqn:E3.
  assert (Hw3 : w3 = w') by (destruct r3; simpl in E; by simplify_eq). subst w3.
  assert (H23 : w_time w2 ≤ w_time w')
    by (pose proof (run_later jitter coin (finish_occurrence (M:=M) job o0 t0 rep2 err2) w2) as Hl; by rewrite E3 in Hl).
  pose proof (tasks_later _ _ _ _ _ _ _ _ E2) as H12.
  pose proof (λ y, range_between _ y _ Hw Hw') as Hin.
  destruct (begin_stores _ _ _ _ _ _ _ Hf Hr Ha Ho Hw (Hin (w_time w1) ltac:(lia)) E1)
    as (t & u1 & c1 & [= -> -> ->] & Ht & Htr & Hr1).
  set (o1 := set_jo_StartTime (Some t) (set_jo_Status JobStatusRunning occ)) in *.
  set (a1 := <[jo_slot occ := EOcc (occurrence_of o1 u1)]> a) in *.
  assert (Hwi : within (jo_ID o1) a1 (w_store w1)) by (exists a1; by split).
  pose proof E2 as Hb. apply tasks_basics in Hb as (_ & Hid & _).
  apply (tasks_within _ _ _ _ _ _ _ _ _ Hwi) in E2 as (a2 & Hr2 & Ha2).
  assert (Hocc : a2 !! jo_slot occ = Some (EOcc (occurrence_of o1 u1)))
    by (rewrite Ha2 by (by intros []); subst a1; by rewrite lookup_insert_eq).
  assert (Ho1 : writable_times o1).
  { unfold writable_times in *. apply Forall_cons in Ho as [Hs Ho]. apply Forall_app in Ho as [_ Ho].
    constructor; [done|]. by constructor. }
  destruct (finish_stores job o1 t rep2 err2 a2 w2 w' r3 Hf Hr2 ltac:(by eexists) Ho1
    (Hin (w_time w2) ltac:(lia)) Hw' E3) as (e & u & -> & He & Hr3).
  simpl in E. injection E as <- <-. split; [by exists rep2|].
  eexists _, t, e, u. split_and!; [lia|lia|lia|exact Hr3|apply lookup_insert_eq|].
  intros s Hne Hown. rewrite lookup_insert_ne by done. rewrite Ha2 by done.
  subst a1. by rewrite lookup_insert_ne.
Qed.

(** C6: what an execution leaves behind.  On a healthy engine, the execution
    of a stored occurrence, in either mode and for any schedule of a parallel
    group, returns a report and leaves that occurrence's record at its end:
    Failed if an error is returned and Completed otherwise, with a start and
    an end that follow each other within the execution.  Its identity, its
    version and its scheduled time are kept.  Of all other records only the
    occurrence's own task runs and attempts may have changed. *)
Theorem execution_recorded sched tc ctx job occ a w w' rep err :
  (∀ er, ¬ fault er) → repr a (contents (w_store w)) → is_Some (a !! jo_slot occ) →
  writable_times occ → in_rfc3339_range (w_time w) → in_rfc3339_range (w_time w') →
  ExecuteJobOccurrence out_of_range jitter coin sched tc ctx job occ w = Next (w', (rep, err)) →
  (∃ r, rep = Some r ∧ er_OccurrenceID r = jo_ID occ) ∧
  ∃ a' t e u, w_time w ≤ t ≤ e ∧ e ≤ w_time w' ∧ repr a' (contents (w_store w')) ∧
    a' !! jo_slot occ = Some (EOcc (ended occ err t e u)) ∧
    ∀ s, s ≠ jo_slot occ → ¬ own (jo_ID occ) s → a' !! s = a !! s.
Proof.
  exact (execution_stores sched tc ctx job occ a w w' rep err).
Qed.
End ExecutorStore.
