(* ===== verification/Recovery.v ===== *)
(** * recovery/recovery.go and recovery/reaper.go

    The worker pool is behind an interface: [submit job occurrence] is the
    program that hands the execution of an occurrence to the pool. *)
From S2P Require Import Prelude GoTime GoContext Types Ids Job Metrics Storage Badger StorageSpec BadgerCorrect Effects Logged OccStore.
Local Open Scope Z_scope.

Section Recovery.
Context {S M : Type} `{UuidLib} `{Storage S} `{MetricsCollector M}.
Context (submit : Job → JobOccurrence → Prog S M unit).

Definition recovery_occurrence (job : Job) (scheduledTime : Time) (created updated : Instant)
  : JobOccurrence :=
  mkJobOccurrence (GenerateJobOccurrenceID (j_ID job) scheduledTime) (j_ID job) (j_Version job)
    (inst scheduledTime) JobStatusPending EmptyString None None (j_Config job) true created updated.

(** The conversion to the stored form leaves the configuration out. *)
Definition recovery_record (o : JobOccurrence) : StorageOccurrence :=
  mkStorageOccurrence (jo_ID o) (jo_JobID o) (jo_JobVersion o) (jo_ScheduledTime o) (jo_Status o)
    EmptyString None None BNil (jo_IsRecoveryRun o) (jo_CreatedAt o) (jo_UpdatedAt o).

Definition scheduleRecoveryRun (job : Job) (scheduledTime : Time) (strategy : string)
  : Prog S M (Result unit) :=
  created ← do Now;
  updated ← do Now;
  let occurrence := recovery_occurrence job scheduledTime created updated in
  r ← do (OnStore (CreateJobOccurrence (recovery_record occurrence)));
  match r with
  | Err _ => Ret (Ok tt)
  | Ok _ =>
      _ ← do (OnMetrics (IncRecoveryRuns (j_Name job) strategy));
      _ ← submit job occurrence;
      Ret (Ok tt)
  end.

Fixpoint executeAll (job : Job) (missedTimes : list Time) : Prog S M (Result unit) :=
  match missedTimes with
  | [] => Ret (Ok tt)
  | t :: ts =>
      r ← scheduleRecoveryRun job t "full_backfill";
      match r with Err e => Ret (Err e) | Ok _ => executeAll job ts end
  end.

Definition executeLast (job : Job) (missedTimes : list Time) : Prog S M (Result unit) :=
  match last missedTimes with
  | None => Ret (Ok tt)
  | Some t => scheduleRecoveryRun job t "latest_only"
  end.

Definition markAsMissed (job : Job) (missedTimes : list Time) : Prog S M (Result unit) := Ret (Ok tt).

(** [filteredTimes[len(filteredTimes)-n:]] when there are more than [n > 0]. *)
Definition keep_last (n : Z) (ts : list Time) : list Time :=
  if (0 <? n) && (n <? Z.of_nat (length ts)) then drop (length ts - Z.to_nat n) ts else ts.
Definition after_cutoff (cutoff : Instant) (ts : list Time) : list Time :=
  filter (λ t, cutoff < inst t) ts.

Definition boundedWindow (job : Job) (missedTimes : list Time) : Prog S M (Result unit) :=
  match jc_BoundedWindow (j_Config job) with
  | None => executeAll job missedTimes
  | Some window =>
      filteredTimes ←
        (if 0 <? MaxDuration window then
           now ← do Now;
           Ret (after_cutoff (now + wrap64 (- MaxDuration window)) missedTimes)
         else Ret missedTimes);
      executeAll job (keep_last (MaxOccurrences window) filteredTimes)
  end.

Definition ApplyStrategy (job : Job) (missedTimes : list Time) : Prog S M (Result unit) :=
  match missedTimes with
  | [] => Ret (Ok tt)
  | _ =>
      let s := jc_RecoveryStrategy (j_Config job) in
      if bool_decide (s = RecoveryStrategyExecuteAll) then executeAll job missedTimes
      else if bool_decide (s = RecoveryStrategyExecuteLast) then executeLast job missedTimes
      else if bool_decide (s = RecoveryStrategyMarkAsMissed) then markAsMissed job missedTimes
      else if bool_decide (s = RecoveryStrategyBoundedWindow) then boundedWindow job missedTimes
      else executeAll job missedTimes
  end.

(** *** The reaper *)

(** One stale occurrence: the copy read earlier, with three fields set, is
    written back; errors are ignored. *)
Definition mark_stale (occ : StorageOccurrence) : Prog S M unit :=
  now ← do Now;
  let occ := set_so_UpdatedAt now (set_so_EndTime (Some now) (set_so_Status JobStatusFailedStale occ)) in
  t ← do Now;
  _ ← do (OnStore (UpdateJobOccurrence t occ));
  Ret tt.

Fixpoint mark_all (occs : list StorageOccurrence) : Prog S M unit :=
  match occs with
  | [] => Ret tt
  | o :: os => _ ← mark_stale o; mark_all os
  end.

Definition reapStaleJobs : Prog S M unit :=
  now ← do Now;
  r ← do (OnStore (ListStaleOccurrences now (1 * Hour)));
  match r with
  | Err _ => Ret tt
  | Ok staleOccurrences => mark_all staleOccurrences
  end.
End Recovery.

(** The reaper's goroutine, and its control. *)
Module Reaper.
Record t := mk {
  interval : Duration;
  stopClosed : bool;
  spawned : nat;                 (* goroutines before their first statement *)
  goroutines : nat;              (* goroutines at their select *)
  scans : nat;
}.

Definition New (interval : Duration) : t :=
  mk (if interval =? 0 then 5 * Minute else interval) false 0 0 0.

Inductive action :=
| Start | Stop
| Begin          (* a goroutine makes its ticker *)
| CtxDone        (* a goroutine sees its context done *)
| StopSeen       (* a goroutine sees the stop channel closed *)
| Tick.          (* its ticker goes off: one scan *)

(** [time.NewTicker] panics on a non-positive interval, in the goroutine. *)
Definition step (r : t) (a : action) : StepResult t :=
  match a with
  | Start => Next (mk (interval r) (stopClosed r) (S (spawned r)) (goroutines r) (scans r))
  | Stop =>
      if stopClosed r then Panicked "close of closed channel"
      else Next (mk (interval r) true (spawned r) (goroutines r) (scans r))
  | Begin =>
      match spawned r with
      | O => Disabled
      | S n =>
          if interval r <=? 0 then Panicked "non-positive interval for NewTicker"
          else Next (mk (interval r) (stopClosed r) n (S (goroutines r)) (scans r))
      end
  | CtxDone =>
      match goroutines r with
      | O => Disabled
      | S n => Next (mk (interval r) (stopClosed r) (spawned r) n (scans r))
      end
  | StopSeen =>
      match goroutines r with
      | S n => if stopClosed r then Next (mk (interval r) true (spawned r) n (scans r)) else Disabled
      | O => Disabled
      end
  | Tick =>
      match goroutines r with
      | O => Disabled
      | S _ => Next (mk (interval r) (stopClosed r) (spawned r) (goroutines r) (S (scans r)))
      end
  end.
End Reaper.

(** ** Which missed times a strategy runs *)

(** The [n] newest of a list in order of time; all of it when [n] is no bound. *)
Definition newest (n : Z) (ts : list Time) : list Time :=
  if n <=? 0 then ts else reverse (take (Z.to_nat n) (reverse ts)).

(** With a window, the times of the last [MaxDuration], and of these the
    [MaxOccurrences] newest; a bound that is not positive is none. *)
Definition selected (c : JobConfig) (now : Instant) (ts : list Time) : list Time :=
  let s := jc_RecoveryStrategy c in
  if bool_decide (s = RecoveryStrategyExecuteLast) then newest 1 ts
  else if bool_decide (s = RecoveryStrategyMarkAsMissed) then []
  else if bool_decide (s = RecoveryStrategyBoundedWindow) then
    match jc_BoundedWindow c with
    | None => ts
    | Some w =>
        newest (MaxOccurrences w)
          (filter (λ t, MaxDuration w ≤ 0 ∨ now + wrap64 (- MaxDuration w) < inst t) ts)
    end
  else ts.

Lemma keep_last_newest n ts : keep_last n ts = newest n ts.
Proof.
  unfold keep_last, newest. rewrite reverse_take, reverse_involutive, length_reverse.
  destruct (Z.ltb_spec 0 n), (Z.leb_spec n 0); try lia; simpl; [|done].
  case_match eqn:E; [done|]. apply Z.ltb_ge in E.
  by replace (length ts - Z.to_nat n)%nat with 0%nat by lia.
Qed.
Lemma last_newest ts : newest 1 ts = match last ts with Some t => [t] | None => [] end.
Proof.
  unfold newest. simpl. destruct ts as [|t ts _] using rev_ind; [done|].
  by rewrite reverse_snoc, last_snoc.
Qed.
Lemma cutoff_recent d now ts :
  (if 0 <? d then after_cutoff (now + wrap64 (- d)) ts else ts) =
    filter (λ t, d ≤ 0 ∨ now + wrap64 (- d) < inst t) ts.
Proof.
  unfold after_cutoff. destruct (Z.ltb_spec 0 d).
  - apply list_filter_iff. intros t. split; [by right|]. intros [?|?]; [lia|done].
  - induction ts as [|t ts IH]; [done|]. rewrite filter_cons_True by (by left). by f_equal.
Qed.
Lemma newest_Forall (P : Time → Prop) n ts : Forall P ts → Forall P (newest n ts).
Proof. intros Ht. unfold newest. case_match; [done|].
  by rewrite Forall_reverse; apply Forall_take; rewrite Forall_reverse. Qed.

Lemma selected_nil c now : selected c now [] = [].
Proof.
  assert (Hk : ∀ n, newest n [] = []).
  { intros n. unfold newest. rewrite reverse_nil, take_nil. by destruct (n <=? 0). }
  unfold selected. repeat case_match; try done; by rewrite ?Hk.
Qed.

Lemma selected_Forall (P : Time → Prop) c now ts : Forall P ts → Forall P (selected c now ts).
Proof.
  intros Ht. unfold selected. repeat case_match; auto using newest_Forall.
  apply newest_Forall. rewrite Forall_forall in *. intros t [_ Hin]%list_elem_of_filter. auto.
Qed.

Section Selected.
Context {S M : Type} `{UuidLib} `{Storage S} `{MetricsCollector M}.
Context (submit : Job → JobOccurrence → Prog S M unit) (jitter : nat → Z) (coin : nat → bool).
Implicit Types (w : World S M).

Definition reads_clock (c : JobConfig) : bool :=
  bool_decide (jc_RecoveryStrategy c = RecoveryStrategyBoundedWindow) &&
  match jc_BoundedWindow c with Some w => 0 <? MaxDuration w | None => false end.
Definition label (c : JobConfig) : string :=
  if bool_decide (jc_RecoveryStrategy c = RecoveryStrategyExecuteLast)
  then "latest_only" else "full_backfill".

Fixpoint schedule_all (job : Job) (strategy : string) (ts : list Time) : Prog S M (Result unit) :=
  match ts with
  | [] => Ret (Ok tt)
  | t :: ts' =>
      r ← scheduleRecoveryRun submit job t strategy;
      match r with Err e => Ret (Err e) | Ok _ => schedule_all job strategy ts' end
  end.
Lemma executeAll_eq job ts : executeAll submit job ts = schedule_all job "full_backfill" ts.
Proof. induction ts as [|t ts IH]; simpl; [done|]. by rewrite IH. Qed.

(** [ApplyStrategy] is: select, then schedule each selected time in order. *)
Definition strategy_program (job : Job) (ts : list Time) : Prog S M (Result unit) :=
  let c := j_Config job in
  if negb (bool_decide (ts = [])) && reads_clock c
  then now ← do Now; schedule_all job (label c) (selected c now ts)
  else schedule_all job (label c) (selected c (inst zeroTime) ts).

Lemma ApplyStrategy_same job ts : same (ApplyStrategy submit job ts) (strategy_program job ts).
Proof.
  unfold strategy_program. destruct ts as [|t ts]; [rewrite selected_nil; constructor|].
  unfold ApplyStrategy. set (l := t :: ts).
  assert (Hl : bool_decide (l = []) = false) by (by apply bool_decide_false).
  rewrite Hl. clearbody l. clear Hl t ts. simpl.
  assert (Hlast : same (executeLast submit job l) (schedule_all job "latest_only" (newest 1 l))).
  { unfold executeLast. rewrite last_newest. destruct (last l) as [t|]; [|constructor].
    cbn [schedule_all]. apply same_ret. by intros [[]|e]. }
  unfold selected, label, reads_clock. generalize (jc_RecoveryStrategy (j_Config job)). intros s.
  destruct (decide (s = RecoveryStrategyExecuteAll)) as [->|Hs1]; [rewrite executeAll_eq; constructor|].
  rewrite (bool_decide_false (s = RecoveryStrategyExecuteAll)) by done.
  destruct (decide (s = RecoveryStrategyExecuteLast)) as [->|Hs2]; [exact Hlast|].
  rewrite (bool_decide_false (s = RecoveryStrategyExecuteLast)) by done.
  destruct (decide (s = RecoveryStrategyMarkAsMissed)) as [->|Hs3]; [constructor|].
  rewrite (bool_decide_false (s = RecoveryStrategyMarkAsMissed)) by done.
  case_bool_decide; simpl; rewrite ?executeAll_eq; [|constructor].
  unfold boundedWindow. destruct (jc_BoundedWindow (j_Config job)) as [b|]; rewrite ?executeAll_eq; [|constructor].
  pose proof (cutoff_recent (MaxDuration b)) as Hc. destruct (0 <? MaxDuration b); simpl.
  - constructor. intros now. simpl. rewrite executeAll_eq, keep_last_newest, Hc. constructor.
  - rewrite executeAll_eq, keep_last_newest, <- Hc. constructor.
Qed.

(** The world after the readings of the strategy itself. *)
Definition after_reading (c : JobConfig) (ts : list Time) w : World S M :=
  if negb (bool_decide (ts = [])) && reads_clock c then read_clock jitter w else w.

Lemma selected_no_clock c n n' ts : reads_clock c = false → selected c n ts = selected c n' ts.
Proof.
  unfold reads_clock, selected. intros Hr. repeat case_match; try done; simplify_eq/=.
  rewrite <- !cutoff_recent. by rewrite Hr.
Qed.

Lemma ApplyStrategy_selects job ts w :
  run jitter coin (ApplyStrategy submit job ts) w =
    run jitter coin (schedule_all job (label (j_Config job))
                       (selected (j_Config job) (next_reading jitter w) ts))
      (after_reading (j_Config job) ts w).
Proof.
  rewrite (run_same _ _ _ _ _ (ApplyStrategy_same job ts)). unfold strategy_program, after_reading.
  destruct (decide (ts = [])) as [->|Hts]; [by rewrite !selected_nil|].
  rewrite bool_decide_false by done. cbv beta iota zeta delta [negb andb].
  destruct (reads_clock (j_Config job)) eqn:Er; [by rewrite run_now|].
  by rewrite (selected_no_clock _ _ (next_reading jitter w)).
Qed.
End Selected.

(** ** Recovery over the store *)
Section RecoveryStore.
Context {M : Type} `{UuidLaws} `{BadgerLaws} `{MetricsCollector M}.
Context (jitter : nat → Z) (coin : nat → bool).
Implicit Types (w : World (DB * list Submission) M) (a : gmap slot entry).
#[local] Existing Instance BadgerStorage.storage.

Definition occ_slot (job : Job) (t : Time) : slot :=
  OccSlot (j_ID job) (GenerateJobOccurrenceID (j_ID job) t).
Definition schedule := schedule_all (M:=M) submit_logged.

Lemma record_marshals job t c u :
  in_rfc3339_range (inst t) → in_rfc3339_range c → in_rfc3339_range u →
  is_ok (Marshal (EOcc (recovery_record (recovery_occurrence job t c u)))) = true.
Proof.
  intros Ht Hc Hu. simpl. unfold Marshal_Occurrence, out_time. simpl.
  by rewrite !bool_decide_true by done.
Qed.

(** What scheduling one time does. *)
Definition scheduled_one (job : Job) (t : Time) a l a' (l' : list Submission) : Prop :=
  match a !! occ_slot job t with
  | Some _ => a' = a ∧ l' = l
  | None => ∃ c u, let o := recovery_occurrence job t c u in
      a' = <[occ_slot job t := EOcc (recovery_record o)]> a ∧ l' = l ++ [(job, o)]
  end.

Lemma schedule_one job t strat a db l w w' o :
  (∀ er, ¬ fault er) → job_id_ok (j_ID job) → in_rfc3339_range (inst t) →
  in_rfc3339_range (w_time w) → in_rfc3339_range (w_time w') →
  w_store w = (db, l) → repr a (contents db) →
  run jitter coin (scheduleRecoveryRun (M:=M) submit_logged job t strat) w = (w', o) →
  o = Done (Ok tt) ∧ ∃ a' db' l', w_store w' = (db', l') ∧ repr a' (contents db') ∧
    scheduled_one job t a l a' l'.
Proof.
  intros Hf Hj Ht Hw Hw' Hst Hr E. unfold scheduleRecoveryRun in E. simpl in E.
  set (c := w_time w + _) in E. set (u := c + _) in E. rewrite Hst in E. simpl in E.
  set (rec := recovery_record (recovery_occurrence job t c u)) in E.
  assert (Hslot : slot_of (EOcc rec) = occ_slot job t) by done.
  assert (Hok : slot_ok (slot_of (EOcc rec))) by (split; [exact Hj|apply GenerateJobOccurrenceID_slash_free]).
  pose proof (create_cases a db (EOcc rec) Hr Hok) as HC. rewrite Hslot in HC.
  change (do_create (EOcc rec)) with (BadgerStorage.CreateJobOccurrence rec) in HC.
  destruct (BadgerStorage.CreateJobOccurrence rec db) as [db1 r]. unfold scheduled_one.
  destruct HC as [(er & _ & Her & _)|HC]; [by apply Hf in Her|].
  destruct (a !! occ_slot job t) as [e|] eqn:Ea.
  - destruct HC as [-> Hr1]. simpl in E. injection E as <- <-. split; [done|].
    by exists a, db1, l.
  - assert (Hm : is_ok (Marshal (EOcc rec)) = true).
    { apply record_marshals; [done|..];
        (eapply range_between; [exact Hw|exact Hw'|]); subst c u;
        destruct (Marshal (EOcc rec)); destruct HC as [-> _]; simpl in E;
        injection E as <- <-; simpl; lia. }
    destruct (Marshal (EOcc rec)); [|done]. destruct HC as [-> Hr1]. simpl in E.
    injection E as <- <-. split; [done|].
    eexists _, db1, _. split; [reflexivity|]. split; [exact Hr1|]. by exists c, u.
Qed.

Definition scheduled_all (job : Job) (ts : list Time) a l a' (l' : list Submission) : Prop :=
  ∃ occs, l' = l ++ ((λ o, (job, o)) <$> occs) ∧ NoDup (jo_ID <$> occs) ∧
    (∀ t, t ∈ ts → is_Some (a' !! occ_slot job t)) ∧
    Forall (λ o, a !! OccSlot (j_ID job) (jo_ID o) = None ∧
                 ∃ t c u, t ∈ ts ∧ o = recovery_occurrence job t c u) occs ∧
    (∀ s, a' !! s = a !! s ∨
       (a !! s = None ∧ ∃ o, o ∈ occs ∧ s = OccSlot (j_ID job) (jo_ID o) ∧
                             a' !! s = Some (EOcc (recovery_record o)))).

Lemma scheduled_all_cons job t ts a l a1 l1 a' l' :
  scheduled_one job t a l a1 l1 → scheduled_all job ts a1 l1 a' l' →
  scheduled_all job (t :: ts) a l a' l'.
Proof.
  unfold scheduled_one. intros Hone (occs & -> & Hnd & Hin & Hocc & Hs).
  destruct (a !! occ_slot job t) as [e|] eqn:Ea.
  - destruct Hone as [-> ->]. exists occs. split_and!; [done|done| | |done].
    + intros t' [->|Ht]%elem_of_cons; [|by apply Hin].
      destruct (Hs (occ_slot job t)) as [->|(Hn & _)]; [by eexists|congruence].
    + eapply Forall_impl; [exact Hocc|]. intros o (Ho & t' & c & u & Ht & ->).
      split; [done|]. exists t', c, u. split; [by right|done].
  - destruct Hone as (c & u & -> & ->). set (o := recovery_occurrence job t c u) in *.
    exists (o :: occs). rewrite <- app_assoc. split_and!; [done| | | |].
    + cbn [fmap list_fmap]. apply NoDup_cons. split; [|done].
      rewrite list_elem_of_fmap. intros (o' & Heq & Ho').
      rewrite Forall_forall in Hocc. destruct (Hocc o' Ho') as [Hn _].
      rewrite <- Heq in Hn. by rewrite lookup_insert_eq in Hn.
    + intros t' [->|Ht]%elem_of_cons; [|by apply Hin].
      destruct (Hs (occ_slot job t)) as [->|(Hn & _)]; rewrite lookup_insert_eq in *; [by eexists|done].
    + constructor; [split; [exact Ea|exists t, c, u; split; [by left|done]]|].
      eapply Forall_impl; [exact Hocc|]. intros o' (Ho & t' & c' & u' & Ht & Heq).
      apply lookup_insert_None in Ho as [Ho _].
      split; [done|]. exists t', c', u'. split; [by right|done].
    + intros s. destruct (decide (s = occ_slot job t)) as [->|Hne].
      * right. split; [done|]. exists o. split; [by left|]. split; [done|].
        destruct (Hs (occ_slot job t)) as [->|(Hn & _)]; rewrite lookup_insert_eq in *; done.
      * destruct (Hs s) as [Heq|(Hn & o' & Ho' & Hslot & Hs')].
        -- left. by rewrite Heq, lookup_insert_ne.
        -- right. rewrite lookup_insert_ne in Hn by done. split; [done|].
           exists o'. split; [by right|done].
Qed.

Lemma schedule_all_spec job strat ts a db l w w' o :
  (∀ er, ¬ fault er) → job_id_ok (j_ID job) → Forall (λ t, in_rfc3339_range (inst t)) ts →
  in_rfc3339_range (w_time w) → in_rfc3339_range (w_time w') →
  w_store w = (db, l) → repr a (contents db) →
  run jitter coin (schedule job strat ts) w = (w', o) →
  o = Done (Ok tt) ∧ ∃ a' db' l', w_store w' = (db', l') ∧ repr a' (contents db') ∧
    scheduled_all job ts a l a' l'.
Proof.
  intros Hf Hj Hts. revert a db l w. induction Hts as [|t ts Ht _ IH]; intros a db l w Hw Hw' Hst Hr E.
  - injection E as <- <-. split; [done|]. exists a, db, l. split_and!; [done|done|].
    exists []. simpl. rewrite app_nil_r. split_and!; [done|constructor|by intros ? ?%elem_of_nil|constructor|by left].
  - unfold schedule in E. cbn [schedule_all] in E. rewrite run_bind in E.
    destruct (run jitter coin (scheduleRecoveryRun _ job t strat) w) as [w1 o1] eqn:E1.
    assert (Hw1 : in_rfc3339_range (w_time w1)).
    { pose proof (run_later jitter coin (scheduleRecoveryRun (M:=M) submit_logged job t strat) w) as Hl.
      rewrite E1 in Hl. simpl in Hl.
      destruct o1 as [r|m]; [|injection E as <- <-; done].
      match type of E with run _ _ ?p _ = _ =>
        pose proof (run_later jitter coin p w1) as Hl2; rewrite E in Hl2; simpl in Hl2 end.
      by eapply range_between; [exact Hw|exact Hw'|]. }
    destruct (schedule_one _ _ _ _ _ _ _ _ _ Hf Hj Ht Hw Hw1 Hst Hr E1)
      as (-> & a1 & db1 & l1 & Hst1 & Hr1 & Hone).
    destruct (IH _ _ _ _ Hw1 Hw' Hst1 Hr1 E) as (-> & a2 & db2 & l2 & Hst2 & Hr2 & Hall).
    split; [done|]. exists a2, db2, l2. split_and!; [done|done|].
    by eapply scheduled_all_cons.
Qed.

Lemma ApplyStrategy_store job ts a db l w w' o :
  (∀ er, ¬ fault er) → job_id_ok (j_ID job) → Forall (λ t, in_rfc3339_range (inst t)) ts →
  in_rfc3339_range (w_time w) → in_rfc3339_range (w_time w') →
  w_store w = (db, l) → repr a (contents db) →
  run jitter coin (ApplyStrategy submit_logged job ts) w = (w', o) →
  o = Done (Ok tt) ∧ ∃ a' db' l', w_store w' = (db', l') ∧ repr a' (contents db') ∧
    scheduled_all job (selected (j_Config job) (next_reading jitter w) ts) a l a' l'.
Proof.
  intros Hf Hj Hts Hw Hw' Hst Hr E. rewrite ApplyStrategy_selects in E.
  assert (Hread : w_store (after_reading jitter (j_Config job) ts w) = (db, l) ∧
    w_time w ≤ w_time (after_reading jitter (j_Config job) ts w)).
  { unfold after_reading. case_match; simpl; split; (done || lia). }
  destruct Hread as [Hst1 Ht1].
  pose proof (run_later jitter coin (schedule job (label (j_Config job))
    (selected (j_Config job) (next_reading jitter w) ts)) (after_reading jitter (j_Config job) ts w)) as Hl.
  unfold schedule in Hl. rewrite E in Hl. simpl in Hl.
  eapply schedule_all_spec; [done|done|by apply selected_Forall| |exact Hw'|exact Hst1|exact Hr|exact E].
  by eapply range_between; [exact Hw|exact Hw'|].
Qed.

(** C4: recovery.  With a healthy database, [ApplyStrategy] never fails and
    never panics.  It hands to the pool exactly the selected missed times
    whose occurrence is not stored yet, each once, in the form of a pending
    recovery occurrence, after storing that occurrence; afterwards every
    selected time has a stored occurrence; no other record changes. *)
Theorem recovery_runs_selected job ts a db l w w' o :
  (∀ er, ¬ fault er) → job_id_ok (j_ID job) → Forall (λ t, in_rfc3339_range (inst t)) ts →
  in_rfc3339_range (w_time w) → in_rfc3339_range (w_time w') →
  w_store w = (db, l) → repr a (contents db) →
  run jitter coin (ApplyStrategy submit_logged job ts) w = (w', o) →
  let sel := selected (j_Config job) (next_reading jitter w) ts in
  o = Done (Ok tt) ∧ ∃ a' db' occs,
    w_store w' = (db', l ++ ((λ o, (job, o)) <$> occs)) ∧ repr a' (contents db') ∧
    NoDup (jo_ID <$> occs) ∧
    Forall (λ o, a !! OccSlot (j_ID job) (jo_ID o) = None ∧
      ∃ t c u, t ∈ sel ∧ o = recovery_occurrence job t c u) occs ∧
    (∀ t, t ∈ sel → is_Some (a' !! occ_slot job t) ∧
       (a !! occ_slot job t = None → GenerateJobOccurrenceID (j_ID job) t ∈ jo_ID <$> occs)) ∧
    (∀ s, a' !! s = a !! s ∨
       (a !! s = None ∧ ∃ o, o ∈ occs ∧ s = OccSlot (j_ID job) (jo_ID o) ∧
                             a' !! s = Some (EOcc (recovery_record o)))).
Proof.
  intros Hf Hj Hts Hw Hw' Hst Hr E sel.
  destruct (ApplyStrategy_store _ _ _ _ _ _ _ _ Hf Hj Hts Hw Hw' Hst Hr E)
    as (-> & a' & db' & l' & Hst' & Hr' & occs & -> & Hnd & Hin & Hocc & Hs).
  split; [done|]. exists a', db', occs. split_and!; try done.
  intros t Ht. split; [by apply Hin|]. intros Hn.
  destruct (Hs (occ_slot job t)) as [Heq|(_ & o & Ho & Hslot & _)].
  - destruct (Hin t Ht) as [e He]. congruence.
  - injection Hslot as ->. apply list_elem_of_fmap. by exists o.
Qed.

(** Recovery is idempotent.  Applying the strategy again to the same
    missed times, over the store the first application left (a restart), for
    a strategy that does not depend on the time of day, runs nothing. *)
Lemma recovery_idempotent job ts a db l w w1 o1 w2 w3 o3 :
  (∀ er, ¬ fault er) → job_id_ok (j_ID job) → Forall (λ t, in_rfc3339_range (inst t)) ts →
  in_rfc3339_range (w_time w) → in_rfc3339_range (w_time w1) →
  w_store w = (db, l) → repr a (contents db) → reads_clock (j_Config job) = false →
  run jitter coin (ApplyStrategy submit_logged job ts) w = (w1, o1) →
  w_store w2 = w_store w1 → in_rfc3339_range (w_time w2) → in_rfc3339_range (w_time w3) →
  run jitter coin (ApplyStrategy submit_logged job ts) w2 = (w3, o3) →
  o3 = Done (Ok tt) ∧ snd (w_store w3) = snd (w_store w1).
Proof.
  intros Hf Hj Hts Hw Hw1 Hst Hr Hc E1 Hst2 Hw2 Hw3 E3.
  destruct (ApplyStrategy_store _ _ _ _ _ _ _ _ Hf Hj Hts Hw Hw1 Hst Hr E1)
    as (_ & a1 & db1 & l1 & Hst1 & Hr1 & occs1 & _ & _ & Hin1 & _ & _).
  rewrite Hst1 in Hst2.
  destruct (ApplyStrategy_store _ _ _ _ _ _ _ _ Hf Hj Hts Hw2 Hw3 Hst2 Hr1 E3)
    as (-> & a3 & db3 & l3 & Hst3 & _ & occs3 & -> & _ & _ & Hocc3 & _).
  split; [done|]. rewrite Hst1, Hst3. simpl.
  destruct occs3 as [|o occs3]; [simpl; by rewrite app_nil_r|]. exfalso.
  apply Forall_cons in Hocc3 as [(Hn & t & c & u & Ht & ->) _].
  rewrite (selected_no_clock _ _ (next_reading jitter w)) in Ht by done.
  destruct (Hin1 t Ht) as [e He]. simpl in Hn. unfold occ_slot in He. congruence.
Qed.
End RecoveryStore.

(** ** Reaping over the store *)
Section ReaperStore.
Context {M : Type} `{BadgerLaws}.
Context (jitter : nat → Z) (coin : nat → bool).
Implicit Types (w : World DB M) (a : gmap slot entry) (o : StorageOccurrence).
#[local] Existing Instance BadgerStorage.storage.

(** What the reaper makes of an occurrence at a reading [e] of the clock. *)
Definition reap (e : Instant) o : StorageOccurrence :=
  set_so_UpdatedAt e (set_so_EndTime (Some e) (set_so_Status JobStatusFailedStale o)).

Lemma reap_keeps : keeps_record reap.
Proof.
  split; [done|]. intros e u o Hm He Hu. simpl in *. unfold Marshal_Occurrence in *. simpl in *.
  destruct (out_time (so_ScheduledTime o)); [|done]. destruct (out_time_ptr (so_StartTime o)); [|done].
  destruct (out_time_ptr (so_EndTime o)); [|done]. destruct (out_time (so_CreatedAt o)); [|done].
  simpl. unfold out_time. by rewrite !bool_decide_true by done.
Qed.
Lemma mark_stale_eq o : mark_stale (S:=DB) (M:=M) o = (rewrite_occ reap o ≫= λ _, Ret tt).
Proof. done. Qed.

Lemma mark_all_store os a w w' r :
  (∀ er, ¬ fault er) → NoDup (occ_slot_of <$> os) → Forall (writable a) os →
  in_rfc3339_range (w_time w) → in_rfc3339_range (w_time w') → repr a (contents (w_store w)) →
  run jitter coin (mark_all os) w = (w', r) →
  r = Done tt ∧ ∃ a', repr a' (contents (w_store w')) ∧ rewritten reap os a a'.
Proof.
  intros Hf. revert a w. induction os as [|o os IH]; intros a w Hnd Hall Hw Hw' Hr E.
  - injection E as <- <-. split; [done|]. exists a. split; [done|apply rewritten_nil].
  - cbn [mark_all] in E. rewrite mark_stale_eq, !run_bind in E.
    destruct (run jitter coin (rewrite_occ reap o) w) as [w1 r1] eqn:E1.
    apply Forall_cons in Hall as [Ho Hall]. apply NoDup_cons in Hnd as [Hnin Hnd].
    pose proof (run_later jitter coin (rewrite_occ (M:=M) reap o) w) as Hl1. rewrite E1 in Hl1. simpl in Hl1.
    assert (Hw1 : in_rfc3339_range (w_time w1)).
    { destruct r1; [|by injection E as <- <-]. simpl in E.
      pose proof (run_later jitter coin (mark_all (M:=M) os) w1) as Hl2. rewrite E in Hl2. simpl in Hl2.
      by eapply range_between; [exact Hw|exact Hw'|]. }
    destruct (rewrite_store _ _ _ _ _ _ _ _ Hf reap_keeps Ho Hw Hw1 Hr E1) as (-> & e & u & Hr1).
    simpl in E. destruct (IH _ _ Hnd ltac:(eapply Forall_impl; [exact Hall|]; intros; by apply writable_insert)
      Hw1 Hw' Hr1 E) as (-> & a' & Hr' & Hrw).
    split; [done|]. exists a'. split; [done|]. by eapply rewritten_cons.
Qed.

(** C27: a scan of the reaper.  With a healthy database, at a reading [now]
    of the clock: exactly the running occurrences that started more than a
    fixed hour before [now], whatever the timeout of their jobs, end as [Failed_Stale] with an end time; every other
    record of the store is as before. *)
Theorem reaper_reaps_stale a w w' r :
  (∀ er, ¬ fault er) → in_rfc3339_range (w_time w) → in_rfc3339_range (w_time w') →
  repr a (contents (w_store w)) → run jitter coin reapStaleJobs w = (w', r) →
  let now := next_reading jitter w in
  let stale o := a !! occ_slot_of o = Some (EOcc o) ∧ so_Status o = JobStatusRunning ∧
                 ∃ t, so_StartTime o = Some t ∧ t < now - Hour in
  r = Done tt ∧ ∃ a', repr a' (contents (w_store w')) ∧
    (∀ o, stale o → ∃ e u, a' !! occ_slot_of o = Some (EOcc (set_so_UpdatedAt u (reap e o)))) ∧
    (∀ s, (∀ o, stale o → occ_slot_of o ≠ s) → a' !! s = a !! s).
Proof.
  intros Hf Hw Hw' Hr E now stale. unfold reapStaleJobs in E. simpl in E.
  fold (next_reading jitter w) now in E.
  destruct (all_occurrences a (w_store w) (BadgerStorage.stale now (1 * Hour)) Hr) as (res & Hres & Hl).
  unfold scan in Hres. injection Hres as Hres. rewrite Hres in E.
  match type of E with run _ _ _ ?v = _ => set (w0 := v) in E end. destruct res as [os|er]; [|by apply Hf in Hl].
  destruct Hl as [Hnd Hl].
  assert (Hstale : ∀ o, o ∈ os ↔ stale o).
  { intros o. rewrite Hl. unfold stale, BadgerStorage.stale.
    rewrite andb_true_iff, status_is_spec. change (wrap64 (- (1 * Hour))) with (- Hour).
    destruct (so_StartTime o) as [t|].
    - rewrite Z.ltb_lt. split; [intros (? & ? & ?); split_and!; [done..|]; exists t; split; [done|lia]|].
      intros (? & ? & t' & [= <-] & ?). split_and!; (done || lia).
    - split; [by intros (? & ? & ?)|by intros (? & ? & ? & ? & ?)]. }
  destruct (listed_writable a (w_store w) os Hr Hnd ltac:(intros o [Ho _]%Hstale; done)) as [Hnd' Hall].
  pose proof (run_later jitter coin (mark_all (M:=M) os) w0) as Hlt. rewrite E in Hlt. simpl in Hlt.
  destruct (mark_all_store os a w0 w' r Hf Hnd' Hall) as (-> & a' & Hr' & Hin & Hout);
    [eapply range_between; [exact Hw|exact Hw'|subst w0; simpl in *; unfold now, next_reading in *; lia]|done|done|exact E|].
  split; [done|]. exists a'. split; [done|]. split.
  - intros o Ho. apply Hin. by apply Hstale.
  - intros s Hs. apply Hout. rewrite list_elem_of_fmap. intros (o & -> & Ho%Hstale). by eapply Hs.
Qed.
End ReaperStore.
