(* ===== verification/BootRecovery.v ===== *)
(** * Recovery at boot: runs in the caller

    [Start] recovers the missed runs before it starts the worker pool, and
    [Submit] on a pool that is not started calls its task at once: each
    recovery run is executed inside [Start], before the next missed time is
    looked at.  [boot_run] composes the recovery handler with the executor in
    that way: what a program hands over is executed before it goes on.  The
    parallel executions follow given plans, one for each run. *)
From S2P Require Import Prelude GoTime GoContext Types Ids Job Metrics Storage Badger StorageSpec BadgerCorrect GoFloat Effects Logged OccStore Executor ExecutorTotal ExecutorStore Recovery.
Local Open Scope Z_scope.

Definition with_store {S S' M} (s : S') (w : World S M) : World S' M :=
  mkWorld s (w_metrics w) (w_time w) (w_reads w) (w_hooks w).

(** A schedule of the goroutines, and when they cancel the group's context. *)
Definition plan : Type := list (nat * Instant) * option Instant.

Section Boot.
Context {S M : Type} `{UuidLib} `{Storage S} `{MetricsCollector M}.
Context (out_of_range : float64 → Z) (jitter : nat → Z) (coin : nat → bool) (ctx : Ctx).
Implicit Types (w : World S M).

(** [func() { executor.ExecuteJobOccurrence(ctx, job, occurrence) }], called
    by [Submit] on a pool that is not started. *)
Fixpoint call_submitted (l : list Submission) (plans : list plan) w : StepResult (World S M * list plan) :=
  match l with
  | [] => Next (w, plans)
  | (job, o) :: l' =>
      match plans with
      | [] => Disabled
      | (sched, tc) :: plans' =>
          match ExecuteJobOccurrence out_of_range jitter coin sched tc ctx job o w with
          | Next (w', _) => call_submitted l' plans' w'
          | Disabled => Disabled
          | Panicked m => Panicked m
          end
      end
  end.

Fixpoint boot_run {A} (p : Prog (S * list Submission) M A) (plans : list plan) w
  : StepResult (World S M * A * list plan) :=
  match p with
  | Ret a => Next (w, a, plans)
  | Panic m => Panicked m
  | Act e k =>
      let '(w1, r, until) := perform jitter coin e (with_store (w_store w, []) w) in
      let '(s, submitted) := w_store w1 in
      match call_submitted submitted plans (set_time until (with_store s w1)) with
      | Next (w2, plans') => boot_run (k r) plans' w2
      | Disabled => Disabled
      | Panicked m => Panicked m
      end
  end.

Lemma boot_run_bind {A B} (p : Prog (S * list Submission) M A) (f : A → Prog (S * list Submission) M B) plans w :
  boot_run (p ≫= f) plans w =
    match boot_run p plans w with
    | Next (w', a, plans') => boot_run (f a) plans' w' | Disabled => Disabled | Panicked m => Panicked m
    end.
Proof.
  unfold mbind, Prog_bind. revert plans w; induction p as [a|m|R e k IH]; intros plans w; simpl; [done..|].
  destruct (perform jitter coin e _) as [[w1 r] u]. destruct (w_store w1) as [s l].
  destruct (call_submitted l plans _) as [|[w2 plans']|]; [done|apply IH|done].
Qed.
Lemma boot_run_same {A} (p q : Prog (S * list Submission) M A) plans w :
  same p q → boot_run p plans w = boot_run q plans w.
Proof.
  intros E. revert plans w. induction E as [p|R e k k' _ IH]; intros plans w; [done|]. simpl.
  destruct (perform jitter coin e _) as [[w1 r] u]. destruct (w_store w1) as [s l].
  destruct (call_submitted l plans _) as [|[w2 plans']|]; [done|apply IH|done].
Qed.

(** The effects of the handler. *)
Lemma boot_run_now {A} (f : Instant → Prog (S * list Submission) M A) plans w :
  boot_run (do Now ≫= f) plans w = boot_run (f (next_reading jitter w)) plans (read_clock jitter w).
Proof. done. Qed.
Lemma boot_run_lift {A R} (m : St S R) (f : R → Prog (S * list Submission) M A) plans w :
  boot_run (do (OnStore (lift m)) ≫= f) plans w =
    let '(s, r) := m (w_store w) in boot_run (f r) plans (set_store s w).
Proof. simpl. by destruct (m (w_store w)). Qed.
Lemma boot_run_metrics {A} (g : M → M) (f : unit → Prog (S * list Submission) M A) plans w :
  boot_run (do (OnMetrics g) ≫= f) plans w = boot_run (f tt) plans (set_metrics (g (w_metrics w)) w).
Proof. done. Qed.
Lemma boot_run_submit {A} job o (f : unit → Prog (S * list Submission) M A) plans w :
  boot_run (submit_logged job o ≫= f) plans w =
    match call_submitted [(job, o)] plans w with
    | Next (w', plans') => boot_run (f tt) plans' w' | Disabled => Disabled | Panicked m => Panicked m
    end.
Proof. by destruct w. Qed.

(** Selecting hands nothing over. *)
Lemma boot_run_strategy job ts plans w :
  ts ≠ [] →
  boot_run (ApplyStrategy submit_logged job ts) plans w =
    boot_run (schedule_all submit_logged job (label (j_Config job))
                (selected (j_Config job) (next_reading jitter w) ts)) plans
      (after_reading jitter (j_Config job) ts w).
Proof.
  intros Hts. rewrite (boot_run_same _ _ _ _ (ApplyStrategy_same submit_logged job ts)).
  unfold strategy_program, after_reading. rewrite bool_decide_false by done. cbn [negb andb].
  destruct (reads_clock (j_Config job)) eqn:Er; [done|].
  by rewrite (selected_no_clock _ _ (next_reading jitter w)).
Qed.

(** One missed time. *)
Lemma boot_run_one job t strategy plans w :
  boot_run (scheduleRecoveryRun submit_logged job t strategy) plans w =
    let w2 := read_clock jitter (read_clock jitter w) in
    let o := recovery_occurrence job t (next_reading jitter w) (w_time w2) in
    let '(s, r) := CreateJobOccurrence (recovery_record o) (w_store w) in
    match r with
    | Err _ => Next (set_store s w2, Ok tt, plans)
    | Ok _ =>
        match call_submitted [(job, o)] plans
          (set_metrics (IncRecoveryRuns (j_Name job) strategy (w_metrics w)) (set_store s w2)) with
        | Next (w', plans') => Next (w', Ok tt, plans')
        | Disabled => Disabled | Panicked m => Panicked m
        end
    end.
Proof.
  unfold scheduleRecoveryRun. rewrite !boot_run_now. cbv zeta.
  change (next_reading jitter (read_clock jitter w)) with (w_time (read_clock jitter (read_clock jitter w))).
  set (o := recovery_occurrence _ _ _ _).
  change (CreateJobOccurrence (S:=S * list Submission) (recovery_record o))
    with (lift (CreateJobOccurrence (recovery_record o))).
  rewrite boot_run_lift. change (w_store (read_clock jitter (read_clock jitter w))) with (w_store w).
  destruct (CreateJobOccurrence (recovery_record o) (w_store w)) as [s [u|e]]; [|done].
  rewrite boot_run_metrics. by rewrite boot_run_submit.
Qed.

(** How recovering a list of times can fail to end. *)
Lemma boot_run_all_ends job strategy ts plans w :
  match boot_run (schedule_all submit_logged job strategy ts) plans w with
  | Next (_, r, plans') => r = Ok tt ∧ (length plans ≤ length plans' + length ts)%nat
  | Disabled => parallel job ∨ (length plans < length ts)%nat
  | Panicked _ => ¬ retries_ok job
  end.
Proof.
  revert plans w. induction ts as [|t ts IH]; intros plans w; cbn [schedule_all]; [simpl; split; [done|lia]|].
  rewrite boot_run_bind, boot_run_one. cbv zeta.
  destruct (CreateJobOccurrence _ (w_store w)) as [s [u|e]].
  - set (w1 := set_metrics _ _). set (o := recovery_occurrence _ _ _ _).
    destruct plans as [|[sched tc] plans]; [right; simpl; lia|]. simpl call_submitted.
    pose proof (execution_ends out_of_range jitter coin sched tc ctx job o w1) as He.
    destruct (ExecuteJobOccurrence _ _ _ _ _ _ _ _ w1) as [|[w2 x]|m]; [by left| |done].
    specialize (IH plans w2). destruct (boot_run _ plans w2) as [|[[w3 r] plans']|m]; simpl; [|intuition lia|done].
    destruct IH; [by left|right; simpl; lia].
  - cbv beta iota. match goal with |- context [boot_run _ plans ?v] => specialize (IH plans v) end.
    destruct (boot_run _ plans _) as [|[[w3 r] plans']|m]; simpl; [|intuition lia|done].
    destruct IH; [by left|right; simpl; lia].
Qed.

Lemma boot_run_all_can_end job strategy ts w :
  retries_ok job → never_fails_fast job →
  ∃ plans w', boot_run (schedule_all submit_logged job strategy ts) plans w = Next (w', Ok tt, []).
Proof.
  intros Hr Hf. revert w. induction ts as [|t ts IH]; intros w; cbn [schedule_all]; [by exists [], w|].
  setoid_rewrite boot_run_bind. setoid_rewrite boot_run_one. cbv zeta.
  destruct (CreateJobOccurrence _ (w_store w)) as [s [u|e]]; [|apply IH].
  set (w1 := set_metrics _ _). set (o := recovery_occurrence _ _ _ _).
  destruct (execution_can_end out_of_range jitter coin ctx job o w1 Hr Hf) as (sched & [w2 x] & E).
  destruct (IH w2) as (plans & w' & E'). exists ((sched, None) :: plans), w'. simpl. by rewrite E.
Qed.
End Boot.

Section BootRecovery.
Context {M : Type} `{UuidLaws} `{BadgerLaws} `{MetricsCollector M}.
Context (out_of_range : float64 → Z) (jitter : nat → Z) (coin : nat → bool) (ctx : Ctx) (job : Job).
Context (healthy : ∀ er, ¬ fault er) (id_ok : job_id_ok (j_ID job)).
Implicit Types (w : World DB M) (a : gmap slot entry).
#[local] Existing Instance BadgerStorage.storage.

(** The missed time [t] has been run to its end. *)
Definition settled a (t : Time) : Prop :=
  ∃ o, a !! occ_slot job t = Some (EOcc o) ∧ so_IsRecoveryRun o = true ∧
    so_JobVersion o = j_Version job ∧ is_Some (so_StartTime o) ∧ is_Some (so_EndTime o) ∧
    (so_Status o = JobStatusCompleted ∨ so_Status o = JobStatusFailed).

(** The records that running one of [ts] may write. *)
Definition reach_of (ts : list Time) a (s : slot) : Prop :=
  ∃ t, t ∈ ts ∧ a !! occ_slot job t = None ∧
    (s = occ_slot job t ∨ own (GenerateJobOccurrenceID (j_ID job) t) s).
Definition recovered (ts : list Time) a a' : Prop :=
  (∀ t, t ∈ ts → a !! occ_slot job t = None → settled a' t) ∧
  (∀ s, ¬ reach_of ts a s → a' !! s = a !! s).

Lemma stored_not_reached ts a t : is_Some (a !! occ_slot job t) → ¬ reach_of ts a (occ_slot job t).
Proof. intros [e He] (t' & _ & Hn & [E|[]]). congruence. Qed.

Definition one_recovered (t : Time) a a' : Prop :=
  match a !! occ_slot job t with
  | Some _ => a' = a
  | None => settled a' t ∧
      ∀ s, s ≠ occ_slot job t → ¬ own (GenerateJobOccurrenceID (j_ID job) t) s → a' !! s = a !! s
  end.

Lemma recovered_cons t ts a a1 a' :
  one_recovered t a a1 → recovered ts a1 a' → recovered (t :: ts) a a'.
Proof.
  unfold one_recovered. intros Hone [Hin Hout]. destruct (a !! occ_slot job t) as [e|] eqn:Ea.
  - subst a1. split.
    + intros t' [->|Ht]%elem_of_cons Hn; [congruence|by apply Hin].
    + intros s Hs. apply Hout. intros (t' & Ht & Hr). apply Hs. exists t'. split; [by right|done].
  - destruct Hone as [(o & Ho & Hset) Hs1]. split.
    + intros t' Ht Hn. destruct (decide (occ_slot job t' = occ_slot job t)) as [E|Hne].
      * exists o. rewrite E. split; [|done]. rewrite Hout; [done|]. apply stored_not_reached. by eexists.
      * apply elem_of_cons in Ht as [->|Ht]; [done|]. apply Hin; [done|]. rewrite Hs1; [done|done|by intros []].
    + intros s Hs. rewrite Hout.
      * apply Hs1; intros E; apply Hs; exists t; (split; [by left|split; [done|auto]]).
      * intros (t' & Ht & Hn & Hr). apply Hs. exists t'. split; [by right|]. split; [|done].
        destruct (decide (occ_slot job t' = occ_slot job t)) as [E|Hne]; [congruence|].
        rewrite Hs1 in Hn; [done|done|by intros []].
Qed.

(** Storing the pending occurrence of a missed time. *)
Lemma create_pending a t c u db :
  repr a (contents db) → in_rfc3339_range (inst t) → in_rfc3339_range c → in_rfc3339_range u →
  let rec := recovery_record (recovery_occurrence job t c u) in
  let '(db', r) := BadgerStorage.CreateJobOccurrence rec db in
  match a !! occ_slot job t with
  | Some _ => (∃ e, r = Err e) ∧ repr a (contents db')
  | None => r = Ok tt ∧ repr (<[occ_slot job t := EOcc rec]> a) (contents db')
  end.
Proof.
  intros Hr Ht Hc Hu rec.
  assert (Hok : slot_ok (slot_of (EOcc rec))) by (split; [exact id_ok|apply GenerateJobOccurrenceID_slash_free]).
  pose proof (create_cases a db (EOcc rec) Hr Hok) as HC.
  change (do_create (EOcc rec)) with (BadgerStorage.CreateJobOccurrence rec) in HC.
  change (slot_of (EOcc rec)) with (occ_slot job t) in HC.
  destruct (BadgerStorage.CreateJobOccurrence rec db) as [db1 r].
  destruct HC as [(er & _ & Her & _)|HC]; [by apply healthy in Her|].
  destruct (a !! occ_slot job t); [destruct HC as [-> ?]; split; [by eexists|done]|].
  pose proof (record_marshals job t c u Ht Hc Hu) as Hm. fold rec in Hm.
  destruct (Marshal (EOcc rec)); [|done]. by destruct HC.
Qed.

(** Executing the stored occurrence of a missed time. *)
Lemma execution_settles sched tc t c u a w w' x :
  let o := recovery_occurrence job t c u in
  writable_times o → in_rfc3339_range (w_time w) → in_rfc3339_range (w_time w') →
  repr a (contents (w_store w)) → is_Some (a !! occ_slot job t) →
  ExecuteJobOccurrence out_of_range jitter coin sched tc ctx job o w = Next (w', x) →
  ∃ a', repr a' (contents (w_store w')) ∧ settled a' t ∧
    ∀ s, s ≠ occ_slot job t → ¬ own (GenerateJobOccurrenceID (j_ID job) t) s → a' !! s = a !! s.
Proof.
  intros o Hwr Hw Hw' Hr Ha E. destruct x as [rep err].
  destruct (execution_stores out_of_range jitter coin sched tc ctx job o a w w' rep err healthy Hr Ha Hwr Hw Hw' E)
    as (_ & a' & t1 & e1 & u1 & _ & _ & Hr' & Ho & Hs).
  exists a'. split; [exact Hr'|]. split; [|exact Hs].
  exists (ended o err t1 e1 u1). split; [exact Ho|]. split_and!; try done; simpl. destruct err; auto.
Qed.

Lemma boot_run_later {A} (p : Prog (DB * list Submission) M A) plans w w' r plans' :
  boot_run out_of_range jitter coin ctx p plans w = Next (w', r, plans') → w_time w ≤ w_time w'.
Proof.
  assert (Hd : ∀ l plans w w' plans', call_submitted out_of_range jitter coin ctx l plans w = Next (w', plans') →
    w_time w ≤ w_time w').
  { intros l. induction l as [|[j o] l IH]; intros ps v v' ps' E; simpl in E; [by simplify_eq|].
    destruct ps as [|[sched tc] ps]; [done|].
    destruct (ExecuteJobOccurrence _ _ _ _ _ _ _ _ v) as [|[v1 x]|] eqn:Ex; [done| |done].
    apply execution_later in Ex. apply IH in E. lia. }
  revert plans w. induction p as [a|m|R e k IH]; intros plans w E; simpl in E; [by simplify_eq|done|].
  pose proof (perform_later jitter coin e (with_store (w_store w, []) w)) as Hl.
  destruct (perform jitter coin e _) as [[w1 x] u]. destruct (w_store w1) as [s l].
  destruct (call_submitted _ _ _ _ l plans _) as [|[w2 ps]|] eqn:Ed; [done| |done].
  apply Hd in Ed. apply IH in E. simpl in *. lia.
Qed.

Lemma recover_one t strategy a plans w w' r plans' :
  in_rfc3339_range (inst t) → in_rfc3339_range (w_time w) → in_rfc3339_range (w_time w') →
  repr a (contents (w_store w)) →
  boot_run out_of_range jitter coin ctx (scheduleRecoveryRun submit_logged job t strategy) plans w =
    Next (w', r, plans') →
  ∃ a', repr a' (contents (w_store w')) ∧ one_recovered t a a'.
Proof.
  intros Ht Hw Hw' Hr E. pose proof (boot_run_later _ _ _ _ _ _ E) as Hle. rewrite boot_run_one in E. cbv zeta in E.
  set (c := next_reading jitter w) in E. set (w2 := read_clock jitter (read_clock jitter w)) in E.
  assert (Hc : w_time w ≤ c ≤ w_time w2) by (subst c w2; unfold next_reading; simpl; lia).
  assert (Hw2 : w_time w2 ≤ w_time w').
  { destruct (CreateJobOccurrence _ (w_store w)) as [s [u|e]]; [|by simplify_eq].
    destruct plans as [|[sched tc] plans]; [done|]. simpl in E.
    match type of E with context [ExecuteJobOccurrence ?a ?b ?c ?d ?e ?f ?g ?h ?x] =>
      destruct (ExecuteJobOccurrence a b c d e f g h x) as [|[w3 y]|] eqn:Ex; [done| |done] end.
    apply execution_later in Ex. simpl in Ex. by simplify_eq. }
  pose proof (λ y, range_between _ y _ Hw Hw') as Hin.
  assert (Hcr : in_rfc3339_range c) by (apply Hin; lia).
  pose proof (create_pending a t c (w_time w2) (w_store w) Hr Ht Hcr (Hin (w_time w2) ltac:(lia))) as HC.
  cbv zeta in HC. set (o := recovery_occurrence job t c (w_time w2)) in *.
  change (CreateJobOccurrence (recovery_record o)) with (BadgerStorage.CreateJobOccurrence (recovery_record o)) in E.
  destruct (BadgerStorage.CreateJobOccurrence _ (w_store w)) as [db1 r1].
  unfold one_recovered. destruct (a !! occ_slot job t) as [e0|] eqn:Ea.
  { destruct HC as [[e ->] Hr1]. injection E as <- <- <-. by exists a. }
  destruct HC as [-> Hr1]. destruct plans as [|[sched tc] plans]; [done|]. simpl call_submitted in E.
  set (w3 := set_metrics _ _) in E.
  destruct (ExecuteJobOccurrence _ _ _ _ _ _ _ _ w3) as [|[w4 y]|] eqn:Ex; [done| |done].
  injection E as <- <- <-.
  destruct (execution_settles sched tc t c (w_time w2) (<[occ_slot job t := EOcc (recovery_record o)]> a) w3 w4 y
    ltac:(constructor; [exact Ht|constructor; [exact Hcr|constructor]])
    (Hin (w_time w2) ltac:(lia)) Hw' Hr1 ltac:(rewrite lookup_insert_eq; by eexists) Ex)
    as (a' & Hr' & Hset & Hs).
  exists a'. split; [exact Hr'|]. split; [exact Hset|].
  intros s Hne Hown. rewrite Hs by done. by rewrite lookup_insert_ne.
Qed.

Lemma recover_all strategy ts a plans w w' r plans' :
  Forall (λ t, in_rfc3339_range (inst t)) ts → in_rfc3339_range (w_time w) → in_rfc3339_range (w_time w') →
  repr a (contents (w_store w)) →
  boot_run out_of_range jitter coin ctx (schedule_all submit_logged job strategy ts) plans w = Next (w', r, plans') →
  ∃ a', repr a' (contents (w_store w')) ∧ recovered ts a a'.
Proof.
  intros Hts. revert a plans w. induction Hts as [|t ts Ht _ IH]; intros a plans w Hw Hw' Hr E; cbn [schedule_all] in E.
  { injection E as <- _ _. exists a. split; [done|]. split; [by intros ? ?%elem_of_nil|done]. }
  rewrite boot_run_bind in E.
  destruct (boot_run _ _ _ _ (scheduleRecoveryRun _ _ _ _) plans w) as [|[[w1 x] plans1]|] eqn:E1; [done| |done].
  assert (Hlate : w_time w1 ≤ w_time w') by (destruct x; [by apply boot_run_later in E|by injection E as <- _ _]).
  assert (Hw1 : in_rfc3339_range (w_time w1))
    by (eapply range_between; [exact Hw|exact Hw'|split; [by eapply boot_run_later|done]]).
  destruct (recover_one _ _ _ _ _ _ _ _ Ht Hw Hw1 Hr E1) as (a1 & Hr1 & H1r).
  assert (Hx : x = Ok tt).
  { pose proof (boot_run_all_ends out_of_range jitter coin ctx job strategy [t] plans w) as Hx.
    cbn [schedule_all] in Hx. rewrite boot_run_bind, E1 in Hx. by destruct x as [[]|e]; destruct Hx. }
  subst x. destruct (IH _ _ _ Hw1 Hw' Hr1 E) as (a' & Hr' & Ha').
  exists a'. split; [done|]. by eapply recovered_cons.
Qed.

(** C5: recovery at boot, for any job.  On a healthy engine and before the
    pool is started, [ApplyStrategy] returns without an error only when every
    selected missed time that had no record has been run to its end: its
    record is that of a recovery run of this version of the job, started,
    ended, and Completed or Failed; none is left pending.  A record that was
    already there is kept, and of all other records only the task runs and
    attempts of the new occurrences may have changed.  It panics only when
    the retry limit of some task is negative.  In sequence it always returns;
    of a parallel job every schedule of the executions that ends them is
    covered, and without fail-fast tasks there is one. *)
Theorem boot_recovery_completes ts a plans w :
  Forall (λ t, in_rfc3339_range (inst t)) ts →
  in_rfc3339_range (w_time w) → repr a (contents (w_store w)) →
  let recover := boot_run out_of_range jitter coin ctx (ApplyStrategy submit_logged job ts) in
  let sel := selected (j_Config job) (next_reading jitter w) ts in
  match recover plans w with
  | Next (w', r, _) =>
      r = Ok tt ∧ (in_rfc3339_range (w_time w') → ∃ a', repr a' (contents (w_store w')) ∧
        (∀ t, t ∈ sel → a !! occ_slot job t = None → settled a' t) ∧
        (∀ s, ¬ reach_of sel a s → a' !! s = a !! s))
  | Panicked _ => ¬ retries_ok job
  | Disabled => parallel job ∨ (length plans < length sel)%nat
  end ∧
  (retries_ok job → never_fails_fast job → ∃ plans w', recover plans w = Next (w', Ok tt, [])).
Proof.
  intros Hts Hw Hr recover sel. destruct (decide (ts = [])) as [->|Hne].
  { subst sel recover. rewrite selected_nil. simpl.
    split; [|intros _ _; by exists [], w]. split; [done|]. intros _. exists a.
    split_and!; [done|by intros ? ?%elem_of_nil|done]. }
  subst recover. cbv beta. rewrite boot_run_strategy by done. fold sel.
  set (w1 := after_reading jitter (j_Config job) ts w).
  assert (Hone : w_store w1 = w_store w ∧ w_time w ≤ w_time w1)
    by (subst w1; unfold after_reading; case_match; simpl; split; (done || lia)).
  destruct Hone as [Hst1 Ht1]. split.
  - pose proof (boot_run_all_ends out_of_range jitter coin ctx job (label (j_Config job)) sel plans w1) as He.
    destruct (boot_run _ _ _ _ _ plans w1) as [|[[w' r] plans']|m] eqn:E; [done| |done].
    destruct He as [-> _]. split; [done|]. intros Hw'. rewrite <- Hst1 in Hr.
    apply (recover_all _ _ a _ w1 _ _ _ (selected_Forall _ _ _ _ Hts)
      ltac:(eapply range_between; [exact Hw|exact Hw'|apply boot_run_later in E; lia]) Hw' Hr E).
  - intros Hret Hff. setoid_rewrite boot_run_strategy; [|done]. by apply boot_run_all_can_end.
Qed.
End BootRecovery.
