(* ===== verification/RecoveryExamples.v ===== *)
(** * Recovery and reaping on concrete stores *)
From S2P Require Import Prelude GoTime GoContext Types Ids Job Metrics Storage Badger StorageSpec BadgerCorrect MemBadger Effects Logged OccStore Recovery.
Local Open Scope Z_scope.
Import ToyUuid MemBadger StoreExamples.
#[local] Existing Instances BadgerStorage.storage NoOpMetrics.collector.

Definition no_jitter (_ : nat) : Z := 1.
Definition heads (_ : nat) : bool := true.
Lemma healthy : ∀ er : GoError, ¬ fault er.
Proof. by intros er F. Qed.
(** An instant known only by a computation is in range. *)
Ltac in_range := apply (bool_decide_unpack _); vm_compute; exact I.

(** A job that keeps the last two of its missed runs. *)
Definition nightly : Job :=
  mkJob "job-1" "nightly"
    (mkJobConfig TaskExecutionModeSequential FailureStrategyFailFast Hour OverlapPolicySkip
       RecoveryStrategyBoundedWindow (Some (mkBoundedWindow 2 0)) TaskConfig_zero)
    1%positive [] 1 true false None None.
Definition missed : list Time := [mkTime (100 * Second) UTC; mkTime (200 * Second) UTC; mkTime (300 * Second) UTC].
Definition boot_world (db : DB) (t : Instant) : World (DB * list Submission) unit := mkWorld (db, []) tt t 0 [].
Definition first_run := run no_jitter heads (ApplyStrategy (submit_logged (M:=unit)) nightly missed) (boot_world db2 (400 * Second)).
Definition second_run :=
  run no_jitter heads (ApplyStrategy (submit_logged (M:=unit)) nightly missed)
    (mkWorld (w_store (fst first_run)) tt (500 * Second) 0 []).

Definition submitted_times (l : list Submission) : list Instant := jo_ScheduledTime ∘ snd <$> l.

Lemma missed_range : Forall (λ t, in_rfc3339_range (inst t)) missed.
Proof. repeat constructor; in_range. Qed.

Lemma recovery_runs_selected_witness :
  submitted_times (snd (w_store (fst first_run))) = [200 * Second; 300 * Second] ∧
  snd first_run = Done (Ok tt) ∧ ∃ a' db' occs,
    w_store (fst first_run) = (db', [] ++ ((λ o, (nightly, o)) <$> occs)) ∧ repr a' (contents db') ∧
    NoDup (jo_ID <$> occs).
Proof.
  split; [vm_compute; reflexivity|].
  destruct (recovery_runs_selected no_jitter heads nightly missed a2 db2 []
    (boot_world db2 (400 * Second)) (fst first_run) (snd first_run)
    healthy ltac:(ids) missed_range ltac:(in_range) ltac:(in_range) eq_refl repr_a2
    (surjective_pairing _)) as (E & a' & db' & occs & Hs & Hr & Hn & _).
  split; [exact E|]. exists a', db', occs. split_and!; [exact Hs|exact Hr|exact Hn].
Defined.

(** A second boot over the store the first one left. *)
Lemma recovery_idempotent_witness :
  reads_clock (j_Config nightly) = false ∧
  snd second_run = Done (Ok tt) ∧
  snd (w_store (fst second_run)) = snd (w_store (fst first_run)).
Proof.
  split; [reflexivity|].
  exact (recovery_idempotent no_jitter heads nightly missed a2 db2 []
    (boot_world db2 (400 * Second)) (fst first_run) (snd first_run)
    (mkWorld (w_store (fst first_run)) tt (500 * Second) 0 []) (fst second_run) (snd second_run)
    healthy ltac:(ids) missed_range ltac:(in_range) ltac:(in_range) eq_refl repr_a2 eq_refl
    (surjective_pairing _) eq_refl ltac:(in_range) ltac:(in_range) (surjective_pairing _)).
Defined.

(** [occ1] has been running since instant 101; the scan is two hours later. *)
Definition late_world : World DB unit := mkWorld db2 tt (2 * Hour) 0 [].
Definition scan_run := run no_jitter heads (reapStaleJobs (M:=unit)) late_world.

Lemma reaper_reaps_stale_witness :
  snd scan_run = Done tt ∧ ∃ a', repr a' (contents (w_store (fst scan_run))) ∧
    (∃ e u, a' !! occ_slot_of occ1 = Some (EOcc (set_so_UpdatedAt u (reap e occ1)))) ∧
    a' !! slot_of (ETask task1) = Some (ETask task1).
Proof.
  destruct (reaper_reaps_stale no_jitter heads a2 late_world (fst scan_run) (snd scan_run)
    healthy ltac:(in_range) ltac:(in_range) repr_a2 (surjective_pairing _)) as (E & a' & Hr & Hs & Ho).
  split; [exact E|]. exists a'. split; [exact Hr|]. split.
  - apply Hs. split; [reflexivity|]. split; [reflexivity|]. exists 101. split; reflexivity.
  - rewrite Ho; [reflexivity|]. intros o _. by destruct o.
Defined.

(** The reaper writes back the copy it read: an occurrence that completed
    between the reading and the writing ends as [Failed_Stale]. *)
Definition completed_occ : StorageOccurrence :=
  set_so_EndTime (Some (2 * Hour)) (set_so_Status JobStatusCompleted occ1).
Lemma reaper_overwrites_completed :
  let listed := snd (BadgerStorage.ListStaleOccurrences (2 * Hour) Hour db2) in
  let db := fst (BadgerStorage.UpdateJobOccurrence (2 * Hour) completed_occ db2) in
  listed = Ok [occ1] ∧
  match snd (BadgerStorage.GetJobOccurrence "oc-01"
          (w_store (fst (run no_jitter heads (mark_all (M:=unit) [occ1]) (mkWorld db tt (2 * Hour) 0 []))))) with
  | Ok o => so_Status o = JobStatusFailedStale
  | Err _ => False
  end.
Proof. split; vm_compute; reflexivity. Qed.

(** The hour is the reaper's own: an execution that its job allows two hours
    is ended after ninety minutes. *)
Definition two_hours : JobConfig :=
  mkJobConfig TaskExecutionModeSequential FailureStrategyFailFast (2 * Hour) OverlapPolicySkip
    RecoveryStrategyExecuteAll None TaskConfig_zero.
Definition long_occ : StorageOccurrence :=
  mkStorageOccurrence "oc-02" "job-1" 1 100 JobStatusRunning "node-a" (Some 101) None
    (match Marshal_JobConfig two_hours with Ok b => b | Err _ => BNil end) false 100 100.
Lemma reaper_ignores_job_timeout :
  let db := fst (BadgerStorage.CreateJobOccurrence long_occ db0) in
  is_ok (Marshal_JobConfig two_hours) = true ∧
  match snd (BadgerStorage.GetJobOccurrence "oc-02"
          (w_store (fst (run no_jitter heads (reapStaleJobs (M:=unit)) (mkWorld db tt (90 * Minute) 0 []))))) with
  | Ok o => so_Status o = JobStatusFailedStale
  | Err _ => False
  end.
Proof. split; vm_compute; reflexivity. Qed.

(** Compressed catch-up is not implemented: every missed time is run. *)
Lemma compressed_runs_all c now ts :
  jc_RecoveryStrategy c = RecoveryStrategyCompressedCatchUp → selected c now ts = ts.
Proof. unfold selected. by intros ->. Qed.
