(* ===== verification/ExecutionExamples.v ===== *)
(** * Executions over a concrete store

    Applications of the theorems on what tasks, executions and recovery at
    boot leave in the database. *)
From S2P Require Import Prelude GoTime GoContext Types Ids Job Metrics Storage Badger StorageSpec BadgerCorrect MemBadger GoFloat Effects Logged OccStore Executor ExecutorTotal ExecutorExamples TaskStore ExecutorStore Recovery BootRecovery RecoveryExamples.
Local Open Scope Z_scope.
Import ToyUuid MemBadger StoreExamples.
#[local] Existing Instances BadgerStorage.storage InMemoryMetrics.collector.

(** *** A task that fails twice *)
Definition clean : Task := (AddTask (NewJob "nightly" 1%positive (config TaskExecutionModeSequential)) "clean" (run_bad 5) retry_once).2.
Definition counting : World DB InMemoryMetrics.t := mkWorld db0 InMemoryMetrics.New 2000 0 [].
Definition clean_run : World DB InMemoryMetrics.t * Outcome TaskReport :=
  run jitter coin (executeTask amd64 Background seq_job clean (occ0 seq_job)) counting.
Definition clean_report : TaskReport :=
  match snd clean_run with Done r => r | Crash _ => mkTaskReport EmptyString EmptyString [] TaskStatusFailed end.

Lemma task_recorded_witness :
  tr_FinalStatus clean_report = TaskStatusFailed ∧ length (tr_Attempts clean_report) = 2%nat ∧
  ∃ a' created fin u, repr a' (contents (w_store (fst clean_run))) ∧
    a' !! run_slot (occ0 seq_job) clean =
      Some (ERun (closed (new_run (occ0 seq_job) clean created) clean_report fin u)) ∧
    w_metrics (fst clean_run) =
      foldl (count seq_job clean) InMemoryMetrics.New (tr_Attempts clean_report).
Proof.
  split; [vm_compute; reflexivity|]. split; [vm_compute; reflexivity|].
  assert (E2 : snd clean_run = Done clean_report) by (vm_compute; reflexivity).
  assert (E : clean_run = (fst clean_run, Done clean_report))
    by (rewrite <- E2; apply surjective_pairing).
  destruct (task_recorded amd64 jitter coin Background seq_job clean (occ0 seq_job) ∅ counting (fst clean_run)
    clean_report healthy repr_empty) as (a' & created & fin & u & Hr & Hrun & _ & Hm).
  - intros i j Hij Hj. change (MaxRetries (policy_of seq_job clean)) with 1 in Hj.
    assert (i = 0) as -> by lia. assert (j = 1) as -> by lia. vm_compute. discriminate.
  - in_range.
  - in_range.
  - exact E.
  - exists a', created, fin, u. split; [exact Hr|]. split; [exact Hrun|exact Hm].
Defined.

#[local] Existing Instances NoOpMetrics.collector.

(** *** An occurrence whose second task fails *)
Definition a5 : gmap slot entry := <[slot_of (EOcc stored_occ) := EOcc stored_occ]> ∅.
Lemma repr_a5 : repr a5 (contents (w_store world1)).
Proof. exact (badger_create_state ∅ db0 (EOcc stored_occ) repr_empty ltac:(ids)). Qed.

Lemma execution_recorded_witness :
  ∃ a' t e u r, fst (snd occ_result) = Some r ∧ er_OccurrenceID r = jo_ID (occ0 seq_job) ∧
    2000 ≤ t ≤ e ∧ repr a' (contents (w_store (fst occ_result))) ∧
    a' !! jo_slot (occ0 seq_job) =
      Some (EOcc (ended (occ0 seq_job) (Some "task clean failed, aborting due to fail-fast") t e u)).
Proof.
  assert (N : is_next occ_run = true) by (vm_compute; reflexivity).
  assert (E : occ_run = Next (fst occ_result, (fst (snd occ_result), snd (snd occ_result)))).
  { unfold occ_result. exact (next_eta occ_run _ N). }
  assert (Herr : snd (snd occ_result) = Some "task clean failed, aborting due to fail-fast")
    by (vm_compute; reflexivity).
  assert (Hwr : writable_times (occ0 seq_job)) by (repeat constructor; in_range).
  destruct (execution_recorded amd64 jitter coin [] None Background seq_job (occ0 seq_job) a5 world1
    (fst occ_result) (fst (snd occ_result)) (snd (snd occ_result)) healthy repr_a5
    ltac:(eexists; apply lookup_insert_eq) Hwr ltac:(in_range) ltac:(in_range) E)
    as ((r & Er & Hid) & a' & t & e & u & Ht & _ & Hr & Ho & _).
  rewrite Herr in Ho. exists a', t, e, u, r.
  split; [exact Er|]. split; [exact Hid|]. split; [exact Ht|]. split; [exact Hr|exact Ho].
Defined.

(** *** Two missed runs at boot; the first already has a record *)
Definition missed_two : list Time := [mkTime (1000 * Second) UTC; mkTime (2000 * Second) UTC].
Definition known : StorageOccurrence :=
  recovery_record (recovery_occurrence seq_job (mkTime (1000 * Second) UTC) 5 5).
Definition a6 : gmap slot entry := <[slot_of (EOcc known) := EOcc known]> ∅.
Definition boot0 : World DB unit := mkWorld (do_create (EOcc known) db0).1 tt (3000 * Second) 0 [].
Definition plans : list plan := [([], None); ([], None)].
Definition booted : StepResult (World DB unit * Result unit * list plan) :=
  boot_run amd64 jitter coin Background (ApplyStrategy submit_logged seq_job missed_two) plans boot0.
Definition boot_end : World DB unit := (result_or booted (boot0, Ok tt, [])).1.1.

(** A parallel job none of whose tasks stops the others. *)
Definition steady_job : Job :=
  let c := mkJobConfig TaskExecutionModeParallel FailureStrategyContinue Hour OverlapPolicySkip
             RecoveryStrategyExecuteAll None TaskConfig_zero in
  (AddTask (AddTask (NewJob "nightly" 1%positive c) "load" (run_ok 10) TaskConfig_zero).1
     "clean" (run_bad 5) retry_once).1.

Lemma boot_recovery_completes_witness :
  booted = Next (boot_end, Ok tt, [([], None)]) ∧
  (∃ a', repr a' (contents (w_store boot_end)) ∧
    a' !! occ_slot seq_job (mkTime (1000 * Second) UTC) = Some (EOcc known) ∧
    settled seq_job a' (mkTime (2000 * Second) UTC)) ∧
  parallel steady_job ∧
  ∃ plans w', boot_run amd64 jitter coin Background (ApplyStrategy submit_logged steady_job missed_two)
    plans boot0 = Next (w', Ok tt, []).
Proof.
  assert (Hr0 : repr a6 (contents (w_store boot0)))
    by exact (badger_create_state ∅ db0 (EOcc known) repr_empty ltac:(ids)).
  assert (Hts : Forall (λ t, in_rfc3339_range (inst t)) missed_two) by (repeat constructor; in_range).
  assert (E2 : match booted with Next (_, r, l) => Some (r, l) | _ => None end = Some (Ok tt, [([], None)]))
    by (vm_compute; reflexivity).
  assert (E : booted = Next (boot_end, Ok tt, [([], None)])).
  { unfold boot_end. destruct booted as [|[[w r] l]|m]; [discriminate E2| |discriminate E2].
    injection E2 as -> ->. reflexivity. }
  assert (Hw : in_rfc3339_range (w_time boot0)) by in_range.
  assert (Hj : job_id_ok (j_ID seq_job)) by ids.
  assert (Hj' : job_id_ok (j_ID steady_job)) by ids.
  assert (Hend : in_rfc3339_range (w_time boot_end)) by in_range.
  split; [exact E|]. split.
  - pose proof (boot_recovery_completes amd64 jitter coin Background seq_job healthy Hj
      missed_two a6 plans boot0 Hts Hw Hr0) as HB. cbv zeta in HB. destruct HB as [HB _].
    fold booted in HB. rewrite E in HB.
    destruct HB as [_ HB]. destruct (HB Hend) as (a' & Hr & Hset & Hs).
    exists a'. split; [exact Hr|]. split.
    + assert (Hk : a6 !! occ_slot seq_job (mkTime (1000 * Second) UTC) = Some (EOcc known))
        by (vm_compute; reflexivity).
      rewrite Hs; [exact Hk|]. apply stored_not_reached. by eexists.
    + assert (Hsel : selected (j_Config seq_job) (next_reading jitter boot0) missed_two = missed_two)
        by (vm_compute; reflexivity).
      apply Hset; [rewrite Hsel; right; left|vm_compute; reflexivity].
  - split; [reflexivity|].
    pose proof (boot_recovery_completes amd64 jitter coin Background steady_job healthy Hj'
      missed_two a6 plans boot0 Hts Hw Hr0) as HB. cbv zeta in HB. destruct HB as [_ HB]. apply HB.
    + repeat constructor; vm_compute; discriminate.
    + repeat constructor.
Defined.
