(* ===== verification/Update.v ===== *)
(** * update/update.go: versioned job updates and schedule differences *)
From S2P Require Import Prelude GoTime GoContext Types Ids Job Storage Badger StorageSpec BadgerCorrect Ticker Effects OccStore.
Local Open Scope Z_scope.

Record JobUpdate := mkJobUpdate {
  ju_JobID : string;
  ju_ExpectedVersion : Z;
  ju_NewConfig : option JobConfig;
  ju_NewTicker : option TickerRef;
  ju_AddedTasks : list Task;
  ju_RemovedTaskIDs : list string;
  ju_UpdatedTasks : list Task;
  ju_Policy : UpdatePolicy;
}.

(** Serialisation is a placeholder: an empty slice. *)
Definition serializeConfig (config : JobConfig) : bytes := BEmpty.
Definition serializeTaskConfig (config : TaskConfig) : bytes := BEmpty.

(** [%d] of a version in a message. *)
Definition version_mismatch (expected got : Z) : GoError :=
  "version mismatch: expected " +:+ fmt_d expected +:+ ", got " +:+ fmt_d got.

Section Update.
Context {S M : Type} `{Storage S}.

(** [if err := ...; err != nil { return fmt.Errorf(msg+": %w", err) }] *)
Definition or_fail (msg : GoError) (p : Prog S M (Result unit)) (k : Prog S M (Result unit))
  : Prog S M (Result unit) :=
  r ← p; match r with Err e => Ret (Err (msg +:+ e)) | Ok _ => k end.

Fixpoint add_tasks (jobID : string) (tasks : list Task) (k : Prog S M (Result unit))
  : Prog S M (Result unit) :=
  match tasks with
  | [] => k
  | t :: ts =>
      created ← do Now;
      updated ← do Now;
      or_fail ("failed to add task " +:+ t_ID t +:+ ": ")
        (do (OnStore (CreateTask (mkStorageTask (t_ID t) jobID (t_Name t)
           (serializeTaskConfig (t_Config t)) (t_Order t) created updated))))
        (add_tasks jobID ts k)
  end.

Fixpoint remove_tasks (ids : list string) (k : Prog S M (Result unit)) : Prog S M (Result unit) :=
  match ids with
  | [] => k
  | i :: rest =>
      or_fail ("failed to remove task " +:+ i +:+ ": ") (do (OnStore (DeleteTask i)))
        (remove_tasks rest k)
  end.

Fixpoint change_tasks (tasks : list Task) (k : Prog S M (Result unit)) : Prog S M (Result unit) :=
  match tasks with
  | [] => k
  | t :: ts =>
      r ← do (OnStore (GetTask (t_ID t)));
      match r with
      | Err e => Ret (Err ("failed to get task " +:+ t_ID t +:+ ": " +:+ e))
      | Ok st =>
          updated ← do Now;
          now ← do Now;
          or_fail ("failed to update task " +:+ t_ID t +:+ ": ")
            (do (OnStore (UpdateTask now (mkStorageTask (sk_ID st) (sk_JobID st) (t_Name t)
               (serializeTaskConfig (t_Config t)) (t_Order t) (sk_CreatedAt st) updated))))
            (change_tasks ts k)
      end
  end.

(** *** Policies *)

(** [occ.Status = Canceled; occ.UpdatedAt = time.Now(); UpdateJobOccurrence] for
    the occurrences that satisfy [which], stopping at the first error. *)
Fixpoint cancel_all (which : StorageOccurrence → bool) (occs : list StorageOccurrence)
  : Prog S M (Result unit) :=
  match occs with
  | [] => Ret (Ok tt)
  | occ :: os =>
      if which occ then
        updated ← do Now;
        now ← do Now;
        r ← do (OnStore (UpdateJobOccurrence now
                 (set_so_UpdatedAt updated (set_so_Status JobStatusCanceled occ))));
        match r with Err e => Ret (Err e) | Ok _ => cancel_all which os end
      else cancel_all which os
  end.

Definition applyImmediateUpdate (job : StorageJob) (now : Instant) : Prog S M (Result unit) :=
  r ← do (OnStore (ListPendingOccurrences (sj_ID job)));
  match r with
  | Err e => Ret (Err e)
  | Ok occurrences => cancel_all (λ occ, now <? so_ScheduledTime occ) occurrences
  end.

(** The earliest pending occurrence after [now], the first of equals. *)
Definition nearer (now : Instant) (next : option StorageOccurrence) (occ : StorageOccurrence)
  : option StorageOccurrence :=
  if now <? so_ScheduledTime occ then
    match next with
    | None => Some occ
    | Some n => if so_ScheduledTime occ <? so_ScheduledTime n then Some occ else Some n
    end
  else next.

Definition applyGracefulUpdate (job : StorageJob) (now : Instant) : Prog S M (Result unit) :=
  r ← do (OnStore (ListPendingOccurrences (sj_ID job)));
  match r with
  | Err e => Ret (Err e)
  | Ok occurrences =>
      match foldl (nearer now) None occurrences with
      | Some nextOccurrence =>
          cancel_all (λ occ, so_ScheduledTime nextOccurrence <? so_ScheduledTime occ) occurrences
      | None => applyImmediateUpdate job now
      end
  end.

Definition week : Duration := 7 * 24 * Hour.
Definition applyWindowedUpdate (job : StorageJob) (now : Instant) : Prog S M (Result unit) :=
  let windowEnd := now + week in
  r ← do (OnStore (ListPendingOccurrences (sj_ID job)));
  match r with
  | Err e => Ret (Err e)
  | Ok occurrences =>
      cancel_all (λ occ, (now <? so_ScheduledTime occ) && (so_ScheduledTime occ <? windowEnd)) occurrences
  end.

Definition applyScheduleUpdate (job : StorageJob) (update : JobUpdate) : Prog S M (Result unit) :=
  now ← do Now;
  if bool_decide (ju_Policy update = UpdatePolicyImmediate) then applyImmediateUpdate job now
  else if bool_decide (ju_Policy update = UpdatePolicyGraceful) then applyGracefulUpdate job now
  else if bool_decide (ju_Policy update = UpdatePolicyWindowed) then applyWindowedUpdate job now
  else applyImmediateUpdate job now.

Definition applyUpdateTransaction (currentJob : StorageJob) (update : JobUpdate)
  : Prog S M (Result unit) :=
  now ← do Now;
  or_fail "failed to update job: " (do (OnStore (UpdateJob now currentJob)))
    (add_tasks (ju_JobID update) (ju_AddedTasks update)
      (remove_tasks (ju_RemovedTaskIDs update)
        (change_tasks (ju_UpdatedTasks update)
          (match ju_NewTicker update with
           | None => Ret (Ok tt)
           | Some _ =>
               or_fail "failed to apply schedule update: " (applyScheduleUpdate currentJob update)
                 (Ret (Ok tt))
           end)))).

(** The job record that an accepted update writes. *)
Definition updated_job (job : StorageJob) (update : JobUpdate) (now : Instant) : StorageJob :=
  mkStorageJob (sj_ID job) (sj_Name job) (sj_ScheduleType job) (sj_ScheduleConfig job)
    (match ju_NewConfig update with Some c => serializeConfig c | None => sj_Config job end)
    (wrap64 (sj_Version job + 1)) (sj_Active job) (sj_Paused job) (sj_LastRunTime job)
    (sj_CreatedAt job) now.

Definition ApplyUpdate (update : JobUpdate) : Prog S M (Result unit) :=
  r ← do (OnStore (GetJob (ju_JobID update)));
  match r with
  | Err e => Ret (Err ("failed to load current job: " +:+ e))
  | Ok currentJob =>
      if negb (bool_decide (sj_Version currentJob = ju_ExpectedVersion update))
      then Ret (Err (version_mismatch (ju_ExpectedVersion update) (sj_Version currentJob)))
      else
        now ← do Now;
        applyUpdateTransaction (updated_job currentJob update now) update
  end.
End Update.

(** *** Schedule differences: the maps are keyed by [time.Time], compared with
    [==], which looks at the location too. *)

(** [m := make(map[time.Time]bool); for _, t := range ts { m[t] = true }] *)
Definition time_map (ts : list Time) : gmap Time bool := foldl (λ m t, <[t := true]> m) ∅ ts.
(** [for _, t := range ts { if !m[t] { out = append(out, t) } }] *)
Definition not_in_map (m : gmap Time bool) (ts : list Time) : list Time :=
  foldl (λ out t, if default false (m !! t) then out else out ++ [t]) [] ts.

Section Diff.
Context {T U : Type} `{Ticker T} `{Ticker U}.

Definition DiffSchedules (oldTicker : T) (newTicker : U) (start en : Time)
  : Result (list Time * list Time) :=
  match GetOccurrencesBetween oldTicker start en with
  | Err e => Err ("failed to get old occurrences: " +:+ e)
  | Ok oldTimes =>
      match GetOccurrencesBetween newTicker start en with
      | Err e => Err ("failed to get new occurrences: " +:+ e)
      | Ok newTimes =>
          let oldMap := time_map oldTimes in
          let newMap := time_map newTimes in
          Ok (not_in_map oldMap newTimes, not_in_map newMap oldTimes)
      end
  end.
End Diff.

(** ** Schedule differences *)

(** What the maps compute: the times of one list that are not in the other. *)
Definition difference_of (ts us : list Time) : list Time := filter (λ t, t ∉ us) ts.

Lemma time_map_lookup ts m t :
  foldl (λ m t, <[t := true]> m) m ts !! t = if decide (t ∈ ts) then Some true else (m : gmap Time bool) !! t.
Proof.
  revert m; induction ts as [|u ts IH]; intros m; simpl; [done|]. rewrite IH.
  destruct (decide (t ∈ ts)) as [Hin|Hin].
  - by rewrite decide_True by (by right).
  - destruct (decide (t = u)) as [->|Hne].
    + rewrite decide_True by (by left). by rewrite lookup_insert_eq.
    + rewrite decide_False by (by intros [?|?]%elem_of_cons). by rewrite lookup_insert_ne.
Qed.
Lemma not_in_map_spec us ts : not_in_map (time_map us) ts = difference_of ts us.
Proof.
  unfold not_in_map, difference_of. rewrite <- (app_nil_l (filter _ ts)).
  assert (Hm : ∀ t, default false (time_map us !! t) = bool_decide (t ∈ us)).
  { intros t. unfold time_map. rewrite time_map_lookup, lookup_empty.
    case_bool_decide; by case_decide. }
  generalize (@nil Time) at 2 3 as out. induction ts as [|t ts IH]; intros out; cbn [foldl].
  - by rewrite filter_nil, app_nil_r.
  - rewrite Hm, IH, filter_cons. case_bool_decide as Hin.
    + by rewrite decide_False by tauto.
    + rewrite decide_True by done. by rewrite <- app_assoc.
Qed.

(** C35: the difference of two schedules.  The two maps and the two loops
    compute the list difference: on success [added] is the new schedule's
    list without the times of the old one, [removed] the other way round,
    both in schedule order; on an error of either ticker no difference is
    given, and the error says which ticker failed.  Times count as the same
    only with the same location: for tickers in one location that is the same
    instant. *)
Theorem DiffSchedules_exact {T U} `{Ticker T} `{Ticker U} (old : T) (new : U) st en :
  match GetOccurrencesBetween old st en, GetOccurrencesBetween new st en with
  | Ok os, Ok ns =>
      DiffSchedules old new st en = Ok (difference_of ns os, difference_of os ns) ∧
      (∀ l, Forall (λ t, loc t = l) (os ++ ns) →
         (∀ t, t ∈ difference_of ns os ↔ t ∈ ns ∧ ∀ u, u ∈ os → ¬ same_instant t u) ∧
         (∀ t, t ∈ difference_of os ns ↔ t ∈ os ∧ ∀ u, u ∈ ns → ¬ same_instant t u))
  | Err e, _ => DiffSchedules old new st en = Err ("failed to get old occurrences: " +:+ e)
  | Ok _, Err e => DiffSchedules old new st en = Err ("failed to get new occurrences: " +:+ e)
  end.
Proof.
  unfold DiffSchedules.
  destruct (GetOccurrencesBetween old st en) as [os|e]; [|done].
  destruct (GetOccurrencesBetween new st en) as [ns|e]; [|done].
  rewrite !not_in_map_spec. split; [done|]. intros l [Ho Hn]%Forall_app. rewrite Forall_forall in Ho, Hn.
  assert (Hsame : ∀ ts us t, (∀ u, u ∈ ts → loc u = l) → (∀ u, u ∈ us → loc u = l) →
    t ∈ difference_of ts us ↔ t ∈ ts ∧ ∀ u, u ∈ us → ¬ same_instant t u).
  { intros ts us t Hts Hus. unfold difference_of. rewrite list_elem_of_filter. split.
    - intros [Hni Ht]. split; [done|]. intros u Hu Hs. apply Hni.
      destruct t as [i lt], u as [j lu]. unfold same_instant in Hs. simpl in Hs. subst j.
      pose proof (Hts _ Ht) as E1. pose proof (Hus _ Hu) as E2. simpl in E1, E2. by subst.
    - intros [Ht Hno]. split; [|done]. intros Hin. by apply (Hno t Hin). }
  split; intros t; by apply Hsame.
Qed.

(** ** Updates over the store *)
Section UpdateStore.
Context {M : Type} `{BadgerLaws}.
Context (jitter : nat → Z) (coin : nat → bool).
Implicit Types (w : World DB M) (a : gmap slot entry) (o : StorageOccurrence).
#[local] Existing Instance BadgerStorage.storage.

(** *** Policies *)
Definition cancel (e : Instant) o : StorageOccurrence :=
  set_so_UpdatedAt e (set_so_Status JobStatusCanceled o).
Lemma cancel_keeps : keeps_record cancel.
Proof.
  split; [done|]. intros e u o Hm He Hu. simpl in *. unfold Marshal_Occurrence in *. simpl in *.
  destruct (out_time (so_ScheduledTime o)); [|done]. destruct (out_time_ptr (so_StartTime o)); [|done].
  destruct (out_time_ptr (so_EndTime o)); [|done]. destruct (out_time (so_CreatedAt o)); [|done].
  simpl. unfold out_time. by rewrite !bool_decide_true by done.
Qed.

Lemma cancel_all_store which os a w w' r :
  (∀ er, ¬ fault er) → NoDup (occ_slot_of <$> os) → Forall (writable a) os →
  in_rfc3339_range (w_time w) → in_rfc3339_range (w_time w') → repr a (contents (w_store w)) →
  run jitter coin (cancel_all which os) w = (w', r) →
  r = Done (Ok tt) ∧ ∃ a', repr a' (contents (w_store w')) ∧
    rewritten cancel (filter (λ o, which o = true) os) a a'.
Proof.
  intros Hf. revert a w. induction os as [|o os IH]; intros a w Hnd Hall Hw Hw' Hr E.
  - injection E as <- <-. split; [done|]. exists a. split; [done|apply rewritten_nil].
  - apply Forall_cons in Hall as [Ho Hall]. cbn [fmap list_fmap] in Hnd.
    apply NoDup_cons in Hnd as [Hnin Hnd].
    cbn [cancel_all] in E. rewrite filter_cons.
    destruct (decide (which o = true)) as [Hwo|Hwo];
      [|apply not_true_is_false in Hwo; rewrite Hwo in E; exact (IH _ _ Hnd Hall Hw Hw' Hr E)].
    rewrite Hwo in E.
    change (run jitter coin (rewrite_occ cancel o ≫= λ r, match r with Err e => Ret (Err e) | Ok _ => cancel_all which os end) w = (w', r)) in E.
    rewrite run_bind in E. destruct (run jitter coin (rewrite_occ cancel o) w) as [w1 r1] eqn:E1.
    pose proof (run_later jitter coin (rewrite_occ (M:=M) cancel o) w) as Hl1. rewrite E1 in Hl1. simpl in Hl1.
    assert (Hw1 : in_rfc3339_range (w_time w1)).
    { destruct r1 as [[[]|er]|m]; [|by injection E as <- <-..].
      pose proof (run_later jitter coin (cancel_all (M:=M) which os) w1) as Hl2. rewrite E in Hl2. simpl in Hl2.
      by eapply range_between; [exact Hw|exact Hw'|]. }
    destruct (rewrite_store _ _ _ _ _ _ _ _ Hf cancel_keeps Ho Hw Hw1 Hr E1) as (-> & e & u & Hr1).
    destruct (IH _ _ Hnd ltac:(eapply Forall_impl; [exact Hall|]; intros; by apply writable_insert)
      Hw1 Hw' Hr1 E) as (-> & a' & Hr' & Hrw).
    split; [done|]. exists a'. split; [done|]. eapply rewritten_cons; [|exact Hrw].
    intros (o' & Heq & Ho')%list_elem_of_fmap. apply list_elem_of_filter in Ho' as [_ Ho'].
    apply Hnin, list_elem_of_fmap. eauto.
Qed.

(** A pending occurrence of the job. *)
Definition pending a (jobID : string) o : Prop :=
  a !! occ_slot_of o = Some (EOcc o) ∧ so_JobID o = jobID ∧ so_Status o = JobStatusPending.

(** Which pending occurrences a policy cancels. *)
Definition cancels a (jobID : string) (policy : UpdatePolicy) (now : Instant) o : Prop :=
  if bool_decide (policy = UpdatePolicyGraceful) then
    ∃ n, pending a jobID n ∧ now < so_ScheduledTime n < so_ScheduledTime o
  else if bool_decide (policy = UpdatePolicyWindowed) then
    now < so_ScheduledTime o < now + week
  else now < so_ScheduledTime o.

(** The fold finds a pending future occurrence that none precedes. *)
Lemma nearest_spec now os acc :
  match foldl (nearer now) acc os with
  | Some n =>
      (acc = Some n ∨ (n ∈ os ∧ now < so_ScheduledTime n)) ∧
      (∀ o, o ∈ os → now < so_ScheduledTime o → so_ScheduledTime n ≤ so_ScheduledTime o) ∧
      (∀ x, acc = Some x → so_ScheduledTime n ≤ so_ScheduledTime x)
  | None => acc = None ∧ ∀ o, o ∈ os → ¬ now < so_ScheduledTime o
  end.
Proof.
  revert acc. induction os as [|o os IH]; intros acc; simpl.
  - destruct acc as [n|]; [|split; [done|by intros ? ?%elem_of_nil]].
    split_and!; [by left|by intros ? ?%elem_of_nil|by intros ? [= <-]].
  - specialize (IH (nearer now acc o)). destruct (foldl _ _ os) as [n|].
    + destruct IH as (Hn & Hos & Hacc). unfold nearer in *.
      destruct (Z.ltb_spec now (so_ScheduledTime o)) as [Hf|Hp].
      * destruct acc as [x|].
        -- destruct (Z.ltb_spec (so_ScheduledTime o) (so_ScheduledTime x)).
           ++ pose proof (Hacc o eq_refl). split_and!.
              ** destruct Hn as [[= ->]|[? ?]]; right; (split; [|done]); [by left|by right].
              ** intros o' [->|Ho']%elem_of_cons ?; [done|by apply Hos].
              ** intros ? [= <-]. lia.
           ++ pose proof (Hacc x eq_refl). split_and!.
              ** destruct Hn as [[= ->]|[? ?]]; [by left|right; split; [by right|done]].
              ** intros o' [->|Ho']%elem_of_cons ?; [lia|by apply Hos].
              ** intros ? [= <-]. done.
        -- pose proof (Hacc o eq_refl). split_and!; [|intros o' [->|Ho']%elem_of_cons ?; [done|by apply Hos]|done].
           destruct Hn as [[= ->]|[? ?]]; right; (split; [|done]); [by left|by right].
      * split_and!; [|intros o' [->|Ho']%elem_of_cons ?; [lia|by apply Hos]|done].
        destruct Hn as [?|[? ?]]; [by left|right; split; [by right|done]].
    + destruct IH as [Hacc Hos]. unfold nearer in Hacc.
      destruct (Z.ltb_spec now (so_ScheduledTime o)).
      * destruct acc as [x|]; [destruct (_ <? _)|]; done.
      * split; [done|]. intros o' [->|Ho']%elem_of_cons; [lia|by apply Hos].
Qed.

Lemma list_pending a db jid :
  (∀ er, ¬ fault er) → repr a (contents db) → slash_free jid = true →
  ∃ os, BadgerStorage.ListPendingOccurrences jid db = (db, Ok os) ∧ NoDup os ∧
    ∀ o, o ∈ os ↔ pending a jid o.
Proof.
  intros Hf Hr Hj.
  destruct (job_occurrences a db jid (status_is JobStatusPending) Hr Hj) as (r & E & Hl).
  destruct r as [os|er]; [|by apply Hf in Hl]. destruct Hl as [Hnd Hl].
  exists os. split_and!; [exact E|done|]. intros o. rewrite Hl, status_is_spec. done.
Qed.

(** The occurrences that satisfy [P] are canceled, nothing else changes. *)
Definition canceled a jid (P : StorageOccurrence → Prop) a' : Prop :=
  (∀ o, pending a jid o → P o →
     ∃ e u, a' !! occ_slot_of o = Some (EOcc (set_so_UpdatedAt u (cancel e o)))) ∧
  (∀ s, (∀ o, pending a jid o → P o → occ_slot_of o ≠ s) → a' !! s = a !! s).
Lemma canceled_ext a jid (P Q : StorageOccurrence → Prop) a' :
  (∀ o, pending a jid o → P o ↔ Q o) → canceled a jid P a' → canceled a jid Q a'.
Proof.
  intros HPQ [Hin Hout]. split; [intros o Ho HQ; apply Hin; [done|by apply HPQ]|].
  intros s Hs. apply Hout. intros o Ho HP. apply Hs; [done|by apply HPQ].
Qed.

Lemma cancel_listed which os jid a w w' r :
  (∀ er, ¬ fault er) → NoDup os → (∀ o, o ∈ os ↔ pending a jid o) →
  in_rfc3339_range (w_time w) → in_rfc3339_range (w_time w') → repr a (contents (w_store w)) →
  run jitter coin (cancel_all which os) w = (w', r) →
  r = Done (Ok tt) ∧ ∃ a', repr a' (contents (w_store w')) ∧ canceled a jid (λ o, which o = true) a'.
Proof.
  intros Hf Hnd Hl Hw Hw' Hr E.
  destruct (listed_writable a (w_store w) os Hr Hnd ltac:(intros o [Ho _]%Hl; done)) as [Hnd' Hall].
  destruct (cancel_all_store which os a w w' r Hf Hnd' Hall Hw Hw' Hr E) as (-> & a' & Hr' & Hin & Hout).
  split; [done|]. exists a'. split; [done|]. split.
  - intros o Ho Hwo. apply Hin, list_elem_of_filter. split; [done|by apply Hl].
  - intros s Hs. apply Hout. rewrite list_elem_of_fmap.
    intros (o & -> & [Hwo Ho%Hl]%list_elem_of_filter). by eapply Hs.
Qed.

Lemma applyImmediateUpdate_store job now a w w' r :
  (∀ er, ¬ fault er) → slash_free (sj_ID job) = true →
  in_rfc3339_range (w_time w) → in_rfc3339_range (w_time w') → repr a (contents (w_store w)) →
  run jitter coin (applyImmediateUpdate job now) w = (w', r) →
  r = Done (Ok tt) ∧ ∃ a', repr a' (contents (w_store w')) ∧
    canceled a (sj_ID job) (λ o, now < so_ScheduledTime o) a'.
Proof.
  intros Hf Hj Hw Hw' Hr E. destruct (list_pending a (w_store w) (sj_ID job) Hf Hr Hj) as (os & El & Hnd & Hl).
  unfold applyImmediateUpdate in E. erewrite run_read in E by exact El. cbv beta iota in E.
  destruct (cancel_listed _ _ _ a _ _ _ Hf Hnd Hl Hw Hw' Hr E) as (-> & a' & Hr' & Hc).
  split; [done|]. exists a'. split; [done|]. eapply canceled_ext; [|exact Hc].
  intros o _. cbv beta. by rewrite Z.ltb_lt.
Qed.

Lemma applyGracefulUpdate_store job now a w w' r :
  (∀ er, ¬ fault er) → slash_free (sj_ID job) = true →
  in_rfc3339_range (w_time w) → in_rfc3339_range (w_time w') → repr a (contents (w_store w)) →
  run jitter coin (applyGracefulUpdate job now) w = (w', r) →
  r = Done (Ok tt) ∧ ∃ a', repr a' (contents (w_store w')) ∧
    canceled a (sj_ID job)
      (λ o, ∃ n, pending a (sj_ID job) n ∧ now < so_ScheduledTime n < so_ScheduledTime o) a'.
Proof.
  intros Hf Hj Hw Hw' Hr E. destruct (list_pending a (w_store w) (sj_ID job) Hf Hr Hj) as (os & El & Hnd & Hl).
  unfold applyGracefulUpdate in E. erewrite run_read in E by exact El. cbv beta iota in E.
  pose proof (nearest_spec now os None) as HN. destruct (foldl (nearer now) None os) as [n|].
  - destruct HN as ([?|[Hn Hfut]] & Hmin & _); [done|].
    destruct (cancel_listed _ _ _ a _ _ _ Hf Hnd Hl Hw Hw' Hr E) as (-> & a' & Hr' & Hc).
    split; [done|]. exists a'. split; [done|]. eapply canceled_ext; [|exact Hc].
    intros o Ho. cbv beta. rewrite Z.ltb_lt. split; [intros; exists n; split; [by apply Hl|lia]|].
    intros (n' & Hn'%Hl & ? & ?). specialize (Hmin n' Hn'). lia.
  - destruct HN as [_ HN].
    destruct (applyImmediateUpdate_store _ _ a _ _ _ Hf Hj Hw Hw' Hr E) as (-> & a' & Hr' & Hc).
    split; [done|]. exists a'. split; [done|]. eapply canceled_ext; [|exact Hc].
    intros o Ho%Hl. cbv beta. split; [by intros ?%HN|].
    intros (n & Hn%Hl & ? & _). by apply HN in Hn.
Qed.

Lemma applyWindowedUpdate_store job now a w w' r :
  (∀ er, ¬ fault er) → slash_free (sj_ID job) = true →
  in_rfc3339_range (w_time w) → in_rfc3339_range (w_time w') → repr a (contents (w_store w)) →
  run jitter coin (applyWindowedUpdate job now) w = (w', r) →
  r = Done (Ok tt) ∧ ∃ a', repr a' (contents (w_store w')) ∧
    canceled a (sj_ID job) (λ o, now < so_ScheduledTime o < now + week) a'.
Proof.
  intros Hf Hj Hw Hw' Hr E. destruct (list_pending a (w_store w) (sj_ID job) Hf Hr Hj) as (os & El & Hnd & Hl).
  unfold applyWindowedUpdate in E. erewrite run_read in E by exact El. cbv beta iota in E.
  destruct (cancel_listed _ _ _ a _ _ _ Hf Hnd Hl Hw Hw' Hr E) as (-> & a' & Hr' & Hc).
  split; [done|]. exists a'. split; [done|]. eapply canceled_ext; [|exact Hc].
  intros o _. cbv beta. by rewrite andb_true_iff, !Z.ltb_lt.
Qed.

(** C25: the policies of a schedule change.  With a healthy database, at a
    reading [now] of the clock, [applyScheduleUpdate] succeeds and cancels
    exactly these pending occurrences of the job: Immediate (and any unknown
    policy), those after [now]; Windowed, those after [now] and within a
    week; Graceful, those after the next one, which stays.  Occurrences in
    another state, of other jobs, and all other records are as before. *)
Theorem update_policy_cancels job u a w w' r :
  (∀ er, ¬ fault er) → slash_free (sj_ID job) = true →
  in_rfc3339_range (w_time w) → in_rfc3339_range (w_time w') → repr a (contents (w_store w)) →
  run jitter coin (applyScheduleUpdate job u) w = (w', r) →
  r = Done (Ok tt) ∧ ∃ a', repr a' (contents (w_store w')) ∧
    (∀ o, pending a (sj_ID job) o → cancels a (sj_ID job) (ju_Policy u) (next_reading jitter w) o →
       ∃ e v, a' !! occ_slot_of o = Some (EOcc (set_so_UpdatedAt v (cancel e o)))) ∧
    (∀ s, (∀ o, pending a (sj_ID job) o → cancels a (sj_ID job) (ju_Policy u) (next_reading jitter w) o →
             occ_slot_of o ≠ s) → a' !! s = a !! s).
Proof.
  intros Hf Hj Hw Hw' Hr E. unfold applyScheduleUpdate in E. rewrite run_act in E.
  cbn [perform] in E. fold (next_reading jitter w) in E.
  match type of E with run _ _ _ ?v = _ => set (w0 := v) in E end.
  change (w_time (read_clock jitter w)) with (next_reading jitter w) in E.
  pose proof (run_later jitter coin (applyScheduleUpdate (M:=M) job u) w) as Hl.
  assert (Hw0 : in_rfc3339_range (w_time w0)).
  { match type of E with run _ _ ?p _ = _ => pose proof (run_later jitter coin p w0) as Hl0 end.
    rewrite E in Hl0. simpl in Hl0. eapply range_between; [exact Hw|exact Hw'|]. simpl. lia. }
  assert (Hr0 : repr a (contents (w_store w0))) by done. clearbody w0.
  revert E. unfold cancels. generalize (next_reading jitter w) (ju_Policy u). intros now p E.
  destruct (decide (p = UpdatePolicyImmediate)) as [->|H1].
  { exact (applyImmediateUpdate_store job now a w0 w' r Hf Hj Hw0 Hw' Hr0 E). }
  rewrite (bool_decide_false (p = UpdatePolicyImmediate)) in E by done.
  destruct (decide (p = UpdatePolicyGraceful)) as [->|H2].
  { exact (applyGracefulUpdate_store job now a w0 w' r Hf Hj Hw0 Hw' Hr0 E). }
  rewrite (bool_decide_false (p = UpdatePolicyGraceful)) in E |- * by done.
  destruct (decide (p = UpdatePolicyWindowed)) as [->|H3].
  { exact (applyWindowedUpdate_store job now a w0 w' r Hf Hj Hw0 Hw' Hr0 E). }
  rewrite (bool_decide_false (p = UpdatePolicyWindowed)) in E |- * by done.
  exact (applyImmediateUpdate_store job now a w0 w' r Hf Hj Hw0 Hw' Hr0 E).
Qed.

(** *** Frames: programs that keep the job records *)

(** From any represented store the program ends normally, with a value that
    satisfies [Q] and a represented store that has the same job records. *)
Definition keeps_jobs {A} (p : Prog DB M A) (Q : A → Prop) : Prop :=
  ∀ a w, repr a (contents (w_store w)) →
    let '(w', r) := run jitter coin p w in
    (∃ a', repr a' (contents (w_store w')) ∧ ∀ i, a' !! JobSlot i = a !! JobSlot i) ∧
    match r with Done x => Q x | Crash _ => False end.

Lemma keeps_ret {A} (x : A) (Q : A → Prop) : Q x → keeps_jobs (Ret x) Q.
Proof. intros HQ a w Hr. simpl. split; [by exists a|done]. Qed.
Lemma keeps_bind {A B} (p : Prog DB M A) (f : A → Prog DB M B) Q (R : B → Prop) :
  keeps_jobs p Q → (∀ x, Q x → keeps_jobs (f x) R) → keeps_jobs (p ≫= f) R.
Proof.
  intros Hp Hf a w Hr. rewrite run_bind. specialize (Hp a w Hr).
  destruct (run jitter coin p w) as [w1 [x|m]]; destruct Hp as [(a1 & Hr1 & Ha1) HQ]; [|done].
  specialize (Hf x HQ a1 w1 Hr1). destruct (run jitter coin (f x) w1) as [w2 r].
  destruct Hf as [(a2 & Hr2 & Ha2) HR]. split; [|done]. exists a2. split; [done|].
  intros i. by rewrite Ha2.
Qed.
Lemma keeps_now {A} (f : Instant → Prog DB M A) R :
  (∀ t, keeps_jobs (f t) R) → keeps_jobs (do Now ≫= f) R.
Proof. intros Hf a w Hr. rewrite run_act. cbn [perform]. by apply Hf. Qed.

(** An operation on the store by itself. *)
Definition op_keeps {A} (m : St DB A) (Q : A → Prop) : Prop :=
  ∀ a db, repr a (contents db) →
    let '(db', r) := m db in
    (∃ a', repr a' (contents db') ∧ ∀ i, a' !! JobSlot i = a !! JobSlot i) ∧ Q r.
Lemma keeps_op {A} (m : St DB A) Q : op_keeps m Q → keeps_jobs (do (OnStore m)) Q.
Proof.
  intros Hm a w Hr. rewrite run_do. cbn [perform]. specialize (Hm a (w_store w) Hr).
  by destruct (m (w_store w)) as [db r].
Qed.
Lemma op_keeps_impl {A} (m : St DB A) (Q R : A → Prop) :
  (∀ x, Q x → R x) → op_keeps m Q → op_keeps m R.
Proof. intros HQR Hm a db Hr. specialize (Hm a db Hr). destruct (m db), Hm. auto. Qed.

Definition is_job (e : entry) : bool := match e with EJob _ => true | _ => false end.
Lemma insert_keeps a e : is_job e = false → ∀ i, <[slot_of e := e]> a !! JobSlot i = a !! JobSlot i.
Proof. intros He i. apply lookup_insert_ne. by destruct e. Qed.

Lemma create_keeps e : slot_ok (slot_of e) → is_job e = false → op_keeps (do_create e) (λ _, True).
Proof.
  intros Hs He a db Hr. pose proof (badger_create_state a db e Hr Hs) as HC.
  destruct (do_create e db) as [db' [[]|er]]; split; [|done|by exists a|done].
  eexists. split; [exact HC|by apply insert_keeps].
Qed.
Lemma update_keeps now e : slot_ok (slot_of e) → is_job e = false → op_keeps (do_update now e) (λ _, True).
Proof.
  intros Hs He a db Hr. pose proof (update_cases a db now e Hr Hs) as HC.
  destruct (do_update now e db) as [db' r]. split; [|done].
  destruct HC as [(_ & _ & _ & ?)|HC]; [by exists a|].
  destruct (a !! slot_of e), (Marshal (touch now e)); destruct HC as [_ HC];
    try (exists a; split; [exact HC|done]).
  eexists. split; [exact HC|]. rewrite <- (slot_of_touch now e). apply insert_keeps. by destruct e.
Qed.

Definition found_ok (r : Result StorageTask) : Prop :=
  match r with Ok k => slot_ok (slot_of (ETask k)) | Err _ => True end.
Lemma GetTask_stored a db tid :
  repr a (contents db) → ∃ r, BadgerStorage.GetTask tid db = (db, r) ∧ found_ok r.
Proof.
  intros Hr. destruct (search_spec a db Unmarshal_Task
    (λ key, Contains key "/task/" && HasSuffix key tid) ("task not found: " +:+ tid) ETask Hr)
    as (r & HE & Hf); [apply Task_roundtrip| |].
  { intros s e He _ [Hc _]%andb_true_iff. destruct (repr_to _ _ Hr _ _ He) as (Hs & Hsl & _).
    rewrite key_is_task in Hc by done. destruct s, e; simplify_eq/=; eauto. }
  exists r. split; [done|]. destruct r as [k|]; [|done]. destruct Hf as (Hk & _).
  exact (proj1 (stored _ _ _ _ Hr Hk)).
Qed.
Lemma GetTask_keeps tid : op_keeps (BadgerStorage.GetTask tid) found_ok.
Proof.
  intros a db Hr. destruct (GetTask_stored a db tid Hr) as (r & -> & Hk).
  split; [by exists a|done].
Qed.
Lemma DeleteTask_keeps tid : op_keeps (BadgerStorage.DeleteTask tid) (λ _, True).
Proof.
  intros a db Hr. unfold BadgerStorage.DeleteTask, try_bind.
  destruct (GetTask_stored a db tid Hr) as ([k|er] & -> & Hk); [|split; [by exists a|done]].
  pose proof (delete_refines a db _ Hr Hk) as HD. simpl in HD.
  destruct (Badger.Update _ db) as [db' [[]|er]]; (split; [|done]).
  - eexists. split; [exact HD|]. intros i. by apply lookup_delete_ne.
  - exists a. by destruct HD.
Qed.

Definition listed_ok (r : Result (list StorageOccurrence)) : Prop :=
  match r with Ok os => Forall (λ o, slot_ok (occ_slot_of o)) os | Err _ => True end.
Lemma pending_keeps jid :
  slash_free jid = true → op_keeps (BadgerStorage.ListPendingOccurrences jid) listed_ok.
Proof.
  intros Hj a db Hr.
  destruct (job_occurrences a db jid (status_is JobStatusPending) Hr Hj) as (r & E & Hl).
  unfold BadgerStorage.ListPendingOccurrences. rewrite E. split; [by exists a|].
  destruct r as [os|]; [|done]. apply Forall_forall. intros o (Ho & _)%Hl.
  exact (proj1 (stored _ _ _ _ Hr Ho)).
Qed.

Definition anything {A} (x : A) : Prop := True.

Lemma or_fail_keeps msg (p k : Prog DB M (Result unit)) :
  keeps_jobs p anything → keeps_jobs k anything → keeps_jobs (or_fail msg p k) anything.
Proof.
  intros Hp Hk. eapply keeps_bind; [exact Hp|]. intros [x|e] _; [exact Hk|by apply keeps_ret].
Qed.
Lemma cancel_all_keeps which os :
  Forall (λ o, slot_ok (occ_slot_of o)) os → keeps_jobs (cancel_all which os) anything.
Proof.
  induction 1 as [|o os Ho _ IH]; [by apply keeps_ret|]. cbn [cancel_all].
  destruct (which o); [|exact IH]. apply keeps_now. intros e. apply keeps_now. intros u.
  eapply keeps_bind; [apply keeps_op; exact (update_keeps u (EOcc (cancel e o)) Ho eq_refl)|].
  intros [[]|er] _; [exact IH|by apply keeps_ret].
Qed.
Lemma on_pending_keeps jid (f : list StorageOccurrence → Prog DB M (Result unit)) :
  slash_free jid = true →
  (∀ os, Forall (λ o, slot_ok (occ_slot_of o)) os → keeps_jobs (f os) anything) →
  keeps_jobs (r ← do (OnStore (BadgerStorage.ListPendingOccurrences jid));
              match r with Err e => Ret (Err e) | Ok os => f os end) anything.
Proof.
  intros Hj Hf. eapply keeps_bind; [by apply keeps_op, pending_keeps|].
  intros [os|er] Hr; [by apply Hf|by apply keeps_ret].
Qed.
Lemma applyScheduleUpdate_keeps job u :
  slash_free (sj_ID job) = true → keeps_jobs (applyScheduleUpdate job u) anything.
Proof.
  intros Hj. apply keeps_now. intros now.
  assert (HI : keeps_jobs (applyImmediateUpdate job now) anything)
    by (apply on_pending_keeps; [done|intros; by apply cancel_all_keeps]).
  repeat case_bool_decide; [exact HI| | |exact HI]; (apply on_pending_keeps; [done|]); intros os Hos.
  - destruct (foldl (nearer now) None os); [by apply cancel_all_keeps|exact HI].
  - by apply cancel_all_keeps.
Qed.
Lemma add_tasks_keeps jid ts k :
  job_id_ok jid → Forall (λ t, slash_free (t_ID t) = true) ts →
  keeps_jobs k anything → keeps_jobs (add_tasks jid ts k) anything.
Proof.
  intros Hj Hts Hk. induction Hts as [|t ts Ht _ IH]; [exact Hk|]. cbn [add_tasks].
  apply keeps_now. intros c. apply keeps_now. intros v. apply or_fail_keeps; [|exact IH].
  by eapply keeps_op, (create_keeps (ETask _)).
Qed.
Lemma remove_tasks_keeps ids k : keeps_jobs k anything → keeps_jobs (remove_tasks ids k) anything.
Proof.
  intros Hk. induction ids as [|i ids IH]; [exact Hk|]. cbn [remove_tasks].
  apply or_fail_keeps; [|exact IH]. apply keeps_op, DeleteTask_keeps.
Qed.
Lemma change_tasks_keeps ts k : keeps_jobs k anything → keeps_jobs (change_tasks ts k) anything.
Proof.
  intros Hk. induction ts as [|t ts IH]; [exact Hk|]. cbn [change_tasks].
  eapply keeps_bind; [apply keeps_op, GetTask_keeps|]. intros [st|er] Hst; [|by apply keeps_ret].
  apply keeps_now. intros v. apply keeps_now. intros now. apply or_fail_keeps; [|exact IH].
  apply keeps_op. by apply (update_keeps now (ETask _)).
Qed.

(** The part of an accepted update after the job record is written. *)
Definition after_job job u : Prog DB M (Result unit) :=
  add_tasks (ju_JobID u) (ju_AddedTasks u)
    (remove_tasks (ju_RemovedTaskIDs u)
      (change_tasks (ju_UpdatedTasks u)
        (match ju_NewTicker u with
         | None => Ret (Ok tt)
         | Some _ =>
             or_fail "failed to apply schedule update: " (applyScheduleUpdate job u) (Ret (Ok tt))
         end))).
Lemma after_job_keeps job u :
  job_id_ok (ju_JobID u) → slash_free (sj_ID job) = true →
  Forall (λ t, slash_free (t_ID t) = true) (ju_AddedTasks u) → keeps_jobs (after_job job u) anything.
Proof.
  intros Hu Hj Hts. apply add_tasks_keeps; [done..|]. apply remove_tasks_keeps, change_tasks_keeps.
  destruct (ju_NewTicker u); [|by apply keeps_ret].
  apply or_fail_keeps; [by apply applyScheduleUpdate_keeps|by apply keeps_ret].
Qed.

Lemma ApplyUpdate_eq u :
  ApplyUpdate (S:=DB) (M:=M) u =
    (r ← do (OnStore (BadgerStorage.GetJob (ju_JobID u)));
     match r with
     | Err e => Ret (Err ("failed to load current job: " +:+ e))
     | Ok j =>
         if negb (bool_decide (sj_Version j = ju_ExpectedVersion u))
         then Ret (Err (version_mismatch (ju_ExpectedVersion u) (sj_Version j)))
         else t ← do Now; now ← do Now;
              or_fail "failed to update job: "
                (do (OnStore (BadgerStorage.UpdateJob now (updated_job j u t))))
                (after_job (updated_job j u t) u)
     end).
Proof. done. Qed.

(** Why an update can be refused. *)
Definition refusal a u (e : GoError) : Prop :=
  (∃ x, e = "failed to load current job: " +:+ x ∧
     (fault x ∨ (x = "job not found: " +:+ ju_JobID u ∧ ∀ j, a !! JobSlot (ju_JobID u) ≠ Some (EJob j)))) ∨
  (∃ j, a !! JobSlot (ju_JobID u) = Some (EJob j) ∧ sj_Version j ≠ ju_ExpectedVersion u ∧
     e = version_mismatch (ju_ExpectedVersion u) (sj_Version j)) ∨
  (∃ j x, a !! JobSlot (ju_JobID u) = Some (EJob j) ∧ sj_Version j = ju_ExpectedVersion u ∧
     e = "failed to update job: " +:+ x ∧
     (fault x ∨ ∃ t v y, Marshal (EJob (set_sj_UpdatedAt v (updated_job j u t))) = Err y ∧
                         x = "failed to marshal job: " +:+ y)).
Definition accepted a u a' : Prop :=
  ∃ j t v, a !! JobSlot (ju_JobID u) = Some (EJob j) ∧ sj_Version j = ju_ExpectedVersion u ∧
    a' !! JobSlot (ju_JobID u) = Some (EJob (set_sj_UpdatedAt v (updated_job j u t))) ∧
    ∀ i, i ≠ ju_JobID u → a' !! JobSlot i = a !! JobSlot i.

(** Refused, nothing is changed; accepted, the job's record carries the next
    version, whatever happens afterwards. *)
Lemma ApplyUpdate_cases u a w :
  job_id_ok (ju_JobID u) → Forall (λ t, slash_free (t_ID t) = true) (ju_AddedTasks u) →
  repr a (contents (w_store w)) →
  let '(w', r) := run jitter coin (ApplyUpdate u) w in
  ∃ a' res, r = Done res ∧ repr a' (contents (w_store w')) ∧
    ((a' = a ∧ ∃ e, res = Err e ∧ refusal a u e) ∨ accepted a u a').
Proof.
  intros Hu Hts Hr. rewrite ApplyUpdate_eq.
  destruct (GetJob_spec a (w_store w) _ Hr Hu) as (rj & Ej & Hj).
  erewrite run_read by exact Ej. cbv beta.
  destruct rj as [j|er]; simpl in Hj;
    [|cbn [run]; exists a; eexists; split_and!; [done..|]; left; split; [done|]; eexists; split; [done|];
      left; by eexists].
  destruct (decide (sj_Version j = ju_ExpectedVersion u)) as [Hv|Hv];
    [rewrite bool_decide_true by done|rewrite bool_decide_false by done]; cbn [negb];
    [|cbn [run]; exists a; eexists; split_and!; [done..|]; left; split; [done|]; eexists; split; [done|];
      right; left; by exists j].
  rewrite !run_now. set (t := next_reading jitter w).
  set (now := next_reading jitter (read_clock jitter w)).
  set (w1 := read_clock jitter (read_clock jitter w)).
  assert (Hr1 : repr a (contents (w_store w1))) by done. clearbody w1.
  pose proof (stored _ _ _ _ Hr Hj) as [Hs Hid]. simpl in Hid. injection Hid as Hid.
  assert (Hslot : slot_of (EJob (updated_job j u t)) = JobSlot (ju_JobID u)) by (simpl; by rewrite Hid).
  unfold or_fail.
  pose proof (update_cases a (w_store w1) now (EJob (updated_job j u t)) Hr1 ltac:(by rewrite Hslot)) as HC.
  change (do_update now (EJob (updated_job j u t))) with (BadgerStorage.UpdateJob now (updated_job j u t)) in HC.
  rewrite Hslot, Hj in HC.
  destruct (BadgerStorage.UpdateJob now (updated_job j u t) (w_store w1)) as [db2 r2] eqn:E2.
  erewrite run_store by exact E2. cbv beta. destruct HC as [(er & -> & Hf & Hr2)|HC].
  { cbn [run]. exists a. eexists. split_and!; [done..|]. left. split; [done|]. eexists. split; [done|].
    right; right. exists j, er. split_and!; [done..|by left]. }
  destruct (Marshal (touch now _)) as [d|me] eqn:Em; destruct HC as [-> Hr2].
  2: { cbn [run]. exists a. eexists. split_and!; [done..|]. left. split; [done|]. eexists. split; [done|].
    right; right. exists j. eexists. split_and!; [done..|]. right. by exists t, now, me. }
  pose proof (after_job_keeps (updated_job j u t) u Hu ltac:(simpl; rewrite Hid; apply Hu) Hts) as HA.
  match goal with |- context [run _ _ (after_job _ _) ?v] => specialize (HA _ v Hr2) end.
  destruct (run jitter coin (after_job _ u) _) as [w' [res|m]]; destruct HA as [(a' & Hr' & Ha') Hx]; [|done].
  exists a', res. split_and!; [done..|]. right. exists j, t, now. split_and!; [done..| |].
  - rewrite Ha'. by rewrite lookup_insert_eq.
  - intros i Hi. rewrite Ha'. rewrite lookup_insert_ne; congruence.
Qed.

(** C23: optimistic versions.  With a healthy database [ApplyUpdate] never
    panics.  A job that is not stored, and a stored version other than the
    expected one, are refused with the error that says so, and nothing is
    changed.  Otherwise either nothing is changed and an error returned, or
    the job's record carries the next version (and the new configuration when
    one is given), whatever happens to the tasks and the schedule afterwards,
    no other job's record being touched. *)
Theorem update_version_checked u a w :
  (∀ er, ¬ fault er) → job_id_ok (ju_JobID u) →
  Forall (λ t, slash_free (t_ID t) = true) (ju_AddedTasks u) → repr a (contents (w_store w)) →
  let '(w', r) := run jitter coin (ApplyUpdate u) w in
  ∃ a' res, r = Done res ∧ repr a' (contents (w_store w')) ∧
    match a !! JobSlot (ju_JobID u) with
    | Some (EJob j) =>
        if bool_decide (sj_Version j = ju_ExpectedVersion u) then
          (a' = a ∧ is_ok res = false) ∨
          (∃ t v, a' !! JobSlot (ju_JobID u) = Some (EJob (set_sj_UpdatedAt v (updated_job j u t))) ∧
                  ∀ i, i ≠ ju_JobID u → a' !! JobSlot i = a !! JobSlot i)
        else a' = a ∧ res = Err (version_mismatch (ju_ExpectedVersion u) (sj_Version j))
    | _ => a' = a ∧ res = Err ("failed to load current job: job not found: " +:+ ju_JobID u)
    end.
Proof.
  intros Hf Hu Hts Hr. pose proof (ApplyUpdate_cases u a w Hu Hts Hr) as HC.
  destruct (run _ _ (ApplyUpdate u) w) as [w' r]. destruct HC as (a' & res & -> & Hr' & HC).
  exists a', res. split_and!; [done..|].
  destruct HC as [(-> & e & -> & HR)|(j & t & v & Hj & Hv & Hj' & Ho)].
  - destruct HR as [(x & -> & [Hx|[-> Hno]])|[(j & Hj & Hv & ->)|(j & x & Hj & Hv & -> & _)]].
    + by apply Hf in Hx.
    + destruct (a !! JobSlot _) as [[]|]; try done. by destruct (Hno j).
    + rewrite Hj, bool_decide_false by done. done.
    + rewrite Hj, bool_decide_true by done. by left.
  - rewrite Hj, bool_decide_true by done. right. by exists t, v.
Qed.
End UpdateStore.
