(* ===== verification/UpdateExamples.v ===== *)
(** * Updates on a concrete store *)
From S2P Require Import Prelude GoTime GoContext Types Ids Job Metrics Storage Badger StorageSpec BadgerCorrect MemBadger Ticker ISO8601Ticker Effects OccStore Update RecoveryExamples.
Local Open Scope Z_scope.
Import MemBadger StoreExamples.
#[local] Existing Instance BadgerStorage.storage.

(** Three pending occurrences of a job, after the instant 1000. *)
Definition pend (i : string) (t : Instant) : StorageOccurrence :=
  mkStorageOccurrence i "job-1" 1 t JobStatusPending "node-a" None None BNil false 900 900.
Definition p1 := pend "oc-11" 2000.
Definition p2 := pend "oc-12" 3000.
Definition p3 := pend "oc-13" (1000 + 2 * week).
Definition insert_all (es : list entry) (a : gmap slot entry) : gmap slot entry :=
  foldl (λ a e, <[slot_of e := e]> a) a es.
Definition entries : list entry := [EJob job1; EOcc p1; EOcc p2; EOcc p3].
Definition a3 : gmap slot entry := insert_all entries a2.
Definition db3 : DB := fst (run_all (do_create <$> entries) db2).

Lemma repr_a3 : repr a3 (contents db3).
Proof.
  pose proof (badger_create_state _ _ (EJob job1) repr_a2 ltac:(ids)) as H1.
  pose proof (badger_create_state _ _ (EOcc p1) H1 ltac:(ids)) as H2.
  pose proof (badger_create_state _ _ (EOcc p2) H2 ltac:(ids)) as H3.
  exact (badger_create_state _ _ (EOcc p3) H3 ltac:(ids)).
Qed.

Definition windowed : JobUpdate := mkJobUpdate "job-1" 1 None (Some 2%positive) [] [] [] UpdatePolicyWindowed.
Definition graceful : JobUpdate := mkJobUpdate "job-1" 1 None (Some 2%positive) [] [] [] UpdatePolicyGraceful.
Definition w3 : World DB unit := mkWorld db3 tt 1000 0 [].
Definition windowed_run := run no_jitter heads (applyScheduleUpdate (M:=unit) job1 windowed) w3.

(** Two of the three are within a week. *)
Definition statuses (db : DB) : list (string * JobStatus) :=
  match snd (scan "job/" Unmarshal_Occurrence BadgerStorage.not_occurrence (λ _, true) db) with
  | Ok os => (λ o, (so_ID o, so_Status o)) <$> os
  | Err _ => []
  end.
Lemma update_policy_cancels_witness :
  statuses (w_store (fst windowed_run)) =
    [("oc-01", JobStatusRunning); ("oc-11", JobStatusCanceled); ("oc-12", JobStatusCanceled);
     ("oc-13", JobStatusPending)] ∧
  snd windowed_run = Done (Ok tt) ∧ ∃ a', repr a' (contents (w_store (fst windowed_run))) ∧
    (∃ e v, a' !! occ_slot_of p1 = Some (EOcc (set_so_UpdatedAt v (cancel e p1)))).
Proof.
  split; [vm_compute; reflexivity|].
  destruct (update_policy_cancels no_jitter heads job1 windowed a3 w3 (fst windowed_run) (snd windowed_run)
    healthy eq_refl ltac:(in_range) ltac:(in_range) repr_a3 (surjective_pairing _)) as (E & a' & Hr & Hc & _).
  split; [exact E|]. exists a'. split; [exact Hr|]. apply Hc.
  - split; [reflexivity|]. split; reflexivity.
  - unfold cancels. rewrite bool_decide_false by done. rewrite bool_decide_true by done.
    split; reflexivity.
Defined.

(** Graceful keeps the next one. *)
Lemma graceful_keeps_next :
  statuses (w_store (fst (run no_jitter heads (applyScheduleUpdate (M:=unit) job1 graceful) w3))) =
    [("oc-01", JobStatusRunning); ("oc-11", JobStatusPending); ("oc-12", JobStatusCanceled);
     ("oc-13", JobStatusCanceled)].
Proof. vm_compute. reflexivity. Qed.

(** An accepted and a refused update. *)
Definition stale : JobUpdate := mkJobUpdate "job-1" 7 None None [] [] [] UpdatePolicyImmediate.
Definition stored_job (db : DB) : Result StorageJob := snd (BadgerStorage.GetJob "job-1" db).
Definition stored_v (db : DB) : option Z :=
  match stored_job db with Ok j => Some (sj_Version j) | Err _ => None end.
Definition graceful_run := run no_jitter heads (ApplyUpdate (M:=unit) graceful) w3.
Definition stale_run := run no_jitter heads (ApplyUpdate (M:=unit) stale) w3.

Lemma update_version_checked_witness :
  stored_v (w_store (fst graceful_run)) = Some 2 ∧ snd graceful_run = Done (Ok tt) ∧
  snd stale_run = Done (Err "version mismatch: expected 7, got 1") ∧
  (∃ a', repr a' (contents (w_store (fst stale_run))) ∧ a' = a3) ∧
  (∃ a' res, snd graceful_run = Done res ∧ repr a' (contents (w_store (fst graceful_run)))).
Proof.
  split; [vm_compute; reflexivity|]. split; [vm_compute; reflexivity|]. split; [vm_compute; reflexivity|].
  pose proof (update_version_checked no_jitter heads stale a3 w3 healthy ltac:(ids) ltac:(constructor) repr_a3) as HS.
  pose proof (update_version_checked no_jitter heads graceful a3 w3 healthy ltac:(ids) ltac:(constructor) repr_a3) as HG.
  fold stale_run in HS. fold graceful_run in HG.
  rewrite (surjective_pairing stale_run) in HS. rewrite (surjective_pairing graceful_run) in HG. split.
  - destruct HS as (a' & res & _ & Hr & [Ha _]). exists a'. split; [exact Hr|exact Ha].
  - destruct HG as (a' & res & E & Hr & _). exists a', res. split; [exact E|exact Hr].
Defined.

(** The check and the write are two transactions: of two updates that expect
    the same version, both can pass the check and both succeed, the second
    overwriting the first. *)
Definition up (c : JobConfig) : JobUpdate := mkJobUpdate "job-1" 1 (Some c) None [] [] [] UpdatePolicyImmediate.
Definition then_write (u : JobUpdate) (j : StorageJob) : Prog DB unit (Result unit) :=
  now ← do Now; applyUpdateTransaction (updated_job j u now) u.
Lemma both_updates_accepted c1 c2 :
  let w1 := fst (run no_jitter heads (then_write (up c1) job1) w3) in
  let r1 := snd (run no_jitter heads (then_write (up c1) job1) w3) in
  let r2 := run no_jitter heads (then_write (up c2) job1) w1 in
  stored_job db3 = Ok job1 ∧ r1 = Done (Ok tt) ∧ snd r2 = Done (Ok tt) ∧
  stored_v (w_store (fst r2)) = Some 2.
Proof. repeat split; vm_compute; reflexivity. Qed.

(** A failing step after the job's record was written: the version has moved,
    the error is returned, and the update cannot be tried again. *)
Definition bad : JobUpdate := mkJobUpdate "job-1" 1 None None [] ["missing"] [] UpdatePolicyImmediate.
Lemma failed_update_moves_version :
  let r := run no_jitter heads (ApplyUpdate (M:=unit) bad) w3 in
  snd r = Done (Err "failed to remove task missing: task not found: missing") ∧
  stored_v (w_store (fst r)) = Some 2 ∧
  snd (run no_jitter heads (ApplyUpdate (M:=unit) bad) (fst r)) =
    Done (Err "version mismatch: expected 1, got 2").
Proof. repeat split; vm_compute; reflexivity. Qed.

(** The same schedule written in two locations: every occurrence counts as
    removed and as added. *)
Section SameInstants.
Import ISO8601Ticker.ISO8601Ticker ISOExamples.
Definition every_ten (l : Loc) : ISO8601Ticker.t := ISO8601Ticker.mk 10 (mkTime 1000 l) 5 cfg l 0 None (newCtl 10).
Lemma same_instants_differ :
  DiffSchedules (every_ten UTC) (every_ten (LocPtr 3)) (mkTime 1005 UTC) (mkTime 1030 UTC) =
    Ok ([mkTime 1010 (LocPtr 3); mkTime 1020 (LocPtr 3)], [mkTime 1010 UTC; mkTime 1020 UTC]).
Proof. vm_compute. reflexivity. Qed.
End SameInstants.
