(* ===== verification/Scheduler.v ===== *)
(** * scheduler/scheduler.go: the orchestrator

    [Scheduler] is the struct; [s_tickers] is the heap of the tickers its jobs
    refer to, a handle without a ticker being a nil interface.  Methods that
    talk to the storage are programs ([Effects]) that return the scheduler
    after the call; the others are functions.  Go visits a map in an order it
    does not promise: [MapRange] is any such order.  A method holds the locks
    it takes from its first statement to its last, so it is one call here; the
    goroutines of [watchJob] are described step by step.  The fields of a
    registered [*Job] are those of its entry in [s_jobs]: watchers read them
    through that entry. *)
From S2P Require Import Prelude GoTime GoContext Types Ids Job Metrics Pool Ticker Storage Effects Recovery Update.
Local Open Scope Z_scope.

(** [for _, x := range m]. *)
Class MapRange := {
  range : ∀ A, gmap string A → list A;
  range_perm A (m : gmap string A) : range A m ≡ₚ (map_to_list m).*2;
}.
Arguments range {_ A} m.

Lemma elem_of_range `{MapRange} {A} (m : gmap string A) x : x ∈ range m ↔ ∃ k, m !! k = Some x.
Proof.
  rewrite range_perm, list_elem_of_fmap. split.
  - intros ([k y] & -> & Hin%elem_of_map_to_list). by exists k.
  - intros [k Hk]. exists (k, x). split; [done|]. by apply elem_of_map_to_list.
Qed.

(** A goroutine of [watchJob]: at the top of the loop, in its [select] with the
    tick channel it has evaluated, or returned. *)
Inductive watch_pc := WAtTop | WSelect (ref : TickerRef) | WReturned.

Record Scheduler (T : Type) := mkScheduler {
  s_config : SchedulerConfig;
  s_jobs : gmap string Job;
  s_running : bool;
  s_cancelled : bool;                        (* [cancel] has been called *)
  s_watchers : list (string * watch_pc);     (* the job each one watches *)
  s_tickers : gmap TickerRef (loop_state T);
  s_pool : WorkerPool.t (Job * JobOccurrence);
  s_reaper : Reaper.t;
}.
Arguments mkScheduler {T}.
Arguments s_config {T}. Arguments s_jobs {T}. Arguments s_running {T}. Arguments s_cancelled {T}.
Arguments s_watchers {T}. Arguments s_tickers {T}. Arguments s_pool {T}. Arguments s_reaper {T}.

Section Fields.
Context {T : Type}.
Implicit Types s : Scheduler T.
Definition set_jobs js s := mkScheduler (s_config s) js (s_running s) (s_cancelled s)
  (s_watchers s) (s_tickers s) (s_pool s) (s_reaper s).
Definition set_running b s := mkScheduler (s_config s) (s_jobs s) b (s_cancelled s)
  (s_watchers s) (s_tickers s) (s_pool s) (s_reaper s).
Definition set_cancelled s := mkScheduler (s_config s) (s_jobs s) (s_running s) true
  (s_watchers s) (s_tickers s) (s_pool s) (s_reaper s).
Definition set_watchers ws s := mkScheduler (s_config s) (s_jobs s) (s_running s) (s_cancelled s)
  ws (s_tickers s) (s_pool s) (s_reaper s).
Definition set_tickers (ts : gmap TickerRef (loop_state T)) s := mkScheduler (s_config s) (s_jobs s) (s_running s) (s_cancelled s)
  (s_watchers s) ts (s_pool s) (s_reaper s).
Definition set_pool p s := mkScheduler (s_config s) (s_jobs s) (s_running s) (s_cancelled s)
  (s_watchers s) (s_tickers s) p (s_reaper s).
Definition set_reaper r s := mkScheduler (s_config s) (s_jobs s) (s_running s) (s_cancelled s)
  (s_watchers s) (s_tickers s) (s_pool s) r.

Definition NewScheduler (config : SchedulerConfig) (tickers : gmap TickerRef (loop_state T)) : Scheduler T :=
  mkScheduler config ∅ false false [] tickers (WorkerPool.New (MaxConcurrentJobs config))
    (Reaper.New (ReaperInterval config)).

Definition GetJob s (jobID : string) : option Job := s_jobs s !! jobID.
Definition ListJobs `{MapRange} s : list Job := range (s_jobs s).
End Fields.

(** A call that may panic or block for ever, in sequence. *)
Definition then_step {A B} (f : A → StepResult B) (r : StepResult A) : StepResult B :=
  match r with Next a => f a | Disabled => Disabled | Panicked m => Panicked m end.
Notation "x '<-!' m ';;' k" := (then_step (λ x, k) m)
  (at level 100, m at next level, k at level 200, right associativity, only parsing) : go_scope.
Local Open Scope go_scope.

Definition nil_dereference : string := "invalid memory address or nil pointer dereference".

Section Control.
Context {T : Type} `{TickerLoop T} `{MapRange}.
Implicit Types s : Scheduler T.

(** A method call on a job's ticker. *)
Definition call_ticker (ref : TickerRef) (a : loop_action) s : StepResult (Scheduler T) :=
  match s_tickers s !! ref with
  | None => Panicked nil_dereference
  | Some l => l' <-! step l a ;; Next (set_tickers (<[ref := l']> (s_tickers s)) s)
  end.

Definition schedulable (job : Job) : bool := j_Active job && negb (j_Paused job).

(** [job.Ticker.Start(); s.wg.Add(1); go s.watchJob(job)] for the active jobs. *)
Fixpoint start_tickers (jobs : list Job) s : StepResult (Scheduler T) :=
  match jobs with
  | [] => Next s
  | job :: rest =>
      if schedulable job then
        s1 <-! call_ticker (j_Ticker job) LStart s ;;
        start_tickers rest (set_watchers (s_watchers s1 ++ [(j_ID job, WAtTop)]) s1)
      else start_tickers rest s
  end.

(** [Start] from the end of the recovery. *)
Definition start_machinery s : StepResult (Scheduler T) :=
  reaper <-! Reaper.step (s_reaper s) Reaper.Start ;;
  pool <-! WorkerPool.step (s_pool s) WorkerPool.AStart ;;
  s1 <-! start_tickers (range (s_jobs s)) (set_pool pool (set_reaper reaper s)) ;;
  Next (set_running true s1).

Fixpoint stop_tickers (jobs : list Job) s : StepResult (Scheduler T) :=
  match jobs with
  | [] => Next s
  | job :: rest => s1 <-! call_ticker (j_Ticker job) LStop s ;; stop_tickers rest s1
  end.

(** The pool's steps from the entry of [Stop] to its return. *)
Definition is_stop_run (acts : list (WorkerPool.action (Job * JobOccurrence))) : bool :=
  match acts with
  | [WorkerPool.AStopNoop] => true
  | WorkerPool.AStopLock :: rest =>
      match last rest with Some WorkerPool.AStopReturn => true | _ => false end
  | _ => false
  end.
Definition pool_Stop acts s : StepResult (Scheduler T) :=
  if is_stop_run acts then
    pool <-! exec WorkerPool.step (s_pool s) acts ;; Next (set_pool pool s)
  else Disabled.

(** Waiting for the watchers, at most [timeout], changes nothing by itself:
    their returns are steps of their own. [acts] is what happens in the pool
    while it stops. *)
Definition Shutdown acts s : StepResult (Scheduler T) :=
  if negb (s_running s) then Next s
  else
    s1 <-! stop_tickers (range (s_jobs s)) s ;;
    s2 <-! pool_Stop acts (set_cancelled s1) ;;
    reaper <-! Reaper.step (s_reaper s2) Reaper.Stop ;;
    Next (set_running false (set_reaper reaper s2)).
End Control.

(** [Panic] for a panicking call; a call that blocks for ever is a deadlock. *)
Definition call {S M A} (r : StepResult A) : Prog S M A :=
  match r with
  | Next a => Ret a
  | Panicked m => Panic m
  | Disabled => Panic "all goroutines are asleep - deadlock!"
  end.

Definition JobConfig_zero : JobConfig :=
  mkJobConfig EmptyString EmptyString 0 EmptyString EmptyString None TaskConfig_zero.

Section Programs.
Context {S M T : Type} `{UuidLib} `{Storage S} `{MetricsCollector M} `{TickerLoop T} `{Ticker T} `{MapRange}.
(** [time.Local], and [s.pool.Submit] of the closure that executes an
    occurrence. *)
Context (Local : Loc) (submit : Job → JobOccurrence → Prog S M unit).
Implicit Types s : Scheduler T.

(** *** RegisterJob *)
Definition task_record (jobID : string) (task : Task) (config : bytes) (created updated : Instant)
  : StorageTask :=
  mkStorageTask (t_ID task) jobID (t_Name task) config (t_Order task) created updated.

Fixpoint persist_tasks (jobID : string) (tasks : list Task) : Prog S M (Result unit) :=
  match tasks with
  | [] => Ret (Ok tt)
  | task :: rest =>
      match Marshal_TaskConfig (t_Config task) with
      | Err e => Ret (Err ("failed to serialize task config: " +:+ e))
      | Ok taskConfigBytes =>
          created ← do Now;
          updated ← do Now;
          r ← do (OnStore (CreateTask (task_record jobID task taskConfigBytes created updated)));
          match r with Err e => Ret (Err e) | Ok _ => persist_tasks jobID rest end
      end
  end.

Definition job_record (job : Job) (config : bytes) (created updated : Instant) : StorageJob :=
  mkStorageJob (j_ID job) (j_Name job) "cron" BNil config (j_Version job) (j_Active job)
    (j_Paused job) None created updated.

Definition persist_job (job : Job) : Prog S M (Result unit) :=
  match Marshal_JobConfig (j_Config job) with
  | Err e => Ret (Err ("failed to serialize job config: " +:+ e))
  | Ok configBytes =>
      created ← do Now;
      updated ← do Now;
      r ← do (OnStore (CreateJob (job_record job configBytes created updated)));
      match r with Err e => Ret (Err e) | Ok _ => persist_tasks (j_ID job) (j_Tasks job) end
  end.

Definition RegisterJob (job : Job) s : Prog S M (Scheduler T * Result unit) :=
  match s_jobs s !! j_ID job with
  | Some _ => Ret (s, Err ("job already registered: " +:+ j_ID job))
  | None =>
      r ← persist_job job;
      match r with
      | Err e => Ret (s, Err e)
      | Ok _ => Ret (set_jobs (<[j_ID job := job]> (s_jobs s)) s, Ok tt)
      end
  end.

(** *** Triggers *)

(** The conversion inside [handleJobTrigger]; the configuration stays zero. *)
Definition of_storage (o : StorageOccurrence) : JobOccurrence :=
  mkJobOccurrence (so_ID o) (so_JobID o) (so_JobVersion o) (so_ScheduledTime o) (so_Status o)
    (so_OwningNodeID o) (so_StartTime o) (so_EndTime o) JobConfig_zero (so_IsRecoveryRun o)
    (so_CreatedAt o) (so_UpdatedAt o).

Definition new_occurrence (job : Job) (t : Time) (created updated : Instant) : JobOccurrence :=
  mkJobOccurrence (GenerateJobOccurrenceID (j_ID job) t) (j_ID job) (j_Version job) (inst t)
    JobStatusPending EmptyString None None (j_Config job) false created updated.
Definition occurrence_record (node : string) (config : bytes) (o : JobOccurrence) : StorageOccurrence :=
  mkStorageOccurrence (jo_ID o) (jo_JobID o) (jo_JobVersion o) (jo_ScheduledTime o) (jo_Status o)
    node None None config (jo_IsRecoveryRun o) (jo_CreatedAt o) (jo_UpdatedAt o).

(** From the creation of the identifier on. *)
Definition dispatch (node : string) (job : Job) (t : Time) : Prog S M unit :=
  let configBytes := match Marshal_JobConfig (j_Config job) with Ok b => b | Err _ => BNil end in
  created ← do Now;
  updated ← do Now;
  let occurrence := new_occurrence job t created updated in
  r ← do (OnStore (CreateJobOccurrence (occurrence_record node configBytes occurrence)));
  match r with Err _ => Ret tt | Ok _ => submit job occurrence end.

Definition handleJobTrigger s (job : Job) (execCtx : TickContext) : Prog S M unit :=
  r ← do (OnStore ListRunningOccurrences);
  match IsRunning job (match r with Ok os => Ok (of_storage <$> os) | Err e => Err e end) with
  | Err _ => Ret tt
  | Ok isRunning =>
      if isRunning && bool_decide (jc_OverlapPolicy (j_Config job) = OverlapPolicySkip)
      then Ret tt
      else dispatch (NodeID (s_config s)) job (ScheduledTime execCtx)
  end.

(** *** Recovery at boot *)
Definition recover_job s (job : Job) : Prog S M (Result unit) :=
  if negb (j_Active job) then Ret (Ok tt)
  else
    r ← do (OnStore (Storage.GetJob (j_ID job)));
    match r with
    | Err e => Ret (Err e)
    | Ok storageJob =>
        lastRunTime ←
          match sj_LastRunTime storageJob with
          | Some t => Ret t
          | None => now ← do Now; Ret (now - 24 * Hour)
          end;
        now ← do Now;
        match s_tickers s !! j_Ticker job with
        | None => Panic nil_dereference
        | Some l =>
            match GetOccurrencesBetween (tick l) (mkTime lastRunTime Local) (mkTime now Local) with
            | Err e => Ret (Err e)
            | Ok missedTimes => ApplyStrategy submit job missedTimes
            end
        end
    end.

Fixpoint recover_jobs s (jobs : list Job) : Prog S M (Result unit) :=
  match jobs with
  | [] => Ret (Ok tt)
  | job :: rest =>
      r ← recover_job s job;
      match r with Err e => Ret (Err e) | Ok _ => recover_jobs s rest end
  end.
Definition performRecovery s : Prog S M (Result unit) := recover_jobs s (range (s_jobs s)).

Definition Start s : Prog S M (Scheduler T * Result unit) :=
  if s_running s then Ret (s, Err "scheduler already running")
  else
    r ← performRecovery s;
    match r with
    | Err e => Ret (s, Err ("recovery failed: " +:+ e))
    | Ok _ => s' ← call (start_machinery s); Ret (s', Ok tt)
    end.

(** *** Watchers *)
Definition set_watcher (i : nat) (job : string) (pc : watch_pc) s : Scheduler T :=
  set_watchers (<[i := (job, pc)]> (s_watchers s)) s.

Inductive watch_action := WEnter (i : nat) | WDone (i : nat) | WReceive (i : nat).

(** A step of a watcher, and what it runs before its next step. *)
Definition watchJob s (a : watch_action) : StepResult (Scheduler T * Prog S M unit) :=
  match a with
  | WEnter i =>
      match s_watchers s !! i with
      | Some (id, WAtTop) =>
          match s_jobs s !! id with
          | Some job =>
              match s_tickers s !! j_Ticker job with
              | Some _ => Next (set_watcher i id (WSelect (j_Ticker job)) s, Ret tt)
              | None => Panicked nil_dereference
              end
          | None => Disabled
          end
      | _ => Disabled
      end
  | WDone i =>
      match s_watchers s !! i with
      | Some (id, WSelect _) =>
          if s_cancelled s then Next (set_watcher i id WReturned s, Ret tt) else Disabled
      | _ => Disabled
      end
  | WReceive i =>
      match s_watchers s !! i with
      | Some (id, WSelect ref) =>
          match s_jobs s !! id, s_tickers s !! ref with
          | Some job, Some l =>
              match ch (get_ctl (tick l)) with
              | [] => Disabled
              | execCtx :: _ =>
                  s' <-! call_ticker ref LConsume s ;;
                  Next (set_watcher i id WAtTop s', handleJobTrigger s' job execCtx)
              end
          | _, _ => Disabled
          end
      | _ => Disabled
      end
  end.

(** *** Gauges *)
Definition updateMetrics s : Prog S M unit :=
  r ← do (OnStore ListRunningOccurrences);
  _ ← match r with
      | Ok os => do (OnMetrics (SetJobsRunning (Z.of_nat (length os))))
      | Err _ => Ret tt
      end;
  _ ← do (OnMetrics (SetJobsInQueue (WorkerPool.QueueLength (s_pool s))));
  do (OnMetrics (SetJobsPaused
    (Z.of_nat (length (List.filter j_Paused (range (s_jobs s))))))).

(** *** UpdateJob *)
Definition put_task (m : gmap string Task) (t : Task) : gmap string Task := <[t_ID t := t]> m.
Definition edit_task (m : gmap string Task) (u : Task) : gmap string Task :=
  match m !! t_ID u with
  | Some t => <[t_ID u := mkTask (t_ID t) (t_Name u) (t_Config u) (t_Order u) (t_Fn t)]> m
  | None => m
  end.
Definition task_map (job : Job) (u : JobUpdate) : gmap string Task :=
  let m := foldl put_task ∅ (j_Tasks job) in
  let m := foldl put_task m (ju_AddedTasks u) in
  let m := foldl (λ m i, delete i m) m (ju_RemovedTaskIDs u) in
  foldl edit_task m (ju_UpdatedTasks u).

(** The job after the update: configuration, ticker, tasks, version. *)
Definition job_after (job : Job) (u : JobUpdate) : Job :=
  mkJob (j_ID job) (j_Name job) (default (j_Config job) (ju_NewConfig u))
    (default (j_Ticker job) (ju_NewTicker u)) (range (task_map job u))
    (wrap64 (j_Version job + 1)) (j_Active job) (j_Paused job) (j_OnStart job) (j_OnComplete job).

(** Stop the old ticker unless it is nil, start the new one if the job runs. *)
Definition swap_tickers (job : Job) (u : JobUpdate) s : StepResult (Scheduler T) :=
  match ju_NewTicker u with
  | None => Next s
  | Some new =>
      s1 <-! match s_tickers s !! j_Ticker job with
             | Some _ => call_ticker (j_Ticker job) LStop s
             | None => Next s
             end ;;
      if schedulable job && s_running s then call_ticker new LStart s1 else Next s1
  end.

Definition UpdateJob (u : JobUpdate) s : Prog S M (Scheduler T * Result unit) :=
  match s_jobs s !! ju_JobID u with
  | None => Ret (s, Err ("job not registered: " +:+ ju_JobID u))
  | Some job =>
      if negb (bool_decide (j_Version job = ju_ExpectedVersion u))
      then Ret (s, Err (version_mismatch (ju_ExpectedVersion u) (j_Version job)))
      else
        r ← ApplyUpdate u;
        match r with
        | Err e => Ret (s, Err ("failed to apply update: " +:+ e))
        | Ok _ =>
            s1 ← call (swap_tickers job u s);
            Ret (set_jobs (<[ju_JobID u := job_after job u]> (s_jobs s1)) s1, Ok tt)
        end
  end.
End Programs.
