(* ===== verification/Dispatch.v ===== *)
(** * Who runs an occurrence: nodes that share a database

    Several nodes receive the same ticks, recover the same missed runs and
    scan for stale ones, all over one database.  Their programs are
    interleaved effect by effect, each effect at whatever time its node's
    clock shows.  Creating an occurrence's record gives the right to hand that
    occurrence to the pool; [claims] checks that a program only uses rights it
    has earned, and all of them. *)
From S2P Require Import Prelude GoTime GoContext Types Ids Job Metrics Ticker Storage Badger StorageSpec BadgerCorrect Effects Logged OccStore Recovery Scheduler.
Local Open Scope Z_scope.

(** Programs that take turns; a program that has ended or panicked stays. *)
Section Turns.
Context {S M : Type} (jitter : nat → Z) (coin : nat → bool).
Definition turns : Type := World S M * list (Prog S M unit).
Definition turn (s : turns) (a : nat * Instant) : StepResult turns :=
  match s.2 !! a.1 with
  | Some (Act e k) =>
      let '(w', r, _) := perform jitter coin e (set_time a.2 s.1) in Next (w', <[a.1 := k r]> s.2)
  | _ => Disabled
  end.
End Turns.

Definition is_ret {S M A} (p : Prog S M A) : bool := match p with Ret _ => true | _ => false end.
Definition occ_kind (s : slot) : bool := match s with OccSlot _ _ => true | _ => false end.
Definition submitted (l : list Submission) : list slot :=
  (λ p, OccSlot (jo_JobID p.2) (jo_ID p.2)) <$> l.

Section Claims.
Context {M : Type} `{BadgerLaws}.
Context (jitter : nat → Z) (coin : nat → bool).
Abbreviation W := (World (DB * list Submission) M).
Abbreviation P := (Prog (DB * list Submission) M).
Implicit Types (a : gmap slot entry).

(** The occurrence slots that [a'] has and [a] has not. *)
Definition new_in a a' (s : slot) : Prop := occ_kind s = true ∧ a !! s = None ∧ is_Some (a' !! s).
Definition grows a a' : Prop := ∀ s, occ_kind s = true → is_Some (a !! s) → is_Some (a' !! s).

(** An effect answers with [Q r] rights left of the [held] ones and of those
    for the slots it fills. *)
Definition earns {R} (e : Eff (DB * list Submission) M R) (held : list slot)
    (Q : R → list slot) (Post : R → Prop) : Prop :=
  ∀ (w : W) a db l, w_store w = (db, l) → repr a (contents db) →
    let '(w', r, _) := perform jitter coin e w in
    Post r ∧ ∃ a' db' new fresh, w_store w' = (db', l ++ new) ∧ repr a' (contents db') ∧ grows a a' ∧
      submitted new ++ Q r ≡ₚ held ++ fresh ∧ NoDup fresh ∧ ∀ s, s ∈ fresh ↔ new_in a a' s.

Fixpoint claims {A} (held : list slot) (p : P A) : Prop :=
  match p with
  | Ret _ => held = []
  | Panic _ => True
  | Act e k => ∃ Q Post, earns e held Q Post ∧ ∀ r, Post r → claims (Q r) (k r)
  end.

Lemma claims_bind {A B} held (p : P A) (f : A → P B) :
  claims held p → (∀ x, claims [] (f x)) → claims held (p ≫= f).
Proof.
  unfold mbind, Prog_bind. revert held. induction p as [x|m|R e k IH]; intros held Hp Hf; simpl in *.
  - subst. apply Hf.
  - done.
  - destruct Hp as (Q & Post & He & Hk). exists Q, Post. split; [done|]. intros r Hr. by apply IH; [apply Hk|].
Qed.

Lemma grows_refl a : grows a a.
Proof. by intros s. Qed.
#[local] Hint Resolve grows_refl : core.
Lemma new_in_same a s : ¬ new_in a a s.
Proof. intros (_ & Hn & [e He]). congruence. Qed.
Lemma earns_nothing {R} (e : Eff _ M R) held (Post : R → Prop) :
  (∀ (w : W) a db l, w_store w = (db, l) → repr a (contents db) →
    let '(w', r, _) := perform jitter coin e w in
    Post r ∧ ∃ a' db', w_store w' = (db', l) ∧ repr a' (contents db') ∧ grows a a' ∧
      ∀ s, ¬ new_in a a' s) →
  earns e held (λ _, held) Post.
Proof.
  intros He w a db l Hw Hr. specialize (He w a db l Hw Hr).
  destruct (perform jitter coin e w) as [[w' r] u]. destruct He as (HP & a' & db' & Hw' & Hr' & Hg & Hn).
  split; [done|]. exists a', db', [], []. rewrite !app_nil_r. split_and!; try done.
  - constructor.
  - intros s. split; [by intros ?%elem_of_nil|by intros ?%Hn].
Qed.

Lemma claims_now {A} held (f : Instant → P A) :
  (∀ t, claims held (f t)) → claims held (do Now ≫= f).
Proof.
  intros Hf. exists (λ _, held), (λ _, True). split; [|intros t _; apply Hf].
  apply earns_nothing. intros w a db l Hw Hr. simpl. split; [done|]. exists a, db.
  split_and!; [done|done|done|apply new_in_same].
Qed.
Lemma claims_metrics {A} held g (f : unit → P A) :
  claims held (f tt) → claims held (do (OnMetrics g) ≫= f).
Proof.
  intros Hf. exists (λ _, held), (λ _, True). split; [|by intros []].
  apply earns_nothing. intros w a db l Hw Hr. simpl. split; [done|]. exists a, db.
  split_and!; [done|done|done|apply new_in_same].
Qed.

(** An operation of the storage that fills no occurrence slot. *)
Definition quiet {R} (m : St DB R) (Post : R → Prop) : Prop :=
  ∀ a db, repr a (contents db) →
    let '(db', r) := m db in
    Post r ∧ ∃ a', repr a' (contents db') ∧ grows a a' ∧ ∀ s, ¬ new_in a a' s.
Lemma claims_quiet {A R} held (m : St DB R) Post (f : R → P A) :
  quiet m Post → (∀ r, Post r → claims held (f r)) → claims held (do (OnStore (lift m)) ≫= f).
Proof.
  intros Hm Hf. exists (λ _, held), Post. split; [|exact Hf].
  apply earns_nothing. intros w a db l Hw Hr. cbn [perform]. rewrite Hw. simpl.
  specialize (Hm a db Hr). destruct (m db) as [db' r]. destruct Hm as (HP & a' & Hr' & Hg & Hn).
  split; [done|]. by exists a', db'.
Qed.
Lemma quiet_read {R} (m : St DB R) (Post : R → Prop) :
  (∀ a db, repr a (contents db) → ∃ r, m db = (db, r) ∧ Post r) → quiet m Post.
Proof.
  intros Hm a db Hr. destruct (Hm a db Hr) as (r & -> & HP). split; [done|].
  exists a. split_and!; [done|done|apply new_in_same].
Qed.

(** Creating an occurrence earns the right to submit it. *)
Lemma claims_create {A} o (f : Result unit → P A) :
  slot_ok (occ_slot_of o) → claims [occ_slot_of o] (f (Ok tt)) → (∀ e, claims [] (f (Err e))) →
  claims [] (do (OnStore (lift (BadgerStorage.CreateJobOccurrence o))) ≫= f).
Proof.
  intros Hs Hok Herr.
  exists (λ r : Result unit, if is_ok r then [occ_slot_of o] else []), (λ _, True).
  split; [|intros [[]|e] _; [exact Hok|apply Herr]].
  intros w a db l Hw Hr. cbn [perform]. rewrite Hw. simpl.
  pose proof (create_cases a db (EOcc o) Hr Hs) as HC.
  change (do_create (EOcc o)) with (BadgerStorage.CreateJobOccurrence o) in HC.
  destruct (BadgerStorage.CreateJobOccurrence o db) as [db' r]. split; [done|].
  assert (Hfail : is_ok r = false → repr a (contents db') →
    ∃ a' db'' new fresh, w_store (set_store (db', l) w) = (db'', l ++ new) ∧ repr a' (contents db'') ∧
      grows a a' ∧ submitted new ++ (if is_ok r then [occ_slot_of o] else []) ≡ₚ [] ++ fresh ∧
      NoDup fresh ∧ ∀ s, s ∈ fresh ↔ new_in a a' s).
  { intros -> Hr'. exists a, db', [], []. rewrite !app_nil_r. split_and!; try done; [constructor|].
    intros s. split; [by intros ?%elem_of_nil|by intros ?%new_in_same]. }
  destruct HC as [(er & -> & _ & Hr')|HC]; [by apply Hfail|]. simpl slot_of in HC.
  change (OccSlot (so_JobID o) (so_ID o)) with (occ_slot_of o) in HC.
  destruct (a !! occ_slot_of o) eqn:Ea; [destruct HC as [-> Hr']; by apply Hfail|].
  destruct (Marshal (EOcc o)); destruct HC as [-> Hr']; [|by apply Hfail].
  exists (<[occ_slot_of o := EOcc o]> a), db', [], [occ_slot_of o]. rewrite !app_nil_r. simpl.
  split_and!; [done|done| |done|apply NoDup_singleton|].
  - intros s _ Hs'. apply lookup_insert_is_Some'. by right.
  - intros s. rewrite list_elem_of_singleton. split.
    + intros ->. split_and!; [done|done|]. rewrite lookup_insert_eq. by eexists.
    + intros (_ & Hn & Hi). apply lookup_insert_is_Some' in Hi as [->|[? ?]]; [done|congruence].
Qed.

(** Submitting uses the right up. *)
Lemma claims_submit job o :
  claims [OccSlot (jo_JobID o) (jo_ID o)] (submit_logged (S:=DB) (M:=M) job o).
Proof.
  exists (λ _, []), (λ _, True). split; [|by intros].
  intros w a db l Hw Hr. cbn [perform]. rewrite Hw. simpl. split; [done|].
  exists a, db, [(job, o)], []. split_and!; [done|done|done|done|constructor|].
  intros s. split; [by intros ?%elem_of_nil|by intros ?%new_in_same].
Qed.

Lemma update_occ_quiet now o : slot_ok (occ_slot_of o) →
  quiet (BadgerStorage.UpdateJobOccurrence now o) (λ _, True).
Proof.
  intros Hs a db Hr. pose proof (update_cases a db now (EOcc o) Hr Hs) as HC.
  change (do_update now (EOcc o)) with (BadgerStorage.UpdateJobOccurrence now o) in HC.
  destruct (BadgerStorage.UpdateJobOccurrence now o db) as [db' r]. split; [done|].
  assert (Hsame : repr a (contents db') → ∃ a', repr a' (contents db') ∧ grows a a' ∧ ∀ s, ¬ new_in a a' s).
  { intros Hr'. exists a. split_and!; [done|done|apply new_in_same]. }
  destruct HC as [(er & _ & _ & Hr')|HC]; [by apply Hsame|].
  destruct (a !! slot_of (EOcc o)) as [e0|] eqn:Ea; [|by destruct HC as [_ ?%Hsame]].
  destruct (Marshal _); destruct HC as [_ HC]; [|by apply Hsame].
  eexists. split; [exact HC|]. split.
  - intros s _ Hs'. apply lookup_insert_is_Some'. by right.
  - intros s (_ & Hn & Hi). apply lookup_insert_is_Some' in Hi as [<-|[? ?]]; congruence.
Qed.
End Claims.

(** ** Whatever the interleaving, rights are conserved *)
Section Conservation.
Context {M : Type} `{BadgerLaws}.
Context (jitter : nat → Z) (coin : nat → bool).
Implicit Types (a : gmap slot entry) (s : turns (S:=DB * list Submission) (M:=M)).

(** Each new occurrence slot is either submitted, once, or about to be, by
    exactly one program. *)
Definition conserved a0 s : Prop :=
  ∃ a db l rights, w_store s.1 = (db, l) ∧ repr a (contents db) ∧ grows a0 a ∧
    Forall2 (λ held p, claims jitter coin held p) rights s.2 ∧
    NoDup (submitted l ++ concat rights) ∧
    ∀ x, x ∈ submitted l ++ concat rights ↔ new_in a0 a x.

Lemma grows_trans a b c : grows a b → grows b c → grows a c.
Proof. intros H1 H2 s Hk Hs. by apply H2, H1. Qed.
Lemma new_in_trans a0 a a' x : grows a0 a → grows a a' →
  new_in a0 a' x ↔ new_in a0 a x ∨ new_in a a' x.
Proof.
  intros H1 H2. unfold new_in. split.
  - intros (Hk & Hn & Hi). destruct (a !! x) eqn:E; [left; split_and!; [done|done|by eexists]|by right].
  - intros [(Hk & Hn & Hi)|(Hk & Hn & Hi)]; split_and!; try done.
    + by apply H2.
    + destruct (a0 !! x) eqn:E; [|done]. destruct (H1 x Hk ltac:(by eexists)) as [? ?]. congruence.
Qed.

Lemma conserved_step a0 s i s' : conserved a0 s → turn jitter coin s i = Next s' → conserved a0 s'.
Proof.
  destruct s as [w ths], i as [i now]. intros (a & db & l & rights & Hw & Hr & Hg & Hc & Hnd & Hin) E.
  unfold turn in E. cbn [fst snd] in *. destruct (ths !! i) as [[x|m|R e k]|] eqn:Ei; try done.
  destruct (Forall2_lookup_r _ _ _ _ _ Hc Ei) as (held & Eh & Q & Post & He & Hk).
  specialize (He (set_time now w) a db l Hw Hr).
  destruct (perform jitter coin e (set_time now w)) as [[w' r] u]. injection E as <-.
  destruct He as (HP & a' & db' & new & fresh & Hw' & Hr' & Hg' & Hperm & Hnf & Hfresh).
  exists a', db', (l ++ new), (<[i := Q r]> rights). cbn [fst snd].
  assert (Hall : submitted (l ++ new) ++ concat (<[i := Q r]> rights) ≡ₚ
                 (submitted l ++ concat rights) ++ fresh).
  { unfold submitted. rewrite fmap_app. fold (submitted l) (submitted new).
    destruct (lookup_split _ _ _ Eh) as (r1 & r2 & -> & Hins & _). rewrite Hins.
    rewrite !concat_app. simpl. rewrite (Permutation_app_swap_app (concat r1) (Q r)).
    rewrite (Permutation_app_swap_app (concat r1) held).
    rewrite <- !app_assoc. f_equiv. rewrite app_assoc, Hperm, <- !app_assoc. f_equiv.
    rewrite (Permutation_app_comm fresh). by rewrite <- !app_assoc. }
  split_and!; [done|done|by eapply grows_trans| | |].
  - apply Forall2_insert; [done|by apply Hk].
  - rewrite Hall. apply NoDup_app. split_and!; [done| |done].
    intros x Hx%Hin Hf%Hfresh. destruct Hx as (_ & _ & [? ?]), Hf as (_ & Hn & _). congruence.
  - intros x. rewrite Hall, elem_of_app, Hin, Hfresh. symmetry. by apply new_in_trans.
Qed.

Lemma conserved_init a0 w ps db :
  w_store w = (db, []) → repr a0 (contents db) → Forall (claims jitter coin []) ps → conserved a0 (w, ps).
Proof.
  intros Hw Hr Hps. exists a0, db, [], (replicate (length ps) []).
  assert (Hc : concat (replicate (length ps) (@nil slot)) = []) by (by induction (length ps)).
  rewrite Hc. simpl. split_and!; [done|done|apply grows_refl| |constructor|].
  - clear Hc. induction Hps; simpl; by constructor.
  - intros x. split; [by intros ?%elem_of_nil|by intros ?%new_in_same].
Qed.

Lemma no_rights rights (ps : list (Prog (DB * list Submission) M unit)) :
  Forall2 (claims jitter coin) rights ps → forallb is_ret ps = true → concat rights = [].
Proof.
  induction 1 as [|held p rights ps Hp _ IH]; [done|]. simpl. intros [Hr Hps]%andb_true_iff.
  destruct p; try done. simpl in Hp. subst. by apply IH.
Qed.
End Conservation.

(** ** The programs of a node *)
Section Activities.
Context {M T : Type} `{UuidLaws} `{BadgerLaws} `{MetricsCollector M} `{TickerLoop T} `{Ticker T} `{MapRange}.
Context (jitter : nat → Z) (coin : nat → bool) (Local : Loc).
#[local] Existing Instance BadgerStorage.storage.
Abbreviation claims := (claims jitter coin).
Abbreviation submit := (submit_logged (S:=DB) (M:=M)).

(** A tick reaches a watcher, a node boots, a reaper scans. *)
Inductive activity :=
| Tick (s : Scheduler T) (job : Job) (execCtx : TickContext)
| Boot (s : Scheduler T)
| Scan.
Definition program (x : activity) : Prog (DB * list Submission) M unit :=
  match x with
  | Tick s job execCtx => handleJobTrigger submit s job execCtx
  | Boot s => performRecovery Local submit s ≫= λ _, Ret tt
  | Scan => reapStaleJobs
  end.
Definition activity_ok (x : activity) : Prop :=
  match x with
  | Tick _ job _ => job_id_ok (j_ID job)
  | Boot s => ∀ i job, s_jobs s !! i = Some job → job_id_ok (j_ID job)
  | Scan => True
  end.

Definition listed_slots (r : Result (list StorageOccurrence)) : Prop :=
  match r with Ok os => Forall (λ o, slot_ok (occ_slot_of o)) os | Err _ => True end.
Lemma all_occurrences_quiet keep :
  quiet (scan "job/" Unmarshal_Occurrence BadgerStorage.not_occurrence keep) listed_slots.
Proof.
  apply quiet_read. intros a db Hr. destruct (all_occurrences a db keep Hr) as (r & E & Hl).
  exists r. split; [exact E|]. destruct r as [os|]; [|done]. apply Forall_forall. intros o [Ho _]%Hl.
  exact (proj1 (stored _ _ _ _ Hr Ho)).
Qed.

Lemma dispatch_claims node job t : job_id_ok (j_ID job) → claims [] (dispatch submit node job t).
Proof.
  intros Hj. apply claims_now. intros c. apply claims_now. intros u.
  apply (claims_create (M:=M)); [|apply claims_submit|done].
  split; [exact Hj|apply GenerateJobOccurrenceID_slash_free].
Qed.
Lemma trigger_claims s job x : job_id_ok (j_ID job) → claims [] (program (Tick s job x)).
Proof.
  intros Hj. eapply (claims_quiet (M:=M)); [apply all_occurrences_quiet|]. intros r _.
  destruct (IsRunning _ _) as [b|e]; [|done]. destruct (b && _); [done|by apply dispatch_claims].
Qed.

Lemma recovery_run_claims job t strat :
  job_id_ok (j_ID job) → claims [] (scheduleRecoveryRun submit job t strat).
Proof.
  intros Hj. apply claims_now. intros c. apply claims_now. intros u.
  apply (claims_create (M:=M)); [split; [exact Hj|apply GenerateJobOccurrenceID_slash_free]| |done].
  apply claims_metrics. eapply claims_bind; [apply claims_submit|done].
Qed.
Lemma executeAll_claims job ts : job_id_ok (j_ID job) → claims [] (executeAll submit job ts).
Proof.
  intros Hj. induction ts as [|t ts IH]; [done|]. cbn [executeAll].
  eapply claims_bind; [by apply recovery_run_claims|]. by intros [].
Qed.
Lemma ApplyStrategy_claims job ts : job_id_ok (j_ID job) → claims [] (ApplyStrategy submit job ts).
Proof.
  intros Hj. unfold ApplyStrategy. destruct ts as [|t ts]; [done|]. generalize (t :: ts). intros l.
  repeat case_bool_decide; try (by apply executeAll_claims); try done.
  - unfold executeLast. destruct (last l); [by apply recovery_run_claims|done].
  - unfold boundedWindow. destruct (jc_BoundedWindow _) as [b|]; [|by apply executeAll_claims].
    eapply claims_bind; [|intros; by apply executeAll_claims].
    destruct (0 <? _); [by apply claims_now|done].
Qed.
Lemma recover_job_claims s job : job_id_ok (j_ID job) → claims [] (recover_job Local submit s job).
Proof.
  intros Hj. unfold recover_job. destruct (negb _); [done|].
  eapply (claims_quiet (M:=M) _ _ _ _ (λ _, True)).
  { apply quiet_read. intros a db Hr. destruct (GetJob_spec a db _ Hr Hj) as (r & E & _). by exists r. }
  intros [sj|e] _; [|done]. eapply claims_bind.
  - destruct (sj_LastRunTime sj); [done|by apply claims_now].
  - intros t. apply claims_now. intros now. destruct (s_tickers s !! _); [|done].
    destruct (GetOccurrencesBetween _ _ _); [by apply ApplyStrategy_claims|done].
Qed.
Lemma boot_claims s : activity_ok (Boot s) → claims [] (program (Boot s)).
Proof.
  intros Hok. eapply claims_bind; [|done]. unfold performRecovery.
  assert (Hjs : Forall (λ job, job_id_ok (j_ID job)) (range (s_jobs s))).
  { apply Forall_forall. intros job [i Hi]%elem_of_range. by eapply Hok. }
  induction Hjs as [|job jobs Hj _ IH]; [done|]. cbn [recover_jobs].
  eapply claims_bind; [by apply recover_job_claims|]. by intros [].
Qed.
Lemma scan_claims : claims [] (program Scan).
Proof.
  apply claims_now. intros now. eapply (claims_quiet (M:=M)); [apply all_occurrences_quiet|].
  intros [os|e] Hos; [|done]. simpl in Hos. induction Hos as [|o os Ho _ IH]; [done|].
  cbn [mark_all]. eapply claims_bind; [|by intros].
  apply claims_now. intros e. apply claims_now. intros u.
  by eapply (claims_quiet (M:=M)); [apply (update_occ_quiet u (reap e o) Ho)|].
Qed.
Lemma program_claims x : activity_ok x → claims [] (program x).
Proof. destruct x; [by apply trigger_claims|by apply boot_claims|intros; apply scan_claims]. Qed.

(** C1: an occurrence runs once.  Take any number of ticks, boots and
    reaper scans on any nodes over one database, for the same or different
    jobs and times, and interleave their steps in any way, with engine
    failures and with nodes that stop anywhere.  No occurrence is handed to a
    pool twice; none is whose record was there before; each one that is has
    its record stored.  If every program has run to its end, every occurrence
    record that was created was also handed to a pool. *)
Theorem occurrence_dispatched_once acts sched a0 db (w : World _ M) s :
  w_store w = (db, []) → repr a0 (contents db) → Forall activity_ok acts →
  exec (turn jitter coin) (w, program <$> acts) sched = Next s →
  ∃ a db' l, w_store s.1 = (db', l) ∧ repr a (contents db') ∧
    NoDup (submitted l) ∧ (∀ x, x ∈ submitted l → new_in a0 a x) ∧
    (forallb is_ret s.2 = true → ∀ x, new_in a0 a x → x ∈ submitted l).
Proof.
  intros Hw Hr Hok E.
  assert (HI : conserved jitter coin a0 s).
  { eapply (reachable_ind (turn jitter coin) (conserved jitter coin a0) (w, program <$> acts));
      [|intros; by eapply conserved_step|by exists sched].
    eapply conserved_init; [exact Hw|exact Hr|]. apply Forall_fmap.
    eapply Forall_impl; [exact Hok|]. apply program_claims. }
  destruct HI as (a & db' & l & rights & Hs & Hra & _ & Hc & Hnd & Hin).
  exists a, db', l. split_and!; [done|done|by apply NoDup_app in Hnd as (? & _)| |].
  - intros x Hx. apply Hin, elem_of_app. by left.
  - intros Hret x Hx%Hin. rewrite (no_rights jitter coin _ _ Hc Hret) in Hx. by rewrite app_nil_r in Hx.
Qed.
End Activities.
