(* ===== verification/SchedulerCorrect.v ===== *)
(** * What the scheduler's methods do

    Triggers, registration, updates and the life cycle, over a database that
    represents a slot store. *)
From S2P Require Import Prelude GoTime GoContext Types Ids Job Metrics Pool Ticker Storage Badger StorageSpec BadgerCorrect Effects Logged OccStore Recovery Update Scheduler.
Local Open Scope Z_scope.

(** ** Triggers *)
Section Triggers.
Context {M T : Type} `{UuidLaws} `{BadgerLaws}.
Context (jitter : nat → Z) (coin : nat → bool).
Implicit Types (s : Scheduler T) (w : World (DB * list Submission) M) (a : gmap slot entry).
#[local] Existing Instance BadgerStorage.storage.

Definition config_bytes (job : Job) : bytes :=
  match Marshal_JobConfig (j_Config job) with Ok b => b | Err _ => BNil end.
Lemma occurrence_marshals node job t c u :
  in_rfc3339_range (inst t) → in_rfc3339_range c → in_rfc3339_range u →
  is_ok (Marshal (EOcc (occurrence_record node (config_bytes job) (new_occurrence job t c u)))) = true.
Proof.
  intros Ht Hc Hu. simpl. unfold Marshal_Occurrence, out_time. simpl.
  by rewrite !bool_decide_true by done.
Qed.

Lemma dispatch_store node job t a db l w w' o :
  (∀ er, ¬ fault er) → job_id_ok (j_ID job) → in_rfc3339_range (inst t) →
  in_rfc3339_range (w_time w) → in_rfc3339_range (w_time w') →
  w_store w = (db, l) → repr a (contents db) →
  run jitter coin (dispatch (M:=M) submit_logged node job t) w = (w', o) →
  o = Done tt ∧ ∃ a' db' l', w_store w' = (db', l') ∧ repr a' (contents db') ∧
    match a !! occ_slot job t with
    | Some _ => a' = a ∧ l' = l
    | None => ∃ c u, a' = <[occ_slot job t :=
                        EOcc (occurrence_record node (config_bytes job) (new_occurrence job t c u))]> a ∧
                     l' = l ++ [(job, new_occurrence job t c u)]
    end.
Proof.
  intros Hf Hj Ht Hw Hw' Hst Hr E. unfold dispatch in E. rewrite !run_now in E.
  set (c := next_reading jitter w) in E. set (u := next_reading jitter (read_clock jitter w)) in E.
  set (w1 := read_clock jitter (read_clock jitter w)) in E.
  assert (Hcu : w_time w ≤ c ≤ u ∧ u = w_time w1) by (subst c u w1; unfold next_reading; simpl; lia).
  assert (Hst1 : w_store w1 = (db, l)) by exact Hst. clearbody c u w1.
  set (rec := occurrence_record node (config_bytes job) (new_occurrence job t c u)).
  assert (Hok : slot_ok (slot_of (EOcc rec))) by (split; [exact Hj|apply GenerateJobOccurrenceID_slash_free]).
  pose proof (create_cases a db (EOcc rec) Hr Hok) as HC.
  change (do_create (EOcc rec)) with (BadgerStorage.CreateJobOccurrence rec) in HC.
  change (slot_of (EOcc rec)) with (occ_slot job t) in HC.
  destruct (BadgerStorage.CreateJobOccurrence rec db) as [db1 r] eqn:E1.
  assert (E1' : CreateJobOccurrence rec (w_store w1) = ((db1, l), r)) by (rewrite Hst1; simpl; by rewrite E1).
  erewrite run_store in E by exact E1'. cbv beta in E.
  destruct HC as [(er & _ & Her & _)|HC]; [by apply Hf in Her|].
  destruct (a !! occ_slot job t) as [e|].
  { destruct HC as [-> Hr1]. injection E as <- <-. split; [done|]. by exists a, db1, l. }
  assert (Hm : is_ok (Marshal (EOcc rec)) = true).
  { assert (Hlt : w_time w1 ≤ w_time w').
    { match type of E with run _ _ ?p ?v = _ => pose proof (run_later jitter coin p v) as Hl end.
      rewrite E in Hl. exact Hl. }
    apply occurrence_marshals; [done|..]; (eapply range_between; [exact Hw|exact Hw'|lia]). }
  destruct (Marshal (EOcc rec)); [|done]. destruct HC as [-> Hr1].
  unfold submit_logged in E. simpl in E. injection E as <- <-. split; [done|].
  eexists _, db1, _. split; [reflexivity|]. split; [exact Hr1|]. by exists c, u.
Qed.

(** A running occurrence of the job is stored. *)
Definition busy a (job : Job) : Prop :=
  ∃ o, a !! occ_slot_of o = Some (EOcc o) ∧ so_JobID o = j_ID job ∧ so_Status o = JobStatusRunning.

(** C3: a tick.  With a healthy database [handleJobTrigger] never panics,
    and does one of three things.  If the overlap policy is Skip and an
    occurrence of the job is running, nothing.  Else, if the occurrence of
    that second is stored already, nothing.  Else it stores a pending
    occurrence with the job's version, the node and a copy of the job's
    configuration, and hands exactly that occurrence to the pool; policy
    Queue is no different from Allow. *)
Theorem trigger_follows_policy s job x a db l w w' o :
  (∀ er, ¬ fault er) → job_id_ok (j_ID job) → in_rfc3339_range (inst (ScheduledTime x)) →
  in_rfc3339_range (w_time w) → in_rfc3339_range (w_time w') →
  w_store w = (db, l) → repr a (contents db) →
  run jitter coin (handleJobTrigger submit_logged s job x) w = (w', o) →
  let skip := jc_OverlapPolicy (j_Config job) = OverlapPolicySkip in
  let taken := is_Some (a !! occ_slot job (ScheduledTime x)) in
  o = Done tt ∧ ∃ a' db' l', w_store w' = (db', l') ∧ repr a' (contents db') ∧
    ((skip ∧ busy a job) ∨ taken → a' = a ∧ l' = l) ∧
    (¬ ((skip ∧ busy a job) ∨ taken) → ∃ c u,
       let occ := new_occurrence job (ScheduledTime x) c u in
       a' = <[occ_slot job (ScheduledTime x) :=
               EOcc (occurrence_record (NodeID (s_config s)) (config_bytes job) occ)]> a ∧
       l' = l ++ [(job, occ)]).
Proof.
  intros Hf Hj Ht Hw Hw' Hst Hr E skip taken. unfold handleJobTrigger in E.
  destruct (all_occurrences a db (status_is JobStatusRunning) Hr) as (r & El & Hl).
  destruct r as [os|er]; [|by apply Hf in Hl]. destruct Hl as [_ Hl].
  assert (El' : ListRunningOccurrences (w_store w) = (w_store w, Ok os)).
  { rewrite Hst. change (lift BadgerStorage.ListRunningOccurrences (db, l) = ((db, l), Ok os)).
    unfold lift. assert (E0 : BadgerStorage.ListRunningOccurrences db = (db, Ok os)) by exact El.
    by rewrite E0. }
  erewrite run_read in E by exact El'. cbv beta iota in E.
  assert (Hbusy : IsRunning job (Ok (of_storage <$> os)) = Ok true ↔ busy a job).
  { rewrite IsRunning_true. split.
    - intros (o' & (ro & -> & Hro)%list_elem_of_fmap & Hjid & Hrun).
      apply Hl in Hro as [Hro _]. by exists ro.
    - intros (ro & Hro & Hjid & Hrun). exists (of_storage ro). split; [|done].
      apply list_elem_of_fmap_2, Hl. rewrite status_is_spec. done. }
  cbn [IsRunning] in E, Hbusy. destruct (existsb _ _ && _) eqn:Eb.
  - apply andb_true_iff in Eb as [Eb Hskip%bool_decide_eq_true].
    injection E as <- <-. split; [done|]. exists a, db, l. split_and!; [done..|].
    intros []. left. split; [done|]. apply Hbusy. by rewrite Eb.
  - assert (Hno : ¬ (skip ∧ busy a job)).
    { intros [Hs Hb%Hbusy]. injection Hb as Hb. rewrite Hb, bool_decide_true in Eb by done. done. }
    destruct (dispatch_store _ _ _ _ _ _ _ _ _ Hf Hj Ht Hw Hw' Hst Hr E)
      as (-> & a' & db' & l' & Hst' & Hr' & HD).
    split; [done|]. exists a', db', l'. subst taken.
    destruct (a !! occ_slot job (ScheduledTime x)); (split_and!; [done|done| |]).
    + by intros.
    + intros []. right. by eexists.
    + intros [?|[? ?]]; done.
    + done.
Qed.
End Triggers.

(** ** Registration *)
Section Registration.
Context {M T : Type} `{BadgerLaws}.
Context (jitter : nat → Z) (coin : nat → bool).
Implicit Types (s : Scheduler T) (w : World DB M) (a : gmap slot entry).
#[local] Existing Instance BadgerStorage.storage.

(** Two readings of the clock lie between the ends of a run. *)
Lemma readings_range {A} (p : Prog DB M A) w w' o :
  in_rfc3339_range (w_time w) → in_rfc3339_range (w_time w') →
  (∃ st, run jitter coin p (set_store st (read_clock jitter (read_clock jitter w))) = (w', o)) →
  in_rfc3339_range (next_reading jitter w) ∧ in_rfc3339_range (next_reading jitter (read_clock jitter w)).
Proof.
  intros Hw Hw' [st E].
  pose proof (run_later jitter coin p (set_store st (read_clock jitter (read_clock jitter w)))) as Hl.
  rewrite E in Hl. simpl in Hl. unfold next_reading.
  split; (eapply range_between; [exact Hw|exact Hw'|simpl; lia]).
Qed.
(** The time of the world after two readings is in range as well. *)
Lemma readings_time {A} (p : Prog DB M A) w w' o st :
  in_rfc3339_range (w_time w) → in_rfc3339_range (w_time w') →
  run jitter coin p (set_store st (read_clock jitter (read_clock jitter w))) = (w', o) →
  in_rfc3339_range (w_time (set_store st (read_clock jitter (read_clock jitter w)))).
Proof.
  intros Hw Hw' E. destruct (readings_range p w w' o Hw Hw' ltac:(by exists st)) as [_ Hu]. exact Hu.
Qed.

Definition config_ok (t : Task) : bool := is_ok (Marshal_TaskConfig (t_Config t)).
Definition task_free a (jid : string) (t : Task) : Prop :=
  config_ok t = true ∧ a !! TaskSlot jid (t_ID t) = None.
Definition task_stored a (jid : string) (t : Task) : Prop :=
  ∃ cfg c u, Marshal_TaskConfig (t_Config t) = Ok cfg ∧
    a !! TaskSlot jid (t_ID t) = Some (ETask (task_record jid t cfg c u)).
Definition task_slots (jid : string) (ts : list Task) : list slot := (λ t, TaskSlot jid (t_ID t)) <$> ts.

Definition tasks_persisted (jid : string) (ts : list Task) a (r : Result unit) a' : Prop :=
  (∀ x, x ∉ task_slots jid ts ∨ is_Some (a !! x) → a' !! x = a !! x) ∧
  (is_ok r = true ↔ Forall (task_free a jid) ts ∧ NoDup (t_ID <$> ts)) ∧
  (is_ok r = true → Forall (task_stored a' jid) ts).

Lemma tasks_persisted_refused jid t ts a r :
  is_ok r = false → ¬ task_free a jid t → tasks_persisted jid (t :: ts) a r a.
Proof.
  intros Hr Hn. split_and!; [done| |by rewrite Hr]. rewrite Hr. split; [done|].
  by intros [[? _]%Forall_cons _].
Qed.
Lemma tasks_persisted_cons jid t ts a cfg c u r a' :
  Marshal_TaskConfig (t_Config t) = Ok cfg → a !! TaskSlot jid (t_ID t) = None →
  tasks_persisted jid ts (<[TaskSlot jid (t_ID t) := ETask (task_record jid t cfg c u)]> a) r a' →
  tasks_persisted jid (t :: ts) a r a'.
Proof.
  intros Hcfg Hn (Hframe & Hok & Hst).
  split_and!.
  - intros x Hx.
    assert (Hne : x ≠ TaskSlot jid (t_ID t)).
    { intros ->. destruct Hx as [Hx|[? ?]]; [|congruence]. apply Hx. by left. }
    rewrite Hframe; [by rewrite lookup_insert_ne|]. rewrite lookup_insert_ne by done.
    destruct Hx as [Hx|Hx]; [left; intros ?; apply Hx; by right|by right].
  - rewrite Hok, Forall_cons. cbn [fmap list_fmap]. rewrite NoDup_cons. split.
    + intros [Hfr Hnd].
      assert (Hnin : t_ID t ∉ t_ID <$> ts).
      { intros (y & Hy & Hyin)%list_elem_of_fmap. rewrite Forall_forall in Hfr.
        destruct (Hfr y Hyin) as [_ Hy']. rewrite <- Hy in Hy'. by rewrite lookup_insert_eq in Hy'. }
      split_and!; [split; [unfold config_ok; by rewrite Hcfg|done]| |done|done].
      rewrite Forall_forall in *. intros y Hyin. destruct (Hfr y Hyin) as [? Hy].
      split; [done|]. by apply lookup_insert_None in Hy as [? _].
    + intros [[_ Hfr] [Hnin Hnd]]. split; [|done]. rewrite Forall_forall in *. intros y Hyin.
      destruct (Hfr y Hyin) as [? Hy]. split; [done|]. rewrite lookup_insert_ne; [done|].
      intros [= Hid]. apply Hnin. rewrite Hid. by apply list_elem_of_fmap_2.
  - intros Hr. constructor; [|by apply Hst]. apply Hok in Hr as [Hfr _].
    exists cfg, c, u. split; [done|]. rewrite Hframe; [by rewrite lookup_insert_eq|].
    right. rewrite lookup_insert_eq. by eexists.
Qed.

Lemma persist_tasks_store jid ts a w w' o :
  (∀ er, ¬ fault er) → job_id_ok jid → Forall (λ t, slash_free (t_ID t) = true) ts →
  in_rfc3339_range (w_time w) → in_rfc3339_range (w_time w') → repr a (contents (w_store w)) →
  run jitter coin (persist_tasks jid ts) w = (w', o) →
  ∃ r a', o = Done r ∧ repr a' (contents (w_store w')) ∧ tasks_persisted jid ts a r a'.
Proof.
  intros Hf Hj Hts. revert a w. induction Hts as [|t ts Ht _ IH]; intros a w Hw Hw' Hr E.
  { injection E as <- <-. exists (Ok tt), a. split_and!; [done|done|].
    split_and!; [done| |by constructor]. split; [intros; split; constructor|done]. }
  cbn [persist_tasks] in E. destruct (Marshal_TaskConfig (t_Config t)) as [cfg|e] eqn:Ecfg.
  2: { injection E as <- <-. eexists _, a. split_and!; [done|done|].
       apply tasks_persisted_refused; [done|]. intros [Hc _]. unfold config_ok in Hc. by rewrite Ecfg in Hc. }
  rewrite !run_now in E. set (c := next_reading jitter w) in E.
  set (u := next_reading jitter (read_clock jitter w)) in E.
  set (rec := task_record jid t cfg c u) in E.
  assert (Hok : slot_ok (slot_of (ETask rec))) by done.
  pose proof (create_cases a (w_store w) (ETask rec) Hr Hok) as HC.
  change (do_create (ETask rec)) with (BadgerStorage.CreateTask rec) in HC.
  change (slot_of (ETask rec)) with (TaskSlot jid (t_ID t)) in HC.
  destruct (BadgerStorage.CreateTask rec (w_store w)) as [db1 r1] eqn:E1.
  erewrite run_store in E by exact E1. cbv beta in E.
  destruct HC as [(er & _ & Her & _)|HC]; [by apply Hf in Her|].
  destruct (a !! TaskSlot jid (t_ID t)) eqn:Ea.
  { destruct HC as [-> Hr1]. injection E as <- <-. eexists _, a. split_and!; [done|done|].
    apply tasks_persisted_refused; [done|]. intros [_ ?]. congruence. }
  destruct (readings_range _ w w' o Hw Hw' (ex_intro _ db1 E)) as [Hc Hu].
  assert (Hm : is_ok (Marshal (ETask rec)) = true).
  { simpl. unfold Marshal_Task, out_time. simpl. by rewrite !bool_decide_true by done. }
  destruct (Marshal (ETask rec)); [|done]. destruct HC as [-> Hr1].
  pose proof (readings_time _ w w' o db1 Hw Hw' E) as Hw1.
  destruct (IH _ _ Hw1 Hw' Hr1 E) as (r & a' & -> & Hr' & Hp).
  exists r, a'. split_and!; [done|done|]. by eapply tasks_persisted_cons.
Qed.

Definition config_valid (job : Job) : bool := is_ok (Marshal_JobConfig (j_Config job)).
(** When a job can be registered. *)
Definition registrable a s (job : Job) : Prop :=
  s_jobs s !! j_ID job = None ∧ config_valid job = true ∧ a !! JobSlot (j_ID job) = None ∧
  Forall (task_free a (j_ID job)) (j_Tasks job) ∧ NoDup (t_ID <$> j_Tasks job).
Definition job_stored a (job : Job) : Prop :=
  ∃ cfg c u, Marshal_JobConfig (j_Config job) = Ok cfg ∧
    a !! JobSlot (j_ID job) = Some (EJob (job_record job cfg c u)).
Definition job_slots (job : Job) : list slot :=
  JobSlot (j_ID job) :: task_slots (j_ID job) (j_Tasks job).

Lemma persist_job_store job a w w' o :
  (∀ er, ¬ fault er) → job_id_ok (j_ID job) → Forall (λ t, slash_free (t_ID t) = true) (j_Tasks job) →
  in_rfc3339_range (w_time w) → in_rfc3339_range (w_time w') → repr a (contents (w_store w)) →
  run jitter coin (persist_job job) w = (w', o) →
  ∃ r a', o = Done r ∧ repr a' (contents (w_store w')) ∧
    (∀ x, x ∉ job_slots job ∨ is_Some (a !! x) → a' !! x = a !! x) ∧
    (is_Some (a !! JobSlot (j_ID job)) → a' = a) ∧
    (is_ok r = true ↔ config_valid job = true ∧ a !! JobSlot (j_ID job) = None ∧
       Forall (task_free a (j_ID job)) (j_Tasks job) ∧ NoDup (t_ID <$> j_Tasks job)) ∧
    (is_ok r = true → job_stored a' job ∧ Forall (task_stored a' (j_ID job)) (j_Tasks job)).
Proof.
  intros Hf Hj Hts Hw Hw' Hr E. unfold persist_job in E.
  destruct (Marshal_JobConfig (j_Config job)) as [cfg|e] eqn:Ecfg.
  2: { injection E as <- <-. eexists _, a. split_and!; [done|done|done|done| |done].
       unfold config_valid. rewrite Ecfg. split; [done|by intros []]. }
  rewrite !run_now in E. set (c := next_reading jitter w) in E.
  set (u := next_reading jitter (read_clock jitter w)) in E.
  set (rec := job_record job cfg c u) in E.
  assert (Hok : slot_ok (slot_of (EJob rec))) by done.
  pose proof (create_cases a (w_store w) (EJob rec) Hr Hok) as HC.
  change (do_create (EJob rec)) with (BadgerStorage.CreateJob rec) in HC.
  change (slot_of (EJob rec)) with (JobSlot (j_ID job)) in HC.
  destruct (BadgerStorage.CreateJob rec (w_store w)) as [db1 r1] eqn:E1.
  erewrite run_store in E by exact E1. cbv beta in E.
  destruct HC as [(er & _ & Her & _)|HC]; [by apply Hf in Her|].
  destruct (a !! JobSlot (j_ID job)) eqn:Ea.
  { destruct HC as [-> Hr1]. injection E as <- <-. eexists _, a. split_and!; [done|done|done|done| |done].
    split; [done|by intros (_ & ? & _)]. }
  destruct (readings_range _ w w' o Hw Hw' (ex_intro _ db1 E)) as [Hc Hu].
  assert (Hm : is_ok (Marshal (EJob rec)) = true).
  { simpl. unfold Marshal_Job, out_time. simpl. by rewrite !bool_decide_true by done. }
  destruct (Marshal (EJob rec)); [|done]. destruct HC as [-> Hr1].
  pose proof (readings_time _ w w' o db1 Hw Hw' E) as Hw1.
  destruct (persist_tasks_store _ _ _ _ _ _ Hf Hj Hts Hw1 Hw' Hr1 E) as (r & a' & -> & Hr' & Hframe & Hiff & Hst).
  assert (Hfree : Forall (task_free (<[JobSlot (j_ID job) := EJob rec]> a) (j_ID job)) (j_Tasks job) ↔
                  Forall (task_free a (j_ID job)) (j_Tasks job)).
  { unfold task_free. setoid_rewrite lookup_insert_ne; done. }
  assert (Hnin : JobSlot (j_ID job) ∉ task_slots (j_ID job) (j_Tasks job))
    by (by intros (? & ? & _)%list_elem_of_fmap).
  exists r, a'. split_and!; [done|done| |by intros [? ?]| |].
  - intros x Hx.
    assert (Hne : x ≠ JobSlot (j_ID job)).
    { intros ->. destruct Hx as [Hx|[? ?]]; [|congruence]. apply Hx. by left. }
    rewrite Hframe; [by rewrite lookup_insert_ne|]. rewrite lookup_insert_ne by done.
    destruct Hx as [Hx|Hx]; [left; intros ?; apply Hx; by right|by right].
  - unfold config_valid. rewrite Hiff, Hfree, Ecfg. simpl. tauto.
  - intros Hrok. split; [|by apply Hst]. exists cfg, c, u. split; [done|].
    rewrite Hframe by (by left). by rewrite lookup_insert_eq.
Qed.

(** C26: registration.  With a healthy database [RegisterJob] succeeds just
    when the job is not registered in memory nor stored, its configurations
    can be serialised, and its tasks have distinct identifiers that are free.
    Then the job is registered, its record and every task's are stored.
    Otherwise it gives an error, the scheduler is as before, and a job that is
    registered or stored already costs no write at all; other failures may leave records of the job behind.  No record that was there changes. *)
Theorem register_job_spec job s a w w' o :
  (∀ er, ¬ fault er) → job_id_ok (j_ID job) → Forall (λ t, slash_free (t_ID t) = true) (j_Tasks job) →
  in_rfc3339_range (w_time w) → in_rfc3339_range (w_time w') → repr a (contents (w_store w)) →
  run jitter coin (RegisterJob job s) w = (w', o) →
  ∃ s' r a', o = Done (s', r) ∧ repr a' (contents (w_store w')) ∧
    (is_ok r = true ↔ registrable a s job) ∧
    (∀ x, x ∉ job_slots job ∨ is_Some (a !! x) → a' !! x = a !! x) ∧
    if is_ok r
    then s' = set_jobs (<[j_ID job := job]> (s_jobs s)) s ∧ job_stored a' job ∧
         Forall (task_stored a' (j_ID job)) (j_Tasks job)
    else s' = s ∧
         (is_Some (s_jobs s !! j_ID job) ∨ is_Some (a !! JobSlot (j_ID job)) → a' = a).
Proof.
  intros Hf Hj Hts Hw Hw' Hr E. unfold RegisterJob in E.
  destruct (s_jobs s !! j_ID job) eqn:Es.
  { injection E as <- <-. eexists s, _, a. split_and!; [done|done| |done|done].
    unfold registrable. rewrite Es. split; [done|by intros []]. }
  rewrite run_bind in E. destruct (run jitter coin (persist_job job) w) as [w1 o1] eqn:E1.
  assert (Hw1 : w1 = w').
  { destruct o1 as [[[]|e]|m]; by injection E. }
  subst w1. destruct (persist_job_store _ _ _ _ _ Hf Hj Hts Hw Hw' Hr E1)
    as (r & a' & -> & Hr' & Hframe & Hsame & Hiff & Hst).
  assert (Hreg : is_ok r = true ↔ registrable a s job).
  { rewrite Hiff. unfold registrable. rewrite Es. tauto. }
  destruct r as [[]|e]; injection E as <-.
  - eexists _, (Ok tt), a'. split_and!; [done|done|done|done|]. cbn [is_ok]. split; [done|by apply Hst].
  - eexists _, (Err e), a'. split_and!; [done|done|done|done|]. cbn [is_ok]. split; [done|].
    intros [[? ?]|?]; [done|by apply Hsame].
Qed.
End Registration.

(** ** Updates *)
Section Updates.
Context {M T : Type} `{BadgerLaws} `{TickerLoop T} `{MapRange}.
Context (jitter : nat → Z) (coin : nat → bool).
Implicit Types (s : Scheduler T) (w : World DB M) (a : gmap slot entry).
#[local] Existing Instance BadgerStorage.storage.

Lemma call_ticker_jobs ref act s s' :
  call_ticker ref act s = Next s' →
  s_jobs s' = s_jobs s ∧ s_watchers s' = s_watchers s ∧ s_running s' = s_running s ∧
  s_cancelled s' = s_cancelled s ∧ s_pool s' = s_pool s ∧ s_reaper s' = s_reaper s ∧ s_config s' = s_config s.
Proof. unfold call_ticker. intros E. cases_in E. destruct (step l act); by simplify_eq/=. Qed.

(** Swapping tickers leaves the rest of the scheduler alone: a watcher that is
    in its [select] goes on listening to the channel of the old ticker. *)
Lemma swap_tickers_rest job u s s' :
  swap_tickers job u s = Next s' → s_jobs s' = s_jobs s ∧ s_watchers s' = s_watchers s.
Proof.
  unfold swap_tickers. intros E. destruct (ju_NewTicker u) as [new|]; [|by simplify_eq].
  destruct (s_tickers s !! j_Ticker job).
  - destruct (call_ticker (j_Ticker job) LStop s) as [|s1|m] eqn:E1; simplify_eq/=.
    apply call_ticker_jobs in E1 as (Hj1 & Hw1 & _).
    destruct (schedulable job && _); [|by simplify_eq].
    apply call_ticker_jobs in E as (-> & -> & _). by rewrite Hj1, Hw1.
  - simpl in E. destruct (schedulable job && _); [|by simplify_eq].
    by apply call_ticker_jobs in E as (-> & -> & _).
Qed.

Definition stored_version a (i : string) : option Z :=
  match a !! JobSlot i with Some (EJob j) => Some (sj_Version j) | _ => None end.

(** C24: versions in memory and in the store.  With a healthy database
    [UpdateJob] refuses a job that is not registered and a version other than
    the one in memory, with no effect.  It succeeds only when the stored
    version is the one in memory too; then both are one higher and the
    registered job is the updated one.  When the stored version differs from
    the one in memory, every update is refused and changes nothing, so the two
    stay apart for good; an update that fails after the job's record was
    written is what takes them apart. *)
Theorem update_job_versions u s a w :
  (∀ er, ¬ fault er) → job_id_ok (ju_JobID u) →
  Forall (λ t, slash_free (t_ID t) = true) (ju_AddedTasks u) → repr a (contents (w_store w)) →
  let i := ju_JobID u in
  let '(w', o) := run jitter coin (UpdateJob u s) w in
  ∃ a', repr a' (contents (w_store w')) ∧
    match s_jobs s !! i with
    | None => a' = a ∧ o = Done (s, Err ("job not registered: " +:+ i))
    | Some job =>
        if bool_decide (j_Version job = ju_ExpectedVersion u) then
          match o with
          | Done (s', Ok _) =>
              stored_version a i = Some (j_Version job) ∧
              stored_version a' i = Some (wrap64 (j_Version job + 1)) ∧
              s_jobs s' = <[i := job_after job u]> (s_jobs s) ∧
              j_Version (job_after job u) = wrap64 (j_Version job + 1)
          | Done (s', Err _) =>
              s' = s ∧
              (a' = a ∨ (stored_version a i = Some (j_Version job) ∧
                         stored_version a' i = Some (wrap64 (j_Version job + 1)))) ∧
              (stored_version a i ≠ Some (j_Version job) → a' = a)
          | Crash _ => ∀ s1, swap_tickers job u s ≠ Next s1
          end
        else a' = a ∧ o = Done (s, Err (version_mismatch (ju_ExpectedVersion u) (j_Version job)))
    end.
Proof.
  intros Hf Hu Hts Hr i. unfold UpdateJob. fold i. destruct (s_jobs s !! i) as [job|];
    [|simpl; by exists a].
  destruct (decide (j_Version job = ju_ExpectedVersion u)) as [Hv|Hv];
    [rewrite !bool_decide_true by done|rewrite !bool_decide_false by done; simpl; by exists a].
  cbn [negb]. rewrite run_bind. pose proof (ApplyUpdate_cases jitter coin u a w Hu Hts Hr) as HC.
  destruct (run _ _ (ApplyUpdate u) w) as [w1 r1]. destruct HC as (a' & res & -> & Hr' & HC).
  assert (Hver : (a' = a ∧ ∃ e, res = Err e) ∨
    (stored_version a i = Some (j_Version job) ∧ stored_version a' i = Some (wrap64 (j_Version job + 1)))).
  { destruct HC as [(-> & e & -> & _)|(j & t & v & Hj & Hjv & Hj' & _)]; [left; by eauto|].
    right. unfold stored_version, i. rewrite Hj, Hj'. simpl. by rewrite Hjv, Hv. }
  destruct res as [[]|e].
  - destruct Hver as [(_ & e & ?)|[Hs Hs']]; [done|]. rewrite run_bind.
    destruct (swap_tickers job u s) as [|s1|m] eqn:Es; simpl; exists a'; (split; [exact Hr'|]); [done| |done].
    apply swap_tickers_rest in Es as [-> _]. done.
  - simpl. exists a'. split; [exact Hr'|]. split; [done|]. destruct Hver as [[-> _]|[Hs Hs']]; [by auto|].
    split; [by right|done].
Qed.
End Updates.

(** ** The tasks of an updated job *)
Section TaskMap.
Context `{MapRange}.

(** The last task of a list with an identifier. *)
Fixpoint latest (i : string) (ts : list Task) : option Task :=
  match ts with
  | [] => None
  | t :: ts =>
      match latest i ts with
      | Some t' => Some t'
      | None => if bool_decide (t_ID t = i) then Some t else None
      end
  end.
Lemma latest_Some i ts t : latest i ts = Some t → t ∈ ts ∧ t_ID t = i.
Proof.
  induction ts as [|t' ts IH]; [done|]. simpl. destruct (latest i ts).
  - intros [= ->]. destruct (IH eq_refl). split; [by right|done].
  - case_bool_decide; [|done]. intros [= ->]. split; [by left|done].
Qed.

Lemma lookup_put ts m i :
  foldl put_task m ts !! i = match latest i ts with Some t => Some t | None => m !! i end.
Proof.
  revert m. induction ts as [|t ts IH]; intros m; [done|]. simpl. rewrite IH.
  destruct (latest i ts); [done|]. unfold put_task. case_bool_decide as Hi.
  - rewrite <- Hi. by rewrite lookup_insert_eq.
  - by rewrite lookup_insert_ne.
Qed.
Lemma lookup_removed ids (m : gmap string Task) i :
  foldl (λ m j, delete j m) m ids !! i = if bool_decide (i ∈ ids) then None else m !! i.
Proof.
  revert m. induction ids as [|j ids IH]; intros m; [done|]. simpl. rewrite IH.
  destruct (decide (i ∈ ids)); [rewrite !bool_decide_true by (done || by right); done|].
  rewrite (bool_decide_false (i ∈ ids)) by done. destruct (decide (i = j)) as [->|Hne].
  - rewrite bool_decide_true by left. apply lookup_delete_eq.
  - rewrite bool_decide_false; [by rewrite lookup_delete_ne|]. by intros [|]%elem_of_cons.
Qed.

Definition edited (v : option Task) (t : Task) : Task :=
  match v with
  | Some v => mkTask (t_ID t) (t_Name v) (t_Config v) (t_Order v) (t_Fn t)
  | None => t
  end.
Definition keyed (m : gmap string Task) : Prop := ∀ i t, m !! i = Some t → t_ID t = i.
Lemma lookup_edits vs m i : (foldl edit_task m vs) !! i = (edited (latest i vs) <$> m !! i).
Proof.
  revert m. induction vs as [|v vs IH]; intros m; simpl; [by destruct (m !! i)|].
  rewrite IH. unfold edit_task. destruct (m !! t_ID v) as [t|] eqn:Ev.
  - destruct (decide (t_ID v = i)) as [<-|Hne].
    + rewrite lookup_insert_eq, Ev. simpl. rewrite bool_decide_true by done. by destruct (latest _ vs).
    + rewrite lookup_insert_ne by done. rewrite bool_decide_false by done. by destruct (latest _ vs).
  - case_bool_decide as Hi; [|by destruct (latest _ vs)]. subst i. by rewrite Ev; destruct (latest _ vs).
Qed.

Lemma task_map_lookup job u i :
  task_map job u !! i =
    if bool_decide (i ∈ ju_RemovedTaskIDs u) then None
    else edited (latest i (ju_UpdatedTasks u)) <$> latest i (j_Tasks job ++ ju_AddedTasks u).
Proof.
  unfold task_map. rewrite lookup_edits, lookup_removed, <- foldl_app, lookup_put, lookup_empty.
  case_bool_decide; [done|]. by destruct (latest i (_ ++ _)).
Qed.
Lemma task_map_keyed job u : keyed (task_map job u).
Proof.
  intros i t. rewrite task_map_lookup. case_bool_decide; [done|].
  destruct (latest i (_ ++ _)) as [t0|] eqn:E; [|done]. apply latest_Some in E as [_ <-].
  intros [= <-]. by destruct (latest (t_ID t0) _).
Qed.

(** C34: the tasks of an updated job.  Identifiers are distinct.  A task is
    there just when its identifier is not removed and belongs to an old or an
    added task; it is the latest such task, with its own function, and name,
    configuration and order taken from the latest update of that identifier,
    if there is one.  The order of the list is not kept. *)
Theorem updated_tasks_exact job u :
  let ts := j_Tasks (job_after job u) in
  NoDup (t_ID <$> ts) ∧
  ∀ t, t ∈ ts ↔ (t_ID t ∉ ju_RemovedTaskIDs u) ∧
    ∃ t0, latest (t_ID t) (j_Tasks job ++ ju_AddedTasks u) = Some t0 ∧
          t = edited (latest (t_ID t) (ju_UpdatedTasks u)) t0.
Proof.
  cbv zeta. cbn [job_after j_Tasks]. split.
  - rewrite range_perm, <- list_fmap_compose.
    rewrite (list_fmap_ext _ (fst : string * Task → string)); [apply NoDup_fst_map_to_list|].
    intros _ [i t] Hit%list_elem_of_lookup_2. apply elem_of_map_to_list in Hit. simpl.
    by apply (task_map_keyed job u).
  - intros t. rewrite elem_of_range. split.
    + intros [i Hi]. pose proof (task_map_keyed _ _ _ _ Hi) as <-. rewrite task_map_lookup in Hi.
      case_bool_decide; [done|]. split; [done|].
      destruct (latest (t_ID t) (_ ++ _)) as [t0|] eqn:E; [|done]. injection Hi as Hi. by exists t0.
    + intros (Hn & t0 & E & Ht). exists (t_ID t). rewrite task_map_lookup, bool_decide_false, E by done.
      simpl. by rewrite <- Ht.
Qed.
End TaskMap.

(** ** The life cycle *)
Section LifeCycle.
Context {T : Type} `{TickerLoop T} `{MapRange}.
Implicit Types (s : Scheduler T) (acts : list (WorkerPool.action (Job * JobOccurrence))).

Definition uses (ref : TickerRef) (jobs : list Job) : nat :=
  length (filter (λ job, j_Ticker job = ref) jobs).
#[export] Instance uses_perm ref : Proper ((≡ₚ) ==> eq) (uses ref).
Proof. intros l l' Hl. unfold uses. by rewrite Hl. Qed.

(** Each ticker got one call of the kind [act] for every job of the list. *)
Definition called (act : loop_action) (jobs : list Job) s s' : Prop :=
  ∀ ref, match s_tickers s !! ref with
         | Some l => ∃ l', exec step l (replicate (uses ref jobs) act) = Next l' ∧ s_tickers s' !! ref = Some l'
         | None => s_tickers s' !! ref = None ∧ uses ref jobs = 0%nat
         end.
Lemma called_perm act jobs jobs' s s' : jobs ≡ₚ jobs' → called act jobs s s' → called act jobs' s s'.
Proof. intros Hp Hc ref. specialize (Hc ref). by rewrite (uses_perm ref _ _ Hp) in Hc. Qed.
Lemma called_nil act s : called act [] s s.
Proof. intros ref. destruct (s_tickers s !! ref) as [l|]; [by exists l|done]. Qed.
Lemma called_cons act job jobs s s1 s2 :
  call_ticker (j_Ticker job) act s = Next s1 → called act jobs s1 s2 → called act (job :: jobs) s s2.
Proof.
  unfold call_ticker. intros E Hc ref. specialize (Hc ref).
  destruct (s_tickers s !! j_Ticker job) as [l0|] eqn:El; [|done].
  destruct (step l0 act) as [|l1|m] eqn:Es; simplify_eq/=. unfold uses in *. rewrite filter_cons.
  destruct (decide (j_Ticker job = ref)) as [<-|Hne].
  - rewrite lookup_insert_eq in Hc. rewrite El. simpl. rewrite Es. exact Hc.
  - rewrite lookup_insert_ne in Hc by done. exact Hc.
Qed.

Lemma start_tickers_spec jobs s s' :
  start_tickers jobs s = Next s' →
  called LStart (filter (λ job, schedulable job = true) jobs) s s' ∧
  s_watchers s' = s_watchers s ++ ((λ job, (j_ID job, WAtTop)) <$> filter (λ job, schedulable job = true) jobs) ∧
  s_jobs s' = s_jobs s ∧ s_pool s' = s_pool s ∧ s_reaper s' = s_reaper s ∧ s_cancelled s' = s_cancelled s.
Proof.
  revert s. induction jobs as [|job jobs IH]; intros s E.
  { injection E as <-. simpl. rewrite app_nil_r. split_and!; [apply called_nil|done..]. }
  cbn [start_tickers] in E. rewrite filter_cons.
  destruct (decide (schedulable job = true)) as [Hs|Hs].
  - rewrite Hs in E. destruct (call_ticker _ _ s) as [|s1|m] eqn:E1; simplify_eq/=.
    apply IH in E as (Hc & Hws & Hj & Hp & Hr & Hcn).
    pose proof (call_ticker_jobs _ _ _ _ E1) as (Hj1 & Hw1 & _ & Hcn1 & Hp1 & Hr1 & _).
    simpl in *. split_and!; try congruence; [by eapply called_cons|].
    rewrite Hws, Hw1, <- app_assoc. done.
  - apply not_true_is_false in Hs. rewrite Hs in E. by apply IH.
Qed.
Lemma stop_tickers_spec jobs s s' :
  stop_tickers jobs s = Next s' →
  called LStop jobs s s' ∧ s_watchers s' = s_watchers s ∧ s_jobs s' = s_jobs s ∧
  s_pool s' = s_pool s ∧ s_reaper s' = s_reaper s.
Proof.
  revert s. induction jobs as [|job jobs IH]; intros s E.
  { injection E as <-. split_and!; [apply called_nil|done..]. }
  cbn [stop_tickers] in E. destruct (call_ticker _ _ s) as [|s1|m] eqn:E1; simplify_eq/=.
  apply IH in E as (Hc & Hws & Hj & Hp & Hr).
  pose proof (call_ticker_jobs _ _ _ _ E1) as (Hj1 & Hw1 & _ & _ & Hp1 & Hr1 & _).
  split_and!; try congruence. by eapply called_cons.
Qed.

(** The last step of a pool's [Stop]. *)
Lemma pool_stopped (p p' : WorkerPool.t (Job * JobOccurrence)) acts :
  is_stop_run acts = true → WorkerPool.started p = true → exec WorkerPool.step p acts = Next p' →
  WorkerPool.started p' = false ∧ forallb WorkerPool.is_exited (WorkerPool.workers p') = true.
Proof.
  intros Hs Hst E. destruct acts as [|a rest]; [done|].
  destruct a; try done; [destruct rest; [|done]|].
  { simpl in E. unfold WorkerPool.Stop_noop in E. rewrite Hst in E. by destruct (WorkerPool.mu p). }
  destruct (last rest) as [b|] eqn:El; [|simpl in Hs; by rewrite El in Hs].
  apply last_Some in El as [pre ->]. simpl in Hs. rewrite last_snoc in Hs.
  destruct b; try done. change (WorkerPool.AStopLock :: pre ++ [WorkerPool.AStopReturn]) with
    ((WorkerPool.AStopLock :: pre) ++ [WorkerPool.AStopReturn]) in E. rewrite exec_app in E.
  destruct (exec _ p _) as [|p1|m]; try done. simpl in E. unfold WorkerPool.Stop_return in E.
  destruct (WorkerPool.mu p1); try done. destruct (forallb _ _) eqn:Ew; simplify_eq/=. done.
Qed.

Lemma start_machinery_spec s s' :
  start_machinery s = Next s' →
  let jobs := filter (λ job, schedulable job = true) (range (s_jobs s)) in
  s_running s' = true ∧ s_jobs s' = s_jobs s ∧ s_cancelled s' = s_cancelled s ∧
  s_watchers s' = s_watchers s ++ ((λ job, (j_ID job, WAtTop)) <$> jobs) ∧
  called LStart jobs s s' ∧
  WorkerPool.step (s_pool s) WorkerPool.AStart = Next (s_pool s') ∧
  WorkerPool.started (s_pool s') = true ∧
  Reaper.step (s_reaper s) Reaper.Start = Next (s_reaper s').
Proof.
  unfold start_machinery. intros E.
  destruct (Reaper.step _ _) as [|r|m]; simplify_eq/=.
  destruct (WorkerPool.Start (s_pool s)) as [|p|m] eqn:Ep; simplify_eq/=.
  destruct (start_tickers _ _) as [|s1|m] eqn:Et; simplify_eq/=.
  apply start_tickers_spec in Et as (Hc & Hws & Hj & Hp & Hr & Hcn). simpl in *.
  split_and!; try done; try congruence. rewrite Hp. unfold WorkerPool.Start in Ep.
  destruct (WorkerPool.mu (s_pool s)); try done.
  destruct (WorkerPool.started (s_pool s)) eqn:Es; by injection Ep as <-.
Qed.

Lemma reaper_stop_keeps r r' : Reaper.step r Reaper.Start = Next r' → Reaper.stopClosed r' = Reaper.stopClosed r.
Proof. by intros [= <-]. Qed.

Lemma Shutdown_spec acts s s' :
  s_running s = true → Shutdown acts s = Next s' →
  s_running s' = false ∧ s_jobs s' = s_jobs s ∧ s_cancelled s' = true ∧ s_watchers s' = s_watchers s ∧
  called LStop (range (s_jobs s)) s s' ∧
  is_stop_run acts = true ∧ exec WorkerPool.step (s_pool s) acts = Next (s_pool s') ∧
  Reaper.stopClosed (s_reaper s) = false ∧ Reaper.stopClosed (s_reaper s') = true.
Proof.
  unfold Shutdown. intros -> E. cbn [negb] in E.
  destruct (stop_tickers _ s) as [|s1|m] eqn:Et; simplify_eq/=.
  apply stop_tickers_spec in Et as (Hc & Hws & Hj & Hp & Hr).
  unfold pool_Stop in E. destruct (is_stop_run acts); [|done]. simpl in E. rewrite Hp in E.
  destruct (exec _ _ acts) as [|p|m] eqn:Ep; simplify_eq/=. rewrite Hr in E.
  destruct (Reaper.stopClosed (s_reaper s)) eqn:Ec; simplify_eq/=.
  split_and!; try done; congruence.
Qed.

End LifeCycle.

Section Starting.
Context {S M T : Type} `{UuidLib} `{Storage S} `{MetricsCollector M} `{TickerLoop T} `{Ticker T} `{MapRange}.
Context (jitter : nat → Z) (coin : nat → bool) (Local : Loc) (submit : Job → JobOccurrence → Prog S M unit).
Implicit Types (s : Scheduler T) (w : World S M).

(** C32: starting.  [Start] on a running scheduler gives an error and does
    nothing.  Otherwise recovery comes first: its error is reported and the
    scheduler is as before, with no ticker, worker or reaper started.  Only
    then is everything started: the scheduler is running, the pool started,
    the reaper has one more goroutine, each ticker gets one Start for every
    job that is active and not paused and uses it, and each such job a watcher
    of its own.  No job is added or lost. *)
Theorem start_outcomes s w w' s' r :
  run jitter coin (Start Local submit s) w = (w', Done (s', r)) →
  let jobs := filter (λ job, schedulable job = true) (range (s_jobs s)) in
  match r with
  | Err e =>
      s' = s ∧
      ((s_running s = true ∧ w' = w ∧ e = "scheduler already running") ∨
       (s_running s = false ∧ ∃ e', run jitter coin (performRecovery Local submit s) w = (w', Done (Err e')) ∧
                                    e = "recovery failed: " +:+ e'))
  | Ok _ =>
      s_running s = false ∧ run jitter coin (performRecovery Local submit s) w = (w', Done (Ok tt)) ∧
      s_running s' = true ∧ s_jobs s' = s_jobs s ∧
      s_watchers s' = s_watchers s ++ ((λ job, (j_ID job, WAtTop)) <$> jobs) ∧
      called LStart jobs s s' ∧ WorkerPool.started (s_pool s') = true ∧
      Reaper.spawned (s_reaper s') = Datatypes.S (Reaper.spawned (s_reaper s))
  end.
Proof.
  cbv zeta. unfold Start. intros E. destruct (s_running s) eqn:Es.
  { injection E as <- <- <-. split; [done|]. left. by split. }
  rewrite run_bind in E. destruct (run jitter coin (performRecovery _ _ s) w) as [w1 [[[]|e]|m]] eqn:E1;
    simplify_eq/=.
  - rewrite run_bind in E. destruct (start_machinery s) as [|s1|m] eqn:Em; simplify_eq/=.
    apply start_machinery_spec in Em as (? & ? & _ & ? & ? & _ & ? & Hre).
    split_and!; try done. simpl in Hre.
    injection Hre as Hre. by rewrite <- Hre.
  - split; [done|]. right. split; [done|]. by exists e.
Qed.
End Starting.

(** ** Gauges *)
Section Gauges.
Context {T : Type} `{BadgerLaws} `{MapRange}.
Context (jitter : nat → Z) (coin : nat → bool).
Implicit Types (s : Scheduler T) (a : gmap slot entry).
#[local] Existing Instances BadgerStorage.storage InMemoryMetrics.collector.

Lemma range_count s (f : Job → bool) :
  length (List.filter f (range (s_jobs s))) = size (filter (λ p : string * Job, f p.2 = true) (s_jobs s)).
Proof.
  assert (Hlen : ∀ l : list Job, length (List.filter f l) = length (filter (λ j, f j = true) l)).
  { induction l as [|j l IH]; [done|]. rewrite filter_cons. simpl.
    destruct (f j) eqn:E; [rewrite decide_True by done; simpl; by rewrite IH|by rewrite decide_False]. }
  rewrite Hlen, range_perm, <- length_map_to_list, map_filter_alt, map_to_list_to_map.
  2: { eapply sublist_NoDup; [apply (NoDup_fst_map_to_list (s_jobs s))|]. apply fmap_sublist, sublist_filter. }
  generalize (map_to_list (s_jobs s)). intros l. induction l as [|[i j] l IH]; [done|].
  cbn [fmap list_fmap snd]. rewrite !filter_cons. cbn [snd]. by destruct (decide _); simpl; rewrite IH.
Qed.

(** The running occurrences of a store, each once. *)
Definition running_occurrences a (os : list StorageOccurrence) : Prop :=
  NoDup os ∧ ∀ r, r ∈ os ↔ a !! occ_slot_of r = Some (EOcc r) ∧ so_Status r = JobStatusRunning.

(** C39: the gauges.  With a healthy database [updateMetrics] changes nothing
    in the store, and sets the three gauges to the number of stored running
    occurrences (of every job in the database, registered here or not), of
    tasks in the pool's queue, and of registered jobs that are paused; no
    counter changes. *)
Theorem gauges_exact s a (w w' : World DB InMemoryMetrics.t) o :
  (∀ er, ¬ fault er) → repr a (contents (w_store w)) →
  run jitter coin (updateMetrics s) w = (w', o) →
  o = Done tt ∧ w_store w' = w_store w ∧
  (∃ os, running_occurrences a os ∧ GetJobsRunning (w_metrics w') = Z.of_nat (length os)) ∧
  GetJobsInQueue (w_metrics w') = WorkerPool.QueueLength (s_pool s) ∧
  GetJobsPaused (w_metrics w') =
    Z.of_nat (size (filter (λ p : string * Job, j_Paused p.2 = true) (s_jobs s))) ∧
  InMemoryMetrics.taskAttempts (w_metrics w') = InMemoryMetrics.taskAttempts (w_metrics w) ∧
  InMemoryMetrics.jobOccurrences (w_metrics w') = InMemoryMetrics.jobOccurrences (w_metrics w) ∧
  InMemoryMetrics.recoveryRuns (w_metrics w') = InMemoryMetrics.recoveryRuns (w_metrics w).
Proof.
  intros Hf Hr E. unfold updateMetrics in E.
  destruct (all_occurrences a (w_store w) (status_is JobStatusRunning) Hr) as (r & El & Hl).
  destruct r as [os|er]; [|by apply Hf in Hl]. destruct Hl as [Hnd Hl].
  assert (El' : ListRunningOccurrences (w_store w) = (w_store w, Ok os)) by exact El.
  erewrite run_read in E by exact El'. cbv beta iota in E.
  rewrite range_count in E. injection E as <- <-. simpl.
  split_and!; try done. exists os. split; [|done]. split; [done|].
  intros r. by rewrite Hl, status_is_spec.
Qed.
End Gauges.
