(* ===== verification/Node.v ===== *)
(** * A node: the scheduler and everything that happens around it

    The calls of the application, the watchers, the loops of the tickers, the
    workers of the pool and the reaper's goroutine act on one scheduler in any
    order.  [well_formed] is what all of them can rely on. *)
From S2P Require Import Prelude GoTime GoContext Types Ids Job Metrics Pool Ticker Storage Effects Recovery Update Scheduler SchedulerCorrect.
Local Open Scope Z_scope.

(** What [leaves] says of a program that is bound to a call. *)
Lemma leaves_call {S M A B} (P : B → Prop) (r : StepResult A) (f : A → Prog S M B) :
  (∀ a, r = Next a → leaves P (f a)) → leaves P (call r ≫= f).
Proof. destruct r; simpl; auto. Qed.

(** Only the scheduler's own calls start and stop the pool. *)
Definition pool_env {task} (a : WorkerPool.action task) : bool :=
  match a with
  | WorkerPool.AStart | WorkerPool.AStopNoop | WorkerPool.AStopLock | WorkerPool.AStopCloseStop
  | WorkerPool.AStopCloseQueue | WorkerPool.AStopReturn => false
  | _ => true
  end.
Lemma pool_env_started {task} (p p' : WorkerPool.t task) a :
  pool_env a = true → WorkerPool.step p a = Next p' → WorkerPool.started p' = WorkerPool.started p.
Proof.
  destruct a; try done; intros _ E; simpl in E;
    unfold WorkerPool.Submit_sync, WorkerPool.Submit_check, WorkerPool.Submit_send, WorkerPool.Submit_stopped,
      WorkerPool.worker_receive, WorkerPool.worker_finish, WorkerPool.worker_stop, WorkerPool.worker_closed in E;
    cases_in E; by simplify_eq/=.
Qed.
Lemma reachable_exec {St Ac} (step : St → Ac → StepResult St) init s acts s' :
  reachable step init s → exec step s acts = Next s' → reachable step init s'.
Proof. intros [acts0 E0] E. exists (acts0 ++ acts). by rewrite exec_app, E0. Qed.

Inductive event :=
| ERegisterJob (job : Job)
| EStart
| EUpdateJob (u : JobUpdate)
| EShutdown (acts : list (WorkerPool.action (Job * JobOccurrence)))
| EWatcher (a : watch_action)
| ETicker (ref : TickerRef) (a : loop_action)
| EPool (a : WorkerPool.action (Job * JobOccurrence))
| EReaper (a : Reaper.action)
| EClock (t : Instant).

Section Node.
Context {S M T : Type} `{UuidLib} `{Storage S} `{MetricsCollector M} `{TickerLoopLaws T} `{Ticker T} `{MapRange}.
Context (jitter : nat → Z) (coin : nat → bool) (Local : Loc) (submit : Job → JobOccurrence → Prog S M unit).
Implicit Types (s : Scheduler T) (w : World S M).

Definition Node : Type := World S M * Scheduler T.
Definition called_on (r : World S M * Outcome (Scheduler T * Result unit)) : StepResult Node :=
  match r with (w, Done (s, _)) => Next (w, s) | (_, Crash m) => Panicked m end.

Definition node_step (n : Node) (e : event) : StepResult Node :=
  let '(w, s) := n in
  match e with
  | ERegisterJob job => called_on (run jitter coin (RegisterJob job s) w)
  | EStart => called_on (run jitter coin (Start Local submit s) w)
  | EUpdateJob u => called_on (run jitter coin (UpdateJob u s) w)
  | EShutdown acts => then_step (λ s', Next (w, s')) (Shutdown acts s)
  | EWatcher a =>
      then_step (λ '(s', p),
        match run jitter coin p w with (w', Done _) => Next (w', s') | (_, Crash m) => Panicked m end)
        (watchJob submit s a)
  | ETicker ref a => then_step (λ s', Next (w, s')) (call_ticker ref a s)
  | EPool a =>
      if pool_env a then then_step (λ p, Next (w, set_pool p s)) (WorkerPool.step (s_pool s) a) else Disabled
  | EReaper a =>
      match a with
      | Reaper.Start | Reaper.Stop => Disabled
      | Reaper.CtxDone =>
          if s_cancelled s then then_step (λ r, Next (w, set_reaper r s)) (Reaper.step (s_reaper s) a)
          else Disabled
      | Reaper.Tick =>
          then_step (λ r,
            match run jitter coin reapStaleJobs w with
            | (w', Done _) => Next (w', set_reaper r s) | (_, Crash m) => Panicked m
            end) (Reaper.step (s_reaper s) a)
      | _ => then_step (λ r, Next (w, set_reaper r s)) (Reaper.step (s_reaper s) a)
      end
  | EClock t => if t <? w_time w then Disabled else Next (set_time t w, s)
  end.

(** *** The invariant *)
Record well_formed (config : SchedulerConfig) s : Prop := {
  wf_config : s_config s = config;
  wf_keys id job : s_jobs s !! id = Some job → j_ID job = id;
  wf_watchers id pc : (id, pc) ∈ s_watchers s → is_Some (s_jobs s !! id);
  wf_tickers ref l : s_tickers s !! ref = Some l → ch_ok l;
  wf_pool : reachable WorkerPool.step (WorkerPool.New (MaxConcurrentJobs config)) (s_pool s);
  wf_running : s_running s = true → WorkerPool.started (s_pool s) = true;
}.

(** A change of the parts that no call of this kind touches. *)
Lemma call_ticker_wf config ref act s s' :
  call_ticker ref act s = Next s' → well_formed config s → well_formed config s'.
Proof.
  intros E [Hc Hk Hw Ht Hp Hr]. pose proof (call_ticker_jobs _ _ _ _ E) as (Ej & Ew & Er & _ & Ep & _ & Ec).
  split; rewrite ?Ej, ?Ew, ?Er, ?Ep, ?Ec; try done. intros r l Hl.
  unfold call_ticker in E. destruct (s_tickers s !! ref) as [l0|] eqn:El; [|done].
  destruct (step l0 act) as [|l1|m] eqn:Es; simplify_eq/=.
  apply lookup_insert_Some in Hl as [[<- <-]|[_ Hl]]; [|by eapply Ht].
  eapply step_stop_fields; [exact Es|by eapply Ht].
Qed.

Definition known s (job : Job) : Prop := is_Some (s_jobs s !! j_ID job).
Lemma range_known config s : well_formed config s → Forall (known s) (range (s_jobs s)).
Proof.
  intros Hwf. apply Forall_forall. intros job [id Hid]%elem_of_range.
  unfold known. rewrite (wf_keys _ _ Hwf _ _ Hid). by eexists.
Qed.

Lemma start_tickers_wf config jobs s s' :
  Forall (known s) jobs → start_tickers jobs s = Next s' → well_formed config s → well_formed config s'.
Proof.
  intros Hj. revert s Hj. induction jobs as [|job jobs IH]; intros s Hj E Hwf; cbn [start_tickers] in E.
  { by injection E as <-. }
  apply Forall_cons in Hj as [Hjob Hj]. destruct (schedulable job); [|by eapply IH].
  destruct (call_ticker (j_Ticker job) LStart s) as [|s1|m] eqn:E1; simplify_eq/=.
  pose proof (call_ticker_jobs _ _ _ _ E1) as (Ej & _). pose proof (call_ticker_wf _ _ _ _ _ E1 Hwf) as [].
  eapply IH; [|exact E|].
  - eapply Forall_impl; [exact Hj|]. intros x. unfold known. simpl. by rewrite Ej.
  - split; try done. simpl. intros id pc [Hin|[= -> ->]%list_elem_of_singleton]%elem_of_app; [by eapply wf_watchers0|].
    by rewrite Ej.
Qed.
Lemma stop_tickers_wf config jobs s s' :
  stop_tickers jobs s = Next s' → well_formed config s → well_formed config s'.
Proof.
  revert s. induction jobs as [|job jobs IH]; intros s E Hwf; cbn [stop_tickers] in E.
  { by injection E as <-. }
  destruct (call_ticker (j_Ticker job) LStop s) as [|s1|m] eqn:E1; simplify_eq/=.
  eapply IH; [exact E|]. by eapply call_ticker_wf.
Qed.

(** *** Calls of the application *)
Lemma start_machinery_wf config s s' :
  start_machinery s = Next s' → well_formed config s → well_formed config s'.
Proof.
  intros E Hwf. unfold start_machinery in E.
  destruct (Reaper.step _ _) as [|r|m]; simplify_eq/=.
  destruct (WorkerPool.Start (s_pool s)) as [|p|m] eqn:Ep; simplify_eq/=.
  destruct (start_tickers _ _) as [|s1|m] eqn:Et; simplify_eq/=.
  assert (Hst : WorkerPool.started p = true).
  { unfold WorkerPool.Start in Ep. destruct (WorkerPool.mu (s_pool s)); try done.
    destruct (WorkerPool.started (s_pool s)) eqn:Es; by injection Ep as <-. }
  pose proof (start_tickers_spec _ _ _ Et) as (_ & _ & _ & Hp & _).
  apply (start_tickers_wf config) in Et as [].
  - split; try done. intros _. simpl. by rewrite Hp.
  - apply (range_known config s Hwf).
  - destruct Hwf. split; try done; simpl.
    by apply (reachable_step _ _ _ WorkerPool.AStart _ wf_pool0).
Qed.

Lemma Shutdown_wf config acts s s' :
  Shutdown acts s = Next s' → well_formed config s → well_formed config s'.
Proof.
  unfold Shutdown. intros E Hwf. destruct (s_running s); [|by injection E as <-]. cbn [negb] in E.
  destruct (stop_tickers _ s) as [|s1|m] eqn:Et; simplify_eq/=.
  apply (stop_tickers_wf config) in Et as []; [|done].
  unfold pool_Stop in E. destruct (is_stop_run acts); [|done]. simpl in E.
  destruct (exec _ _ acts) as [|p|m] eqn:Ep; simplify_eq/=.
  destruct (Reaper.stopClosed (s_reaper s1)); simplify_eq/=.
  split; try done. simpl. by eapply reachable_exec.
Qed.

Lemma swap_tickers_wf config job u s s' :
  swap_tickers job u s = Next s' → well_formed config s → well_formed config s'.
Proof.
  unfold swap_tickers. intros E Hwf. destruct (ju_NewTicker u) as [new|]; [|by injection E as <-].
  assert (Hlast : ∀ s1, (if schedulable job && s_running s then call_ticker new LStart s1 else Next s1) = Next s' →
    well_formed config s1 → well_formed config s').
  { intros s1 E1 Hwf1. destruct (_ && _); [by eapply call_ticker_wf|by injection E1 as <-]. }
  destruct (s_tickers s !! j_Ticker job); [|by apply (Hlast s)].
  destruct (call_ticker (j_Ticker job) LStop s) as [|s1|m] eqn:E1; simplify_eq/=.
  eapply Hlast; [exact E|]. by eapply call_ticker_wf.
Qed.

Lemma set_jobs_wf config id job s :
  j_ID job = id → well_formed config s → well_formed config (set_jobs (<[id := job]> (s_jobs s)) s).
Proof.
  intros Hid []. split; try done; simpl.
  - intros i j. rewrite lookup_insert_Some. intros [[<- <-]|[_ Hl]]; [done|by eapply wf_keys0].
  - intros i pc Hin. apply lookup_insert_is_Some'. right. by eapply wf_watchers0.
Qed.

Lemma RegisterJob_wf config job s :
  well_formed config s → leaves (λ x, well_formed config x.1) (RegisterJob (S:=S) (M:=M) job s).
Proof.
  intros Hwf. unfold RegisterJob. destruct (s_jobs s !! j_ID job); [done|].
  apply leaves_skip. intros [u|e]; [|done]. by apply set_jobs_wf.
Qed.
Lemma Start_wf config s :
  well_formed config s → leaves (λ x, well_formed config x.1) (Start Local submit s).
Proof.
  intros Hwf. unfold Start. destruct (s_running s); [done|].
  apply leaves_skip. intros [u|e]; [|done]. apply leaves_call. intros s' E. by eapply start_machinery_wf.
Qed.
Lemma UpdateJob_wf config u s :
  well_formed config s → leaves (λ x, well_formed config x.1) (UpdateJob (S:=S) (M:=M) u s).
Proof.
  intros Hwf. unfold UpdateJob. destruct (s_jobs s !! ju_JobID u) as [job|] eqn:Ej; [|done].
  destruct (negb _); [done|]. apply leaves_skip. intros [v|e]; [|done]. apply leaves_call. intros s1 E.
  apply set_jobs_wf; [|by eapply swap_tickers_wf]. exact (wf_keys _ _ Hwf _ _ Ej).
Qed.

(** *** Watchers *)
Lemma set_watcher_wf config i id pc pc' s :
  s_watchers s !! i = Some (id, pc) → well_formed config s → well_formed config (set_watcher i id pc' s).
Proof.
  intros Hi []. split; try done; simpl. intros id' p' Hin.
  apply list_elem_of_lookup in Hin as [k Hk]. apply list_lookup_insert_Some in Hk as [(_ & [= <- <-] & _)|[_ Hk]].
  - eapply wf_watchers0. by eapply list_elem_of_lookup_2.
  - eapply wf_watchers0. by eapply list_elem_of_lookup_2.
Qed.
Lemma watchJob_wf config s a s' p :
  watchJob submit s a = Next (s', p) → well_formed config s → well_formed config s'.
Proof.
  intros E Hwf. destruct a as [i|i|i]; simpl in E;
    destruct (s_watchers s !! i) as [[id [|ref|]]|] eqn:Hi; try done.
  - destruct (s_jobs s !! id); [|done]. destruct (s_tickers s !! _); [|done].
    injection E as <- <-. by eapply set_watcher_wf.
  - destruct (s_cancelled s); [|done]. injection E as <- <-. by eapply set_watcher_wf.
  - destruct (s_jobs s !! id) as [job|]; [|done]. destruct (s_tickers s !! ref) as [l|]; [|done].
    destruct (ch _) as [|x q]; [done|].
    destruct (call_ticker ref LConsume s) as [|s1|m] eqn:E1; simplify_eq/=.
    pose proof (call_ticker_jobs _ _ _ _ E1) as (_ & Hw & _). rewrite <- Hw in Hi.
    eapply set_watcher_wf; [exact Hi|]. by eapply call_ticker_wf.
Qed.

(** *** Every step *)
Lemma called_on_wf config (p : Prog S M (Scheduler T * Result unit)) w n' :
  leaves (λ x, well_formed config x.1) p → called_on (run jitter coin p w) = Next n' →
  well_formed config n'.2.
Proof.
  intros Hp E. destruct (run jitter coin p w) as [w' [[s' r]|m]] eqn:Er; [|done].
  injection E as <-. by apply (run_leaves _ _ _ _ _ _ _ Hp Er).
Qed.
Lemma node_step_wf config n e n' :
  well_formed config n.2 → node_step n e = Next n' → well_formed config n'.2.
Proof.
  destruct n as [w s]. intros Hwf E. destruct e; cbn [node_step snd] in *.
  - by eapply called_on_wf; [apply RegisterJob_wf|].
  - by eapply called_on_wf; [apply Start_wf|].
  - by eapply called_on_wf; [apply UpdateJob_wf|].
  - destruct (Shutdown acts s) eqn:Es; simplify_eq/=. by eapply Shutdown_wf.
  - destruct (watchJob submit s a) as [|[s' p]|m] eqn:Ew; simplify_eq/=.
    destruct (run jitter coin p w) as [w' [u|m]]; simplify_eq/=. by eapply watchJob_wf.
  - destruct (call_ticker ref a s) eqn:Et; simplify_eq/=. by eapply call_ticker_wf.
  - destruct (pool_env a) eqn:Ea; [|done].
    destruct (WorkerPool.step (s_pool s) a) as [|p|m] eqn:Ep; simplify_eq/=.
    destruct Hwf. split; try done; simpl; [by eapply reachable_step|].
    intros Hr. rewrite (pool_env_started _ _ _ Ea Ep). auto.
  - assert (Hr : ∃ w' r, n' = (w', set_reaper r s)).
    { destruct a; try done; try (destruct (s_cancelled s); [|done]);
        destruct (Reaper.step _ _) as [|r|m]; try done; unfold then_step in E; try (injection E as <-; by exists w, r).
      destruct (run jitter coin reapStaleJobs w) as [w' [[]|m]]; [|done]. injection E as <-. by exists w', r. }
    destruct Hr as (w' & r & ->). destruct Hwf. by split.
  - destruct (t <? w_time w); [done|]. by injection E as <-.
Qed.

Definition initial (config : SchedulerConfig) (tickers : gmap TickerRef (loop_state T)) w : Node :=
  (w, NewScheduler config tickers).

(** C8: the invariant of a node.  Whatever the application calls (register,
    start, update, shut down), whatever the watchers, the tickers' loops, the
    pool's workers and the reaper do in between, and in any order: the map of
    jobs is keyed by the identifiers of the jobs in it; every watcher watches
    a registered job; no tick channel holds more than its capacity; the pool
    is one that [NewWorkerPool] of the configured size can become, so that no
    more than that many jobs (or 10) run in it at once and at most twice as
    many wait; and while the scheduler counts as running its pool is started. *)
Theorem node_well_formed config tickers w n :
  (∀ ref l, tickers !! ref = Some l → ch_ok l) →
  reachable node_step (initial config tickers w) n →
  let max := if MaxConcurrentJobs config <=? 0 then 10 else MaxConcurrentJobs config in
  well_formed config n.2 ∧
  Z.of_nat (length (WorkerPool.running (s_pool n.2))) ≤ max ∧
  WorkerPool.QueueLength (s_pool n.2) ≤ 2 * max.
Proof.
  intros Ht Hn max.
  assert (Hwf : well_formed config n.2).
  { revert Hn. apply (reachable_ind node_step (λ n, well_formed config n.2)).
    - split; simpl; [done|done|by intros ? ? ?%elem_of_nil|exact Ht|by exists []|done].
    - intros n1 e n2. apply node_step_wf. }
  split; [exact Hwf|]. destruct (WorkerPool.inv_reachable _ _ (wf_pool _ _ Hwf)) as [Hm Hq Ha _ _ _ _].
  unfold WorkerPool.capacity in Hq. simpl in Hm. fold max in Hm.
  pose proof (WorkerPool.running_le_alive (WorkerPool.workers (s_pool n.2))).
  unfold WorkerPool.running. lia.
Qed.
End Node.
