(* ===== verification/SchedulerExamples.v ===== *)
(** * Schedulers on concrete stores *)
From S2P Require Import Prelude GoTime GoContext Types Ids Job Metrics Pool Ticker ISO8601Ticker Storage Badger StorageSpec BadgerCorrect MemBadger Effects Logged OccStore Recovery RecoveryExamples Update UpdateExamples Scheduler Dispatch SchedulerCorrect Node.
Local Open Scope Z_scope.
Import ToyUuid MemBadger StoreExamples ISOExamples.
#[local] Existing Instances BadgerStorage.storage NoOpMetrics.collector ISO8601Ticker.ticker
  ISO8601Ticker.loop ISO8601Ticker.loop_laws.

(** Maps visited in one fixed order. *)
#[local] Program Instance in_key_order : MapRange := { range _ m := (map_to_list m).*2 }.
Next Obligation. done. Qed.

(** A node with one registered job that ticks every hour. *)
Definition hourly : loop_state ISO8601Ticker.t :=
  mkLoop (ISO8601Ticker.mk Hour (mkTime 0 UTC) 0 (mkTickerConfig None None EmptyString) UTC 0 None (newCtl 10)) [].
Definition node (name : string) (job : Job) : Scheduler ISO8601Ticker.t :=
  set_jobs {[ j_ID job := job ]}
    (NewScheduler (mkSchedulerConfig 2 Minute name) {[ 1%positive := hourly; 2%positive := hourly ]}).
Definition tick_at (t : Instant) : TickContext := mkTickContext (mkTime t UTC) (mkTime (t + 3) UTC) None.
Abbreviation W := (World (DB * list Submission) unit).
Definition at_time (db : DB) (t : Instant) : W := mkWorld (db, []) tt t 0 [].

(** *** Two nodes get the tick of 2:00, a third boots, a fourth scans. *)
Definition acts : list (activity (T:=ISO8601Ticker.t)) :=
  [Tick (node "a" nightly) nightly (tick_at (2 * Hour)); Tick (node "b" nightly) nightly (tick_at (2 * Hour));
   Boot (node "c" nightly); Scan].
Definition programs : list (Prog (DB * list Submission) unit unit) := program UTC <$> acts.
Definition db4 : DB := fst (do_create (EJob job1) db0).
Lemma repr_a4 : repr (<[slot_of (EJob job1) := EJob job1]> ∅) (contents db4).
Proof. exact (badger_create_state ∅ db0 (EJob job1) repr_empty ltac:(ids)). Qed.

(** The programs take turns until all have ended. *)
Fixpoint round_robin (fuel : nat) (i : nat) (s : turns (S:=DB * list Submission) (M:=unit))
  : list (nat * Instant) * turns :=
  match fuel with
  | O => ([], s)
  | Datatypes.S fuel' =>
      let a := (Nat.modulo i 4, 2 * Hour + 10) in
      match turn no_jitter heads s a with
      | Next s' => let '(l, e) := round_robin fuel' (Datatypes.S i) s' in (a :: l, e)
      | _ => round_robin fuel' (Datatypes.S i) s
      end
  end.
Definition start4 : turns := (at_time db4 (2 * Hour), programs).
Definition sched : list (nat * Instant) := fst (round_robin 100 0 start4).
Definition is_next {A} (r : StepResult A) : bool := match r with Next _ => true | _ => false end.
Definition next_or {A} (d : A) (r : StepResult A) : A := match r with Next x => x | _ => d end.
Lemma next_or_eq {A} (r : StepResult A) d : is_next r = true → r = Next (next_or d r).
Proof. by destruct r. Qed.
Definition final : turns := next_or start4 (exec (turn no_jitter heads) start4 sched).

Lemma occurrence_dispatched_once_witness :
  forallb is_ret (snd final) = true ∧
  submitted_times (snd (w_store (fst final))) = [2 * Hour; 1 * Hour] ∧
  exec (turn no_jitter heads) start4 sched = Next final ∧
  ∃ a db' l, w_store (fst final) = (db', l) ∧ repr a (contents db') ∧ NoDup (submitted l).
Proof.
  split; [vm_compute; reflexivity|]. split; [vm_compute; reflexivity|].
  assert (E : exec (turn no_jitter heads) start4 sched = Next final)
    by (apply (next_or_eq _ start4); vm_compute; reflexivity).
  split; [exact E|].
  assert (Hok : Forall activity_ok acts).
  { assert (Hn : job_id_ok (j_ID nightly)) by ids.
    constructor; [exact Hn|]. constructor; [exact Hn|]. constructor; [|by repeat constructor].
    intros i job Hi. change (({[ j_ID nightly := nightly ]} : gmap string Job) !! i = Some job) in Hi.
    apply lookup_singleton_Some in Hi as [_ <-]. exact Hn. }
  destruct (occurrence_dispatched_once no_jitter heads UTC acts sched _ db4 (at_time db4 (2 * Hour)) final
    eq_refl repr_a4 Hok E) as (a & db' & l & Hs & Hr & Hn & _).
  exists a, db', l. split_and!; [exact Hs|exact Hr|exact Hn].
Defined.

(** *** Triggers: [occ1] of the job is running. *)
Definition with_policy (p : OverlapPolicy) : Job :=
  mkJob "job-1" "nightly"
    (mkJobConfig TaskExecutionModeSequential FailureStrategyFailFast Hour p
       RecoveryStrategyExecuteAll None TaskConfig_zero) 1%positive [] 1 true false None None.
Definition trigger_run (p : OverlapPolicy) :=
  run no_jitter heads
    (handleJobTrigger (submit_logged (M:=unit)) (node "a" (with_policy p)) (with_policy p) (tick_at (2 * Hour)))
    (at_time db2 (2 * Hour)).

Lemma trigger_follows_policy_witness :
  let log p := submitted_times (snd (w_store (fst (trigger_run p)))) in
  log OverlapPolicySkip = [] ∧ log OverlapPolicyQueue = [2 * Hour] ∧ log OverlapPolicyAllow = [2 * Hour] ∧
  snd (trigger_run OverlapPolicySkip) = Done tt ∧
  ∃ a' db' l', w_store (fst (trigger_run OverlapPolicySkip)) = (db', l') ∧ repr a' (contents db') ∧
    (busy a2 (with_policy OverlapPolicySkip) → a' = a2 ∧ l' = []).
Proof.
  cbv zeta. split; [vm_compute; reflexivity|]. split; [vm_compute; reflexivity|].
  split; [vm_compute; reflexivity|].
  destruct (trigger_follows_policy no_jitter heads (node "a" (with_policy OverlapPolicySkip))
    (with_policy OverlapPolicySkip) (tick_at (2 * Hour)) a2 db2 [] (at_time db2 (2 * Hour))
    (fst (trigger_run OverlapPolicySkip)) (snd (trigger_run OverlapPolicySkip))
    healthy ltac:(ids) ltac:(in_range) ltac:(in_range) ltac:(in_range) eq_refl repr_a2
    (surjective_pairing _)) as (E & a' & db' & l' & Hs & Hr & Hskip & _).
  split; [exact E|]. exists a', db', l'. split; [exact Hs|]. split; [exact Hr|].
  intros Hb. apply Hskip. left. split; [reflexivity|exact Hb].
Defined.

(** *** Registration *)
Definition no_fn : TaskFunc := λ _ _ _, (None, 0).
Definition weekly : Job :=
  mkJob "job-2" "weekly" (j_Config nightly) 2%positive
    [mkTask "tk-01" "load" TaskConfig_zero 0 no_fn; mkTask "tk-02" "clean" TaskConfig_zero 1 no_fn]
    1 true false None None.
Definition empty_node : Scheduler ISO8601Ticker.t :=
  NewScheduler (mkSchedulerConfig 2 Minute "a") {[ 1%positive := hourly; 2%positive := hourly ]}.
Definition plain (db : DB) (t : Instant) : World DB unit := mkWorld db tt t 0 [].
Definition register (job : Job) := run no_jitter heads (RegisterJob (M:=unit) job empty_node) (plain db2 1000).

Lemma register_job_spec_witness :
  ∃ s' r a', snd (register weekly) = Done (s', r) ∧ repr a' (contents (w_store (fst (register weekly)))) ∧
    (is_ok r = true ↔ registrable a2 empty_node weekly) ∧
    (∀ x, x ∉ job_slots weekly ∨ is_Some (a2 !! x) → a' !! x = a2 !! x).
Proof.
  destruct (register_job_spec no_jitter heads weekly empty_node a2 (plain db2 1000)
    (fst (register weekly)) (snd (register weekly)) healthy ltac:(ids) ltac:(repeat constructor)
    ltac:(in_range) ltac:(in_range) repr_a2 (surjective_pairing _)) as (s' & r & a' & E & Hr & Hiff & Hf & _).
  exists s', r, a'. split_and!; [exact E|exact Hr|exact Hiff|exact Hf].
Defined.

Definition verdict {T} (o : Outcome (Scheduler T * Result unit)) : option (list string * Result unit) :=
  match o with Done (s, r) => Some ((map_to_list (s_jobs s)).*1, r) | Crash _ => None end.
Lemma register_ok : verdict (snd (register weekly)) = Some (["job-2"], Ok tt).
Proof. vm_compute. reflexivity. Qed.
(** After a restart the job is in the store but not in memory: registering it
    again is an error, so a persisted job cannot be taken up again. *)
Lemma register_after_restart :
  verdict (snd (run no_jitter heads (RegisterJob (M:=unit) weekly empty_node) (fst (register weekly)))) =
    Some ([], Err "job already exists: job-2").
Proof. vm_compute. reflexivity. Qed.

(** *** Updates through the scheduler *)
Definition update_run (u : JobUpdate) (w : World DB unit) :=
  run no_jitter heads (UpdateJob (M:=unit) u (node "a" nightly)) w.
Definition versions {T} (i : string) (r : World DB unit * Outcome (Scheduler T * Result unit))
  : option Z * option Z * option (Result unit) :=
  (stored_v (w_store (fst r)),
   match snd r with Done (s, _) => j_Version <$> s_jobs s !! i | Crash _ => None end,
   match snd r with Done (_, r) => Some r | Crash _ => None end).

Lemma update_job_versions_witness :
  versions "job-1" (update_run windowed w3) = (Some 2, Some 2, Some (Ok tt)) ∧
  snd (update_run stale w3) = Done (node "a" nightly, Err "version mismatch: expected 7, got 1").
Proof.
  split; [vm_compute; reflexivity|].
  pose proof (update_job_versions no_jitter heads stale (node "a" nightly) a3 w3 healthy ltac:(ids)
    ltac:(constructor) repr_a3) as HS. cbv zeta in HS. fold (update_run stale w3) in HS.
  rewrite (surjective_pairing (update_run stale w3)) in HS.
  destruct HS as (a' & _ & HS). exact (proj2 HS).
Defined.

(** An update that fails half way leaves the stored version ahead of the one in
    memory; from then on even a correct update is refused. *)
Lemma versions_stay_apart :
  versions "job-1" (update_run bad w3) =
    (Some 2, Some 1, Some (Err "failed to apply update: failed to remove task missing: task not found: missing")) ∧
  versions "job-1" (update_run windowed (fst (update_run bad w3))) =
    (Some 2, Some 1, Some (Err "failed to apply update: version mismatch: expected 1, got 2")).
Proof. split; vm_compute; reflexivity. Qed.

(** A watcher that waits keeps listening to the ticker that was replaced. *)
Lemma watcher_keeps_old_ticker :
  let s := set_watchers [("job-1", WSelect 1%positive)] (set_running true (node "a" nightly)) in
  match run no_jitter heads (UpdateJob (M:=unit) windowed s) w3 with
  | (_, Done (s', Ok _)) =>
      j_Ticker <$> s_jobs s' !! "job-1" = Some 2%positive ∧ s_watchers s' = [("job-1", WSelect 1%positive)]
  | _ => False
  end.
Proof. vm_compute. split; reflexivity. Qed.

(** *** Starting and shutting down *)
Definition start_run (s : Scheduler ISO8601Ticker.t) (t : Instant) :=
  run no_jitter heads (Start UTC (submit_logged (M:=unit)) s) (at_time db4 t).
Definition done_or {A} (d : A) (o : Outcome A) : A := match o with Done x => x | Crash _ => d end.
Definition is_done {A} (o : Outcome A) : bool := match o with Done _ => true | Crash _ => false end.
Lemma done_or_eq {A B} (o : Outcome (A * B)) d :
  is_done o = true → o = Done (fst (done_or d o), snd (done_or d o)).
Proof. by destruct o as [[]|]. Qed.
Definition started : Scheduler ISO8601Ticker.t * Result unit :=
  done_or (empty_node, Ok tt) (snd (start_run (node "a" nightly) (2 * Hour))).

Lemma start_outcomes_witness :
  snd (start_run (node "a" nightly) (2 * Hour)) = Done (fst started, snd started) ∧
  snd started = Ok tt ∧
  s_watchers (fst started) = [("job-1", WAtTop)] ∧ s_running (fst started) = true ∧
  WorkerPool.started (s_pool (fst started)) = true.
Proof.
  assert (D : is_done (snd (start_run (node "a" nightly) (2 * Hour))) = true) by (vm_compute; reflexivity).
  pose proof (done_or_eq _ (empty_node, Ok tt) D) as E. fold started in E.
  split; [exact E|].
  assert (R : snd started = Ok tt) by (vm_compute; reflexivity). split; [exact R|].
  pose proof (start_outcomes no_jitter heads UTC (submit_logged (M:=unit)) (node "a" nightly)
    (at_time db4 (2 * Hour)) (fst (start_run (node "a" nightly) (2 * Hour))) (fst started) (snd started)) as HS.
  rewrite R in HS, E. rewrite <- E in HS.
  destruct (HS (surjective_pairing _)) as (_ & _ & Hrun & _ & Hw & _ & Hp & _).
  split; [|split; [exact Hrun|exact Hp]]. rewrite Hw. vm_compute. reflexivity.
Defined.

Definition pool_stop : list (WorkerPool.action (Job * JobOccurrence)) :=
  [WorkerPool.AStopLock; WorkerPool.AStopCloseStop; WorkerPool.AStopCloseQueue;
   WorkerPool.AExitStop 0; WorkerPool.AExitStop 1; WorkerPool.AStopReturn].
Definition stopped : Scheduler ISO8601Ticker.t := next_or empty_node (Shutdown pool_stop (fst started)).


(** A schedule that began more than ten thousand intervals ago makes [Start]
    fail, although only a day is to be recovered. *)
Lemma old_schedule_blocks_start :
  match snd (start_run (node "a" nightly) (20000 * Hour)) with
  | Done (s, Err e) => s_running s = false ∧ String.prefix "recovery failed: " e = true
  | _ => False
  end.
Proof. vm_compute. split; reflexivity. Qed.

(** *** A node at work: a job is registered, started and ticks; the pool runs it. *)
Definition submission : Job * JobOccurrence := (weekly, new_occurrence weekly (mkTime 0 UTC) 0 0).
Definition events : list event :=
  [ERegisterJob weekly; EStart; EWatcher (WEnter 0); ETicker 2%positive (LTop 0 (2 * Hour + 5));
   EClock (3 * Hour); ETicker 2%positive (LTimer 0 (3 * Hour) (3 * Hour)); EWatcher (WReceive 0);
   EPool (WorkerPool.ASubmit submission); EPool (WorkerPool.AEnqueue 0); EPool (WorkerPool.ATake 1);
   EReaper Reaper.Begin; EReaper Reaper.Tick].
Definition node0 : Node (S:=DB * list Submission) (M:=unit) := (at_time db0 (2 * Hour), empty_node).
Definition node_at_work : Node :=
  next_or node0 (exec (node_step no_jitter heads UTC (submit_logged (M:=unit))) node0 events).

Lemma node_well_formed_witness :
  submitted_times (snd (w_store (fst node_at_work))) = [1 * Hour; 2 * Hour; 0] ∧
  WorkerPool.running (s_pool (snd node_at_work)) = [submission] ∧
  well_formed (mkSchedulerConfig 2 Minute "a") (snd node_at_work).
Proof.
  split; [vm_compute; reflexivity|]. split; [vm_compute; reflexivity|].
  assert (E : exec (node_step no_jitter heads UTC (submit_logged (M:=unit))) node0 events = Next node_at_work)
    by (apply (next_or_eq _ node0); vm_compute; reflexivity).
  assert (Ht : ∀ ref l, ({[ 1%positive := hourly; 2%positive := hourly ]} : gmap TickerRef (loop_state ISO8601Ticker.t)) !! ref = Some l → ch_ok l).
  { intros ref l Hl. apply lookup_insert_Some in Hl as [[_ <-]|[_ Hl]]; [|apply lookup_singleton_Some in Hl as [_ <-]];
      unfold ch_ok; simpl; lia. }
  exact (proj1 (node_well_formed no_jitter heads UTC (submit_logged (M:=unit)) (mkSchedulerConfig 2 Minute "a")
    {[ 1%positive := hourly; 2%positive := hourly ]} (at_time db0 (2 * Hour)) node_at_work Ht (ex_intro _ events E))).
Defined.

(** *** Gauges *)
Section GaugeExample.
#[local] Existing Instance InMemoryMetrics.collector.
Definition paused_job : Job :=
  mkJob "job-1" "nightly" (j_Config nightly) 1%positive [] 1 true true None None.
Definition gauge_run :=
  run no_jitter heads (updateMetrics (node "a" paused_job)) (mkWorld db2 InMemoryMetrics.New 5 0 []).
Lemma gauges_exact_witness :
  snd gauge_run = Done tt ∧
  GetJobsRunning (w_metrics (fst gauge_run)) = 1 ∧ GetJobsInQueue (w_metrics (fst gauge_run)) = 0 ∧
  GetJobsPaused (w_metrics (fst gauge_run)) = 1.
Proof.
  destruct (gauges_exact no_jitter heads (node "a" paused_job) a2 (mkWorld db2 InMemoryMetrics.New 5 0 [])
    (fst gauge_run) (snd gauge_run) healthy repr_a2 (surjective_pairing _)) as (E & _ & _ & Hq & Hp & _).
  split; [exact E|]. split; [vm_compute; reflexivity|]. split; [exact Hq|].
  rewrite Hp. vm_compute. reflexivity.
Defined.
End GaugeExample.
